(* ===== verification/_CoqProject ===== *)
-Q . S2P
Prelude.v
Utils.v
Sha256.v
StreamHash.v
Sha256Spec.v
Rsa.v
RsaSpec.v
MclBig.v
MclBigSpec.v
MclMul.v
MclFF.v
MclFFSpec.v
MclOctet.v
MclMod.v
MclModSpec.v
MclInv.v
Aes.v
AesSpec.v
Gcm.v
GcmSpec.v
GcmRun.v
MclHash.v
MclHashSpec.v
Machine.v
Chip.v
Sim.v
Errors.v
Crypto.v
Loading.v
Efuse.v
EfuseSpec.v
Unipro.v
Dme.v
FakeSvc.v
Tftf.v
TftfValid.v
TftfLoad.v
TftfRsa.v
Spi.v
Greybus.v
GreybusLoad.v
GreybusSim.v
SpiMaster.v
SpiDuplex.v
SpiGb.v
Ffff.v
Wire.v
FfffValid.v
FfffLocate.v
SpiFlash.v
Es2.v
Bootrom.v
Debug.v
Standby.v
Server.v
ServerFlash.v
GreybusPeer.v
Bridge.v
BootInv.v
BootSafe.v
Example.v
BootSim.v
