(* ===== verification/Prelude.v ===== *)
(** * The Ara bridge boot ROM: a verification library

    The program is the boot software of the Toshiba ES3 bridge: a mask ROM
    (stage 1, apps/bootrom) and a loader (stage 2, apps/secondstage).  A stage
    sets up clocks and UniPro, validates the e-fuses, finds a firmware element in
    SPI flash (FFFF format) or downloads one over Greybus, loads and checks it
    (TFTF format, SHA-256, RSA-2048), and jumps to it or halts.

    ** Model

    A function of the firmware is a computation [B A] on the [machine]: it
    returns ([Done]), ends in the halt loop ([Halted]), jumps to an image
    ([Jumped]), waits for hardware beyond the given fuel ([Spin]), or accesses
    memory outside the object it addresses ([Fault]).  The machine has one field
    per group of C statics.  Unsigned integers are [Z] with explicit wrap-around.
    Devices are a parameter (class [Hardware]: register reads and writes on an
    abstract device state), so theorems about the code hold for arbitrary device
    behaviour unless they name a device.  Linker symbols, key tables and build
    options are the class [Platform].

    The modelled build is ES3 without the debug, simulation and no-crypto options:
    its components print nothing, and the handshake with a test bench is a module
    of its own.  What differs on ES2 is in Es2.  [boot_stage] selects the stage.

    ** Files

    - Prelude: words, byte lists, the boot monad, frame conditions ([pres]) and
      their automation.
    - Utils: common/src/utils.c.
    - StreamHash: a hash that takes its message byte by byte, of either word
      width, computes the padded block-by-block definition (classes [Stream] and
      [StreamLaws]); the hash files are its instances.
    - Sha256, Sha256Spec: SHA-256 of common/vendors/MIRACL/bootrom.c and its
      reference definition; Rsa, RsaSpec: RSA verification of the same file and
      its meaning in the integers.
    - MclBig, MclBigSpec, MclMul: single numbers of the MIRACL library
      (mcl_big.c), the integers they stand for, and the column-wise product.
      MclMod, MclModSpec, MclInv: division, squares, modular arithmetic, inverses
      and the Jacobi symbol of the same file (class [WidthOk]).
    - MclFF, MclFFSpec, MclOctet: arrays of such numbers (mcl_ff.c), the Karatsuba
      multiplication on a store of rows, and the conversion to octets.
    - Aes, AesSpec: the block cipher of the same library (mcl_aes.c) and FIPS 197.
      Gcm, GcmSpec, GcmRun: its authenticated encryption (mcl_gcm.c), the field
      and the mode of NIST SP 800-38D, and runs from initialisation to tag.
      MclHash, MclHashSpec: its hashes (mcl_hash.c) and FIPS 180-4.
    - Machine: statics, memory objects, registers, the [data_load_ops] table.
    - Chip: tsb_scm.c, tsb_isaa.c, tsb_gpio.c, the load-location check, DME
      attribute access, second stage configuration data.
    - Sim: a simulated chip for concrete runs.
    - Errors: common/src/error.c and es3_advertise.c.
    - Crypto: common/src/crypto.c.
    - Loading: the contract between storage drivers and image loader, as classes
      [LoadOk] and [ReadOk].
    - Efuse, EfuseSpec: es3_efuse.c, epuid.c and key derivation of
      secret_keys.c.
    - Unipro: tsb_unipro.c, es3_unipro.c and ara_mailbox.c.  Dme: the store of
      attributes behind the access registers (class [DmeController]).
    - FakeSvc, Server: the download server, apps/gbboot_server (fake_svc.c and
      start.c).  Wire: what a Greybus message puts into the transmit buffer
      (class [Wire]).  ServerFlash: what the server sends.  GreybusPeer: what the
      boot ROM's driver gets from a peer that answers (class [BootPeer]).
      Bridge: the boot ROM with the server as its peer.
    - Tftf, TftfValid, TftfLoad, TftfRsa: common/src/tftf.c, its header checks
      against a declarative well-formedness, what a successful load means, and
      what that is in terms of RSA and SHA-256.
    - Spi, SpiFlash: es3_spi.c, and what it delivers when the controller has a
      flash chip (class [FlashController]); Greybus, GreybusLoad, GreybusSim:
      gbcore.c and gbboot.c.  Es2: the ES2 chip, whose flash is in memory.  All
      three drivers are instances of [LoadOk].
    - SpiMaster, SpiGb: es3_spi_master.c, device_spi.h and spi-gb.c.  SpiDuplex:
      the exchange loop against a controller with two finite FIFOs.
    - Ffff, FfffValid, FfffLocate: common/src/ffff.c, its checks against a
      declarative well-formedness, and the search on flash.
    - Bootrom: both [bootrom_main] functions, [chip_init], [boot_control].
      BootInv: every operation of the boot path keeps memory well formed and
      does not jump; BootSafe: how boots end.
    - Debug: debug.c and tsb_dbguart.c (class [Uart]).  Standby: hibernation and
      wake-up (es3_workram_standby.c), the test handshake of tsb_chipapi.c.
    - Example, BootSim: a signed image, and whole boots on the simulated chip.

    ** What is shown

    - Whole boots: with the trusted-only fuse a stage jumps only into an image
      whose loaded header and sections a loaded signature block signs; secrets
      are locked before an untrusted image runs; memory stays well formed
      whatever the devices do; a stage never returns; fallback starts from a
      cleared image area.
    - Images: the header check decides well-formedness; accepted sections are
      apart and stay in the RAM left to images; an image flagged secure starts
      with the sentinel, is signed by one of its own signature sections, and is
      in memory as signed ([TftfLoad.signed_load]).
    - Hashing and signatures: byte-wise SHA-256 equals the reference definition,
      and so do the four hashes of the MIRACL library on any context;
      RSA verification decides the PKCS#1 v1.5 equation for every full-size key.
    - Big numbers: the Karatsuba multiplication on words with spare bits returns
      the product, its carries never overflow, and octets convert both ways;
      division, modular products and the binary inversion end with the value they
      promise.  The block cipher is that of FIPS 197, and every mode of operation
      decrypts what it encrypted; text and tag of the authenticated encryption
      are those of the standard, in whatever pieces the data arrives.
    - The bridged SPI master loses no byte for any timing of the bus, if its
      receive FIFO is the deeper one.
    - Storage: the drivers keep the loading contract for any device behaviour;
      the element search finds the newest valid element, and with a flash chip
      a load after it returns that element's bytes; an ES2 load copies the
      mapped flash.
    - Debug: the digits printed for a number read back as the number.
    - Download: attribute accesses are updates and lookups of a store, a
      connection leaves both ends pointing at each other, the server's payloads
      are the bytes of the newest element on its flash, and the boot ROM
      connected to it ends with those bytes in memory ([download_end_to_end]:
      the two programs are composed, each with its own machine, by a line that
      hands a message over when its end is written).
    - Errors: one code per zone, the first one sticks; halting is terminal and
      its recursion is one level deep.
    - Fuses: bit counting equals the population count; accepted identifiers have
      the Hamming weight of the design; derived keys are the nested hashes of the
      secret and the RSA modulus the product of its two factors.
    - Where the code does less than it means to, a theorem or a computed example
      shows what it does (bad sentinels, wrapped ranges, stale Greybus responses,
      short SPI loads, acknowledged SPI errors, buffer spaces of a connection, the
      context a finished SHA-384 leaves).

    ** Bounds and fuel

    Polling loops run on [poll_fuel] of the platform, an arbitrary number:
    theorems about results hold for every value, and theorems that promise a
    result say how much is enough.  Loops over tables run on the number of slots
    that fit the largest header, and are shown not to run out where a result is
    promised; loops over data run on the data's length.  The recursion of the
    Karatsuba multiplication runs on the number of rows, which exceeds its depth;
    division runs on the bits of a double-length number, the inversion on twice as
    many rounds.

    ** Not modelled

    Assembly (start-up, register save for standby); the mailbox interrupt of ES2;
    elliptic curves, random numbers, RSA signing, key exchange and certificates of
    the MIRACL library (the boot stages only verify); the applications that test the
    hardware; the test builds and message dumps of the download server.  Stack
    depth and timing.

    Static objects and RAM at absolute addresses are separate.  To keep that
    true the platform names the RAM that holds no object of the program
    ([ram_lo .. ram_hi): for a boot stage work RAM up to its own data), and an
    access at an absolute address outside of it is a [Fault], so that a load over
    a static object, which the wrap-around of the load-location check and a bad
    sentinel make possible, ends the run of the model instead of being computed
    wrongly.  Theorems about runs that return, jump or succeed are about the
    others; [TftfValid.valid_sections_in_ram] shows that the sections of an
    accepted header whose ranges do not wrap are among them. *)

From stdpp Require Export base tactics numbers list list_numbers gmap.
From Stdlib Require Export ZArith Lia.

#[global] Open Scope Z_scope.

(** ** Machine integers

    A C unsigned integer of width [w] is a [Z] in [[0, 2^w)]; every operation
    that can leave the range is wrapped explicitly. *)
Definition u8 (x : Z) : Z := Z.land x 0xFF.
Definition u16 (x : Z) : Z := Z.land x 0xFFFF.
Definition u32 (x : Z) : Z := Z.land x 0xFFFFFFFF.
Definition u64 (x : Z) : Z := Z.land x 0xFFFFFFFFFFFFFFFF.

Declare Scope word_scope.
Delimit Scope word_scope with word.
Notation "x +₃₂ y" := (u32 (x + y)) (at level 50, left associativity) : word_scope.
Notation "x -₃₂ y" := (u32 (x - y)) (at level 50, left associativity) : word_scope.
Notation "x <<₃₂ n" := (u32 (Z.shiftl x n)) (at level 40, left associativity) : word_scope.
Notation "~₃₂ x" := (u32 (Z.lnot x)) (at level 35, right associativity) : word_scope.
#[global] Open Scope word_scope.

Definition is_u8 (x : Z) : Prop := 0 <= x < 2 ^ 8.
Definition is_u32 (x : Z) : Prop := 0 <= x < 2 ^ 32.

Lemma u8_mod x : u8 x = x mod 2 ^ 8.
Proof. apply (Z.land_ones x 8). lia. Qed.
Lemma u16_mod x : u16 x = x mod 2 ^ 16.
Proof. apply (Z.land_ones x 16). lia. Qed.
Lemma u32_mod x : u32 x = x mod 2 ^ 32.
Proof. apply (Z.land_ones x 32). lia. Qed.
Lemma u64_mod x : u64 x = x mod 2 ^ 64.
Proof. apply (Z.land_ones x 64). lia. Qed.

Lemma u32_range x : is_u32 (u32 x).
Proof. rewrite u32_mod. apply Z.mod_pos_bound. lia. Qed.

Lemma u8_range x : is_u8 (u8 x).
Proof. rewrite u8_mod. apply Z.mod_pos_bound. lia. Qed.

Lemma u32_small x : is_u32 x -> u32 x = x.
Proof. rewrite u32_mod. apply Z.mod_small. Qed.

Lemma u8_small x : is_u8 x -> u8 x = x.
Proof. rewrite u8_mod. apply Z.mod_small. Qed.

Lemma u32_idemp x : u32 (u32 x) = u32 x.
Proof. apply u32_small, u32_range. Qed.

Lemma is_u8_u32 x : is_u8 x -> is_u32 x.
Proof. unfold is_u8, is_u32. lia. Qed.

(** Unfold the wrapped operations so that [lia] sees the arithmetic. *)
Ltac word_lia :=
  unfold is_u8, is_u32 in *;
  try rewrite !u8_mod in *; try rewrite !u16_mod in *;
  try rewrite !u32_mod in *; try rewrite !u64_mod in *;
  repeat match goal with
         | H : context [2 ^ 8] |- _ => change (2 ^ 8) with 256 in H
         | H : context [2 ^ 16] |- _ => change (2 ^ 16) with 65536 in H
         | H : context [2 ^ 32] |- _ => change (2 ^ 32) with 4294967296 in H
         end;
  change (2 ^ 8) with 256; change (2 ^ 16) with 65536;
  change (2 ^ 32) with 4294967296; change (2 ^ 64) with 18446744073709551616;
  Z.div_mod_to_equations; lia.

Create HintDb words.
#[export] Hint Resolve u32_range u8_range u32_small u8_small is_u8_u32 : words.

(** Bits of a wrapped word. *)
Lemma u32_land_ones x : u32 x = Z.land x (Z.ones 32).
Proof. reflexivity. Qed.

Lemma u32_testbit_low x i : 0 <= i < 32 -> Z.testbit (u32 x) i = Z.testbit x i.
Proof. intros. rewrite u32_mod. apply Z.mod_pow2_bits_low. lia. Qed.

Lemma is_u32_testbit_high x i : is_u32 x -> 32 <= i -> Z.testbit x i = false.
Proof.
  intros Hx Hi. rewrite <- (u32_small x Hx), u32_mod. apply Z.mod_pow2_bits_high. lia.
Qed.

Lemma is_u32_bits x :
  0 <= x -> (forall i, 32 <= i -> Z.testbit x i = false) -> is_u32 x.
Proof.
  intros H0 Hb. enough (u32 x = x) as <- by apply u32_range.
  apply Z.bits_inj'. intros i Hi. destruct (Z.lt_ge_cases i 32).
  - apply u32_testbit_low. lia.
  - rewrite Hb, u32_mod by lia. apply Z.mod_pow2_bits_high. lia.
Qed.

Lemma land_is_u32_l x y : is_u32 x -> 0 <= y -> is_u32 (Z.land x y).
Proof.
  intros Hx Hy. apply is_u32_bits.
  - apply Z.land_nonneg. lia.
  - intros i Hi. rewrite Z.land_spec, (is_u32_testbit_high x i) by done. done.
Qed.

Lemma lor_is_u32 x y : is_u32 x -> is_u32 y -> is_u32 (Z.lor x y).
Proof.
  intros Hx Hy. apply is_u32_bits.
  - apply Z.lor_nonneg. split; [apply Hx | apply Hy].
  - intros i Hi. rewrite Z.lor_spec, !is_u32_testbit_high by done. done.
Qed.

Lemma lxor_is_u32 x y : is_u32 x -> is_u32 y -> is_u32 (Z.lxor x y).
Proof.
  intros Hx Hy. apply is_u32_bits.
  - apply Z.lxor_nonneg. split; intros _; [apply Hy | apply Hx].
  - intros i Hi. rewrite Z.lxor_spec, !is_u32_testbit_high by done. done.
Qed.
#[export] Hint Resolve land_is_u32_l lor_is_u32 lxor_is_u32 : words.

(** Joining two parts that do not overlap. *)
Lemma lor_join x y n : 0 <= n -> 0 <= y < 2 ^ n -> Z.lor (x * 2 ^ n) y = x * 2 ^ n + y.
Proof.
  intros Hn Hy. assert (Z.land (x * 2 ^ n) y = 0) as E.
  { apply Z.bits_inj'. intros i Hi. rewrite Z.land_spec, Z.bits_0.
    destruct (Z.lt_ge_cases i n) as [Hlt|Hge]; [by rewrite Z.mul_pow2_bits_low|].
    rewrite <- (Z.mod_small y (2 ^ n)), Z.mod_pow2_bits_high by lia. apply andb_false_r. }
  by rewrite <- Z.lxor_lor, <- Z.add_nocarry_lxor.
Qed.

(** Bitwise goals, bit by bit. *)
Ltac bits_eq :=
  apply Z.bits_inj'; intros ?i ?Hi;
  repeat first
    [ rewrite Z.land_spec | rewrite Z.lor_spec | rewrite Z.lxor_spec
    | rewrite Z.lnot_spec by lia ].

(** ** Bytes

    A byte buffer is a [list Z] of [u8] values. *)
Abbreviation bytes_ok := (Forall is_u8).

(** [le_combine bs]: the little-endian integer the bytes [bs] spell. *)
Fixpoint le_combine (bs : list Z) : Z :=
  match bs with
  | [] => 0
  | b :: bs => b + 2 ^ 8 * le_combine bs
  end.

(** [le_split n x]: the [n] low bytes of [x], least significant first. *)
Fixpoint le_split (n : nat) (x : Z) : list Z :=
  match n with
  | O => []
  | S n => u8 x :: le_split n (x / 2 ^ 8)
  end.

Lemma length_le_split n x : length (le_split n x) = n.
Proof. revert x. induction n; intros; simpl; auto. Qed.

Lemma le_split_bytes n x : bytes_ok (le_split n x).
Proof. revert x. induction n; intros; simpl; constructor; [auto with words | apply IHn]. Qed.

Lemma le_combine_split n x :
  le_combine (le_split n x) = x mod 2 ^ (8 * Z.of_nat n).
Proof.
  revert x. induction n as [|n IH]; intros x; cbn [le_split le_combine].
  - by rewrite Z.mod_1_r.
  - rewrite IH, u8_mod.
    replace (8 * Z.of_nat (S n)) with (8 + 8 * Z.of_nat n) by lia.
    rewrite Z.pow_add_r, Z.rem_mul_r by lia. done.
Qed.

Lemma le_combine_bound bs :
  bytes_ok bs -> 0 <= le_combine bs < 2 ^ (8 * Z.of_nat (length bs)).
Proof.
  induction 1 as [|b bs Hb _ IH]; cbn [le_combine length]; [lia|].
  replace (8 * Z.of_nat (S (length bs))) with (8 + 8 * Z.of_nat (length bs)) by lia.
  rewrite Z.pow_add_r by lia. unfold is_u8 in Hb. nia.
Qed.

Lemma le_split_combine bs :
  bytes_ok bs -> le_split (length bs) (le_combine bs) = bs.
Proof.
  induction 1 as [|b bs Hb _ IH]; cbn [le_combine length le_split]; [done|].
  rewrite u8_mod, (Z.mul_comm (2 ^ 8)), Z_mod_plus_full, Z.div_add by lia.
  rewrite Z.mod_small, Z.div_small by apply Hb.
  by rewrite Z.add_0_l, IH.
Qed.

(** [n] bytes, most significant first. *)
Definition bytes_be (n : nat) (x : Z) : list Z := reverse (le_split n x).

Lemma length_bytes_be n x : length (bytes_be n x) = n.
Proof. unfold bytes_be. by rewrite length_reverse, length_le_split. Qed.

Lemma bytes_be_ok n x : bytes_ok (bytes_be n x).
Proof. apply Forall_reverse, le_split_bytes. Qed.

(** ** Buffers: reads and overwrites at a byte offset *)
Definition sub (b : list Z) (off n : Z) : list Z :=
  take (Z.to_nat n) (drop (Z.to_nat off) b).

Definition get8 (b : list Z) (off : Z) : Z := default 0 (b !! Z.to_nat off).
Definition get16 (b : list Z) (off : Z) : Z := le_combine (sub b off 2).
Definition get32 (b : list Z) (off : Z) : Z := le_combine (sub b off 4).

Definition splice (b : list Z) (off : Z) (bs : list Z) : list Z :=
  take (Z.to_nat off) b ++ bs ++ drop (Z.to_nat off + length bs) b.

Lemma length_splice b off bs :
  0 <= off -> off + Z.of_nat (length bs) <= Z.of_nat (length b) ->
  length (splice b off bs) = length b.
Proof.
  intros. unfold splice. rewrite !length_app, length_take, length_drop. lia.
Qed.

Lemma sub_splice_same b off bs :
  0 <= off -> off + Z.of_nat (length bs) <= Z.of_nat (length b) ->
  sub (splice b off bs) off (Z.of_nat (length bs)) = bs.
Proof.
  intros. unfold sub, splice. rewrite Nat2Z.id.
  rewrite drop_app_length' by (rewrite length_take; lia).
  apply take_app_length.
Qed.

Lemma splice_nil b off : splice b off [] = b.
Proof. unfold splice. cbn. by rewrite Nat.add_0_r, take_drop. Qed.

Lemma splice_all b bs : length bs = length b -> splice b 0 bs = bs.
Proof.
  intros Hl. unfold splice. change (Z.to_nat 0) with 0%nat. rewrite Hl, Nat.add_0_l, drop_all. apply app_nil_r.
Qed.

(** Two overwrites one behind the other are one. *)
Lemma splice_app b off bs1 bs2 :
  0 <= off -> off + Z.of_nat (length (bs1 ++ bs2)) <= Z.of_nat (length b) ->
  splice (splice b off bs1) (off + Z.of_nat (length bs1)) bs2 = splice b off (bs1 ++ bs2).
Proof.
  rewrite length_app. intros Ho Hl. unfold splice.
  replace (Z.to_nat (off + Z.of_nat (length bs1))) with (Z.to_nat off + length bs1)%nat by lia.
  rewrite (app_assoc (take _ b)), take_app_length' by (rewrite length_app, length_take; lia).
  rewrite <- !app_assoc. f_equal. f_equal. f_equal.
  rewrite (app_assoc (take _ b)), drop_app_ge by (rewrite length_app, length_take; lia).
  rewrite drop_drop, !length_app, length_take. f_equal. lia.
Qed.

Lemma sub_splice_before b off bs o n :
  0 <= o -> 0 <= n -> o + n <= off -> off <= Z.of_nat (length b) ->
  sub (splice b off bs) o n = sub b o n.
Proof.
  intros. unfold sub, splice.
  rewrite drop_app_le by (rewrite length_take; lia).
  rewrite take_app_le by (rewrite length_drop, length_take; lia).
  rewrite skipn_firstn_comm, take_take. f_equal. lia.
Qed.

Lemma length_sub b off n :
  0 <= off -> 0 <= n -> off + n <= Z.of_nat (length b) ->
  length (sub b off n) = Z.to_nat n.
Proof. intros. unfold sub. rewrite length_take, length_drop. lia. Qed.

Lemma bytes_ok_app a b : bytes_ok (a ++ b) <-> bytes_ok a /\ bytes_ok b.
Proof. apply Forall_app. Qed.

Lemma bytes_ok_sub b off n : bytes_ok b -> bytes_ok (sub b off n).
Proof. intros. by apply Forall_take, Forall_drop. Qed.

Lemma bytes_ok_splice b off bs :
  bytes_ok b -> bytes_ok bs -> bytes_ok (splice b off bs).
Proof.
  intros. unfold splice. rewrite !bytes_ok_app.
  split_and!; auto using Forall_take, Forall_drop.
Qed.

Lemma get32_range b off : bytes_ok b -> is_u32 (get32 b off).
Proof.
  intros Hb. unfold get32. pose proof (le_combine_bound _ (bytes_ok_sub b off 4 Hb)) as H.
  assert (length (sub b off 4) <= 4)%nat by (unfold sub; rewrite length_take; lia).
  unfold is_u32. split; [lia|]. eapply Z.lt_le_trans; [apply H|].
  apply Z.pow_le_mono_r; lia.
Qed.
#[export] Hint Resolve bytes_ok_sub bytes_ok_splice get32_range le_split_bytes : words.

Lemma sub_app_l (a b : list Z) n :
  0 <= n <= Z.of_nat (length a) -> sub (a ++ b) 0 n = take (Z.to_nat n) a.
Proof. intros. unfold sub. rewrite drop_0. apply take_app_le. lia. Qed.

(** ** The boot monad

    Firmware code is a function from the machine state to an outcome and a
    new state.  A call that returns yields [Done]; the other outcomes end the
    run: [Halted] is the endless loop at the end of [halt_and_catch_fire],
    [Jumped] is the transfer of control to a loaded image, [Spin] is a
    polling loop that used up its fuel, and [Fault] is an access outside the
    C object it addresses, or outside of the RAM without objects for an absolute
    address, or a call through a null function pointer. *)
Inductive outcome (A : Type) : Type :=
| Done (a : A)
| Halted
| Jumped (addr : Z)
| Spin
| Fault.
Arguments Done {A} _.
Arguments Halted {A}.
Arguments Jumped {A} _.
Arguments Spin {A}.
Arguments Fault {A}.

Definition boot (S A : Type) : Type := S -> outcome A * S.

#[global] Instance boot_ret {S} : MRet (boot S) := λ A a s, (Done a, s).
#[global] Instance boot_bind {S} : MBind (boot S) := λ A B f m s,
  match m s with
  | (Done a, s') => f a s'
  | (Halted, s') => (Halted, s')
  | (Jumped addr, s') => (Jumped addr, s')
  | (Spin, s') => (Spin, s')
  | (Fault, s') => (Fault, s')
  end.

Definition halted {S A} : boot S A := λ s, (Halted, s).
Definition jumped {S A} (addr : Z) : boot S A := λ s, (Jumped addr, s).
Definition spin {S A} : boot S A := λ s, (Spin, s).
Definition fault {S A} : boot S A := λ s, (Fault, s).
Definition gets {S A} (f : S -> A) : boot S A := λ s, (Done (f s), s).
Definition modify {S} (f : S -> S) : boot S unit := λ s, (Done tt, f s).

(** An object access that may be out of bounds. *)
Definition the {S A} (o : option A) : boot S A :=
  match o with Some a => mret a | None => fault end.

Definition when {S} (b : bool) (m : boot S unit) : boot S unit :=
  if b then m else mret tt.

(** [x ← m; k] that stops at an integer return code other than zero. *)
Definition rc_ok (rc : Z) : bool := rc =? 0.

Section boot_laws.
Context {S : Type}.
Implicit Types s : S.

Lemma bind_ret {A B} (a : A) (f : A -> boot S B) s :
  (mret a ≫= f) s = f a s.
Proof. done. Qed.

Lemma bind_assoc {A B C} (m : boot S A) (f : A -> boot S B) (g : B -> boot S C) s :
  ((m ≫= f) ≫= g) s = (m ≫= λ a, f a ≫= g) s.
Proof. unfold mbind, boot_bind. by destruct (m s) as [[] ?]. Qed.

Lemma bind_done {A B} (m : boot S A) (f : A -> boot S B) s b s' :
  (m ≫= f) s = (Done b, s') <->
  exists a s1, m s = (Done a, s1) /\ f a s1 = (Done b, s').
Proof.
  unfold mbind, boot_bind. split.
  - destruct (m s) as [[] s1]; intros; simplify_eq; eauto.
  - by intros (a & s1 & -> & Hf).
Qed.

Lemma bind_step {A B} (m : boot S A) (f : A -> boot S B) s a s1 :
  m s = (Done a, s1) -> (m ≫= f) s = f a s1.
Proof. intros E. unfold mbind, boot_bind. by rewrite E. Qed.

(** A run, from its outcome alone. *)
Lemma run_done {A} (m : boot S A) s a : fst (m s) = Done a -> m s = (Done a, snd (m s)).
Proof. destruct (m s). by intros [= ->]. Qed.

Lemma run_done_view {A X} (m : boot S A) s (view : S -> X) a x :
  (let r := m s in (fst r, view (snd r))) = (Done a, x) ->
  m s = (Done a, snd (m s)) /\ view (snd (m s)) = x.
Proof. cbv zeta. destruct (m s). simpl. by intros [= -> <-]. Qed.

Lemma the_done {A} (o : option A) s a s' :
  the o s = (Done a, s') <-> o = Some a /\ s' = s.
Proof.
  destruct o; unfold the, mret, boot_ret, fault; split; intros H; try done.
  - by injection H as -> ->.
  - by destruct H as [[= ->] ->].
  - by destruct H.
Qed.
End boot_laws.

(** Invert a run that returned: [inv_done] walks backwards through binds,
    returns, state accesses and conditionals. *)
Ltac inv_done_step :=
  match goal with
  | H : (_ ≫= _) _ = (Done _, _) |- _ =>
      apply bind_done in H; destruct H as (?x & ?s & ?E & H); cbn beta in H
  | H : mret _ _ = (Done _, _) |- _ => unfold mret, boot_ret in H; simplify_eq H; intros; subst; clear H
  | H : gets _ _ = (Done _, _) |- _ => unfold gets in H; simplify_eq H; intros; subst; clear H
  | H : modify _ _ = (Done _, _) |- _ => unfold modify in H; simplify_eq H; intros; subst; clear H
  | H : the _ _ = (Done _, _) |- _ => apply the_done in H; destruct H as [?E ?]; subst
  | H : halted _ = (Done _, _) |- _ => discriminate H
  | H : jumped _ _ = (Done _, _) |- _ => discriminate H
  | H : spin _ = (Done _, _) |- _ => discriminate H
  | H : fault _ = (Done _, _) |- _ => discriminate H
  | H : when ?b _ _ = (Done _, _) |- _ => unfold when in H
  | H : (if ?b then _ else _) _ = (Done _, _) |- _ => let E := fresh "C" in destruct b eqn:E
  end.
Ltac inv_done := repeat inv_done_step.

(** ** Relations every run of a computation respects

    [pres R m]: whatever the outcome, the state after [m] is related to the
    state before it.  With a reflexive and transitive [R] this is a frame
    condition that composes. *)
Definition pres {S A} (R : S -> S -> Prop) (m : boot S A) : Prop :=
  forall s, R s (snd (m s)).

Section pres.
Context {S : Type} (R : S -> S -> Prop).
Context `{!Reflexive R} `{!Transitive R}.

Lemma pres_ret {A} (a : A) : pres R (mret a).
Proof. intros s. simpl. reflexivity. Qed.

Lemma pres_bind {A B} (m : boot S A) (f : A -> boot S B) :
  pres R m -> (forall a, pres R (f a)) -> pres R (m ≫= f).
Proof.
  intros Hm Hf s. specialize (Hm s). unfold mbind, boot_bind.
  destruct (m s) as [[a| | | |] s1]; simpl in *; try done.
  etrans; [exact Hm|]. apply Hf.
Qed.

Lemma pres_gets {A} (f : S -> A) : pres R (gets f).
Proof. intros s. simpl. reflexivity. Qed.

Lemma pres_modify (f : S -> S) : (forall s, R s (f s)) -> pres R (modify f).
Proof. intros H s. apply H. Qed.

Lemma pres_halted {A} : pres R (@halted S A).
Proof. intros s. simpl. reflexivity. Qed.
Lemma pres_jumped {A} a : pres R (@jumped S A a).
Proof. intros s. simpl. reflexivity. Qed.
Lemma pres_spin {A} : pres R (@spin S A).
Proof. intros s. simpl. reflexivity. Qed.
Lemma pres_fault {A} : pres R (@fault S A).
Proof. intros s. simpl. reflexivity. Qed.

Lemma pres_the {A} (o : option A) : pres R (the o).
Proof. destruct o; [apply pres_ret | apply pres_fault]. Qed.

Lemma pres_if {A} (b : bool) (m n : boot S A) :
  pres R m -> pres R n -> pres R (if b then m else n).
Proof. by destruct b. Qed.

Lemma pres_when (b : bool) (m : boot S unit) : pres R m -> pres R (when b m).
Proof. destruct b; [done | intros; apply pres_ret]. Qed.

Lemma pres_run {A} (m : boot S A) s o s' : pres R m -> m s = (o, s') -> R s s'.
Proof. intros H E. specialize (H s). by rewrite E in H. Qed.
End pres.

Create HintDb pres.
#[export] Hint Resolve pres_ret pres_gets pres_halted pres_jumped pres_spin
  pres_fault pres_the : pres.

(** [pres_auto] proves frame conditions by walking through the computation;
    leaves are closed by the [pres] hint database. *)
Ltac pres_step :=
  match goal with
  | |- pres _ (_ ≫= _) => apply pres_bind; [typeclasses eauto | | intros ?]
  | |- pres _ (if _ then _ else _) => apply pres_if
  | |- pres _ (when _ _) => apply pres_when; [typeclasses eauto|]
  | |- pres _ (match ?x with _ => _ end) => destruct x
  | |- pres _ (let _ := _ in _) => cbv zeta
  | |- forall _, _ => intros ?
  end.
Ltac pres_auto := repeat (first [solve [eauto with pres typeclass_instances] | pres_step]).
