(* ===== verification/Utils.v ===== *)
(** * Utils: the freestanding C helpers (common/src/utils.c)

    The memory and string routines work on byte lists; a read or write past
    the end of a buffer is [None].  The word predicates work on 32-bit
    values. *)

From S2P Require Import Prelude.

(** ** Memory routines *)

(** The copy loop of [memcpy]: [i] counts up while [n] bytes remain. *)
Fixpoint memcpy_loop (n i : nat) (dest src : list Z) : option (list Z) :=
  match n with
  | O => Some dest
  | S n =>
      b ← src !! i;
      if decide (i < length dest)%nat
      then memcpy_loop n (S i) (<[i := b]> dest) src
      else None
  end.

Definition memcpy (dest src : list Z) (n : nat) : option (list Z) :=
  memcpy_loop n 0 dest src.

(** The fill loop of [memset]: the [int] argument is narrowed to a byte. *)
Fixpoint memset_loop (n i : nat) (s : list Z) (c : Z) : option (list Z) :=
  match n with
  | O => Some s
  | S n =>
      if decide (i < length s)%nat
      then memset_loop n (S i) (<[i := u8 c]> s) c
      else None
  end.

Definition memset (s : list Z) (c : Z) (n : nat) : option (list Z) :=
  memset_loop n 0 s c.

Fixpoint memcmp_loop (n i : nat) (s1 s2 : list Z) : option Z :=
  match n with
  | O => Some 0
  | S n =>
      a ← s1 !! i;
      b ← s2 !! i;
      if a =? b then memcmp_loop n (S i) s1 s2 else Some (a - b)
  end.

Definition memcmp (s1 s2 : list Z) (n : nat) : option Z := memcmp_loop n 0 s1 s2.

Fixpoint strncmp (s1 s2 : list Z) (n : nat) : option Z :=
  match n with
  | O => Some 0
  | S n =>
      match s1, s2 with
      | a :: s1, b :: s2 =>
          if negb (a =? b) then Some (a - b)
          else if a =? 0 then Some 0
          else strncmp s1 s2 n
      | _, _ => None
      end
  end.

(** ** Word predicates *)

Definition is_power_of_2 (x : Z) : bool :=
  negb (x =? 0) && (Z.land x (x -₃₂ 1) =? 0).

Definition block_aligned (address block_size : Z) : bool :=
  Z.land address (block_size -₃₂ 1) =? 0.

Definition next_block_boundary (address block_size : Z) : Z :=
  Z.land (address +₃₂ (block_size -₃₂ 1)) (~₃₂ (block_size -₃₂ 1)).

(** [while (len-- > 0) if ( *buf++ != fill_byte) return false]. *)
Fixpoint is_constant_fill (buf : list Z) (len : nat) (fill_byte : Z) : option bool :=
  match len with
  | O => Some true
  | S len =>
      match buf with
      | [] => None
      | b :: buf => if negb (b =? fill_byte) then Some false
                    else is_constant_fill buf len fill_byte
      end
  end.

(** ** Specifications *)

(** The C string held in the first [n] bytes: up to, excluding, a NUL. *)
Fixpoint cstr (n : nat) (s : list Z) : list Z :=
  match n, s with
  | S n, c :: s => if c =? 0 then [] else c :: cstr n s
  | _, _ => []
  end.

(** ** Lemmas *)

Lemma memcpy_loop_spec n : forall i dest src,
  (i + n <= length dest)%nat -> (i + n <= length src)%nat ->
  memcpy_loop n i dest src =
    Some (take i dest ++ take n (drop i src) ++ drop (i + n) dest).
Proof.
  induction n as [|n IH]; intros i dest src Hd Hs; simpl.
  - by rewrite Nat.add_0_r, take_drop.
  - destruct (src !! i) as [b|] eqn:Eb; [|apply lookup_ge_None in Eb; lia].
    simpl. rewrite decide_True by lia. rewrite IH by (rewrite ?length_insert; lia).
    rewrite (drop_S src b i Eb). simpl.
    rewrite (take_S_r _ _ b) by (apply list_lookup_insert_eq; lia).
    rewrite take_insert_ge by lia. rewrite drop_insert_lt by lia.
    rewrite <- (app_assoc (take i dest)). simpl.
    by replace (S (i + n)) with (i + S n)%nat by lia.
Qed.

Lemma memcmp_loop_zero n : forall i s1 s2,
  (i + n <= length s1)%nat -> (i + n <= length s2)%nat ->
  memcmp_loop n i s1 s2 = Some 0 <-> take n (drop i s1) = take n (drop i s2).
Proof.
  induction n as [|n IH]; intros i s1 s2 H1 H2; simpl; [done|].
  destruct (s1 !! i) as [a|] eqn:Ea; [|apply lookup_ge_None in Ea; lia].
  destruct (s2 !! i) as [b|] eqn:Eb; [|apply lookup_ge_None in Eb; lia].
  simpl. rewrite (drop_S s1 a i Ea), (drop_S s2 b i Eb). simpl.
  destruct (Z.eqb_spec a b) as [->|Hne].
  - rewrite IH by lia. split; [by intros -> | by intros [= ->]].
  - split; [intros [=]; lia | intros [=]; lia].
Qed.

Lemma memcmp_loop_total n : forall i s1 s2,
  (i + n <= length s1)%nat -> (i + n <= length s2)%nat ->
  is_Some (memcmp_loop n i s1 s2).
Proof.
  induction n as [|n IH]; intros i s1 s2 H1 H2; simpl; [eauto|].
  destruct (s1 !! i) as [a|] eqn:Ea; [|apply lookup_ge_None in Ea; lia].
  destruct (s2 !! i) as [b|] eqn:Eb; [|apply lookup_ge_None in Eb; lia].
  simpl. destruct (a =? b); [apply IH; lia | eauto].
Qed.

Lemma strncmp_zero n : forall s1 s2,
  (n <= length s1)%nat -> (n <= length s2)%nat ->
  strncmp s1 s2 n = Some 0 <-> cstr n s1 = cstr n s2.
Proof.
  induction n as [|n IH]; intros [|a s1] [|b s2] H1 H2; simpl in *; try done; try lia.
  destruct (Z.eqb_spec a b) as [->|Hne]; simpl.
  - destruct (b =? 0); [done|]. rewrite IH by lia.
    split; [by intros -> | by intros [= ->]].
  - split; [intros [=]; lia|].
    destruct (Z.eqb_spec a 0), (Z.eqb_spec b 0); intros [=]; lia.
Qed.

Lemma land_pred_pow2 x : 0 < x -> Z.land x (x - 1) = 0 <-> x = 2 ^ Z.log2 x.
Proof.
  intros Hx. destruct (Z.log2_spec x Hx) as [Hlo Hhi].
  pose proof (Z.log2_nonneg x). split.
  - intros Hland. destruct (Z.eq_dec x (2 ^ Z.log2 x)) as [|Hne]; [done|].
    exfalso. assert (Hbit : Z.testbit (Z.land x (x - 1)) (Z.log2 x) = true).
    { rewrite Z.land_spec, Z.bit_log2 by lia.
      replace (Z.log2 x) with (Z.log2 (x - 1)) at 1.
      - apply Z.bit_log2. lia.
      - apply Z.log2_unique; lia. }
    by rewrite Hland, Z.bits_0 in Hbit.
  - set (k := Z.log2 x) in *. intros E. clearbody k. subst x.
    replace (2 ^ k - 1) with (Z.ones k) by (rewrite Z.ones_equiv; lia).
    rewrite Z.land_ones by lia. apply Z.mod_same. lia.
Qed.

Lemma u32_pred x : is_u32 x -> x <> 0 -> x -₃₂ 1 = x - 1.
Proof. intros. apply u32_small. unfold is_u32 in *. lia. Qed.

Lemma land_pow2_pred a k : 0 <= k -> Z.land a (2 ^ k - 1) = a mod 2 ^ k.
Proof.
  intros. replace (2 ^ k - 1) with (Z.ones k) by (rewrite Z.ones_equiv; lia).
  by apply Z.land_ones.
Qed.

Lemma is_power_of_2_pow2 x :
  is_u32 x -> is_power_of_2 x = true -> exists k, 0 <= k < 32 /\ x = 2 ^ k.
Proof.
  unfold is_power_of_2. intros Hx [Hnz Hland]%andb_true_iff.
  apply negb_true_iff, Z.eqb_neq in Hnz. apply Z.eqb_eq in Hland.
  rewrite u32_pred in Hland by done.
  assert (0 < x) by (unfold is_u32 in Hx; lia).
  apply land_pred_pow2 in Hland; [|done]. exists (Z.log2 x).
  split; [|done]. split; [apply Z.log2_nonneg|].
  apply Z.log2_lt_pow2; [done|]. apply Hx.
Qed.

(** ** Theorems *)

(** [is_power_of_2] answers exactly whether a 32-bit value is a power of
    two. *)
Theorem is_power_of_2_correct x :
  is_u32 x -> is_power_of_2 x = true <-> exists k, 0 <= k < 32 /\ x = 2 ^ k.
Proof.
  intros Hx. split; [by apply is_power_of_2_pow2|].
  intros (k & Hk & ->). unfold is_power_of_2.
  assert (0 < 2 ^ k) by lia. rewrite u32_pred by (done || lia).
  rewrite (proj2 (land_pred_pow2 (2 ^ k) H)) by (by rewrite Z.log2_pow2 by lia).
  by destruct (Z.eqb_spec (2 ^ k) 0); [lia|].
Qed.

Lemma is_power_of_2_correct_witness :
  is_u32 4096 /\ (is_power_of_2 4096 = true <-> exists k, 0 <= k < 32 /\ 4096 = 2 ^ k).
Proof. split; [by vm_compute | apply (is_power_of_2_correct 4096); by vm_compute]. Defined.

(** For a power-of-two block size and an address whose block end does not
    pass the top of the address space, [next_block_boundary] is aligned and is
    the least aligned address not below the argument. *)
Theorem next_block_boundary_correct a bs :
  is_u32 a -> is_u32 bs -> is_power_of_2 bs = true -> a + (bs - 1) < 2 ^ 32 ->
  let r := next_block_boundary a bs in
  block_aligned r bs = true /\ a <= r < a + bs /\
  forall b, a <= b -> block_aligned b bs = true -> r <= b.
Proof.
  intros Ha Hbs Hp Hov. destruct (is_power_of_2_pow2 bs Hbs Hp) as (k & Hk & ->).
  cbv zeta. assert (Hpos : 0 < 2 ^ k) by lia.
  unfold next_block_boundary, block_aligned. rewrite !u32_pred by (done || lia).
  rewrite (u32_small (a + _)) by (unfold is_u32 in *; lia).
  assert (E : Z.land (a + (2 ^ k - 1)) (~₃₂ (2 ^ k - 1)) =
              (a + (2 ^ k - 1)) / 2 ^ k * 2 ^ k).
  { rewrite <- Z.shiftl_mul_pow2, <- Z.shiftr_div_pow2 by lia. bits_eq.
    destruct (Z.lt_ge_cases i 32) as [Hlt|Hge].
    - rewrite u32_testbit_low, Z.lnot_spec by lia.
      replace (2 ^ k - 1) with (Z.ones k) by (rewrite Z.ones_equiv; lia).
      destruct (Z.lt_ge_cases i k).
      + rewrite Z.ones_spec_low, Z.shiftl_spec_low by lia. apply andb_false_r.
      + rewrite Z.ones_spec_high, Z.shiftl_spec, Z.shiftr_spec by lia.
        rewrite andb_true_r. f_equal. lia.
    - rewrite (is_u32_testbit_high (a + _)) by (unfold is_u32 in *; lia).
      rewrite Z.shiftl_spec, Z.shiftr_spec by lia.
      rewrite Z.sub_add, (is_u32_testbit_high (a + _)) by (unfold is_u32 in *; lia).
      done. }
  rewrite E, land_pow2_pred by lia.
  pose proof (Z.div_mod (a + (2 ^ k - 1)) (2 ^ k)) as D.
  pose proof (Z.mod_pos_bound (a + (2 ^ k - 1)) (2 ^ k) Hpos) as B.
  split_and!; [by rewrite Z.mod_mul by lia | nia | nia |].
  intros b Hab Hal. rewrite land_pow2_pred in Hal by lia. apply Z.eqb_eq in Hal.
  pose proof (Z.div_mod b (2 ^ k)) as Db. rewrite Hal in Db.
  assert (a + (2 ^ k - 1) < (b / 2 ^ k + 1) * 2 ^ k) by lia.
  assert ((a + (2 ^ k - 1)) / 2 ^ k < b / 2 ^ k + 1) by (apply Z.div_lt_upper_bound; lia).
  nia.
Qed.

Lemma next_block_boundary_correct_witness :
  next_block_boundary 0x1234 0x1000 = 0x2000 /\
  block_aligned (next_block_boundary 0x1234 0x1000) 0x1000 = true.
Proof.
  split; [by vm_compute|].
  apply (next_block_boundary_correct 0x1234 0x1000); by vm_compute.
Defined.

(** [strncmp] over two buffers of at least [n] bytes returns zero exactly
    when the C strings they hold agree. *)
Theorem strncmp_eq_cstr s1 s2 n :
  (n <= length s1)%nat -> (n <= length s2)%nat ->
  strncmp s1 s2 n = Some 0 <-> cstr n s1 = cstr n s2.
Proof. apply strncmp_zero. Qed.

Lemma strncmp_eq_cstr_witness :
  strncmp [65; 66; 0; 7] [65; 66; 0; 9] 4 = Some 0 <->
  cstr 4 [65; 66; 0; 7] = cstr 4 [65; 66; 0; 9].
Proof. apply (strncmp_eq_cstr [65; 66; 0; 7] [65; 66; 0; 9] 4); simpl; lia. Defined.

(** [memcpy] within bounds replaces exactly the first [n] bytes of the
    destination; [memcmp] of [n] bytes is then zero. *)
Theorem memcpy_memcmp dest src n :
  (n <= length dest)%nat -> (n <= length src)%nat ->
  exists dest', memcpy dest src n = Some dest' /\
    dest' = take n src ++ drop n dest /\ memcmp dest' src n = Some 0.
Proof.
  intros Hd Hs. exists (take n src ++ drop n dest).
  unfold memcpy. rewrite memcpy_loop_spec by lia.
  split_and!; [done | done |]. unfold memcmp. apply memcmp_loop_zero; rewrite ?drop_0.
  3: { rewrite take_app_le by (rewrite length_take; lia).
       by rewrite take_take, Nat.min_id. }
  - rewrite length_app, length_take, length_drop. lia.
  - lia.
Qed.

Lemma memcpy_memcmp_witness :
  exists dest', memcpy [1; 2; 3; 4] [7; 8; 9] 2 = Some dest' /\
    dest' = take 2 [7; 8; 9] ++ drop 2 [1; 2; 3; 4] /\ memcmp dest' [7; 8; 9] 2 = Some 0.
Proof. apply (memcpy_memcmp [1; 2; 3; 4] [7; 8; 9] 2); simpl; lia. Defined.
