(* ===== verification/StreamHash.v ===== *)
(** * StreamHash: hashes that take a message byte by byte

    The hash functions of the two libraries keep a bit counter of two words, a state
    and a buffer of words into which the bytes are shifted.  [Stream] names the parts of
    such a hash, [StreamLaws] says what a byte does to them; a hash that obeys the laws
    computes the digest of the padded message, compressed block by block. *)

From S2P Require Import Prelude Sha256.
Abbreviation at_ := Sha256.at_.
Abbreviation be := Sha256.be.

(** ** Arrays *)
Lemma at_insert (l : list Z) i j x :
  (i < length l)%nat -> at_ (<[i := x]> l) j = if decide (i = j) then x else at_ l j.
Proof.
  intros. unfold at_, Sha256.at_. case_decide as E.
  - subst. by rewrite list_lookup_insert_eq.
  - by rewrite list_lookup_insert_ne.
Qed.

Lemma at_take (l : list Z) n i : (i < n)%nat -> at_ (take n l) i = at_ l i.
Proof. intros. unfold at_, Sha256.at_. by rewrite lookup_take_lt. Qed.

Lemma foldl_ext_in {A B} (f g : A -> B -> A) (l : list B) : forall a,
  (forall a b, b ∈ l -> f a b = g a b) -> foldl f a l = foldl g a l.
Proof.
  induction l as [|x l IH]; intros a H; simpl; [done|].
  rewrite H by apply list_elem_of_here. apply IH. intros. apply H. by right.
Qed.

(** ** Numbers, most significant byte first *)
Lemma be_snoc bs b : be (bs ++ [b]) = be bs * 256 + b.
Proof. unfold be, Sha256.be. by rewrite foldl_app. Qed.

Lemma be_app a b : be (a ++ b) = be a * 2 ^ (8 * Z.of_nat (length b)) + be b.
Proof.
  revert a. induction b as [|y b IH] using rev_ind; intros a.
  - rewrite app_nil_r. cbn [length]. change (be []) with 0. rewrite Z.mul_1_r. lia.
  - rewrite app_assoc, !be_snoc, IH, length_app. cbn [length].
    replace (8 * Z.of_nat (length b + 1)) with (8 * Z.of_nat (length b) + 8) by lia.
    rewrite Z.pow_add_r by lia. change (2 ^ 8) with 256. ring.
Qed.

Lemma be_range bs : bytes_ok bs -> 0 <= be bs < 2 ^ (8 * Z.of_nat (length bs)).
Proof.
  induction bs as [|b bs IH] using rev_ind; intros Hb; [done|].
  apply Forall_app in Hb as [Hbs [Hb _]%Forall_cons]. specialize (IH Hbs).
  rewrite be_snoc, length_app. simpl.
  replace (8 * Z.of_nat (length bs + 1)) with (8 * Z.of_nat (length bs) + 8) by lia.
  rewrite Z.pow_add_r by lia. unfold is_u8 in Hb. lia.
Qed.

Lemma be_reverse bs : be (reverse bs) = le_combine bs.
Proof.
  induction bs as [|b bs IH]; [done|]. rewrite reverse_cons, be_snoc, IH.
  cbn [le_combine]. change (2 ^ 8) with 256. lia.
Qed.

Lemma le_split_add a : forall b x,
  le_split (a + b) x = le_split a x ++ le_split b (x / 2 ^ (8 * Z.of_nat a)).
Proof.
  induction a as [|a IH]; intros b x; cbn [Nat.add le_split app].
  - by rewrite Z.div_1_r.
  - rewrite IH. f_equal. f_equal. rewrite Z.div_div by lia.
    rewrite <- Z.pow_add_r by lia. f_equal. f_equal. f_equal. lia.
Qed.

(** ** Schedules grown word by word

    A loop that fills the array from word 16 on, and the same words appended to a
    list. *)
Section schedule.
Context (next : list Z -> nat -> Z).
Context (Hnext : forall w j, (16 <= j)%nat -> next (take j w) j = next w j).

Definition grow (ws : list Z) : list Z := ws ++ [next ws (length ws)].
Definition fill (w : list Z) (j : nat) : list Z := <[j := next w j]> w.

Lemma fill_grow w n : (16 + n <= length w)%nat ->
  let w' := foldl fill w (seq 16 n) in
  length w' = length w /\ take (16 + n) w' = Nat.iter n grow (take 16 w).
Proof.
  induction n as [|n IH]; intros Hn; cbv zeta; [done|].
  destruct IH as [IHl IHt]; [lia|]. rewrite seq_S, foldl_app.
  set (w1 := foldl fill w (seq 16 n)) in *. cbn [foldl]. unfold fill at 1 2.
  split; [by rewrite length_insert|]. rewrite Nat.iter_succ, <- IHt. unfold grow.
  rewrite length_take, Nat.min_l, Hnext by lia.
  replace (16 + S n)%nat with (S (16 + n)) by lia.
  erewrite take_S_r by (apply list_lookup_insert_eq; lia).
  by rewrite take_insert_ge by lia.
Qed.

Lemma fill_low w n : (16 + n <= length w)%nat -> take 16 (foldl fill w (seq 16 n)) = take 16 w.
Proof.
  intros Hn. induction n as [|n IH] in Hn |- *; [done|].
  rewrite seq_S, foldl_app. cbn [foldl]. unfold fill at 1. rewrite take_insert_ge by lia. apply IH. lia.
Qed.
End schedule.

(** ** The reference

    [k] bytes make a word, sixteen words a block. *)
Definition chunk (k : nat) (p : list Z) (i : nat) : list Z := take k (drop (k * i) p).
Definition words (k : nat) (p : list Z) : list Z := map (λ i, be (chunk k p i)) (seq 0 16).

Section reference.
Context (k : nat) (compress : list Z -> list Z -> list Z).

(** Compress the first [n] blocks of [msg]. *)
Fixpoint hash_blocks (n : nat) (h msg : list Z) : list Z :=
  match n with
  | O => h
  | S n => hash_blocks n (compress h (words k (take (16 * k) msg))) (drop (16 * k) msg)
  end.

(** A one bit, zeros up to the last two words of a block, the bit length. *)
Definition pad_len (n : Z) : Z := (14 * Z.of_nat k - 1 - n) mod (16 * Z.of_nat k).
Definition padded (msg : list Z) : list Z :=
  msg ++ [0x80] ++ replicate (Z.to_nat (pad_len (Z.of_nat (length msg)))) 0 ++
  reverse (le_split (2 * k) (8 * Z.of_nat (length msg))).
Definition md_hash (h msg : list Z) : list Z :=
  hash_blocks (length (padded msg) / (16 * k)) h (padded msg).

Lemma hash_blocks_snoc n : forall h msg,
  hash_blocks (S n) h msg =
  compress (hash_blocks n h msg) (words k (take (16 * k) (drop (16 * k * n) msg))).
Proof.
  induction n as [|n IH]; intros h msg.
  - by rewrite Nat.mul_0_r, drop_0.
  - change (hash_blocks (S (S n)) h msg)
      with (hash_blocks (S n) (compress h (words k (take (16 * k) msg))) (drop (16 * k) msg)).
    rewrite IH. cbn [hash_blocks]. rewrite drop_drop.
    replace (16 * k * S n)%nat with (16 * k + 16 * k * n)%nat by lia. reflexivity.
Qed.

Lemma hash_blocks_app n : forall h a b,
  (16 * k * n <= length a)%nat -> hash_blocks n h (a ++ b) = hash_blocks n h a.
Proof.
  induction n as [|n IH]; intros h a b Hl; [done|]. cbn [hash_blocks].
  rewrite take_app_le, drop_app_le by lia. apply IH. rewrite length_drop. lia.
Qed.
End reference.

(** ** The interface *)
Class Stream (C : Type) := {
  wb : nat;
  len0 : C -> Z;
  len1 : C -> Z;
  hv : C -> list Z;
  wv : C -> list Z;
  absorb : C -> Z -> C;
  compress : list Z -> list Z -> list Z
}.

(** The buffer after a byte has been shifted in, and the counter. *)
Definition counted {C} `{Stream C} (c : C) : Z := (len0 c + 8) mod 2 ^ (8 * Z.of_nat wb).
Definition shifted {C} `{Stream C} (c : C) (b : Z) : list Z :=
  let cnt := Z.to_nat ((len0 c / (8 * Z.of_nat wb)) mod 16) in
  <[cnt := Z.lor ((at_ (wv c) cnt * 256) mod 2 ^ (8 * Z.of_nat wb)) (Z.land b 0xFF)]> (wv c).
Definition full {C} `{Stream C} (c : C) : bool := counted c mod (128 * Z.of_nat wb) =? 0.

Class StreamLaws (C : Type) `{Stream C} := {
  wb_cases : wb = 4%nat \/ wb = 8%nat;
  absorb_len0 c b : len0 (absorb c b) = counted c;
  absorb_len1 c b : len1 (absorb c b) = if counted c =? 0 then (len1 c + 1) mod 2 ^ (8 * Z.of_nat wb) else len1 c;
  absorb_hv c b : length (wv c) = 80%nat ->
    hv (absorb c b) = if full c then compress (hv c) (take 16 (shifted c b)) else hv c;
  absorb_wv c b : length (wv c) = 80%nat ->
    length (wv (absorb c b)) = 80%nat /\ take 16 (wv (absorb c b)) = take 16 (shifted c b)
}.

(** Zeros up to the place of the length. *)
Fixpoint pad {C} `{Stream C} (fuel : nat) (c : C) : C :=
  match fuel with
  | O => c
  | S fuel => if len0 c mod (128 * Z.of_nat wb) =? 112 * Z.of_nat wb then c else pad fuel (absorb c 0)
  end.
(** The last compression: the padded buffer with the two words of the length. *)
Definition last_state {C} `{Stream C} (fuel : nat) (c : C) : list Z :=
  let c' := pad fuel (absorb c 0x80) in
  compress (hv c') (take 14 (wv c') ++ [len1 c; len0 c]).

Lemma absorb_length {C} `{StreamLaws C} (c : C) b : length (wv c) = 80%nat -> length (wv (absorb c b)) = 80%nat.
Proof. intros Hl. by apply absorb_wv. Qed.
Lemma message_length {C} `{StreamLaws C} bs : forall c : C,
  length (wv c) = 80%nat -> length (wv (foldl absorb c bs)) = 80%nat.
Proof. induction bs as [|b bs IH]; intros c Hl; [done|]. apply IH. by apply absorb_length. Qed.
Lemma pad_length {C} `{StreamLaws C} fuel : forall c : C, length (wv c) = 80%nat -> length (wv (pad fuel c)) = 80%nat.
Proof.
  induction fuel as [|fuel IH]; intros c Hl; [done|]. cbn [pad]. destruct (_ =? _); [done|].
  apply IH. by apply absorb_length.
Qed.

(** The two words of the length, written into the buffer. *)
Lemma take_set_length (ws : list Z) a b :
  length ws = 80%nat ->
  take 16 (<[15%nat := b]> (<[14%nat := a]> ws)) = take 14 ws ++ [a; b].
Proof.
  intros Hl. rewrite (take_S_r _ 15 b) by (apply list_lookup_insert_eq; rewrite length_insert; lia).
  rewrite take_insert_ge by lia.
  rewrite (take_S_r _ 14 a) by (apply list_lookup_insert_eq; lia).
  by rewrite take_insert_ge, <- app_assoc by lia.
Qed.

(** ** Words under construction *)
Lemma length_chunk k p i : length (chunk k p i) = (k `min` (length p - k * i))%nat.
Proof. unfold chunk. by rewrite length_take, length_drop. Qed.

Lemma chunk_snoc k p b i : (0 < k)%nat ->
  chunk k (p ++ [b]) i = if decide (i = length p / k)%nat then chunk k p i ++ [b] else chunk k p i.
Proof.
  intros Hk. unfold chunk. pose proof (Nat.div_mod_eq (length p) k) as D.
  pose proof (Nat.mod_upper_bound (length p) k ltac:(lia)) as M.
  case_decide as E.
  - subst i. rewrite drop_app_le by lia. rewrite take_app_ge by (rewrite length_drop; lia).
    rewrite length_drop, (take_ge (drop _ p)) by (rewrite length_drop; lia).
    f_equal. apply take_ge. cbn [length]. lia.
  - destruct (decide (i < length p / k)%nat).
    + rewrite drop_app_le by nia. apply take_app_le. rewrite length_drop. nia.
    + rewrite !drop_ge; [done | nia | rewrite length_app; cbn [length]; nia].
Qed.

(** A byte joins a word whose upper bytes are stale. *)
Lemma lor_byte k x b : k = 4%nat \/ k = 8%nat -> is_u8 b ->
  Z.lor ((x * 256) mod 2 ^ (8 * Z.of_nat k)) (Z.land b 0xFF) = (x * 256) mod 2 ^ (8 * Z.of_nat k) + b.
Proof.
  intros Hk Hb. change (Z.land b 0xFF) with (u8 b). rewrite u8_small by done.
  assert (exists y, (x * 256) mod 2 ^ (8 * Z.of_nat k) = y * 2 ^ 8) as [y ->]; [|by apply lor_join].
  exists ((x * 256) mod 2 ^ (8 * Z.of_nat k) / 256).
  destruct Hk as [-> | ->]; cbn [Z.of_nat]; [change (2 ^ (8 * 4)) with 4294967296|change (2 ^ (8 * 8)) with 18446744073709551616];
    change (2 ^ 8) with 256; Z.div_mod_to_equations; lia.
Qed.

Lemma mod_shift_in k x b j : k = 4%nat \/ k = 8%nat -> 0 <= j < Z.of_nat k -> is_u8 b ->
  ((x * 256) mod 2 ^ (8 * Z.of_nat k) + b) mod 2 ^ (8 + 8 * j) = (x mod 2 ^ (8 * j)) * 256 + b.
Proof.
  intros Hk Hj Hb. set (M := 2 ^ (8 * Z.of_nat k)).
  assert (M = 2 ^ (8 + 8 * j) * 2 ^ (8 * Z.of_nat k - 8 - 8 * j)) as EM
    by (unfold M; rewrite <- Z.pow_add_r by lia; f_equal; lia).
  set (m := 2 ^ (8 * Z.of_nat k - 8 - 8 * j)) in *.
  assert (2 ^ (8 + 8 * j) = 256 * 2 ^ (8 * j)) as E8 by (rewrite Z.pow_add_r by lia; done).
  assert (0 < 2 ^ (8 * j)) as Hp by lia. assert (0 < M) as HM by (unfold M; lia).
  pose proof (Z.div_mod (x * 256) M ltac:(lia)) as D1. pose proof (Z.div_mod x (2 ^ (8 * j)) ltac:(lia)) as D2.
  pose proof (Z.mod_pos_bound x (2 ^ (8 * j)) Hp) as B2.
  set (r1 := (x * 256) mod M) in *. set (q1 := x * 256 / M) in *. set (q2 := x / 2 ^ (8 * j)) in *.
  set (r2 := x mod 2 ^ (8 * j)) in *. unfold is_u8 in Hb.
  symmetry. apply (Z.mod_unique _ _ (q2 - m * q1)); [left; lia|].
  replace r1 with (x * 256 - M * q1) by lia. rewrite EM, E8, D2. ring.
Qed.

Section words_under_construction.
Context (k : nat) (Hk : k = 4%nat \/ k = 8%nat).

(** The buffer [ws] holds the bytes [p] of the current block. *)
Definition W (p ws : list Z) : Prop :=
  length ws = 80%nat /\
  forall i, (i < 16)%nat ->
    0 <= at_ ws i < 2 ^ (8 * Z.of_nat k) /\
    at_ ws i mod 2 ^ (8 * Z.of_nat (length (chunk k p i))) = be (chunk k p i).

Lemma W_nil ws : length ws = 80%nat -> (forall i, (i < 16)%nat -> 0 <= at_ ws i < 2 ^ (8 * Z.of_nat k)) -> W [] ws.
Proof.
  intros Hl Hu. split; [done|]. intros i Hi. split; [auto|].
  unfold chunk. rewrite drop_nil, take_nil. apply Z.mod_1_r.
Qed.

(** Only the sixteen words of the block matter. *)
Lemma W_take p ws ws' : W p ws -> length ws' = 80%nat -> take 16 ws' = take 16 ws -> W p ws'.
Proof.
  intros [Hl HW] Hl' E. split; [done|]. intros i Hi. rewrite <- (at_take ws' 16), E, at_take by lia. by apply HW.
Qed.

Lemma W_step p ws b : W p ws -> (length p < 16 * k)%nat -> is_u8 b ->
  let cnt := (length p / k)%nat in
  W (p ++ [b]) (<[cnt := Z.lor ((at_ ws cnt * 256) mod 2 ^ (8 * Z.of_nat k)) (Z.land b 0xFF)]> ws).
Proof.
  intros [Hl HW] Hp Hb cnt. pose proof (Nat.div_mod_eq (length p) k) as D.
  pose proof (Nat.mod_upper_bound (length p) k ltac:(lia)) as M.
  assert (cnt < 16)%nat as Hcnt by (unfold cnt; nia).
  split; [by rewrite length_insert|]. intros i Hi. rewrite at_insert, chunk_snoc by lia. fold cnt.
  destruct (decide (cnt = i)) as [<-|Hne]; [|rewrite decide_False by congruence; by apply HW].
  rewrite decide_True by done. destruct (HW cnt Hcnt) as [Hu HWc]. rewrite lor_byte by done.
  pose proof (length_chunk k p cnt) as Hc. split.
  - unfold is_u8 in Hb. destruct Hk as [-> | ->]; cbn [Z.of_nat];
      [change (2 ^ (8 * 4)) with 4294967296|change (2 ^ (8 * 8)) with 18446744073709551616]; Z.div_mod_to_equations; lia.
  - rewrite length_app, be_snoc, <- HWc. cbn [length].
    replace (8 * Z.of_nat (length (chunk k p cnt) + 1)) with (8 + 8 * Z.of_nat (length (chunk k p cnt))) by lia.
    apply mod_shift_in; [done| |done]. unfold cnt in *. lia.
Qed.

(** A full word of the buffer is the word of the block. *)
Lemma W_full p ws n : W p ws -> (k * n <= length p)%nat -> (n <= 16)%nat -> take n ws = take n (words k p).
Proof.
  intros [Hl HW] Hp Hn. apply list_eq. intros i.
  destruct (decide (i < n)%nat); [|rewrite !lookup_take_ge by lia; done].
  rewrite !lookup_take_lt by lia. unfold words. rewrite list_lookup_fmap.
  rewrite lookup_seq_lt by lia. cbn [fmap option_fmap option_map Nat.add].
  destruct (HW i ltac:(lia)) as [Hu HWi]. unfold at_, Sha256.at_ in *.
  destruct (ws !! i) as [x|] eqn:E; [|apply lookup_ge_None in E; lia].
  cbn [default from_option] in *. f_equal. rewrite length_chunk in HWi.
  replace (k `min` (length p - k * i))%nat with k in HWi by nia.
  rewrite <- HWi. symmetry. by apply Z.mod_small.
Qed.
End words_under_construction.

(** ** A hash that obeys the laws *)
Section laws.
Context {C : Type} `{HL : StreamLaws C} (h0 : list Z).
Abbreviation bits := (8 * Z.of_nat wb).

Definition rest (msg : list Z) : list Z := drop (16 * wb * (length msg / (16 * wb))) msg.

(** The context after the bytes [msg]. *)
Record repr (msg : list Z) (c : C) : Prop := {
  repr_len0 : len0 c = (8 * Z.of_nat (length msg)) mod 2 ^ bits;
  repr_len1 : len1 c = (8 * Z.of_nat (length msg) / 2 ^ bits) mod 2 ^ bits;
  repr_h : hv c = hash_blocks wb compress (length msg / (16 * wb)) h0 msg;
  repr_w : W wb (rest msg) (wv c)
}.

Lemma wb_pos : (0 < wb)%nat.
Proof. pose proof wb_cases. lia. Qed.

Lemma length_rest msg : length (rest msg) = (length msg mod (16 * wb))%nat.
Proof. unfold rest. rewrite length_drop. pose proof (Nat.div_mod_eq (length msg) (16 * wb)). lia. Qed.

(** Arithmetic at either width. *)
Ltac width_lia :=
  pose proof wb_cases as [Ewb|Ewb]; rewrite ?Ewb in *; cbn [Z.of_nat] in *;
  change (2 ^ (8 * Z.of_nat 4)) with 4294967296 in *; change (2 ^ (8 * Z.of_nat 8)) with 18446744073709551616 in *;
  change (Z.of_nat 4) with 4 in *; change (Z.of_nat 8) with 8 in *;
  Z.div_mod_to_equations; lia.

Lemma cnt_rest msg c : repr msg c -> Z.to_nat ((len0 c / bits) mod 16) = (length (rest msg) / wb)%nat.
Proof.
  intros [E0 _ _ _]. rewrite E0, length_rest. apply Nat2Z.inj.
  rewrite Z2Nat.id by (apply Z.mod_pos_bound; lia).
  rewrite Nat2Z.inj_div, Nat2Z.inj_mod, Nat2Z.inj_mul. generalize (Z.of_nat (length msg)). intros n.
  change (Z.of_nat 16) with 16. width_lia.
Qed.

Lemma counted_next msg c : repr msg c -> counted c = (8 * (Z.of_nat (length msg) + 1)) mod 2 ^ bits.
Proof.
  intros [E0 _ _ _]. unfold counted. rewrite E0. generalize (Z.of_nat (length msg)). intros n. width_lia.
Qed.

Lemma full_rest msg c : repr msg c -> full c = (length (rest msg) =? 16 * wb - 1)%nat.
Proof.
  intros Hr. unfold full. rewrite (counted_next msg c Hr), length_rest. apply eq_bool_prop_intro. rewrite !Is_true_true.
  rewrite Z.eqb_eq, Nat.eqb_eq. pose proof (Nat.div_mod_eq (length msg) (16 * wb)) as D.
  pose proof wb_pos. pose proof (Nat.mod_upper_bound (length msg) (16 * wb) ltac:(lia)) as M.
  set (q := (length msg / (16 * wb))%nat) in *. set (r := (length msg mod (16 * wb))%nat) in *.
  rewrite D. clear D. clearbody q r. clear Hr. destruct wb_cases as [Ewb|Ewb]; rewrite Ewb in *;
    change (2 ^ (8 * Z.of_nat 4)) with 4294967296; change (2 ^ (8 * Z.of_nat 8)) with 18446744073709551616;
    change (Z.of_nat 4) with 4; change (Z.of_nat 8) with 8; split; Z.div_mod_to_equations; lia.
Qed.

Lemma carry_step n : 0 <= n ->
  (if (8 * (n + 1)) mod 2 ^ bits =? 0 then ((8 * n / 2 ^ bits) mod 2 ^ bits + 1) mod 2 ^ bits else (8 * n / 2 ^ bits) mod 2 ^ bits)
  = (8 * (n + 1) / 2 ^ bits) mod 2 ^ bits.
Proof.
  intros Hn. destruct (Z.eqb_spec ((8 * (n + 1)) mod 2 ^ bits) 0) as [E|E].
  - assert (8 * (n + 1) / 2 ^ bits = 8 * n / 2 ^ bits + 1) as -> by width_lia. by rewrite Zplus_mod_idemp_l.
  - f_equal. width_lia.
Qed.

Lemma repr_step msg c b : repr msg c -> is_u8 b -> repr (msg ++ [b]) (absorb c b).
Proof.
  intros Hr Hb. pose proof Hr as [E0 E1 Eh HW]. pose proof HW as [Hwl _]. pose proof wb_pos as Hpos.
  pose proof (Nat.mod_upper_bound (length msg) (16 * wb) ltac:(lia)) as M. rewrite <- length_rest in M.
  pose proof (W_step wb wb_cases (rest msg) (wv c) b HW M Hb) as HW'. cbv zeta in HW'. rewrite <- (cnt_rest msg c Hr) in HW'.
  change (<[Z.to_nat ((len0 c / bits) mod 16) := _]> (wv c)) with (shifted c b) in HW'.
  destruct (absorb_wv c b Hwl) as [Hl' Ht'].
  assert (length (msg ++ [b]) = (length msg + 1)%nat) as Hl by apply length_app.
  pose proof (Nat.div_mod_eq (length msg) (16 * wb)) as D. rewrite <- length_rest in D.
  assert (W wb (rest msg ++ [b]) (wv (absorb c b))) as HWa by (by apply (W_take wb wb_cases _ (shifted c b))).
  assert (len0 (absorb c b) = (8 * Z.of_nat (length (msg ++ [b]))) mod 2 ^ bits) as Ea
    by (rewrite absorb_len0, (counted_next msg c Hr), Hl, Nat2Z.inj_add; done).
  assert (len1 (absorb c b) = (8 * Z.of_nat (length (msg ++ [b])) / 2 ^ bits) mod 2 ^ bits) as Eb
    by (rewrite absorb_len1, (counted_next msg c Hr), E1, carry_step, Hl, Nat2Z.inj_add by lia; done).
  pose proof (absorb_hv c b Hwl) as Hh. rewrite (full_rest msg c Hr) in Hh.
  destruct (Nat.eqb_spec (length (rest msg)) (16 * wb - 1)) as [Ef|Ef].
  - assert (length (msg ++ [b]) / (16 * wb) = S (length msg / (16 * wb)))%nat as Hd
      by (rewrite Hl; symmetry; apply Nat.div_unique with 0%nat; lia).
    assert (rest (msg ++ [b]) = []) as Hrest by (unfold rest; rewrite Hd; apply drop_ge; lia).
    split; [done..| |].
    + rewrite Hh, Hd, hash_blocks_snoc, hash_blocks_app, <- Eh by lia. f_equal.
      rewrite (W_full wb wb_cases _ _ 16 HW') by (rewrite ?length_app; cbn [length]; lia). rewrite take_ge by done.
      rewrite drop_app_le by lia. fold (rest msg). rewrite (take_ge (_ ++ _)); [done|].
      rewrite length_app. cbn [length]. lia.
    + rewrite Hrest. apply W_nil; [done|]. intros i Hi. by apply HWa.
  - assert (length (msg ++ [b]) / (16 * wb) = length msg / (16 * wb))%nat as Hd
      by (rewrite Hl; symmetry; apply Nat.div_unique with (length (rest msg) + 1)%nat; lia).
    split; [done..| |].
    + rewrite Hh, Hd, hash_blocks_app by lia. done.
    + unfold rest. rewrite Hd, drop_app_le by lia. apply HWa.
Qed.

Lemma repr_message bs : forall msg c, repr msg c -> bytes_ok bs -> repr (msg ++ bs) (foldl absorb c bs).
Proof.
  induction bs as [|b bs IH]; intros msg c Hr Hbs; [by rewrite app_nil_r|].
  apply Forall_cons in Hbs as [Hb Hbs].
  replace (msg ++ b :: bs) with ((msg ++ [b]) ++ bs) by (by rewrite <- app_assoc).
  apply IH; [|done]. by apply repr_step.
Qed.

(** The padding stops within its fuel, after [n] zeros. *)
Lemma pad_repr n : forall fuel msg c,
  repr msg c -> (Z.of_nat (length msg) + Z.of_nat n) mod (16 * Z.of_nat wb) = 14 * Z.of_nat wb ->
  (n < 16 * wb)%nat -> (n < fuel)%nat -> repr (msg ++ replicate n 0) (pad fuel c).
Proof.
  induction n as [|n IH]; intros [|fuel] msg c Hr Hm Hn Hf; try lia; cbn [pad replicate].
  - rewrite app_nil_r, (repr_len0 _ _ Hr). rewrite Z.add_0_r in Hm.
    replace (_ =? _) with true; [done|]. symmetry. apply Z.eqb_eq. width_lia.
  - rewrite (repr_len0 _ _ Hr). destruct (Z.eqb_spec ((8 * Z.of_nat (length msg)) mod 2 ^ bits mod (128 * Z.of_nat wb)) (112 * Z.of_nat wb)) as [E|E].
    { exfalso. clear -HL Hm E Hn. width_lia. }
    replace (msg ++ 0 :: replicate n 0) with ((msg ++ [0]) ++ replicate n 0) by (by rewrite <- app_assoc).
    apply IH; [by apply repr_step| |lia|lia]. rewrite length_app. cbn [length]. rewrite <- Hm. f_equal. lia.
Qed.

Lemma be_length_field x :
  let L := reverse (le_split (2 * wb) x) in
  be (take wb L) = (x / 2 ^ bits) mod 2 ^ bits /\ be (take wb (drop wb L)) = x mod 2 ^ bits.
Proof.
  cbv zeta. replace (2 * wb)%nat with (wb + wb)%nat by lia. rewrite le_split_add, reverse_app.
  rewrite take_app_length', drop_app_length' by (by rewrite length_reverse, length_le_split).
  rewrite (take_ge (reverse (le_split wb x))) by (by rewrite length_reverse, length_le_split).
  by rewrite !be_reverse, !le_combine_split.
Qed.

Lemma words_last p x : length p = (14 * wb)%nat ->
  words wb (p ++ reverse (le_split (2 * wb) x)) = take 14 (words wb p) ++ [(x / 2 ^ bits) mod 2 ^ bits; x mod 2 ^ bits].
Proof.
  intros Hp. destruct (be_length_field x) as [E1 E2]. rewrite <- E1, <- E2.
  set (L := reverse (le_split (2 * wb) x)). unfold words.
  change (seq 0 16) with (@app nat (seq 0 14) [14; 15]%nat).
  rewrite !map_app, take_app_length' by (by rewrite length_map, length_seq). f_equal.
  - apply map_ext_in. intros i Hi%in_seq. unfold chunk. rewrite drop_app_le by nia.
    by rewrite take_app_le by (rewrite length_drop; nia).
  - cbn [map]. unfold chunk. rewrite drop_app_ge by lia. rewrite (drop_app_ge _ _ (wb * 15)) by lia.
    rewrite Hp. replace (wb * 14 - 14 * wb)%nat with 0%nat by lia. by replace (wb * 15 - 14 * wb)%nat with wb by lia.
Qed.

(** The last compression yields the hash of the padded message. *)
Lemma last_hash fuel msg c : repr msg c -> (16 * wb <= fuel)%nat -> last_state fuel c = md_hash wb compress h0 msg.
Proof.
  intros Hr Hf. pose proof wb_pos as Hpos. set (n := Z.of_nat (length msg)). set (z := Z.to_nat (pad_len wb n)).
  assert (0 < 16 * Z.of_nat wb) as HB by lia. pose proof (Z.mod_pos_bound (14 * Z.of_nat wb - 1 - n) _ HB) as Hz0.
  assert (Z.of_nat z = (14 * Z.of_nat wb - 1 - n) mod (16 * Z.of_nat wb)) as Hz by (unfold z, pad_len; lia).
  assert ((n + 1 + Z.of_nat z) mod (16 * Z.of_nat wb) = 14 * Z.of_nat wb) as Hmod.
  { rewrite Hz, Zplus_mod_idemp_r. replace (n + 1 + (14 * Z.of_nat wb - 1 - n)) with (14 * Z.of_nat wb) by lia.
    apply Z.mod_small. lia. }
  assert (repr ((msg ++ [0x80]) ++ replicate z 0) (pad fuel (absorb c 0x80))) as Hpad.
  { apply pad_repr; [by apply repr_step| |lia|lia]. rewrite length_app. cbn [length].
    rewrite Nat2Z.inj_add. exact Hmod. }
  set (m := (msg ++ [0x80]) ++ replicate z 0) in *. set (c2 := pad fuel (absorb c 0x80)) in *.
  assert (length m = (length msg + 1 + z)%nat) as Hm by (unfold m; by rewrite !length_app, length_replicate).
  assert (length m mod (16 * wb) = 14 * wb)%nat as Hm14.
  { apply Nat2Z.inj. rewrite Nat2Z.inj_mod, Hm, !Nat2Z.inj_mul, !Nat2Z.inj_add. exact Hmod. }
  pose proof (length_rest m) as Hlr. rewrite Hm14 in Hlr. pose proof (repr_w _ _ Hpad) as HW.
  destruct Hr as [E0 E1 _ _]. unfold last_state. cbv zeta. fold c2.
  rewrite (W_full wb wb_cases _ _ 14 HW) by lia. rewrite E0, E1. fold n. rewrite <- words_last by done.
  assert (padded wb msg = m ++ reverse (le_split (2 * wb) (8 * n))) as Ep by (unfold padded, m, z; by rewrite <- !app_assoc).
  pose proof (Nat.div_mod_eq (length m) (16 * wb)) as D.
  assert (length (padded wb msg) / (16 * wb) = S (length m / (16 * wb)))%nat as Hq.
  { rewrite Ep, length_app, length_reverse, length_le_split. symmetry. apply Nat.div_unique with 0%nat; lia. }
  unfold md_hash. rewrite Hq, hash_blocks_snoc, Ep, hash_blocks_app by lia. rewrite (repr_h _ _ Hpad). f_equal. f_equal.
  rewrite drop_app_le by lia. fold (rest m). symmetry. apply take_ge.
  rewrite length_app, length_reverse, length_le_split. lia.
Qed.

(** A hash started from a fresh context. *)
Lemma repr_fresh c : len0 c = 0 -> len1 c = 0 -> hv c = h0 -> length (wv c) = 80%nat -> take 16 (wv c) = replicate 16 0 ->
  repr [] c.
Proof.
  intros E0 E1 Eh Hl Ew. split.
  - by rewrite E0, Z.mod_0_l by lia.
  - by rewrite E1, Z.div_0_l, Z.mod_0_l by lia.
  - cbn [length]. by rewrite Nat.Div0.div_0_l.
  - unfold rest. rewrite drop_nil. apply W_nil; [done|]. intros i Hi. rewrite <- (at_take _ 16), Ew by lia. unfold at_, Sha256.at_.
    rewrite lookup_replicate_2 by lia. cbn. lia.
Qed.

Lemma stream_hash fuel c msg :
  len0 c = 0 -> len1 c = 0 -> hv c = h0 -> length (wv c) = 80%nat -> take 16 (wv c) = replicate 16 0 ->
  bytes_ok msg -> (16 * wb <= fuel)%nat ->
  last_state fuel (foldl absorb c msg) = md_hash wb compress h0 msg.
Proof.
  intros E0 E1 Eh Hl Ew Hm Hf. apply last_hash; [|done]. rewrite <- (app_nil_l msg) at 1.
  apply repr_message; [by apply repr_fresh|done].
Qed.
End laws.
