(* ===== verification/Sha256Spec.v ===== *)
(** * Sha256Spec: the streaming SHA-256 computes the reference hash

    The code obeys the laws of a hash that takes a message byte by byte. *)

From S2P Require Import Prelude Sha256 StreamHash.
Import Sha256.

(** ** The compression function *)
Definition next_word (w : list Z) (j : nat) : Z :=
  u32 (theta1 (at_ w (j - 2)) + at_ w (j - 7) + theta0 (at_ w (j - 15)) + at_ w (j - 16)).

Lemma next_word_take w j : (16 <= j)%nat -> next_word (take j w) j = next_word w j.
Proof. intros Hj. unfold next_word. by rewrite !at_take by lia. Qed.

Lemma schedule_fold w : length w = 80%nat ->
  let w' := foldl schedule_step w (seq 16 48) in
  length w' = 80%nat /\ take 64 w' = schedule (take 16 w) /\ take 16 w' = take 16 w.
Proof.
  intros Hw. destruct (fill_grow next_word next_word_take w 48) as [Hl Ht]; [lia|].
  split; [by rewrite <- Hw|]. split; [exact Ht|]. apply (fill_low next_word). lia.
Qed.

Lemma transform_h c : length (w c) = 80%nat -> h (shs_transform c) = compress (h c) (take 16 (w c)).
Proof.
  intros Hw. unfold shs_transform, compress. cbn [h]. f_equal.
  apply foldl_ext_in. intros v j [Hj1 Hj2]%elem_of_seq.
  destruct (schedule_fold (w c) Hw) as (_ & <- & _). unfold round. by rewrite at_take by lia.
Qed.

(** ** The laws *)
#[export] Instance sha256_stream : Stream ctx := {|
  wb := 4; len0 := length0; len1 := length1; hv := h; wv := w; absorb := shs256_process; StreamHash.compress := compress
|}.

Lemma counted_u32 c : counted c = length0 c +₃₂ 8.
Proof. symmetry. apply u32_mod. Qed.

Lemma shifted_w c b : shifted c b =
  let cnt := Z.to_nat ((length0 c / 32) mod 16) in
  <[cnt := Z.lor (at_ (w c) cnt <<₃₂ 8) (Z.land b 0xFF)]> (w c).
Proof.
  unfold shifted. cbv zeta. rewrite Z.shiftl_mul_pow2, u32_mod by lia. reflexivity.
Qed.

#[export] Instance sha256_laws : StreamLaws ctx.
Proof.
  split; [by left|..].
  - intros c b. rewrite counted_u32. unfold absorb, sha256_stream, shs256_process. by destruct (_ mod 512 =? 0).
  - intros c b. rewrite counted_u32. unfold absorb, sha256_stream, shs256_process.
    cbn [len1]. rewrite <- u32_mod. by destruct (_ mod 512 =? 0).
  - intros c b Hw. unfold full. rewrite counted_u32, shifted_w.
    change (hv (absorb c b)) with (h (shs256_process c b)). change (128 * Z.of_nat wb) with 512.
    unfold shs256_process. destruct (_ mod 512 =? 0); [|done]. apply transform_h. cbn [w]. cbv zeta. by rewrite length_insert.
  - intros c b Hw. rewrite shifted_w. change (wv (absorb c b)) with (w (shs256_process c b)).
    unfold shs256_process. cbv zeta. destruct (_ mod 512 =? 0); [|split; [cbn [w]; by rewrite length_insert|done]].
    edestruct schedule_fold as (Hl & _ & Ht); [|split; [exact Hl|exact Ht]]. cbn [w]. by rewrite length_insert.
Qed.

(** ** Initialise and finish *)
Lemma pad_zeros_pad fuel c : pad_zeros fuel c = pad fuel c.
Proof. revert c. induction fuel as [|fuel IH]; intros c; [done|]. cbn [pad_zeros pad]. by rewrite IH. Qed.

Lemma finish_last c : length (w c) = 80%nat ->
  fst (shs256_hash c) = digest_of (last_state 64 c).
Proof.
  intros Hl. pose proof (pad_length 64 _ (absorb_length c PAD Hl)) as Hp. unfold shs256_hash. cbv zeta. rewrite pad_zeros_pad. cbn [fst]. f_equal.
  rewrite transform_h by (cbn [w]; by rewrite !length_insert). cbn [w h]. unfold last_state. cbv zeta. f_equal.
  by apply take_set_length.
Qed.

(** The context after the bytes [msg], as the other files see it. *)
Abbreviation repr := (StreamHash.repr (C:=ctx) H_init).

Lemma repr_init c : length (w c) = 80%nat -> repr [] (shs256_init c).
Proof.
  intros Hw. apply repr_fresh; [done..| |]; cbn [wv sha256_stream w shs256_init].
  - rewrite length_app, length_replicate, length_drop. lia.
  - by rewrite take_app_le, take_replicate by (rewrite length_replicate; lia).
Qed.

Lemma repr_absorb bs msg c : repr msg c -> bytes_ok bs -> repr (msg ++ bs) (foldl shs256_process c bs).
Proof. exact (repr_message (C:=ctx) H_init bs msg c). Qed.

(** The reference is the general one at this width. *)
Lemma sha256_md msg : sha256 msg = digest_of (md_hash 4 compress H_init msg).
Proof. reflexivity. Qed.

Lemma finish_repr msg c : repr msg c -> fst (shs256_hash c) = sha256 msg.
Proof.
  intros Hr. rewrite finish_last by apply (repr_w H_init _ _ Hr). rewrite sha256_md. f_equal.
  exact (last_hash (C:=ctx) H_init 64 msg c Hr (le_n 64)).
Qed.

(** A digest is 32 bytes. *)
Lemma length_sha256 msg : length (sha256 msg) = 32%nat.
Proof. unfold sha256, digest_of. by rewrite length_map, length_seq. Qed.

Lemma sha256_bytes msg : bytes_ok (sha256 msg).
Proof.
  unfold sha256, digest_of. apply Forall_forall. intros b Hb.
  apply list_elem_of_fmap in Hb as (i & -> & _). unfold digest_byte. apply u8_range.
Qed.

(** ** Theorems *)

(** [C10] Equivalence with the reference hash: initialising any context,
    absorbing a message byte by byte and finishing yields the digest of the
    padded message compressed block by block, whatever the context held
    before, and leaves a freshly initialised context. *)
Theorem sha256_streaming_correct c msg :
  length (w c) = 80%nat -> bytes_ok msg ->
  hashit c msg = sha256 msg.
Proof.
  intros Hw Hm. unfold hashit. apply finish_repr. rewrite <- (app_nil_l msg) at 1.
  apply repr_absorb; [by apply repr_init|done].
Qed.

Lemma sha256_streaming_correct_witness :
  hashit zero_ctx [97; 98; 99] = sha256 [97; 98; 99].
Proof.
  apply (sha256_streaming_correct zero_ctx [97; 98; 99]); [done|].
  repeat constructor; done.
Defined.
