(* ===== verification/Rsa.v ===== *)
(** * Rsa: the RSA-2048 signature check of the boot ROM
      (common/vendors/MIRACL/bootrom.c, lines 264-590)

    Big numbers are arrays of [MODSIZE] 32-bit digits, least significant
    first.  The library is compiled in its FAST_BUT_BIGGER configuration with
    the exponent 65537. *)

From S2P Require Import Prelude Sha256.

Module Rsa.

Definition REGBITS : Z := 32.
Definition REGBYTES : nat := 4.
Definition MODSIZE : nat := 64.
Definition RSABYTES : nat := 256.

(** Array read; the loops below stay within their arrays. *)
Abbreviation at_ := Sha256.at_.

(** SHA256 identifier string *)
Definition SHA256ID : list Z :=
  [0x30; 0x31; 0x30; 0x0d; 0x06; 0x09; 0x60; 0x86; 0x48; 0x01; 0x65; 0x03; 0x04; 0x02; 0x01;
   0x05; 0x00; 0x04; 0x20].

(** Compare from the most significant digit down; [n] digits remain. *)
Fixpoint tr_compare_loop (n : nat) (x y : list Z) : Z :=
  match n with
  | O => 0
  | S i => if at_ x i <? at_ y i then -1
           else if at_ y i <? at_ x i then 1
           else tr_compare_loop i x y
  end.

Definition tr_compare (x y : list Z) : Z := tr_compare_loop MODSIZE x y.

(** ** Multiplication *)

(** The inner loop of [tr_multiply]: digit [xi] times all of [y], added into
    [z] at offset [i]; the state is [(z, carry)]. *)
Definition mul_digit (i : nat) (xi : Z) (y : list Z) (zc : list Z * Z) (j : nat) : list Z * Z :=
  let '(z, carry) := zc in
  let dble := u64 (xi * at_ y j + carry + at_ z (i + j)) in
  (<[(i + j)%nat := u32 dble]> z, u32 (Z.shiftr dble REGBITS)).

Definition mul_row (x y : list Z) (z : list Z) (i : nat) : list Z :=
  let '(z, carry) := foldl (mul_digit i (at_ x i) y) (z, 0) (seq 0 MODSIZE) in
  <[(MODSIZE + i)%nat := carry]> z.

Definition tr_multiply (x y : list Z) : list Z :=
  foldl (mul_row x y) (replicate (2 * MODSIZE + 1) 0) (seq 0 MODSIZE).

(** ** Division *)

(** Refine the guessed quotient digit: [while (carry==0) ...].  The guard
    stops after at most [2^32 / ldy + 1] rounds, because every round adds
    [ldy] to [ra] until it wraps. *)
Fixpoint refine (fuel : nat) (attemp ra ldy sdy xkm1 : Z) : option Z :=
  match fuel with
  | O => None
  | S fuel =>
      let dble := u64 (attemp * sdy) in
      let r := u32 dble in
      let tst := u32 (Z.shiftr dble REGBITS) in
      if (tst <? ra) || ((tst =? ra) && (r <=? xkm1)) then Some attemp
      else
        let attemp := attemp -₃₂ 1 in
        let ra := ra +₃₂ ldy in
        if ra <? ldy then Some attemp else refine fuel attemp ra ldy sdy xkm1
  end.

Definition refine_fuel (ldy : Z) : nat := Z.to_nat (2 ^ 32 / ldy + 2).

(** Guess the next quotient digit from the two top digits. *)
Definition guess (xk1 xk xkm1 ldy sdy : Z) : option Z :=
  if xk1 =? ldy then
    let attemp := 2 ^ 32 - 1 in
    let ra := ldy +₃₂ xk in
    if ra <? ldy then Some attemp else refine (refine_fuel ldy) attemp ra ldy sdy xkm1
  else if ldy =? 0 then None
  else
    let dble := u64 (u64 (Z.shiftl xk1 REGBITS) + xk) in
    let attemp := u32 (dble / ldy) in
    let ra := u32 (u64 (dble - u64 (attemp * ldy))) in
    refine (refine_fuel ldy) attemp ra ldy sdy xkm1.

(** Partial subtraction of [attemp * y] at offset [m]; state [(x, borrow)]. *)
Definition sub_digit (m : nat) (attemp : Z) (y : list Z) (xb : list Z * Z) (i : nat) : list Z * Z :=
  let '(x, borrow) := xb in
  let dble := u64 (attemp * at_ y i + borrow) in
  let dig := u32 dble in
  let borrow := u32 (Z.shiftr dble REGBITS) in
  let borrow := if at_ x (m + i) <? dig then borrow +₃₂ 1 else borrow in
  (<[(m + i)%nat := at_ x (m + i) -₃₂ dig]> x, borrow).

(** Compensation: add [y] back at offset [m]; state [(x, carry)]. *)
Definition add_digit (m : nat) (y : list Z) (xc : list Z * Z) (i : nat) : list Z * Z :=
  let '(x, carry) := xc in
  let psum := u32 (at_ x (m + i) + at_ y i + carry) in
  let carry := if at_ y i <? psum then 0 else carry in
  let carry := if psum <? at_ y i then 1 else carry in
  (<[(m + i)%nat := psum]> x, carry).

(** One step of the long division, for quotient position [k]. *)
Definition div_step (y : list Z) (x : list Z) (k : nat) : option (list Z) :=
  let ldy := at_ y (MODSIZE - 1) in
  let sdy := at_ y (MODSIZE - 2) in
  attemp ← guess (at_ x (k + 1)) (at_ x k) (at_ x (k - 1)) ldy sdy;
  let m := (k + 1 - MODSIZE)%nat in
  if 0 <? attemp then
    let '(x, borrow) := foldl (sub_digit m attemp y) (x, 0) (seq 0 MODSIZE) in
    if at_ x (k + 1) <? borrow then
      let x := <[(k + 1)%nat := 0]> x in
      Some (fst (foldl (add_digit m y) (x, 0) (seq 0 MODSIZE)))
    else Some (<[(k + 1)%nat := at_ x (k + 1) -₃₂ borrow]> x)
  else Some x.

(** [for (k=w00-1;k>=MODSIZE-1;k--)]: [n] positions remain, the next is
    [MODSIZE - 2 + n].  The variable [w00] only feeds its own decrement after
    the loop bound has been read, so it is not part of the state. *)
Fixpoint div_loop (y : list Z) (n : nat) (x : list Z) : option (list Z) :=
  match n with
  | O => Some x
  | S n => x ← div_step y x (MODSIZE - 1 + n); div_loop y n x
  end.

Definition tr_divide (x y : list Z) : option (list Z) := div_loop y (MODSIZE + 1) x.

Definition tr_modmul (a b m : list Z) : option (list Z) :=
  t ← tr_divide (tr_multiply a b) m; Some (take MODSIZE t).

(** ** Exponentiation: [c = s^65537 mod m] *)

(** The seven rounds of two squarings. *)
Fixpoint square_pairs (n : nat) (m c : list Z) : option (list Z) :=
  match n with
  | O => Some c
  | S n => t ← tr_modmul c c m; c ← tr_modmul t t m; square_pairs n m c
  end.

Definition tr_rsa_pow (m s : list Z) : option (list Z) :=
  c ← tr_modmul s s m;
  c ← square_pairs 7 m c;
  t ← tr_modmul c c m;
  tr_modmul s t m.

(** ** Conversion *)

Definition tr_putbyte (b : Z) (index : nat) (x : list Z) : list Z :=
  if (RSABYTES <=? index)%nat then x
  else
    let el := (index / REGBYTES)%nat in
    let bp := Z.of_nat (index mod REGBYTES) in
    let w := Z.land (at_ x el) (u32 (Z.shiftl 0xFF (8 * bp))) in
    let v := Z.lxor (at_ x el) w in
    <[el := Z.lor v (u32 (Z.shiftl (u8 b) (8 * bp)))]> x.

Definition tr_convert (n pk : list Z) : list Z :=
  foldl (λ pk i, tr_putbyte (at_ n i) (RSABYTES - i - 1) pk) pk (seq 0 RSABYTES).

(** The padded digest [d] that [rsa_verify] builds digit by digit. *)
Definition padded_digest (h : list Z) : list Z :=
  let d := replicate MODSIZE 0 in
  let d := tr_putbyte 0 (RSABYTES - 1) d in
  let d := tr_putbyte 1 (RSABYTES - 2) d in
  let d := foldl (λ d i, tr_putbyte (at_ h i) (31 - i) d) d (seq 0 32) in
  let d := foldl (λ d i, tr_putbyte (at_ SHA256ID i) (32 + 19 - 1 - i) d) d (seq 0 19) in
  let d := tr_putbyte 0 51 d in
  foldl (λ d i, tr_putbyte 0xff i d) d (seq 52 (RSABYTES - 2 - 52)).

(** PKCS#1 v1.5 padding of a digest into a byte buffer [m]. *)
Definition pkcs_v15 (h m : list Z) : list Z :=
  let m := <[0%nat := 0]> m in
  let m := <[1%nat := 1]> m in
  let m := foldl (λ m i, <[(RSABYTES + i - 32)%nat := at_ h i]> m) m (seq 0 32) in
  let m := foldl (λ m i, <[(RSABYTES + i - 51)%nat := at_ SHA256ID i]> m) m (seq 0 19) in
  let m := <[(RSABYTES - 52)%nat := 0]> m in
  foldl (λ m i, <[(RSABYTES - 1 - i)%nat := 0xff]> m) m (seq 52 (RSABYTES - 2 - 52)).

(** [rsa_verify(h, pub, sig)]; [n0] and [s0] are the uninitialised stack
    arrays the conversion writes into.  [None] is a division by zero. *)
Definition rsa_verify_from (n0 s0 h pub sig : list Z) : option Z :=
  let n := tr_convert pub n0 in
  let s := tr_convert sig s0 in
  let d := padded_digest h in
  c ← tr_rsa_pow n s;
  Some (if tr_compare d c =? 0 then 1 else 0).

Definition rsa_verify (h pub sig : list Z) : option Z :=
  rsa_verify_from (replicate MODSIZE 0) (replicate MODSIZE 0) h pub sig.

(** The verdict is 0 or 1. *)
Lemma verdict_of_compare (d : list Z) (o : option (list Z)) v :
  (c ← o; Some (if tr_compare d c =? 0 then 1 else 0)) = Some v -> v = 0 \/ v = 1.
Proof.
  destruct o as [c|]; [|done]. simpl. destruct (tr_compare d c =? 0); intros [= <-]; auto.
Qed.

Lemma rsa_verify_verdict h pub sig v : rsa_verify h pub sig = Some v -> v = 0 \/ v = 1.
Proof. exact (verdict_of_compare _ _ v). Qed.

End Rsa.
