(* ===== verification/RsaSpec.v ===== *)
(** * RsaSpec: the signature check computes RSA with PKCS#1 v1.5 padding

    A digit array stands for the number [V x 0 MODSIZE] in base [2^32].  One
    lemma per routine of Rsa.v says which number it computes: the product,
    the remainder, the power [s^65537 mod n], the number a byte string spells
    and the padded digest.  Together they give the verdict of [rsa_verify] as
    an equation on integers. *)

From S2P Require Import Prelude Sha256 StreamHash Sha256Spec Rsa.
Import Rsa.

Module RsaSpec.

(** ** Values of digit arrays *)

Abbreviation Bw := (2 ^ 32).

(** [V x a n]: the [n] digits of [x] from index [a], as a number. *)
Fixpoint V (x : list Z) (a n : nat) : Z :=
  match n with
  | O => 0
  | S n => V x a n + at_ x (a + n) * Bw ^ Z.of_nat n
  end.

Abbreviation digits := (Forall is_u32).

Lemma digits_at x i : digits x -> is_u32 (at_ x i).
Proof.
  intros Hx. unfold at_. destruct (x !! i) as [d|] eqn:E; simpl; [|done].
  by eapply Forall_lookup_1.
Qed.

Lemma digits_insert x i d : digits x -> is_u32 d -> digits (<[i := d]> x).
Proof. intros. by apply Forall_insert. Qed.
#[local] Hint Resolve digits_at digits_insert u32_range : core.

Lemma powB_S n : Bw ^ Z.of_nat (S n) = Bw * Bw ^ Z.of_nat n.
Proof. rewrite Nat2Z.inj_succ, Z.pow_succ_r by lia. done. Qed.

Lemma powB_pos n : 0 < Bw ^ Z.of_nat n.
Proof. apply Z.pow_pos_nonneg; lia. Qed.

Lemma powB_add a b : Bw ^ Z.of_nat (a + b) = Bw ^ Z.of_nat a * Bw ^ Z.of_nat b.
Proof. rewrite Nat2Z.inj_add, Z.pow_add_r by lia. done. Qed.

Lemma V_bound x a n : digits x -> 0 <= V x a n < Bw ^ Z.of_nat n.
Proof.
  intros Hx. induction n as [|n IH]; cbn [V]; [done|]. rewrite powB_S.
  pose proof (digits_at x (a + n) Hx) as [? ?]. pose proof (powB_pos n). nia.
Qed.

Lemma V_ext x y a b n :
  (forall i, (i < n)%nat -> at_ x (a + i) = at_ y (b + i)) -> V x a n = V y b n.
Proof.
  induction n as [|n IH]; intros H; cbn [V]; [done|]. rewrite IH, H by auto with lia. done.
Qed.

(** Splitting a number at a digit. *)
Lemma V_add x a n k : V x a (n + k) = V x a n + Bw ^ Z.of_nat n * V x (a + n) k.
Proof.
  induction k as [|k IH]; rewrite ?Nat.add_0_r; cbn [V]; [lia|].
  rewrite Nat.add_succ_r. cbn [V]. rewrite IH, powB_add.
  replace (a + (n + k))%nat with (a + n + k)%nat by lia. ring.
Qed.

Lemma V_zero x a n : (forall i, (i < n)%nat -> at_ x (a + i) = 0) -> V x a n = 0.
Proof.
  induction n as [|n IH]; intros H; cbn [V]; [done|]. rewrite IH, H by auto with lia. lia.
Qed.

(** Equal numbers have equal digits. *)
Lemma V_inj x y a b n :
  digits x -> digits y -> V x a n = V y b n ->
  forall i, (i < n)%nat -> at_ x (a + i) = at_ y (b + i).
Proof.
  intros Hx Hy. induction n as [|n IH]; intros E i Hi; [lia|]. cbn [V] in E.
  pose proof (V_bound x a n Hx). pose proof (V_bound y b n Hy).
  assert (at_ x (a + n) = at_ y (b + n)) as Et by nia.
  destruct (decide (i = n)) as [->|]; [done|]. apply IH; [|lia]. rewrite Et in E. lia.
Qed.

(** One wrap, down or up. *)
Lemma u32_over x : Bw <= x < 2 * Bw -> u32 x = x - Bw.
Proof. intros. rewrite u32_mod. symmetry. apply (Z.mod_unique_pos _ _ 1); lia. Qed.

Lemma u32_under x : - Bw <= x < 0 -> u32 x = x + Bw.
Proof. intros. rewrite u32_mod. symmetry. apply (Z.mod_unique_pos _ _ (-1)); lia. Qed.

(** A product of two words and two more words fit a double word. *)
Lemma fma_bound a b c d :
  is_u32 a -> is_u32 b -> is_u32 c -> is_u32 d -> 0 <= a * b + c + d < 2 ^ 64.
Proof. unfold is_u32. change (2 ^ 64) with (Bw * Bw). nia. Qed.

Lemma u64_small x : 0 <= x < 2 ^ 64 -> u64 x = x.
Proof. rewrite u64_mod. apply Z.mod_small. Qed.

(** The low and high words of a double word. *)
Lemma hi_lo d : 0 <= d < 2 ^ 64 ->
  u32 (Z.shiftr d REGBITS) * Bw + u32 d = d.
Proof.
  intros Hd. unfold REGBITS. rewrite Z.shiftr_div_pow2 by lia.
  assert (is_u32 (d / Bw)) as Hq by (split; [apply Z.div_pos | apply Z.div_lt_upper_bound]; lia).
  rewrite (u32_small _ Hq), u32_mod. pose proof (Z_div_mod_eq_full d Bw). lia.
Qed.

(** ** Multiplication *)

Lemma mul_digits i xi y z n :
  is_u32 xi -> digits y -> digits z -> (i + n <= length z)%nat ->
  let '(z', carry) := foldl (mul_digit i xi y) (z, 0) (seq 0 n) in
  length z' = length z /\ digits z' /\ is_u32 carry /\
  V z' i n + carry * Bw ^ Z.of_nat n = xi * V y 0 n + V z i n /\
  forall j, (j < i \/ i + n <= j)%nat -> at_ z' j = at_ z j.
Proof.
  intros Hxi Hy Hz. induction n as [|n IH]; intros Hl.
  { cbn [seq foldl V]. split_and!; auto; [done|lia]. }
  rewrite seq_S, foldl_app. cbn [foldl]. specialize (IH ltac:(lia)).
  destruct foldl as [z1 carry]. destruct IH as (Hl1 & Hz1 & Hc & Hv & Hsame).
  cbn [mul_digit Nat.add V]. rewrite Hsame by lia.
  pose proof (fma_bound xi (at_ y n) carry (at_ z (i + n)) ltac:(auto) ltac:(auto) ltac:(auto) ltac:(auto)) as Hb.
  rewrite u64_small by done. pose proof (hi_lo _ Hb) as Hhl.
  split_and!; [by rewrite length_insert|auto|auto| |].
  - rewrite at_insert, decide_True, powB_S by (done || lia).
    rewrite (V_ext _ z1 i i n) by (intros k Hk; rewrite at_insert, decide_False by lia; done).
    set (P := Bw ^ Z.of_nat n) in *. nia.
  - intros j Hj. rewrite at_insert, decide_False by lia. apply Hsame. lia.
Qed.

(** After [i] rows the array holds the product with the [i] low digits. *)
Lemma mul_rows x y n i :
  digits x -> digits y -> (i <= n)%nat ->
  let row z k :=
    let '(z, carry) := foldl (mul_digit k (at_ x k) y) (z, 0) (seq 0 n) in <[(n + k)%nat := carry]> z in
  let z := foldl row (replicate (2 * n + 1) 0) (seq 0 i) in
  length z = (2 * n + 1)%nat /\ digits z /\ V z 0 (n + i) = V x 0 i * V y 0 n /\
  forall j, (n + i <= j)%nat -> at_ z j = 0.
Proof.
  intros Hx Hy Hi row. induction i as [|i IH].
  { assert (Hz : forall j, at_ (replicate (2 * n + 1) 0) j = 0).
    { intros j. unfold at_. destruct (_ !! j) eqn:E; [|done].
      by apply lookup_replicate in E as [-> _]. }
    cbn [seq foldl V]. split_and!; [apply length_replicate| |apply V_zero; auto|auto].
    by apply Forall_replicate. }
  rewrite seq_S, foldl_app. cbn [foldl]. destruct (IH ltac:(lia)) as (Hl & Hz & Hv & Hhigh).
  set (z := foldl row _ (seq 0 i)) in *. cbn zeta. clearbody z. unfold row at 1 2 3 4. clear IH.
  pose proof (mul_digits i (at_ x i) y z n ltac:(auto) Hy Hz ltac:(lia)) as M.
  cbn [Nat.add]. destruct foldl as [z1 carry]. destruct M as (Hl1 & Hz1 & Hc & Hv1 & Hsame).
  split_and!; [by rewrite length_insert, Hl1|auto| |].
  - replace (n + S i)%nat with (i + n + 1)%nat by lia. rewrite V_add. cbn [V Nat.add].
    rewrite at_insert, decide_True by lia.
    rewrite (V_ext _ z1 0 0 (i + n)) by (intros k Hk; rewrite at_insert, decide_False by lia; done).
    rewrite V_add. rewrite (V_ext z1 z 0 0 i) by (intros; apply Hsame; lia).
    replace (n + i)%nat with (i + n)%nat in Hv by lia. rewrite V_add in Hv.
    rewrite powB_add. cbn [Nat.add] in *. set (P := Bw ^ Z.of_nat i) in *.
    set (Q := Bw ^ Z.of_nat n) in *. nia.
  - intros j Hj. rewrite at_insert, decide_False by lia. rewrite Hsame by lia. apply Hhigh. lia.
Qed.

(** The product of two numbers, and a zero digit on top. *)
Lemma tr_multiply_value x y :
  digits x -> digits y ->
  let z := tr_multiply x y in
  length z = (2 * MODSIZE + 1)%nat /\ digits z /\
  V z 0 (2 * MODSIZE) = V x 0 MODSIZE * V y 0 MODSIZE /\ at_ z (2 * MODSIZE) = 0.
Proof.
  intros Hx Hy. destruct (mul_rows x y MODSIZE MODSIZE Hx Hy (le_n _)) as (Hl & Hz & Hv & Hh).
  split_and!; auto.
Qed.

(** ** Division *)

(** [a] is the quotient digit that the three top digits [X3] of the dividend
    and the two top digits [v] of the divisor suggest. *)
Definition estimate (X3 v a : Z) : Prop :=
  is_u32 a /\ a * v <= X3 /\ (a = Bw - 1 \/ X3 < (a + 1) * v).

(** The refinement ends: each round adds [ldy] to [ra], and it stops when
    the sum passes a word. *)
Lemma refine_estimate fuel a ra ldy sdy x0 D :
  is_u32 a -> is_u32 ra -> is_u32 ldy -> is_u32 sdy -> is_u32 x0 -> 0 < ldy ->
  ra = D - a * ldy -> Bw <= ra + Z.of_nat fuel * ldy ->
  (a = Bw - 1 \/ D * Bw + x0 < (a + 1) * (ldy * Bw + sdy)) ->
  exists a', refine fuel a ra ldy sdy x0 = Some a' /\
    estimate (D * Bw + x0) (ldy * Bw + sdy) a'.
Proof.
  intros Ha Hra Hl Hs Hx Hl0. revert a ra Ha Hra. induction fuel as [|fuel IH];
    intros a ra Ha Hra Era Hf Hup; [unfold is_u32 in *; lia|].
  pose proof (fma_bound a sdy 0 0 Ha Hs ltac:(done) ltac:(done)) as Hb. rewrite !Z.add_0_r in Hb.
  cbn [refine]. rewrite u64_small by done. pose proof (hi_lo _ Hb) as Hhl.
  pose proof (u32_range (a * sdy)) as [? ?].
  pose proof (u32_range (Z.shiftr (a * sdy) REGBITS)) as [? ?].
  set (r := u32 (a * sdy)) in *. set (tst := u32 (Z.shiftr (a * sdy) REGBITS)) in *.
  destruct (_ || _) eqn:T.
  { exists a. split; [done|]. split_and!; auto.
    enough (a * sdy <= ra * Bw + x0) by nia. unfold is_u32 in *. clearbody r tst.
    apply orb_true_iff in T as [T|T]; [apply Z.ltb_lt in T; nia|].
    apply andb_true_iff in T as [T1 T2]. apply Z.eqb_eq in T1. apply Z.leb_le in T2. nia. }
  assert (ra * Bw + x0 < a * sdy) as Hgt.
  { apply orb_false_iff in T as [T1 T2]. apply Z.ltb_ge in T1. unfold is_u32 in *. clearbody r tst.
    apply andb_false_iff in T2 as [T2|T2]; [apply Z.eqb_neq in T2; nia|].
    apply Z.leb_gt in T2. nia. }
  assert (1 <= a) as Ha1 by (unfold is_u32 in *; nia).
  rewrite (u32_small (a - 1)) by (unfold is_u32 in *; lia).
  assert (D * Bw + x0 < (a - 1 + 1) * (ldy * Bw + sdy)) as Hup' by nia.
  assert (is_u32 (a - 1)) as Ha' by (unfold is_u32 in *; lia).
  destruct (Z.lt_ge_cases (ra + ldy) Bw) as [Hsm|Hbig].
  - rewrite (u32_small (ra + ldy)) by (unfold is_u32 in *; lia).
    rewrite (proj2 (Z.ltb_ge _ _)) by (unfold is_u32 in *; lia).
    apply IH; auto; unfold is_u32 in *; nia.
  - rewrite (u32_over (ra + ldy)) by (unfold is_u32 in *; lia).
    rewrite (proj2 (Z.ltb_lt _ _)) by (unfold is_u32 in *; lia).
    exists (a - 1). split; [done|]. split_and!; auto. unfold is_u32 in *. nia.
Qed.

Lemma refine_fuel_enough ldy ra : 0 < ldy -> 0 <= ra -> Bw <= ra + Z.of_nat (refine_fuel ldy) * ldy.
Proof.
  intros. unfold refine_fuel. pose proof (Z_div_mod_eq_full Bw ldy) as E.
  pose proof (Z.mod_pos_bound Bw ldy ltac:(lia)). pose proof (Z.div_pos Bw ldy ltac:(lia) ltac:(lia)).
  rewrite Z2Nat.id by lia. nia.
Qed.

Lemma guess_estimate x2 x1 x0 ldy sdy :
  is_u32 x2 -> is_u32 x1 -> is_u32 x0 -> is_u32 ldy -> is_u32 sdy -> 0 < ldy -> x2 <= ldy ->
  exists a, guess x2 x1 x0 ldy sdy = Some a /\
    estimate ((x2 * Bw + x1) * Bw + x0) (ldy * Bw + sdy) a.
Proof.
  intros H2 H1 H0 Hl Hs Hl0 Hle. unfold guess. destruct (x2 =? ldy) eqn:E.
  - apply Z.eqb_eq in E as ->. destruct (Z.lt_ge_cases (ldy + x1) Bw) as [Hsm|Hbig].
    + rewrite (u32_small (ldy + x1)) by (unfold is_u32 in *; lia).
      rewrite (proj2 (Z.ltb_ge _ _)) by (unfold is_u32 in *; lia).
      apply refine_estimate; auto; unfold is_u32 in *; try lia.
      apply refine_fuel_enough; lia.
    + rewrite (u32_over (ldy + x1)) by (unfold is_u32 in *; lia).
      rewrite (proj2 (Z.ltb_lt _ _)) by (unfold is_u32 in *; lia).
      eexists. split; [done|]. split_and!; [done| |by left]. unfold is_u32 in *. nia.
  - apply Z.eqb_neq in E. rewrite (proj2 (Z.eqb_neq ldy 0)) by lia. cbv zeta.
    assert (Hsh : Z.shiftl x2 REGBITS = x2 * Bw) by (apply Z.shiftl_mul_pow2; done).
    pose proof (Z.div_pos (x2 * Bw + x1) ldy ltac:(unfold is_u32 in *; lia) Hl0).
    assert ((x2 * Bw + x1) / ldy < Bw) by (apply Z.div_lt_upper_bound; unfold is_u32 in *; nia).
    pose proof (Z_div_mod_eq_full (x2 * Bw + x1) ldy) as Hdm.
    pose proof (Z.mod_pos_bound (x2 * Bw + x1) ldy Hl0).
    set (D := x2 * Bw + x1) in *. set (q := D / ldy) in *.
    assert (0 <= D < 2 ^ 64) as HD by (unfold D, is_u32 in *; change (2 ^ 64) with (Bw * Bw); nia).
    rewrite Hsh, (u64_small (x2 * Bw)) by (unfold D, is_u32 in *; lia). fold D.
    rewrite (u64_small D) by done. fold q. rewrite (u32_small q) by done.
    rewrite (u64_small (q * ldy)) by nia. rewrite (u64_small (D - _)) by nia.
    rewrite (u32_small (D - _)) by (unfold is_u32 in *; nia).
    apply refine_estimate; auto;
      [by unfold is_u32 in *; lia|by unfold is_u32 in *; lia|apply refine_fuel_enough; lia|right].
    assert (D + 1 <= (q + 1) * ldy) as Hq by lia.
    pose proof (Z.mul_le_mono_nonneg_r _ _ Bw ltac:(lia) Hq).
    pose proof (Z.mul_nonneg_nonneg (q + 1) sdy ltac:(lia) ltac:(unfold is_u32 in *; lia)).
    rewrite Z.mul_add_distr_l, Z.mul_assoc. unfold is_u32 in *. lia.
Qed.

(** An estimate is the quotient, or one more. *)
Lemma estimate_quotient X3 Xl v Yl P a :
  estimate X3 v a -> 0 < P -> 0 <= Xl < P -> 0 <= Yl < P -> Bw <= v ->
  X3 * P + Xl < Bw * (v * P + Yl) ->
  let q := (X3 * P + Xl) / (v * P + Yl) in a = q \/ a = q + 1.
Proof.
  intros ([Ha0 Ha1] & Hav & Hup) HP HXl HYl Hv HX q.
  set (X := X3 * P + Xl) in *. set (Y := v * P + Yl) in *.
  assert (0 < Y) as HY by (unfold Y; nia).
  assert (X < (a + 1) * Y) as Hhi.
  { destruct Hup as [->|Hup]; [lia|].
    assert ((X3 + 1) * P <= (a + 1) * v * P) by nia. unfold X, Y. nia. }
  assert (a * Y <= X + Y) as Hlo.
  { pose proof (Z.mul_le_mono_nonneg_r _ _ P ltac:(lia) Hav).
    pose proof (Z.mul_le_mono_nonneg a Bw Yl P ltac:(lia) ltac:(lia) ltac:(lia) ltac:(lia)).
    pose proof (Z.mul_le_mono_nonneg_r Bw v P ltac:(lia) ltac:(lia)).
    unfold X, Y. rewrite Z.mul_add_distr_l, Z.mul_assoc. lia. }
  assert (q < a + 1) by (apply Z.div_lt_upper_bound; lia).
  assert (a - 1 <= q) by (apply Z.div_le_lower_bound; lia). lia.
Qed.

Lemma sub_digits m a y x n :
  is_u32 a -> digits y -> digits x -> (m + n <= length x)%nat ->
  let '(x', borrow) := foldl (sub_digit m a y) (x, 0) (seq 0 n) in
  length x' = length x /\ digits x' /\ is_u32 borrow /\
  V x' m n - borrow * Bw ^ Z.of_nat n = V x m n - a * V y 0 n /\
  forall j, (j < m \/ m + n <= j)%nat -> at_ x' j = at_ x j.
Proof.
  intros Ha Hy Hx. induction n as [|n IH]; intros Hl.
  { cbn [seq foldl V]. split_and!; auto; [done|lia]. }
  rewrite seq_S, foldl_app. cbn [foldl]. specialize (IH ltac:(lia)).
  destruct foldl as [x1 b]. destruct IH as (Hl1 & Hx1 & Hb & Hv & Hsame).
  cbn [sub_digit Nat.add V]. cbv zeta. rewrite Hsame by lia.
  pose proof (fma_bound a (at_ y n) b 0 ltac:(auto) ltac:(auto) ltac:(auto) ltac:(done)) as Hd.
  rewrite Z.add_0_r in Hd. assert (a * at_ y n + b <= (Bw - 1) * Bw) as Hd'.
  { pose proof (digits_at y n Hy). unfold is_u32 in *. nia. }
  rewrite u64_small by done. pose proof (hi_lo _ Hd) as Hhl.
  pose proof (u32_range (a * at_ y n + b)) as Hlo.
  pose proof (u32_range (Z.shiftr (a * at_ y n + b) REGBITS)) as Hhi.
  set (lo := u32 (a * at_ y n + b)) in *. set (hi := u32 (Z.shiftr _ _)) in *. clearbody lo hi.
  pose proof (digits_at x (m + n) Hx) as Hxd. set (d := at_ x (m + n)) in *.
  assert (exists b', (if d <? lo then hi +₃₂ 1 else hi) = b' /\ is_u32 b' /\
            u32 (d - lo) - b' * Bw = d - (a * at_ y n + b)) as (b' & -> & Hb' & Heq).
  { destruct (d <? lo) eqn:T; [apply Z.ltb_lt in T|apply Z.ltb_ge in T].
    - rewrite (u32_under (d - lo)) by (unfold is_u32 in *; lia).
      rewrite (u32_small (hi + 1)) by (unfold is_u32 in *; nia).
      eexists. split; [done|]. unfold is_u32 in *. split; nia.
    - rewrite (u32_small (d - lo)) by (unfold is_u32 in *; lia).
      eexists. split; [done|]. split; [done|lia]. }
  split_and!; [by rewrite length_insert|auto|auto| |].
  - rewrite at_insert, decide_True, powB_S by (done || lia).
    rewrite (V_ext _ x1 m m n) by (intros k Hk; rewrite at_insert, decide_False by lia; done).
    set (P := Bw ^ Z.of_nat n) in *. nia.
  - intros j Hj. rewrite at_insert, decide_False by lia. apply Hsame. lia.
Qed.

Lemma add_digits m y x n :
  digits y -> digits x -> (m + n <= length x)%nat ->
  let '(x', carry) := foldl (add_digit m y) (x, 0) (seq 0 n) in
  length x' = length x /\ digits x' /\ 0 <= carry <= 1 /\
  V x' m n + carry * Bw ^ Z.of_nat n = V x m n + V y 0 n /\
  forall j, (j < m \/ m + n <= j)%nat -> at_ x' j = at_ x j.
Proof.
  intros Hy Hx. induction n as [|n IH]; intros Hl.
  { cbn [seq foldl V]. split_and!; auto; lia. }
  rewrite seq_S, foldl_app. cbn [foldl]. specialize (IH ltac:(lia)).
  destruct foldl as [x1 c]. destruct IH as (Hl1 & Hx1 & Hc & Hv & Hsame).
  cbn [add_digit Nat.add V]. cbv zeta. rewrite Hsame by lia.
  pose proof (digits_at x (m + n) Hx) as Hxd. set (d := at_ x (m + n)) in *.
  pose proof (digits_at y n Hy) as Hyd. set (e := at_ y n) in *.
  set (s := u32 (d + e + c)).
  assert (exists c', (if s <? e then 1 else if e <? s then 0 else c) = c' /\ 0 <= c' <= 1 /\
            s + c' * Bw = d + e + c) as (c' & -> & Hc' & Heq).
  { eexists. split; [done|]. unfold s, is_u32 in *.
    destruct (Z.lt_ge_cases (d + e + c) Bw).
    - rewrite u32_small by (unfold is_u32; lia). rewrite (proj2 (Z.ltb_ge _ _)) by lia.
      destruct (_ <? _) eqn:T; [lia|apply Z.ltb_ge in T; lia].
    - rewrite u32_over by lia.
      destruct (_ <? e) eqn:T; [lia|apply Z.ltb_ge in T].
      rewrite (proj2 (Z.ltb_ge e _)) by lia. lia. }
  split_and!; [by rewrite length_insert|unfold s; auto|lia|lia| |].
  - rewrite at_insert, decide_True, powB_S by (done || lia).
    rewrite (V_ext _ x1 m m n) by (intros k Hk; rewrite at_insert, decide_False by lia; done).
    set (P := Bw ^ Z.of_nat n) in *. nia.
  - intros j Hj. rewrite at_insert, decide_False by lia. apply Hsame. lia.
Qed.

Lemma V_1 x a : V x a 1 = at_ x a.
Proof. cbn [V]. rewrite Nat.add_0_r. change (Z.of_nat 0) with 0. lia. Qed.

Lemma V_2 x a : V x a 2 = at_ x (a + 1) * Bw + at_ x a.
Proof.
  cbn [V]. rewrite Nat.add_0_r. change (Z.of_nat 0) with 0. change (Z.of_nat 1) with 1. lia.
Qed.

Lemma V_3 x a : V x a 3 = (at_ x (a + 2) * Bw + at_ x (a + 1)) * Bw + at_ x a.
Proof.
  change 3%nat with (2 + 1)%nat. rewrite V_add, V_2. cbn [V].
  rewrite Nat.add_0_r. change (Z.of_nat 0) with 0. change (Z.of_nat 2) with 2. lia.
Qed.

(** The three top digits of a window, and the two of the divisor. *)
Lemma V_top3 x m :
  V x m (MODSIZE + 1) =
  ((at_ x (MODSIZE + m) * Bw + at_ x (MODSIZE - 1 + m)) * Bw + at_ x (MODSIZE - 2 + m)) * Bw ^ 62
  + V x m 62.
Proof.
  change (MODSIZE + 1)%nat with (62 + 3)%nat. rewrite V_add, V_3.
  replace (m + 62 + 1)%nat with (MODSIZE - 1 + m)%nat by (unfold MODSIZE; lia).
  replace (m + 62 + 2)%nat with (MODSIZE + m)%nat by (unfold MODSIZE; lia).
  replace (m + 62)%nat with (MODSIZE - 2 + m)%nat by (unfold MODSIZE; lia).
  rewrite Z.add_comm. f_equal. apply Z.mul_comm.
Qed.

Lemma V_top2 y :
  V y 0 MODSIZE = (at_ y (MODSIZE - 1) * Bw + at_ y (MODSIZE - 2)) * Bw ^ 62 + V y 0 62.
Proof.
  change (V y 0 MODSIZE) with (V y 0 (62 + 2)). rewrite V_add, V_2.
  rewrite Z.add_comm. f_equal. apply Z.mul_comm.
Qed.

(** What a step of the division does to the window of [MODSIZE + 1] digits
    at [m]: it leaves the remainder, whose top digit is zero. *)
Definition reduced (y : list Z) (m : nat) (x x' : list Z) : Prop :=
  length x' = length x /\ digits x' /\
  V x' m MODSIZE = V x m (MODSIZE + 1) mod V y 0 MODSIZE /\ at_ x' (MODSIZE + m) = 0 /\
  forall j, (j < m \/ MODSIZE + m < j)%nat -> at_ x' j = at_ x j.

(** A window below [Y * Bw] has a remainder below [Bw ^ MODSIZE]. *)
Lemma remainder_unique P X Y a r c :
  0 < Y <= P -> 0 <= r < P -> (a = X / Y \/ a = X / Y + 1) -> X - a * Y = r + c * P ->
  (a = X / Y /\ c = 0 /\ r = X mod Y) \/ (a = X / Y + 1 /\ c = -1 /\ r + Y = X mod Y + P).
Proof.
  intros HY Hr Ha E. pose proof (Z_div_mod_eq_full X Y). pose proof (Z.mod_pos_bound X Y ltac:(lia)).
  destruct Ha as [-> | ->]; [left|right].
  - assert (r + c * P = X mod Y) by lia. assert (c = 0) by nia. subst. lia.
  - assert (r + c * P + Y = X mod Y) by lia. assert (c = -1) by nia. subst. lia.
Qed.

(** The partial subtraction and its compensation leave the remainder. *)
Lemma subtract_reduced y x m a :
  digits y -> digits x -> (m + MODSIZE < length x)%nat -> 0 < V y 0 MODSIZE -> is_u32 a ->
  (a = V x m (MODSIZE + 1) / V y 0 MODSIZE \/ a = V x m (MODSIZE + 1) / V y 0 MODSIZE + 1) ->
  reduced y m x
    (let '(x1, borrow) := foldl (sub_digit m a y) (x, 0) (seq 0 MODSIZE) in
     if at_ x1 (MODSIZE + m) <? borrow then
       fst (foldl (add_digit m y) (<[(MODSIZE + m)%nat := 0]> x1, 0) (seq 0 MODSIZE))
     else <[(MODSIZE + m)%nat := at_ x1 (MODSIZE + m) -₃₂ borrow]> x1).
Proof.
  intros Hy Hx Hl HY Ha Hq. pose proof (sub_digits m a y x MODSIZE Ha Hy Hx ltac:(lia)) as S.
  destruct foldl as [x1 b]. destruct S as (Hl1 & Hx1 & Hb & Hv & Hsame).
  unfold reduced. rewrite Hsame by lia. rewrite V_add in *. cbn [V] in *. change (Z.of_nat 0) with 0 in *.
  rewrite Nat.add_0_r, Z.pow_0_r, (Nat.add_comm m MODSIZE) in *.
  pose proof (V_bound x1 m MODSIZE Hx1) as Hr. pose proof (V_bound y 0 MODSIZE Hy) as HYP.
  pose proof (digits_at x (MODSIZE + m) Hx) as Htop. set (t := at_ x (MODSIZE + m)) in *.
  set (P := Bw ^ Z.of_nat MODSIZE) in *. set (Y := V y 0 MODSIZE) in *.
  set (X := V x m MODSIZE + _) in *.
  destruct (remainder_unique P X Y a (V x1 m MODSIZE) (t - b) ltac:(lia) Hr Hq ltac:(unfold X; lia))
    as [(-> & Hc & Er)|(-> & Hc & Er)].
  - rewrite (proj2 (Z.ltb_ge _ _)) by lia. replace (t - b) with 0 by lia.
    split_and!; [by rewrite length_insert|by apply digits_insert| | |].
    + rewrite <- Er. apply V_ext. intros. rewrite at_insert, decide_False by lia. done.
    + by rewrite at_insert, decide_True by (done || lia).
    + intros j Hj. rewrite at_insert, decide_False by lia. apply Hsame. lia.
  - rewrite (proj2 (Z.ltb_lt _ _)) by lia.
    pose proof (add_digits m y (<[(MODSIZE + m)%nat := 0]> x1) MODSIZE Hy
                  ltac:(by apply digits_insert) ltac:(rewrite length_insert; lia)) as A.
    destruct foldl as [x2 c]. destruct A as (Hl2 & Hx2 & Hc2 & Hv2 & Hsame2). cbn [fst].
    rewrite (V_ext (<[_ := 0]> x1) x1 m m MODSIZE) in Hv2
      by (intros; rewrite at_insert, decide_False by lia; done).
    pose proof (V_bound x2 m MODSIZE Hx2) as Hr2. fold P in Hr2, Hv2. fold Y in Hv2.
    pose proof (Z.mod_pos_bound X Y HY).
    assert (c = 0 \/ c = 1) as Hc01 by lia.
    split_and!; [by rewrite Hl2, length_insert|done|destruct Hc01 as [-> | ->]; lia| |].
    + by rewrite Hsame2, at_insert, decide_True by (done || lia).
    + intros j Hj. rewrite Hsame2, at_insert, decide_False by lia. apply Hsame. lia.
Qed.

(** The guess for a window is its quotient digit, or one more. *)
Lemma window_guess y x m :
  digits y -> digits x -> 0 < at_ y (MODSIZE - 1) ->
  V x m (MODSIZE + 1) < Bw * V y 0 MODSIZE ->
  let q := V x m (MODSIZE + 1) / V y 0 MODSIZE in
  exists a, guess (at_ x (MODSIZE + m)) (at_ x (MODSIZE - 1 + m)) (at_ x (MODSIZE - 2 + m))
              (at_ y (MODSIZE - 1)) (at_ y (MODSIZE - 2)) = Some a /\
    is_u32 a /\ (a = q \/ a = q + 1).
Proof.
  intros Hy Hx Hl0 HX q.
  pose proof (V_bound x m 62 Hx) as Bx. pose proof (V_bound y 0 62 Hy) as By.
  change (Z.of_nat 62) with 62 in *. assert (0 < Bw ^ 62) as HP by (apply Z.pow_pos_nonneg; lia).
  pose proof (digits_at x (MODSIZE + m) Hx). pose proof (digits_at x (MODSIZE - 1 + m) Hx).
  pose proof (digits_at x (MODSIZE - 2 + m) Hx). pose proof (digits_at y (MODSIZE - 1) Hy).
  pose proof (digits_at y (MODSIZE - 2) Hy).
  pose proof (V_top3 x m) as EX. pose proof (V_top2 y) as EY. rewrite EX, EY in HX.
  assert (at_ x (MODSIZE + m) <= at_ y (MODSIZE - 1)) as Hle.
  { revert HX HP Bx By. generalize (Bw ^ 62), (V x m 62), (V y 0 62). intros P Xl Yl HX HP Bx By.
    unfold is_u32 in *. apply Z.nlt_ge. intros Hlt. apply (Z.lt_irrefl (Bw * Bw * Bw * P)). nia. }
  destruct (guess_estimate (at_ x (MODSIZE + m)) (at_ x (MODSIZE - 1 + m)) (at_ x (MODSIZE - 2 + m))
              (at_ y (MODSIZE - 1)) (at_ y (MODSIZE - 2))) as (a & -> & Ha); auto.
  assert (Hq := estimate_quotient _ (V x m 62) _ (V y 0 62) _ a Ha HP Bx By
                  ltac:(unfold is_u32 in *; nia) HX).
  cbv zeta in Hq. rewrite <- EX, <- EY in Hq. exists a. split_and!; [done|apply Ha|done].
Qed.

Lemma small_reduced y x m :
  digits y -> digits x -> 0 <= V x m (MODSIZE + 1) < V y 0 MODSIZE -> reduced y m x x.
Proof.
  intros Hy Hx HX. unfold reduced. rewrite Z.mod_small by done. rewrite V_add in *. cbn [V] in *.
  rewrite Nat.add_0_r in *. change (Z.of_nat 0) with 0 in *. rewrite Z.pow_0_r, Z.mul_1_r in *.
  rewrite Z.add_0_l, (Nat.add_comm m MODSIZE) in *.
  pose proof (V_bound x m MODSIZE Hx). pose proof (V_bound y 0 MODSIZE Hy).
  pose proof (digits_at x (MODSIZE + m) Hx).
  assert (at_ x (MODSIZE + m) = 0) as Ht by (unfold is_u32 in *; nia).
  rewrite Ht in *. split_and!; auto. lia.
Qed.

Lemma div_step_reduced y x m :
  digits y -> digits x -> (m + MODSIZE < length x)%nat -> 0 < at_ y (MODSIZE - 1) ->
  V x m (MODSIZE + 1) < Bw * V y 0 MODSIZE ->
  exists x', div_step y x (MODSIZE - 1 + m) = Some x' /\ reduced y m x x'.
Proof.
  intros Hy Hx Hl Hl0 HX. unfold div_step.
  destruct (window_guess y x m Hy Hx Hl0 HX) as (a & E & Ha & Hq).
  assert (0 < V y 0 MODSIZE) as HY.
  { rewrite V_top2. pose proof (V_bound y 0 62 Hy). pose proof (digits_at y (MODSIZE - 2) Hy).
    assert (0 < Bw ^ 62) by (apply Z.pow_pos_nonneg; lia). unfold is_u32 in *. nia. }
  replace (MODSIZE - 1 + m + 1)%nat with (MODSIZE + m)%nat by (unfold MODSIZE; lia).
  replace (MODSIZE - 1 + m - 1)%nat with (MODSIZE - 2 + m)%nat by (unfold MODSIZE; lia).
  replace (MODSIZE + m - MODSIZE)%nat with m by lia.
  rewrite E. cbn [mbind option_bind]. destruct (0 <? a) eqn:T.
  - pose proof (subtract_reduced y x m a Hy Hx Hl HY Ha Hq) as R.
    destruct foldl as [x1 b]. destruct (_ <? b); eauto.
  - apply Z.ltb_ge in T. exists x. split; [done|]. apply small_reduced; auto.
    pose proof (V_bound x m (MODSIZE + 1) Hx) as [H0 _]. split; [done|].
    pose proof (Z.div_pos _ _ H0 HY). unfold is_u32 in *.
    pose proof (proj1 (Z.div_small_iff (V x m (MODSIZE + 1)) (V y 0 MODSIZE) ltac:(lia))). lia.
Qed.

(** The loop leaves the remainder of the whole number, in the low digits. *)
Lemma div_loop_mod y n : forall x,
  digits y -> digits x -> (MODSIZE + n <= length x)%nat -> 0 < at_ y (MODSIZE - 1) ->
  V x n MODSIZE < V y 0 MODSIZE ->
  exists x', div_loop y n x = Some x' /\ digits x' /\ length x' = length x /\
    V x' 0 MODSIZE = V x 0 (n + MODSIZE) mod V y 0 MODSIZE.
Proof.
  intros x Hy Hx Hl Hl0 HX. revert x Hx Hl HX. induction n as [|n IH]; intros x Hx Hl HX.
  { exists x. split_and!; auto. pose proof (V_bound x 0 MODSIZE Hx). rewrite Z.mod_small; [done|].
    cbn [Nat.add]. lia. }
  pose proof (digits_at x n Hx). set (Y := V y 0 MODSIZE) in *.
  assert (V x n (MODSIZE + 1) = at_ x n + Bw * V x (S n) MODSIZE) as Ewin.
  { rewrite Nat.add_comm, V_add. cbn [V]. rewrite Nat.add_0_r, Nat.add_1_r.
    change (Z.of_nat 0) with 0. change (Z.of_nat 1) with 1. rewrite Z.pow_0_r, Z.pow_1_r. lia. }
  destruct (div_step_reduced y x n) as (x1 & E1 & Hl1 & Hx1 & Hv1 & Ht1 & Hs1); auto; [lia| |].
  { fold Y. unfold is_u32 in *. nia. }
  fold Y in Hv1. destruct (IH x1) as (x' & E & Hx' & Hl' & Hv); auto; [lia| |].
  { rewrite Hv1. apply Z.mod_pos_bound. pose proof (V_bound x (S n) MODSIZE Hx). lia. }
  exists x'. cbn [div_loop]. rewrite E1. cbn [mbind option_bind].
  split_and!; [done|done|congruence|]. rewrite Hv. fold Y.
  replace (S n + MODSIZE)%nat with (n + (MODSIZE + 1))%nat by lia.
  rewrite (V_add x1 0 n), (V_ext x1 x 0 0 n) by (intros; apply Hs1; lia).
  rewrite (V_add x 0 n (MODSIZE + 1)). cbn [Nat.add]. rewrite Hv1.
  by rewrite <- Zplus_mod_idemp_r, Zmult_mod_idemp_r, Zplus_mod_idemp_r.
Qed.

(** The number an array stands for. *)
Definition num (x : list Z) : Z := V x 0 MODSIZE.

Lemma num_V x : num x = V x 0 MODSIZE.
Proof. reflexivity. Qed.
#[local] Opaque num.

(** A modulus: its top digit is not zero. *)
Definition modulus (y : list Z) : Prop := digits y /\ 0 < at_ y (MODSIZE - 1).

Lemma modulus_big m : modulus m -> Bw ^ Z.of_nat 63 <= num m.
Proof.
  intros [Hm H0]. rewrite num_V. change MODSIZE with (63 + 1)%nat in *. rewrite V_add, V_1.
  change (63 + 1 - 1)%nat with (0 + 63)%nat in H0.
  pose proof (V_bound m 0 63 Hm). pose proof (powB_pos 63). nia.
Qed.

(** Multiplication modulo [m], for any two numbers. *)
Lemma tr_modmul_value a b m :
  digits a -> digits b -> modulus m ->
  exists t, tr_modmul a b m = Some t /\ digits t /\ num t = (num a * num b) mod num m.
Proof.
  intros Ha Hb Hm. rewrite !num_V. unfold tr_modmul, tr_divide.
  destruct (tr_multiply_value a b Ha Hb) as (Hl & Hz & Hv & Ht).
  set (z := tr_multiply a b) in *. clearbody z.
  destruct (div_loop_mod m (MODSIZE + 1) z) as (t & -> & Hd & _ & E); try apply Hm; auto.
  { rewrite Hl. unfold MODSIZE. lia. }
  { pose proof (modulus_big m Hm). rewrite num_V in *. change (V z (MODSIZE + 1) MODSIZE) with (V z 65 (63 + 1)).
    rewrite V_add, V_1. pose proof (V_bound z 65 63 Hz).
    change (65 + 63)%nat with (2 * MODSIZE)%nat. rewrite Ht. lia. }
  exists (take MODSIZE t). rewrite num_V. cbn [mbind option_bind]. split; [done|]. split; [by apply Forall_take|].
  rewrite (V_ext _ t 0 0) by (intros; by apply at_take). rewrite E. f_equal.
  replace (MODSIZE + 1 + MODSIZE)%nat with (2 * MODSIZE + 1)%nat by (unfold MODSIZE; lia).
  rewrite V_add, V_1. cbn [Nat.add]. rewrite Ht, Hv. lia.
Qed.

(** ** Exponentiation *)

#[local] Opaque tr_modmul.

Section power.
Context (m s : list Z) (Hm : modulus m) (Hs : digits s).

(** [c] holds [s^e mod m]. *)
Definition holds_power (e : Z) (c : list Z) : Prop := digits c /\ num c = num s ^ e mod num m.

Lemma num_m_pos : num m <> 0.
Proof. pose proof (modulus_big m Hm). pose proof (powB_pos 63). lia. Qed.

Lemma square_power e c :
  0 <= e -> holds_power e c -> exists t, tr_modmul c c m = Some t /\ holds_power (2 * e) t.
Proof.
  intros He [Hc E]. destruct (tr_modmul_value c c m Hc Hc Hm) as (t & Et & Ht & Ev).
  exists t. split; [done|]. split; [done|]. rewrite Ev, E.
  replace (2 * e) with (e + e) by lia. rewrite Z.pow_add_r by done. symmetry. apply Zmult_mod.
Qed.

Lemma four_pow_S n e : 4 ^ Z.of_nat (S n) * e = 4 ^ Z.of_nat n * (2 * (2 * e)).
Proof. rewrite Nat2Z.inj_succ, Z.pow_succ_r by lia. ring. Qed.

Lemma square_pairs_S n c :
  square_pairs (S n) m c = (t ← tr_modmul c c m; c ← tr_modmul t t m; square_pairs n m c).
Proof. reflexivity. Qed.

Lemma some_bind {A B} (a : A) (f : A -> option B) : (Some a ≫= f) = f a.
Proof. reflexivity. Qed.

Lemma square_pairs_power n : forall e c,
  0 <= e -> holds_power e c ->
  exists t, square_pairs n m c = Some t /\ holds_power (4 ^ Z.of_nat n * e) t.
Proof.
  induction n as [|n IH]; intros e c He Hc.
  { exists c. change (Z.of_nat 0) with 0. by rewrite Z.pow_0_r, Z.mul_1_l. }
  destruct (square_power e c He Hc) as (t1 & E1 & H1).
  destruct (square_power (2 * e) t1 ltac:(lia) H1) as (t2 & E2 & H2).
  destruct (IH (2 * (2 * e)) t2 ltac:(lia) H2) as (t & E & H). exists t.
  rewrite square_pairs_S, E1, some_bind, E2, some_bind, four_pow_S. exact (conj E H).
Qed.

Lemma mul_pow_mod b e e' N : 0 <= e -> e' = 1 + e -> (b * (b ^ e mod N)) mod N = b ^ e' mod N.
Proof. intros He ->. by rewrite Zmult_mod_idemp_r, Z.pow_add_r, Z.pow_1_r. Qed.

Lemma holds_power_eq e e' c : e = e' -> holds_power e c -> holds_power e' c.
Proof. by intros ->. Qed.

Lemma tr_rsa_pow_value :
  exists c, tr_rsa_pow m s = Some c /\ holds_power 65537 c.
Proof.
  destruct (tr_modmul_value s s m Hs Hs Hm) as (c0 & E0 & H0 & V0).
  assert (holds_power 2 c0) as P0.
  { split; [done|]. by rewrite V0, Z.pow_2_r. }
  destruct (square_pairs_power 7 2 c0 ltac:(done) P0) as (c & E1 & P).
  apply (holds_power_eq _ 32768) in P; [|reflexivity].
  destruct (square_power 32768 c ltac:(done) P) as (t & E2 & P2).
  apply (holds_power_eq _ 65536) in P2; [|reflexivity]. destruct P2 as [Ht V2].
  destruct (tr_modmul_value s t m Hs Ht Hm) as (c' & E3 & Hc' & V3). exists c'. split.
  - unfold tr_rsa_pow. rewrite E0, some_bind, E1, some_bind, E2, some_bind. exact E3.
  - split; [done|]. rewrite V3, V2. by apply mul_pow_mod.
Qed.

End power.

#[local] Transparent tr_modmul.

(** ** Comparison *)

Lemma tr_compare_loop_eq n x y :
  digits x -> digits y -> tr_compare_loop n x y = 0 <-> V x 0 n = V y 0 n.
Proof.
  intros Hx Hy. induction n as [|n IH]; [done|]. cbn [tr_compare_loop V Nat.add].
  pose proof (V_bound x 0 n Hx). pose proof (V_bound y 0 n Hy). pose proof (powB_pos n).
  destruct (_ <? _) eqn:T1; [apply Z.ltb_lt in T1; split; [done|nia]|apply Z.ltb_ge in T1].
  destruct (at_ y n <? _) eqn:T2; [apply Z.ltb_lt in T2; split; [done|nia]|apply Z.ltb_ge in T2].
  rewrite IH. assert (at_ x n = at_ y n) as -> by lia. lia.
Qed.

Lemma tr_compare_eq x y : digits x -> digits y -> tr_compare x y = 0 <-> num x = num y.
Proof. rewrite !num_V. exact (tr_compare_loop_eq MODSIZE x y). Qed.

(** ** Bytes of an array *)

(** Byte [j] of the number, least significant first. *)
Definition byte_at (x : list Z) (j : nat) : Z :=
  u8 (Z.shiftr (at_ x (j / REGBYTES)) (8 * Z.of_nat (j mod REGBYTES))).

Definition bytes_of (x : list Z) (n : nat) : list Z := byte_at x <$> seq 0 n.

Lemma length_bytes_of x n : length (bytes_of x n) = n.
Proof. unfold bytes_of. by rewrite length_fmap, length_seq. Qed.

Lemma lookup_bytes_of x n j : (j < n)%nat -> bytes_of x n !! j = Some (byte_at x j).
Proof. intros. unfold bytes_of. by rewrite list_lookup_fmap, lookup_seq_lt. Qed.

Lemma le_combine_app bs cs :
  le_combine (bs ++ cs) = le_combine bs + 2 ^ (8 * Z.of_nat (length bs)) * le_combine cs.
Proof.
  induction bs as [|b bs IH]; cbn [app le_combine length]; [lia|]. rewrite IH.
  replace (8 * Z.of_nat (S (length bs))) with (8 + 8 * Z.of_nat (length bs)) by lia.
  rewrite Z.pow_add_r by lia. ring.
Qed.

Lemma byte_at_digit x n k :
  (k < 4)%nat -> byte_at x (4 * n + k) = u8 (at_ x n / 2 ^ (8 * Z.of_nat k)).
Proof.
  intros Hk. unfold byte_at, REGBYTES. rewrite Z.shiftr_div_pow2 by lia.
  rewrite (Nat.mul_comm 4), Nat.div_add_l, Nat.div_small, Nat.add_0_r by lia.
  by rewrite (Nat.add_comm _ k), Nat.Div0.mod_add, Nat.mod_small by lia.
Qed.

(** The four bytes of a digit. *)
Lemma digit_bytes x n : byte_at x <$> seq (4 * n) 4 = le_split 4 (at_ x n).
Proof.
  assert (seq (4 * n) 4 = [4 * n + 0; 4 * n + 1; 4 * n + 2; 4 * n + 3]%nat) as ->
    by (cbn [seq]; repeat f_equal; lia).
  cbn [fmap list_fmap le_split]. rewrite !byte_at_digit, !Z.div_div by lia.
  change (8 * Z.of_nat 0) with 0. rewrite Z.pow_0_r, Z.div_1_r. reflexivity.
Qed.

(** The number is the one its bytes spell. *)
Lemma V_bytes x n : digits x -> V x 0 n = le_combine (bytes_of x (4 * n)).
Proof.
  intros Hx. induction n as [|n IH]; [done|]. cbn [V]. rewrite IH. unfold bytes_of.
  replace (4 * S n)%nat with (4 * n + 4)%nat by lia.
  rewrite seq_app, fmap_app, le_combine_app. change (0 + 4 * n)%nat with (4 * n)%nat. rewrite digit_bytes, le_combine_split.
  rewrite length_fmap, length_seq. change (8 * Z.of_nat 4) with 32.
  rewrite Z.mod_small by (apply digits_at; done). cbn [Nat.add].
  replace (8 * Z.of_nat (4 * n)) with (32 * Z.of_nat n) by lia. rewrite Z.pow_mul_r by lia. lia.
Qed.

Definition array (x : list Z) : Prop := digits x /\ length x = MODSIZE.

Lemma u32_shift_byte v p : is_u8 v -> 0 <= p < 4 -> u32 (Z.shiftl v (8 * p)) = Z.shiftl v (8 * p).
Proof.
  intros Hv Hp. apply u32_small. rewrite Z.shiftl_mul_pow2 by lia.
  assert (2 ^ (8 * p) <= 2 ^ 24) by (apply Z.pow_le_mono_r; lia).
  pose proof (Z.pow_pos_nonneg 2 (8 * p)). unfold is_u8, is_u32 in *. nia.
Qed.

Lemma byte_bits x i : 0 <= i -> Z.testbit (u8 x) i = Z.testbit x i && (i <? 8).
Proof.
  intros. rewrite u8_mod. destruct (i <? 8) eqn:E; [apply Z.ltb_lt in E|apply Z.ltb_ge in E].
  - by rewrite andb_true_r, Z.mod_pow2_bits_low.
  - by rewrite andb_false_r, Z.mod_pow2_bits_high.
Qed.

(** Clearing byte [p] of a word and setting it changes that byte only. *)
Lemma put_bits d b p q :
  0 <= p < 4 -> 0 <= q < 4 ->
  u8 (Z.shiftr (Z.lor (Z.lxor d (Z.land d (u32 (Z.shiftl 0xFF (8 * p)))))
                      (u32 (Z.shiftl (u8 b) (8 * p)))) (8 * q)) =
  if decide (p = q) then u8 b else u8 (Z.shiftr d (8 * q)).
Proof.
  intros Hp Hq. rewrite !u32_shift_byte by (done || apply u8_range).
  change 255 with (u8 (-1)). apply Z.bits_inj'. intros i Hi. case_decide as E.
  - subst q. rewrite !byte_bits, Z.shiftr_spec, Z.lor_spec, Z.lxor_spec, Z.land_spec by lia.
    rewrite !Z.shiftl_spec by lia. replace (i + 8 * p - 8 * p) with i by lia.
    rewrite !byte_bits, Z.bits_m1 by lia. by destruct (Z.testbit d _), (Z.testbit b _), (i <? 8).
  - rewrite !byte_bits, !Z.shiftr_spec, Z.lor_spec, Z.lxor_spec, Z.land_spec by lia.
    destruct (i <? 8) eqn:E8; [apply Z.ltb_lt in E8|by rewrite !andb_false_r].
    rewrite !Z.shiftl_spec by lia. set (k := i + 8 * q - 8 * p).
    assert (Hk : forall x, Z.testbit (u8 x) k = false).
    { intros x. destruct (Z.lt_ge_cases k 0); [by apply Z.testbit_neg_r|].
      rewrite byte_bits, (proj2 (Z.ltb_ge _ _)) by lia. apply andb_false_r. }
    rewrite !Hk, andb_false_r, xorb_false_r. by rewrite orb_false_r.
Qed.

Lemma put_index i : (i < RSABYTES)%nat -> (i / REGBYTES < MODSIZE)%nat.
Proof. unfold REGBYTES, RSABYTES, MODSIZE. intros. apply Nat.Div0.div_lt_upper_bound. lia. Qed.

Lemma put_array b i x : array x -> array (tr_putbyte b i x).
Proof.
  intros [Hx Hl]. unfold tr_putbyte. destruct (_ <=? _)%nat; [done|].
  split; [|by rewrite length_insert]. apply digits_insert; [done|].
  assert (is_u32 (at_ x (i / REGBYTES))) by auto.
  apply lor_is_u32; [apply lxor_is_u32; [done|apply land_is_u32_l]|]; auto.
  apply u32_range.
Qed.

(** [tr_putbyte] sets one byte of the array. *)
Lemma byte_at_put b i x j :
  array x -> (i < RSABYTES)%nat ->
  byte_at (tr_putbyte b i x) j = if decide (i = j) then u8 b else byte_at x j.
Proof.
  intros [Hx Hl] Hi. unfold tr_putbyte. rewrite (proj2 (Nat.leb_gt _ _)) by done.
  pose proof (put_index i Hi). unfold byte_at. rewrite at_insert by lia.
  pose proof (Nat.mod_upper_bound i REGBYTES ltac:(done)) as Hp.
  pose proof (Nat.mod_upper_bound j REGBYTES ltac:(done)) as Hq.
  change (i mod REGBYTES < 4)%nat in Hp. change (j mod REGBYTES < 4)%nat in Hq.
  pose proof (Nat.div_mod_eq i REGBYTES). pose proof (Nat.div_mod_eq j REGBYTES).
  destruct (decide (i / REGBYTES = j / REGBYTES)%nat) as [E|]; [|by rewrite decide_False by congruence].
  rewrite E, put_bits by lia. apply decide_ext. split; [lia|congruence].
Qed.


(** ** Filling buffers

    [fills f g l bs]: for each [i] of [l], position [g i] becomes [f i]. *)
Definition fills (f : nat -> Z) (g : nat -> nat) (l : list nat) (bs : list Z) : list Z :=
  foldl (λ bs i, <[g i := f i]> bs) bs l.

Lemma length_fills f g l bs : length (fills f g l bs) = length bs.
Proof.
  unfold fills. revert bs. induction l as [|i l IH]; intros bs; [done|].
  cbn [foldl]. by rewrite IH, length_insert.
Qed.

Lemma fills_out f g l bs k : (forall i, i ∈ l -> g i <> k) -> fills f g l bs !! k = bs !! k.
Proof.
  unfold fills. revert bs. induction l as [|i l IH]; intros bs H; [done|].
  cbn [foldl]. rewrite IH by (intros; apply H; by right).
  apply list_lookup_insert_ne, H. by left.
Qed.

Lemma fills_in f g l bs i :
  i ∈ l -> (g i < length bs)%nat -> (forall j, j ∈ l -> g j = g i -> j = i) ->
  fills f g l bs !! g i = Some (f i).
Proof.
  revert bs. induction l as [|j l IH] using rev_ind; intros bs Hi Hl Hinj.
  { by apply not_elem_of_nil in Hi. }
  unfold fills. rewrite foldl_app. cbn [foldl]. fold (fills f g l bs).
  destruct (decide (g j = g i)) as [E|E].
  - rewrite (Hinj j) by (done || apply elem_of_app; right; by left).
    apply list_lookup_insert_eq. by rewrite length_fills.
  - rewrite list_lookup_insert_ne by done. apply IH; [|done|].
    + apply elem_of_app in Hi as [Hi|Hi]; [done|]. apply list_elem_of_singleton in Hi. congruence.
    + intros k Hk. apply Hinj, elem_of_app. by left.
Qed.

Abbreviation bytes256 x := (bytes_of x RSABYTES).

Lemma bytes_of_put b i x :
  array x -> (i < RSABYTES)%nat -> bytes256 (tr_putbyte b i x) = <[i := u8 b]> (bytes256 x).
Proof.
  intros Hx Hi. apply list_eq_same_length with RSABYTES;
    rewrite ?length_insert; try apply length_bytes_of.
  intros j a c Hj. rewrite lookup_bytes_of by done. rewrite byte_at_put by done.
  case_decide as E.
  - subst. rewrite list_lookup_insert_eq by (by rewrite length_bytes_of). congruence.
  - rewrite list_lookup_insert_ne, lookup_bytes_of by done. congruence.
Qed.

(** The array [x] holds the bytes [bs], least significant first. *)
Definition spells (x bs : list Z) : Prop := array x /\ bytes256 x = bs.

Lemma spells_put b i x bs :
  (i < RSABYTES)%nat -> spells x bs -> spells (tr_putbyte b i x) (<[i := u8 b]> bs).
Proof. intros Hi [Hx <-]. split; [by apply put_array|by apply bytes_of_put]. Qed.

Lemma spells_puts f g l x bs :
  (forall i, i ∈ l -> (g i < RSABYTES)%nat) -> spells x bs ->
  spells (foldl (λ d i, tr_putbyte (f i) (g i) d) x l) (fills (λ i, u8 (f i)) g l bs).
Proof.
  unfold fills. revert x bs. induction l as [|i l IH]; intros x bs Hl Hx; [done|]. cbn [foldl].
  apply IH; [intros; apply Hl; by right|]. apply spells_put; [apply Hl; by left|done].
Qed.

(** The number a big-endian byte string spells. *)
Definition be (bs : list Z) : Z := le_combine (reverse bs).

Lemma num_bytes x : array x -> num x = le_combine (bytes256 x).
Proof. intros [Hx _]. rewrite num_V. exact (V_bytes x MODSIZE Hx). Qed.

(** [tr_convert] reads a big-endian number. *)
Lemma tr_convert_bytes n pk :
  bytes_ok n -> length n = RSABYTES -> array pk ->
  spells (tr_convert n pk) (reverse n).
Proof.
  intros Hn Hl Hpk. unfold tr_convert.
  destruct (spells_puts (at_ n) (λ i, RSABYTES - i - 1)%nat (seq 0 RSABYTES) pk (bytes256 pk)) as [Ha E].
  { intros i Hi. apply elem_of_seq in Hi. lia. }
  { by split. }
  split; [exact Ha|]. rewrite E. apply list_eq_same_length with RSABYTES;
    [by rewrite length_reverse|by rewrite length_fills, length_bytes_of|].
  intros j a c Hj Ea Ec. rewrite reverse_lookup in Ec by lia.
  replace j with (RSABYTES - (RSABYTES - j - 1) - 1)%nat in Ea by lia.
  rewrite (fills_in _ (λ i, RSABYTES - i - 1)%nat) in Ea.
  - replace (length n - S j)%nat with (RSABYTES - j - 1)%nat in Ec by lia.
    assert (at_ n (RSABYTES - j - 1) = c) as Eat by (unfold at_; by rewrite Ec).
    rewrite Eat, u8_small in Ea by (by eapply Forall_lookup_1). congruence.
  - apply elem_of_seq. lia.
  - rewrite length_bytes_of. lia.
  - intros k Hk. apply elem_of_seq in Hk. lia.
Qed.

Lemma tr_convert_num n pk :
  bytes_ok n -> length n = RSABYTES -> array pk ->
  array (tr_convert n pk) /\ num (tr_convert n pk) = be n.
Proof.
  intros Hn Hl Hpk. destruct (tr_convert_bytes n pk Hn Hl Hpk) as [Ha E].
  split; [done|]. by rewrite num_bytes, E.
Qed.

(** ** Padding *)

(** EMSA-PKCS1-v1_5 of a SHA-256 digest, for a 2048-bit modulus. *)
Definition emsa (h : list Z) : list Z :=
  [0; 1] ++ replicate 202 0xFF ++ [0] ++ SHA256ID ++ h.

(** The five parts of the padded digest. *)
Inductive emsa_at (h : list Z) (k : nat) : Z -> Prop :=
| emsa_zero : k = 0%nat -> emsa_at h k 0
| emsa_one : k = 1%nat -> emsa_at h k 1
| emsa_ff : (2 <= k < 204)%nat -> emsa_at h k 0xFF
| emsa_sep : k = 204%nat -> emsa_at h k 0
| emsa_id : (205 <= k < 224)%nat -> emsa_at h k (at_ SHA256ID (k - 205))
| emsa_h : (224 <= k < 256)%nat -> emsa_at h k (at_ h (k - 224)).

Lemma at_lookup (l : list Z) i : (i < length l)%nat -> l !! i = Some (at_ l i).
Proof. intros H. unfold at_. by destruct (lookup_lt_is_Some_2 l i H) as [a ->]. Qed.

Lemma emsa_lookup h k v : length h = 32%nat -> emsa_at h k v -> emsa h !! k = Some v.
Proof.
  intros Hh E. unfold emsa.
  assert (length SHA256ID = 19)%nat as H19 by done.
  destruct E as [->| ->|Hk| ->|Hk|Hk]; [done|done| | | |].
  - rewrite lookup_app_r, lookup_app_l, lookup_replicate_2 by
      (rewrite ?length_replicate; cbn [length]; lia). done.
  - done.
  - rewrite !(lookup_app_r [_;_]), lookup_app_r, lookup_app_r, lookup_app_l by
      (rewrite ?length_replicate; cbn [length]; lia).
    rewrite length_replicate. cbn [length]. rewrite at_lookup by lia. do 2 f_equal. lia.
  - rewrite (lookup_app_r [_;_]), !lookup_app_r by
      (rewrite ?length_replicate; cbn [length]; lia).
    rewrite length_replicate, H19. cbn [length]. rewrite at_lookup by lia. do 2 f_equal. lia.
Qed.

Lemma emsa_total h k : (k < 256)%nat -> exists v, emsa_at h k v.
Proof.
  intros Hk. destruct (decide (k = 0)%nat); [by eexists; apply emsa_zero|].
  destruct (decide (k = 1)%nat); [by eexists; apply emsa_one|].
  destruct (decide (k < 204)%nat); [by eexists; apply emsa_ff; lia|].
  destruct (decide (k = 204)%nat); [by eexists; apply emsa_sep|].
  destruct (decide (k < 224)%nat); [by eexists; apply emsa_id; lia|].
  eexists; apply emsa_h; lia.
Qed.

Lemma length_emsa h : length h = 32%nat -> length (emsa h) = RSABYTES.
Proof.
  intros. unfold emsa. rewrite !length_app, length_replicate. cbn [length].
  change (length SHA256ID) with 19%nat. unfold RSABYTES. lia.
Qed.

(** A buffer that agrees part by part is the padded digest. *)
Lemma emsa_eq h m :
  length h = 32%nat -> length m = RSABYTES ->
  (forall k v, emsa_at h k v -> m !! k = Some v) -> m = emsa h.
Proof.
  intros Hh Hm H. apply list_eq_same_length with RSABYTES; [by apply length_emsa|done|].
  intros k a c Hk Ea Ec. destruct (emsa_total h k Hk) as [v Hv].
  rewrite (H k v Hv) in Ea. rewrite (emsa_lookup h k v Hh Hv) in Ec. congruence.
Qed.

(** Skip the writes that leave the position alone; then the write that
    hits it, at index [i] of its loop. *)
Ltac index_lia := cbv beta in *; unfold RSABYTES in *; lia.

Ltac write_length :=
  rewrite ?length_insert, ?length_fills, ?length_insert, ?length_fills, ?length_insert;
  rewrite ?length_bytes_of; index_lia.

Ltac skip_writes :=
  repeat first
    [ rewrite list_lookup_insert_ne by index_lia
    | rewrite fills_out by (intros ?j ?Hj%elem_of_seq; index_lia) ].

Ltac hit_write i :=
  match goal with
  | |- fills ?f ?g ?l ?bs !! ?k = _ =>
      replace k with (g i) by index_lia;
      rewrite (fills_in f g l bs i);
      [ | apply elem_of_seq; index_lia | write_length | intros ?j ?Hj%elem_of_seq; index_lia ]
  end.

(** The buffer routine builds the padded digest. *)
Lemma pkcs_v15_emsa h m :
  length h = 32%nat -> length m = RSABYTES -> pkcs_v15 h m = emsa h.
Proof.
  intros Hh Hm. unfold pkcs_v15.
  fold (fills (at_ h) (λ i, RSABYTES + i - 32)%nat (seq 0 32) (<[1%nat := 1]> (<[0%nat := 0]> m))).
  set (m1 := fills _ _ _ _).
  fold (fills (at_ SHA256ID) (λ i, RSABYTES + i - 51)%nat (seq 0 19) m1). set (m2 := fills _ _ _ m1).
  fold (fills (λ _, 0xff) (λ i, RSABYTES - 1 - i)%nat (seq 52 (RSABYTES - 2 - 52)) (<[(RSABYTES - 52)%nat := 0]> m2)).
  subst m1 m2. apply emsa_eq; [done|write_length|].
  intros k v [->| ->|Hk| ->|Hk|Hk].
  - skip_writes. apply list_lookup_insert_eq. write_length.
  - skip_writes. apply list_lookup_insert_eq. write_length.
  - hit_write (255 - k)%nat. done.
  - skip_writes. apply list_lookup_insert_eq. write_length.
  - skip_writes. hit_write (k - 205)%nat. do 2 f_equal. index_lia.
  - skip_writes. hit_write (k - 224)%nat. do 2 f_equal. index_lia.
Qed.

(** The digit array [rsa_verify] builds, write by write. *)
Lemma padded_digest_fills h :
  spells (padded_digest h)
    (fills (λ _, 0xFF) (λ i, i) (seq 52 (RSABYTES - 2 - 52))
      (<[51%nat := 0]> (fills (λ i, u8 (at_ SHA256ID i)) (λ i, 32 + 19 - 1 - i)%nat (seq 0 19)
        (fills (λ i, u8 (at_ h i)) (λ i, 31 - i)%nat (seq 0 32)
          (<[(RSABYTES - 2)%nat := 1]> (<[(RSABYTES - 1)%nat := 0]>
            (bytes256 (replicate MODSIZE 0)))))))).
Proof.
  apply (spells_puts (λ _, 0xFF) (λ i, i)); [intros i Hi%elem_of_seq; index_lia|].
  apply (spells_put 0); [index_lia|].
  apply (spells_puts (at_ SHA256ID)); [intros i Hi%elem_of_seq; index_lia|].
  apply (spells_puts (at_ h)); [intros i Hi%elem_of_seq; index_lia|].
  apply (spells_put 1); [index_lia|]. apply (spells_put 0); [index_lia|].
  split; [|done]. split; [by apply Forall_replicate|apply length_replicate].
Qed.

Lemma u8_at l i : bytes_ok l -> u8 (at_ l i) = at_ l i.
Proof.
  intros Hl. apply u8_small. unfold at_. destruct (l !! i) as [b|] eqn:E; [|done].
  by eapply Forall_lookup_1.
Qed.

Lemma SHA256ID_bytes : bytes_ok SHA256ID.
Proof. repeat (constructor; [by split|]). constructor. Qed.

(** It is the padded digest, as [pkcs_v15] would have laid it out. *)
Lemma padded_digest_bytes h :
  bytes_ok h -> length h = 32%nat -> spells (padded_digest h) (reverse (emsa h)).
Proof.
  intros Hb Hh. destruct (padded_digest_fills h) as [Ha E].
  split; [exact Ha|]. rewrite <- (reverse_involutive (bytes256 _)). f_equal.
  apply emsa_eq; [done|by rewrite length_reverse, length_bytes_of|].
  intros k v Hk. rewrite reverse_lookup, length_bytes_of by
    (rewrite length_bytes_of; destruct Hk; index_lia). rewrite E. clear E Ha.
  destruct Hk as [->| ->|Hk| ->|Hk|Hk].
  - skip_writes. apply list_lookup_insert_eq. write_length.
  - skip_writes. apply list_lookup_insert_eq. write_length.
  - hit_write (255 - k)%nat. done.
  - skip_writes. apply list_lookup_insert_eq. write_length.
  - skip_writes. hit_write (k - 205)%nat. rewrite u8_at by apply SHA256ID_bytes. done.
  - skip_writes. hit_write (k - 224)%nat. rewrite u8_at by done. done.
Qed.

Lemma emsa_bytes h : bytes_ok h -> bytes_ok (emsa h).
Proof.
  intros Hh. unfold emsa. rewrite !bytes_ok_app.
  split_and!; [|by apply Forall_replicate| |apply SHA256ID_bytes|done];
    repeat (constructor; [by split|]); constructor.
Qed.

(** An array is determined by its bytes. *)
Lemma spells_inj x y bs : spells x bs -> spells y bs -> x = y.
Proof.
  intros [Hx Ex] [Hy Ey]. assert (num x = num y) as E by (rewrite !num_bytes by done; congruence).
  rewrite !num_V in E. destruct Hx as [Hx Lx], Hy as [Hy Ly].
  apply list_eq_same_length with MODSIZE; [done|done|]. intros i a b Hi Ea Eb.
  pose proof (V_inj x y 0 0 MODSIZE Hx Hy E i Hi) as H. unfold at_ in H. cbn [Nat.add] in H.
  rewrite Ea, Eb in H. exact H.
Qed.

(** Laid out by [pkcs_v15] and converted, the digest gives the same array. *)
Lemma padded_digest_pkcs h m d :
  bytes_ok h -> length h = 32%nat -> length m = RSABYTES -> array d ->
  padded_digest h = tr_convert (pkcs_v15 h m) d.
Proof.
  intros Hb Hh Hm Hd. rewrite pkcs_v15_emsa by done.
  apply (spells_inj _ _ (reverse (emsa h))); [by apply padded_digest_bytes|].
  apply tr_convert_bytes; [by apply emsa_bytes|by apply length_emsa|done].
Qed.

(** ** The verdict *)

Lemma num_modulus y : array y -> Bw ^ 63 <= num y -> modulus y.
Proof.
  intros [Hy _] H. split; [done|]. rewrite num_V in H.
  change (V y 0 MODSIZE) with (V y 0 (63 + 1)) in H. rewrite V_add, V_1 in H.
  pose proof (V_bound y 0 63 Hy) as Hb. change (Z.of_nat 63) with 63 in *.
  change (0 + 63)%nat with (MODSIZE - 1)%nat in H.
  pose proof (digits_at y (MODSIZE - 1) Hy) as [? _].
  destruct (Z.eq_dec (at_ y (MODSIZE - 1)) 0) as [E|]; [rewrite E in H|]; lia.
Qed.

(** For a public key whose top digit is not zero, [rsa_verify] returns, and
    accepts exactly when the signature raised to 65537 is the padded digest
    modulo the key. *)
Lemma rsa_verify_value n0 s0 h pub sig :
  array n0 -> array s0 ->
  bytes_ok h -> length h = 32%nat ->
  bytes_ok pub -> length pub = RSABYTES -> bytes_ok sig -> length sig = RSABYTES ->
  Bw ^ 63 <= be pub ->
  rsa_verify_from n0 s0 h pub sig =
    Some (if be sig ^ 65537 mod be pub =? be (emsa h) then 1 else 0).
Proof.
  intros An As Hb Hh Hp Lp Hs Ls Htop. unfold rsa_verify_from.
  destruct (tr_convert_num pub n0 Hp Lp An) as [Hn En].
  destruct (tr_convert_num sig s0 Hs Ls As) as [Hsg Es].
  destruct (padded_digest_bytes h Hb Hh) as [Hd Ed].
  destruct (tr_rsa_pow_value (tr_convert pub n0) (tr_convert sig s0)) as (c & Ec & Hc & Vc);
    [by apply num_modulus; rewrite ?En|apply Hsg|].
  rewrite Ec, some_bind. f_equal. rewrite En, Es in Vc.
  assert (num (padded_digest h) = be (emsa h)) as Epad by (rewrite num_bytes, Ed; done).
  pose proof (tr_compare_eq (padded_digest h) c (proj1 Hd) Hc) as Hcmp. rewrite Epad, Vc in Hcmp.
  destruct (tr_compare (padded_digest h) c =? 0) eqn:T;
    [apply Z.eqb_eq in T|apply Z.eqb_neq in T].
  - assert (be sig ^ 65537 mod be pub = be (emsa h)) as -> by (symmetry; by apply Hcmp).
    by rewrite Z.eqb_refl.
  - rewrite (proj2 (Z.eqb_neq _ _)); [done|]. intros E. apply T, Hcmp. by rewrite E.
Qed.

Lemma verdict_one a b : Some (if a =? b then 1 else 0) = Some 1 -> a = b.
Proof. destruct (Z.eqb_spec a b); [done|discriminate]. Qed.

Lemma zero_array : array (replicate MODSIZE 0).
Proof. split; [by apply Forall_replicate|apply length_replicate]. Qed.

#[local] Strategy expand [rsa_verify].

Lemma rsa_verify_unfold h pub sig :
  rsa_verify_from (replicate MODSIZE 0) (replicate MODSIZE 0) h pub sig = rsa_verify h pub sig.
Proof. reflexivity. Qed.

(** What a positive verdict means. *)
Lemma rsa_verify_accepts h pub sig :
  bytes_ok h -> length h = 32%nat ->
  bytes_ok pub -> length pub = RSABYTES -> bytes_ok sig -> length sig = RSABYTES ->
  Bw ^ 63 <= be pub -> rsa_verify h pub sig = Some 1 ->
  be sig ^ 65537 mod be pub = be (emsa h).
Proof.
  intros Hb Hh Hp Lp Hs Ls Htop E. rewrite <- rsa_verify_unfold in E.
  rewrite (rsa_verify_value _ _ h pub sig zero_array zero_array Hb Hh Hp Lp Hs Ls Htop) in E.
  exact (verdict_one _ _ E).
Qed.

(** [C12] Padding.  The digit array that [rsa_verify] fills byte by byte is the
    one that laying the digest out with [pkcs_v15] and converting it would
    give, whatever the byte buffer and the array held before. *)
Theorem padded_digest_pkcs_v15 h m d :
  bytes_ok h -> length h = 32%nat -> length m = RSABYTES -> array d ->
  padded_digest h = tr_convert (pkcs_v15 h m) d.
Proof. apply padded_digest_pkcs. Qed.

Lemma padded_digest_pkcs_v15_witness :
  padded_digest (replicate 32 7) = tr_convert (pkcs_v15 (replicate 32 7) (replicate 256 9)) (replicate 64 5).
Proof.
  apply (padded_digest_pkcs_v15 (replicate 32 7) (replicate 256 9) (replicate 64 5)).
  - by apply Forall_replicate.
  - reflexivity.
  - reflexivity.
  - split; [by apply Forall_replicate|reflexivity].
Defined.

(** [C12] Modular multiplication.  For any two numbers and any modulus with a
    top digit other than zero, [tr_modmul] returns the product modulo it: the
    division never divides by zero, every quotient digit is found within the
    fuel, and a digit guessed one too high is compensated. *)
Theorem tr_modmul_correct a b m :
  digits a -> digits b -> modulus m ->
  exists r, tr_modmul a b m = Some r /\ digits r /\ num r = (num a * num b) mod num m.
Proof. apply tr_modmul_value. Qed.

Lemma tr_modmul_correct_witness :
  let m := replicate 64 (2 ^ 32 - 1) in
  exists r, tr_modmul (replicate 64 3) (replicate 64 5) m = Some r /\ digits r /\
    num r = (num (replicate 64 3) * num (replicate 64 5)) mod num m.
Proof.
  intros m. apply (tr_modmul_correct (replicate 64 3) (replicate 64 5) m).
  - by apply Forall_replicate.
  - by apply Forall_replicate.
  - split; [by apply Forall_replicate|reflexivity].
Defined.

(** [C8] RSA verification.  For every digest, every signature and every public
    key whose top digit is not zero, and whatever the stack arrays held,
    [rsa_verify] returns, and its verdict is 1 exactly when the signature
    raised to 65537 modulo the key is the EMSA-PKCS1-v1_5 encoding of the
    digest, all read as big-endian numbers. *)
Theorem rsa_verify_correct n0 s0 h pub sig :
  array n0 -> array s0 ->
  bytes_ok h -> length h = 32%nat ->
  bytes_ok pub -> length pub = RSABYTES -> bytes_ok sig -> length sig = RSABYTES ->
  Bw ^ 63 <= be pub ->
  rsa_verify_from n0 s0 h pub sig =
    Some (if be sig ^ 65537 mod be pub =? be (emsa h) then 1 else 0).
Proof. apply rsa_verify_value. Qed.

(** Minus one is its own odd power. *)
Lemma minus_one_power N : 1 < N -> (N - 1) ^ 65537 mod N = N - 1.
Proof.
  intros HN. rewrite <- Z.mod_pow_l.
  assert ((N - 1) mod N = (- 1) mod N) as -> by
    (rewrite <- (Z_mod_plus_full (-1) 1 N); f_equal; lia).
  rewrite Z.mod_pow_l. change ((-1) ^ 65537) with (-1).
  symmetry. apply (Z.mod_unique_pos _ _ (-1)); lia.
Qed.

Lemma own_signature d N : N = d + 1 -> 0 < d -> (if d ^ 65537 mod N =? d then 1 else 0) = 1.
Proof.
  intros -> Hd. replace (d ^ 65537) with ((d + 1 - 1) ^ 65537) by (f_equal; lia).
  rewrite minus_one_power by lia. by rewrite (proj2 (Z.eqb_eq _ _)) by lia.
Qed.

(** The encoded digest is its own signature under the key one above it. *)
Lemma rsa_verify_correct_witness :
  let h := replicate 32 7 in
  let pub := reverse (le_split 256 (be (emsa h) + 1)) in
  rsa_verify_from (replicate 64 5) (replicate 64 6) h pub (emsa h) = Some 1.
Proof.
  intros h pub.
  assert (Hlen : length pub = RSABYTES) by reflexivity.
  assert (Hok : bytes_ok pub) by (apply Forall_reverse, le_split_bytes).
  assert (Hh : bytes_ok h) by (by apply Forall_replicate).
  assert (H5 : array (replicate 64 5)) by (split; [by apply Forall_replicate|reflexivity]).
  assert (H6 : array (replicate 64 6)) by (split; [by apply Forall_replicate|reflexivity]).
  pose proof (emsa_bytes h Hh) as Hsig.
  assert (Hpub : be pub = be (emsa h) + 1) by (unfold pub; vm_compute; reflexivity).
  assert (Hpos : 0 < be (emsa h)) by (vm_compute; reflexivity).
  assert (Hbig : Bw ^ 63 <= be pub) by (rewrite Hpub; vm_compute; discriminate).
  clearbody pub.
  rewrite (rsa_verify_correct _ _ h pub (emsa h) H5 H6 Hh eq_refl Hok Hlen Hsig eq_refl Hbig).
  f_equal. revert Hpub Hpos. generalize (be (emsa h)), (be pub). exact own_signature.
Defined.

End RsaSpec.
