(* ===== verification/MclBig.v ===== *)
(** * MclBig: the multi-word numbers of the MIRACL library
      (common/vendors/MIRACL/ara/src/lib/mcl_big.c)

    A [MCL_BIG] is an array of [MCL_NLEN] signed words of [MCL_CHUNK] bits, least
    significant first, that holds a number in base [2^MCL_BASEBITS].  The words
    have spare bits, so additions and subtractions do not propagate carries
    until [MCL_BIG_norm] does.  The library is compiled once per curve; the
    configuration is the class [MclConfig].  Every operation returns the new
    contents of the arrays it changes. *)

From S2P Require Import Prelude Sha256.

(** The values mcl_arch.h and mcl_config.h select. *)
Class MclConfig := {
  MCL_CHUNK : Z;        (* bits in a word *)
  MCL_BASEBITS : Z;     (* bits in use of a word *)
  MCL_MBITS : Z         (* bits in the modulus of the curve *)
}.

(** Two's complement with [w] bits. *)
Definition swrap (w x : Z) : Z := (x + 2 ^ (w - 1)) mod 2 ^ w - 2 ^ (w - 1).

Section big.
Context `{MclConfig}.
Implicit Types a b c : list Z.

Definition MCL_MODBYTES : Z := 1 + (MCL_MBITS - 1) / 8.
Definition MCL_BIGBITS : Z := MCL_MODBYTES * 8.
Definition MCL_NLEN : nat := Z.to_nat (1 + (MCL_MBITS - 1) / MCL_BASEBITS).
Definition DMCL_NLEN : nat := (2 * MCL_NLEN)%nat.
Definition BMASK : Z := Z.shiftl 1 MCL_BASEBITS - 1.

(** Casts to the signed word types. *)
Definition mcl_chunk (x : Z) : Z := swrap MCL_CHUNK x.
Definition mcl_dchunk (x : Z) : Z := swrap (2 * MCL_CHUNK) x.

(** Word [i]; loops stay inside their arrays. *)
Abbreviation at_ := Sha256.at_.

(** ** Words *)

(** [x*y+c+r]: the new [*r] and the word returned. *)
Definition MCL_muladd (x y c r : Z) : Z * Z :=
  let prod := mcl_dchunk (x * y + c + r) in
  (Z.land (mcl_chunk prod) BMASK, mcl_chunk (Z.shiftr prod MCL_BASEBITS)).

(** ** Constants, copies and comparisons *)
Definition MCL_BIG_zero : list Z := replicate MCL_NLEN 0.
Definition MCL_BIG_dzero : list Z := replicate DMCL_NLEN 0.
Definition MCL_BIG_one : list Z := 1 :: replicate (MCL_NLEN - 1) 0.

Definition MCL_BIG_iszilch a : bool := forallb (Z.eqb 0) a.

Definition MCL_BIG_cswap a b (d : Z) : list Z * list Z :=
  let c := Z.lnot (d - 1) in
  (zip_with (λ x y, Z.lxor x (Z.land c (Z.lxor x y))) a b,
   zip_with (λ x y, Z.lxor y (Z.land c (Z.lxor x y))) a b).

Definition MCL_BIG_cmove f g (d : Z) : list Z :=
  zip_with (λ x y, Z.lxor x (Z.land (Z.lxor x y) (mcl_chunk (- d)))) f g.

(** Copy to the bottom half of a double-length number; the top word is split. *)
Definition MCL_BIG_dscopy a : list Z :=
  let top := at_ a (MCL_NLEN - 1) in
  take (MCL_NLEN - 1) a ++ [Z.land top BMASK; Z.shiftr top MCL_BASEBITS]
  ++ replicate (DMCL_NLEN - (MCL_NLEN + 1)) 0.
Definition MCL_BIG_dsucopy a : list Z := replicate MCL_NLEN 0 ++ take MCL_NLEN a.
Definition MCL_BIG_sdcopy a : list Z := take MCL_NLEN a.
Definition MCL_BIG_sducopy a : list Z := take MCL_NLEN (drop MCL_NLEN a).

(** [for (i=n-1;i>=0;i--)]: from the most significant word down. *)
Fixpoint comp_loop (n : nat) a b : Z :=
  match n with
  | O => 0
  | S i => if at_ a i =? at_ b i then comp_loop i a b
           else if at_ b i <? at_ a i then 1 else -1
  end.
Definition MCL_BIG_comp a b : Z := comp_loop MCL_NLEN a b.
Definition MCL_BIG_dcomp a b : Z := comp_loop DMCL_NLEN a b.

(** ** Addition, subtraction, normalisation *)
Definition MCL_BIG_add a b : list Z := zip_with (λ x y, mcl_chunk (x + y)) a b.
Definition MCL_BIG_sub a b : list Z := zip_with (λ x y, mcl_chunk (x - y)) a b.
Definition MCL_BIG_dsub a b : list Z := zip_with (λ x y, mcl_chunk (x - y)) a b.

(** The normalisation loop: all words but the last are reduced to the base,
    the carry keeps its sign. *)
Fixpoint norm_loop (carry : Z) a : list Z :=
  match a with
  | [] => []
  | [x] => [mcl_chunk (x + carry)]
  | x :: a => let d := mcl_chunk (x + carry) in
              Z.land d BMASK :: norm_loop (Z.shiftr d MCL_BASEBITS) a
  end.

(** What lies above [MCL_BIGBITS]; only used in mcl_ff.c. *)
Definition P_TBITS : Z := (8 * MCL_MODBYTES) mod MCL_BASEBITS.
Definition excess a : Z := Z.shiftr (at_ a (MCL_NLEN - 1)) P_TBITS.

Definition MCL_BIG_norm a : list Z * Z :=
  let a := norm_loop 0 a in (a, excess a).
Definition MCL_BIG_dnorm a : list Z := norm_loop 0 a.

(** [a[0]+=m]. *)
Definition add_low (m : Z) a : list Z := alter (λ x, mcl_chunk (x + m)) 0%nat a.

Definition MCL_BIG_inc c (d : Z) : list Z := add_low d (fst (MCL_BIG_norm c)).
Definition MCL_BIG_dec c (d : Z) : list Z := add_low (- d) (fst (MCL_BIG_norm c)).
Definition MCL_BIG_imul a (c : Z) : list Z := (λ x, mcl_chunk (x * c)) <$> a.

(** ** Shifts *)

(** Left by less than a word; [prev] is the word below. *)
Fixpoint fshl_loop (n prev : Z) a : list Z :=
  match a with
  | [] => []
  | [x] => [Z.lor (mcl_chunk (Z.shiftl x n)) (Z.shiftr prev (MCL_BASEBITS - n))]
  | x :: a => Z.lor (Z.land (mcl_chunk (Z.shiftl x n)) BMASK) (Z.shiftr prev (MCL_BASEBITS - n))
              :: fshl_loop n x a
  end.
Definition MCL_BIG_fshl a (n : Z) : list Z * Z :=
  let a := fshl_loop n 0 a in (a, excess a).

(** Right by less than a word. *)
Fixpoint fshr_loop (k : Z) a : list Z :=
  match a with
  | [] => []
  | x :: a =>
      match a with
      | [] => [Z.shiftr x k]
      | y :: _ => Z.lor (Z.shiftr x k) (Z.land (mcl_chunk (Z.shiftl y (MCL_BASEBITS - k))) BMASK)
                  :: fshr_loop k a
      end
  end.
(** The new number and the bits shifted out. *)
Definition MCL_BIG_fshr a (k : Z) : list Z * Z :=
  (fshr_loop k a, Z.land (at_ a 0) (Z.shiftl 1 k - 1)).

(** By any number of bits: [m] whole words and [n] bits.  [N] is the number of
    words; words are read before they are overwritten. *)
Definition shl_words (N : nat) a (k : Z) : list Z :=
  let n := k mod MCL_BASEBITS in
  let m := Z.to_nat (k / MCL_BASEBITS) in
  (λ i, if (i <? m)%nat then 0
        else if (i =? m)%nat then Z.land (mcl_chunk (Z.shiftl (at_ a 0) n)) BMASK
        else if (i =? N - 1)%nat then
          Z.lor (mcl_chunk (Z.shiftl (at_ a (i - m)) n)) (Z.shiftr (at_ a (i - m - 1)) (MCL_BASEBITS - n))
        else
          Z.lor (Z.land (mcl_chunk (Z.shiftl (at_ a (i - m)) n)) BMASK)
                (Z.shiftr (at_ a (i - m - 1)) (MCL_BASEBITS - n))) <$> seq 0 N.
Definition MCL_BIG_shl a (k : Z) : list Z := shl_words MCL_NLEN a k.
Definition MCL_BIG_dshl a (k : Z) : list Z := shl_words DMCL_NLEN a k.

Definition shr_words (N : nat) a (k : Z) : list Z :=
  let n := k mod MCL_BASEBITS in
  let m := Z.to_nat (k / MCL_BASEBITS) in
  (λ i, if (i <? N - m - 1)%nat then
          Z.lor (Z.shiftr (at_ a (m + i)) n)
                (Z.land (mcl_chunk (Z.shiftl (at_ a (m + i + 1)) (MCL_BASEBITS - n))) BMASK)
        else if (i =? N - m - 1)%nat then Z.shiftr (at_ a (N - 1)) n
        else 0) <$> seq 0 N.
Definition MCL_BIG_shr a (k : Z) : list Z := shr_words MCL_NLEN a k.
Definition MCL_BIG_dshr a (k : Z) : list Z := shr_words DMCL_NLEN a k.

(** Split a double-length number at bit [n], which falls into the top word of
    a single number: the part above and the part below. *)
Fixpoint split_loop (m : Z) (n : nat) (carry : Z) (d : list Z) (t : list Z) : list Z :=
  match n with
  | O => t
  | S n =>
      let x := at_ d (MCL_NLEN - 1 + n) in
      split_loop m n (Z.land (mcl_chunk (Z.shiftl x (MCL_BASEBITS - m))) BMASK) d
        (Z.lor (Z.shiftr x m) carry :: t)
  end.
Definition MCL_BIG_split (d : list Z) (n : Z) : list Z * list Z :=
  let m := n mod MCL_BASEBITS in
  let b := take (MCL_NLEN - 1) d ++ [Z.land (at_ d (MCL_NLEN - 1)) (Z.shiftl 1 m - 1)] in
  let carry := mcl_chunk (Z.shiftl (at_ d (DMCL_NLEN - 1)) (MCL_BASEBITS - m)) in
  (split_loop m MCL_NLEN carry d [], b).

(** ** Multiplication *)

(** The running sums [s] of the products [d[i]=a[i]*b[i]]: from below for the
    low columns, from above for the high ones. *)
Definition comba_d a b : list Z := zip_with (λ x y, mcl_dchunk (x * y)) a b.
Definition comba_s (d : list Z) (j : nat) : Z :=
  if (j <? MCL_NLEN)%nat
  then foldl (λ s i, mcl_dchunk (s + at_ d i)) (at_ d 0) (seq 1 j)
  else foldl (λ s i, mcl_dchunk (s + at_ d (MCL_NLEN - 2 - i))) (at_ d (MCL_NLEN - 1))
         (seq 0 (2 * MCL_NLEN - 2 - j)).

(** [for (i=lo;i<k;i++) { t+=(a[i]-a[k])*(b[k]-b[i]); k--; }] *)
Fixpoint comba_pairs (fuel : nat) a b (i k : nat) (t : Z) : Z :=
  match fuel with
  | O => t
  | S fuel =>
      if (i <? k)%nat then
        comba_pairs fuel a b (i + 1) (k - 1)
          (mcl_dchunk (t + mcl_chunk (at_ a i - at_ a k) * mcl_chunk (at_ b k - at_ b i)))
      else t
  end.

(** Column [j] of the product, with the carry [co] from the column below. *)
Definition comba_column a b (d : list Z) (co : Z) (j : nat) : Z :=
  let t := mcl_dchunk (co + comba_s d j) in
  if (j <? MCL_NLEN)%nat then comba_pairs MCL_NLEN a b 0 j t
  else comba_pairs MCL_NLEN a b (j - MCL_NLEN + 1) (MCL_NLEN - 1) t.

(** [n] columns from column [j] on, then the last carry. *)
Fixpoint comba_columns (n : nat) a b (d : list Z) (co : Z) (j : nat) : list Z :=
  match n with
  | O => [mcl_chunk co]
  | S n =>
      let t := comba_column a b d co j in
      Z.land (mcl_chunk t) BMASK :: comba_columns n a b d (Z.shiftr t MCL_BASEBITS) (j + 1)
  end.

(** The product, and the operands, which are normalised in place. *)
Definition MCL_BIG_mul a b : list Z * (list Z * list Z) :=
  let a := fst (MCL_BIG_norm a) in
  let b := fst (MCL_BIG_norm b) in
  (comba_columns (2 * MCL_NLEN - 1) a b (comba_d a b) 0 0, (a, b)).

(** ** Bytes, most significant first *)
Fixpoint toBytes_loop (n : nat) c : list Z :=
  match n with
  | O => []
  | S n => toBytes_loop n (fst (MCL_BIG_fshr c 8)) ++ [Z.land (at_ c 0) 0xff]
  end.
Definition MCL_BIG_toBytes a : list Z :=
  toBytes_loop (Z.to_nat MCL_MODBYTES) (fst (MCL_BIG_norm a)).

Definition fromBytes_step a (byte : Z) : list Z := add_low (u8 byte) (fst (MCL_BIG_fshl a 8)).
Definition MCL_BIG_fromBytes (bs : list Z) : list Z :=
  foldl fromBytes_step MCL_BIG_zero (take (Z.to_nat MCL_MODBYTES) bs).
(** The length is clipped only after it has been copied, so all bytes are read. *)
Definition MCL_BIG_fromBytesLen (bs : list Z) (s : nat) : list Z :=
  foldl fromBytes_step MCL_BIG_zero (take s bs).
End big.

(** The two curves of the second stage, with 32-bit words
    (apps/secondstage/MIRACL_cfg). *)
Definition C448 : MclConfig := {| MCL_CHUNK := 32; MCL_BASEBITS := 27; MCL_MBITS := 448 |}.
Definition C25519 : MclConfig := {| MCL_CHUNK := 32; MCL_BASEBITS := 29; MCL_MBITS := 255 |}.
