(* ===== verification/MclBigSpec.v ===== *)
(** * MclBigSpec: what the multi-word operations compute

    [val] is the number an array of words stands for.  A number is [normal] when
    all its words but the last are digits of the base; the operations keep the
    value, and the ones that must not overflow a word do not, within the word
    bounds their lemmas state. *)

From S2P Require Import Prelude Sha256 Sha256Spec MclBig.

(** What the proofs need of a configuration: room for carries in a word, for a
    column of the product in a double word, and a top word that is partly used. *)
Class MclConfigOk `{MclConfig} : Prop := {
  base_8 : 8 <= MCL_BASEBITS;
  base_room : MCL_BASEBITS + 3 <= MCL_CHUNK;
  column_room : (2 * Z.of_nat MCL_NLEN + 2) * 2 ^ (2 * MCL_BASEBITS) <= 2 ^ (2 * MCL_CHUNK - 1);
  bits_top : MCL_BIGBITS = MCL_BASEBITS * (Z.of_nat MCL_NLEN - 1) + P_TBITS;
  words_2 : (2 <= MCL_NLEN)%nat;
  words_few : Z.of_nat MCL_NLEN <= 2 ^ MCL_BASEBITS
}.

#[export] Instance C448_ok : @MclConfigOk C448.
Proof. split; vm_compute; first [reflexivity | discriminate | lia]. Qed.
#[export] Instance C25519_ok : @MclConfigOk C25519.
Proof. split; vm_compute; first [reflexivity | discriminate | lia]. Qed.

(** ** Machine words *)

Lemma swrap_small w x : 1 <= w -> - 2 ^ (w - 1) <= x < 2 ^ (w - 1) -> swrap w x = x.
Proof.
  intros Hw Hx. unfold swrap. assert (2 ^ w = 2 * 2 ^ (w - 1)) as ->.
  { rewrite <- Z.pow_succ_r by lia. f_equal. lia. }
  rewrite Z.mod_small by lia. lia.
Qed.

Lemma swrap_mod w k x : 0 <= k <= w - 1 -> swrap w x mod 2 ^ k = x mod 2 ^ k.
Proof.
  intros Hk. unfold swrap.
  assert (Hd : (2 ^ k | 2 ^ (w - 1))) by (exists (2 ^ (w - 1 - k)); rewrite <- Z.pow_add_r by lia; f_equal; lia).
  assert (Hd' : (2 ^ k | 2 ^ w)) by (exists (2 ^ (w - k)); rewrite <- Z.pow_add_r by lia; f_equal; lia).
  destruct Hd as [p Hp]. rewrite Hp at 2. rewrite <- Z.add_opp_r, <- Z.mul_opp_l, Z_mod_plus_full.
  rewrite <- Znumtheory.Zmod_div_mod by (done || (apply Z.pow_pos_nonneg; lia)).
  by rewrite Hp, Z_mod_plus_full.
Qed.

Section spec.
Context `{MclConfigOk}.
Implicit Types a b c d : list Z.
Abbreviation W := (2 ^ MCL_BASEBITS).
Abbreviation at_ := Sha256.at_.

Lemma W_pos : 0 < W.
Proof. apply Z.pow_pos_nonneg; pose proof base_8; lia. Qed.

Lemma land_BMASK x : Z.land x BMASK = x mod W.
Proof.
  unfold BMASK. rewrite Z.shiftl_1_l.
  change (2 ^ MCL_BASEBITS - 1) with (Z.pred W). rewrite <- Z.ones_equiv, Z.land_ones; [done|].
  pose proof base_8. lia.
Qed.
(** ** Values *)

Fixpoint val a : Z :=
  match a with
  | [] => 0
  | x :: a => x + W * val a
  end.

Lemma val_cons x a : val (x :: a) = x + W * val a.
Proof. done. Qed.

Definition digit (x : Z) : Prop := 0 <= x < W.
Definition word (x : Z) : Prop := - 2 ^ (MCL_CHUNK - 1) <= x < 2 ^ (MCL_CHUNK - 1).

Lemma chunk_small x : word x -> mcl_chunk x = x.
Proof. intros. apply swrap_small; [pose proof base_8; pose proof base_room; lia|done]. Qed.

Lemma chunk_digit x : Z.land (mcl_chunk x) BMASK = x mod W.
Proof.
  rewrite land_BMASK. apply swrap_mod. pose proof base_8. pose proof base_room. lia.
Qed.

Lemma mod_digit x : digit (x mod W).
Proof. apply Z.mod_pos_bound, W_pos. Qed.

Lemma val_app a b : val (a ++ b) = val a + W ^ Z.of_nat (length a) * val b.
Proof.
  induction a as [|x a IH]; cbn [app val length].
  - change (Z.of_nat 0) with 0. rewrite Z.pow_0_r. lia.
  - rewrite IH, Nat2Z.inj_succ, Z.pow_succ_r by lia. ring.
Qed.

Lemma val_digits a : Forall digit a -> 0 <= val a < W ^ Z.of_nat (length a).
Proof.
  pose proof W_pos. induction 1 as [|x a Hx _ IH]; cbn [val length]; [done|].
  rewrite Nat2Z.inj_succ, Z.pow_succ_r by lia. unfold digit in Hx. nia.
Qed.

Lemma val_zeros n : val (replicate n 0) = 0.
Proof. induction n as [|n IH]; cbn [replicate val]; lia. Qed.

(** All words but the last are digits. *)
Definition normal a : Prop := exists lo top, a = lo ++ [top] /\ Forall digit lo.

Lemma normal_cons x a : normal (x :: a) <-> (a = [] \/ digit x /\ normal a).
Proof.
  split.
  - intros ([|y lo] & top & E & Hlo); simplify_eq/=; [by left|right].
    apply Forall_cons in Hlo as [? ?]. split; [done|by exists lo, top].
  - intros [->|[Hx (lo & top & -> & Hlo)]]; [by exists [], x|].
    exists (x :: lo), top. by rewrite Forall_cons.
Qed.

(** A normal number is determined by its value. *)
Lemma digits_normal a : Forall digit a -> a <> [] -> normal a.
Proof.
  intros Ha Hne. destruct (exists_last Hne) as (lo & top & ->). exists lo, top. split; [done|].
  by apply Forall_app in Ha as [? _].
Qed.

Lemma normal_inj a : forall b, length a = length b -> normal a -> normal b -> val a = val b -> a = b.
Proof.
  pose proof W_pos. induction a as [|x a IH]; intros [|y b] Hl Ha Hb E; try done.
  cbn [val] in E. apply normal_cons in Ha, Hb. cbn [length] in Hl.
  assert (forall c, normal c -> length c <> 0%nat) as Hne
    by (intros c (lo & top & -> & _); rewrite length_app; cbn; lia).
  destruct Ha as [->|[Hx Ha]]; destruct Hb as [->|[Hy Hb]]; cbn [val length] in *.
  - f_equal. lia.
  - apply Hne in Hb. lia.
  - apply Hne in Ha. lia.
  - assert (x = y) as ->.
    { rewrite <- (Z.mod_small x W), <- (Z.mod_small y W) by done.
      rewrite <- (Z_mod_plus_full x (val a) W), <- (Z_mod_plus_full y (val b) W). f_equal. lia. }
    f_equal. apply IH; [lia|done|done|nia].
Qed.

(** ** Normalisation *)

(** Half of the word range, so that a carry can be added. *)
Definition loose (x : Z) : Prop := - 2 ^ (MCL_CHUNK - 2) <= x < 2 ^ (MCL_CHUNK - 2).

Lemma word_half : 2 ^ (MCL_CHUNK - 1) = 2 * 2 ^ (MCL_CHUNK - 2).
Proof.
  pose proof base_8. pose proof base_room. rewrite <- Z.pow_succ_r by lia. f_equal. lia.
Qed.

Lemma loose_word x : loose x -> word x.
Proof.
  unfold loose, word. rewrite word_half. pose proof base_8. pose proof base_room.
  assert (0 < 2 ^ (MCL_CHUNK - 2)) by (apply Z.pow_pos_nonneg; lia). lia.
Qed.

Lemma loose_sum x y : loose x -> loose y -> word (x + y).
Proof. unfold loose, word. rewrite word_half. lia. Qed.

Lemma W_half : 2 * W <= 2 ^ (MCL_CHUNK - 2).
Proof.
  pose proof base_8. pose proof base_room. rewrite <- Z.pow_succ_r by lia.
  apply Z.pow_le_mono_r; lia.
Qed.

Lemma digit_loose x : digit x -> loose x.
Proof. unfold digit, loose. pose proof W_half. pose proof W_pos. lia. Qed.

Lemma carry_loose x : word x -> loose (x / W).
Proof.
  intros [Hl Hh]. pose proof W_pos. pose proof W_half. rewrite word_half in *. unfold loose.
  assert (2 <= W) by (pose proof base_8; change 2 with (2 ^ 1); apply Z.pow_le_mono_r; lia).
  split; [apply Z.div_le_lower_bound|apply Z.div_lt_upper_bound]; nia.
Qed.

Lemma shiftr_W x : Z.shiftr x MCL_BASEBITS = x / W.
Proof. apply Z.shiftr_div_pow2. pose proof base_8. lia. Qed.

Lemma length_norm_loop a : forall carry, length (norm_loop carry a) = length a.
Proof.
  induction a as [|x [|y a] IH]; intros carry; [done..|].
  cbn [norm_loop length] in *. by rewrite IH.
Qed.

Lemma norm_loop_val a : forall carry,
  a <> [] -> loose carry -> Forall loose a ->
  val (norm_loop carry a) = val a + carry /\ normal (norm_loop carry a) /\
  Forall word (norm_loop carry a).
Proof.
  induction a as [|x [|y a] IH]; intros carry Hne Hc Ha; [done| |].
  - cbn [norm_loop val]. apply Forall_cons in Ha as [Hx _].
    pose proof (loose_sum x carry Hx Hc) as Hw. rewrite chunk_small by done.
    split_and!; [lia|by exists [], (x + carry)|by constructor].
  - apply Forall_cons in Ha as [Hx Ha]. pose proof (loose_sum x carry Hx Hc) as Hw.
    change (norm_loop carry (x :: y :: a)) with (Z.land (mcl_chunk (x + carry)) BMASK
      :: norm_loop (Z.shiftr (mcl_chunk (x + carry)) MCL_BASEBITS) (y :: a)).
    rewrite chunk_small, land_BMASK, shiftr_W by done.
    destruct (IH ((x + carry) / W)) as (Hv & Hn & Hwd); [done|by apply carry_loose|done|].
    split_and!.
    + rewrite val_cons, Hv, (val_cons x). pose proof (Z_div_mod_eq_full (x + carry) W). lia.
    + apply normal_cons. right. split; [apply mod_digit|exact Hn].
    + constructor; [|exact Hwd]. pose proof (mod_digit (x + carry)) as [? ?].
      pose proof W_half. pose proof word_half. unfold word. lia.
Qed.

(** Normalising a normal number with a loose top word changes nothing. *)
Lemma norm_loop_normal a :
  normal a -> Forall loose a -> norm_loop 0 a = a.
Proof.
  intros Hn Ha. assert (Hne : a <> []) by (destruct Hn as (lo & top & -> & _); by destruct lo).
  assert (Hz : loose 0) by (apply digit_loose; split; [done|apply W_pos]).
  destruct (norm_loop_val a 0 Hne Hz Ha) as (Hv & Hn' & _).
  apply normal_inj; [apply length_norm_loop|done|done|lia].
Qed.

(** The bits above [MCL_BIGBITS]. *)
Lemma tbits_range : 0 <= P_TBITS < MCL_BASEBITS.
Proof. apply Z.mod_pos_bound. pose proof base_8. lia. Qed.

Lemma bigbits_pow : 2 ^ MCL_BIGBITS = W ^ Z.of_nat (MCL_NLEN - 1) * 2 ^ P_TBITS.
Proof.
  pose proof tbits_range. pose proof words_2. pose proof base_8.
  rewrite bits_top, Z.pow_add_r, Z.pow_mul_r by (lia || nia).
  by replace (Z.of_nat MCL_NLEN - 1) with (Z.of_nat (MCL_NLEN - 1)) by lia.
Qed.

Lemma norm_loop_digits a : Forall digit a -> (0 < length a)%nat -> norm_loop 0 a = a.
Proof.
  intros Ha Hl. apply norm_loop_normal.
  - apply digits_normal; [done|]. by intros ->; cbn in Hl; lia.
  - eapply Forall_impl; [exact Ha|]. apply digit_loose.
Qed.

(** The excess is the part of the number above [MCL_BIGBITS]. *)
Lemma excess_val a :
  normal a -> length a = MCL_NLEN -> excess a = val a / 2 ^ MCL_BIGBITS.
Proof.
  intros (lo & top & -> & Hlo) Hl. pose proof words_2. rewrite length_app in Hl. cbn [length] in Hl.
  unfold excess. assert (at_ (lo ++ [top]) (MCL_NLEN - 1) = top) as ->.
  { unfold at_. rewrite lookup_app_r by lia. by replace (MCL_NLEN - 1 - length lo)%nat with 0%nat by lia. }
  pose proof base_8. assert (0 <= P_TBITS) by (apply Z.mod_pos_bound; lia).
  rewrite val_app, bits_top, Z.pow_add_r by lia. cbn [val].
  pose proof (val_digits lo Hlo) as Hb. replace (length lo) with (MCL_NLEN - 1)%nat in * by lia.
  rewrite Z.pow_mul_r by lia. replace (Z.of_nat MCL_NLEN - 1) with (Z.of_nat (MCL_NLEN - 1)) by lia.
  set (P := W ^ Z.of_nat (MCL_NLEN - 1)) in *.
  rewrite <- Z.div_div by (try apply Z.pow_pos_nonneg; lia).
  rewrite Z.mul_0_r, Z.add_0_r, (Z.mul_comm P), Z.div_add, (Z.div_small (val lo) P), Z.add_0_l by lia.
  by rewrite Z.shiftr_div_pow2.
Qed.

(** The top word of a number within known bounds. *)
Lemma top_bounds lo top l h :
  Forall digit lo -> l * W ^ Z.of_nat (length lo) <= val (lo ++ [top]) < h * W ^ Z.of_nat (length lo) ->
  l <= top < h.
Proof.
  intros Hlo. rewrite val_app. cbn [val]. pose proof (val_digits lo Hlo). nia.
Qed.

(** ** Addition and subtraction *)

(** Word by word, without overflow: [x + k * y] for [k = 1] or [k = -1]. *)
Lemma zip_val (f : Z -> Z -> Z) k a : forall b,
  (forall x y, f x y = x + k * y) -> length a = length b ->
  Forall2 (λ x y, word (x + k * y)) a b ->
  val (zip_with (λ x y, mcl_chunk (f x y)) a b) = val a + k * val b /\
  zip_with (λ x y, mcl_chunk (f x y)) a b = zip_with (λ x y, x + k * y) a b.
Proof.
  intros b Hf Hl Hw. revert Hl. induction Hw as [|x y a b Hxy _ IH]; intros Hl.
  { cbn [zip_with val]. split; [lia|done]. }
  cbn [zip_with length] in *. destruct IH as [Hv E]; [lia|].
  rewrite Hf, chunk_small by done. rewrite !val_cons, Hv. split; [ring|by rewrite E].
Qed.

Lemma add_val a b :
  length a = length b -> Forall2 (λ x y, word (x + 1 * y)) a b ->
  val (MCL_BIG_add a b) = val a + 1 * val b /\ MCL_BIG_add a b = zip_with (λ x y, x + 1 * y) a b.
Proof. apply (zip_val Z.add 1). intros; lia. Qed.

Lemma sub_val a b :
  length a = length b -> Forall2 (λ x y, word (x + -1 * y)) a b ->
  val (MCL_BIG_sub a b) = val a + -1 * val b /\ MCL_BIG_sub a b = zip_with (λ x y, x + -1 * y) a b.
Proof. apply (zip_val Z.sub (-1)). intros; lia. Qed.

(** ** Shifts *)

Lemma W_split n : 0 <= n <= MCL_BASEBITS -> W = 2 ^ n * 2 ^ (MCL_BASEBITS - n).
Proof. intros. rewrite <- Z.pow_add_r by lia. f_equal. lia. Qed.

(** The digit that a left shift leaves in its place. *)
Lemma shl_digit x n : 0 <= n <= MCL_BASEBITS ->
  (x * 2 ^ n) mod W = x mod 2 ^ (MCL_BASEBITS - n) * 2 ^ n.
Proof.
  intros Hn. rewrite (W_split n), (Z.mul_comm (2 ^ n)) by done.
  apply Z.mul_mod_distr_r; apply Z.pow_nonzero; lia.
Qed.

Lemma shiftr_high prev n : 0 <= n <= MCL_BASEBITS -> digit prev ->
  0 <= prev / 2 ^ (MCL_BASEBITS - n) < 2 ^ n.
Proof.
  intros Hn Hp. assert (0 < 2 ^ (MCL_BASEBITS - n)) by (apply Z.pow_pos_nonneg; lia).
  unfold digit in Hp. rewrite (W_split n) in Hp by done.
  split; [apply Z.div_pos; lia|apply Z.div_lt_upper_bound; lia].
Qed.

Lemma fshl_loop_val n a : forall prev,
  0 <= n <= MCL_BASEBITS -> digit prev -> normal a ->
  (forall top, last a = Some top -> word (top * 2 ^ n)) ->
  val (fshl_loop n prev a) = 2 ^ n * val a + prev / 2 ^ (MCL_BASEBITS - n) /\
  normal (fshl_loop n prev a) /\ length (fshl_loop n prev a) = length a.
Proof.
  induction a as [|x [|y a] IH]; intros prev Hn Hp Ha Htop.
  { by destruct Ha as ([|] & ? & ? & _). }
  - specialize (Htop x eq_refl). pose proof (shiftr_high prev n Hn Hp).
    cbn [fshl_loop val length]. rewrite Z.shiftl_mul_pow2, chunk_small, Z.shiftr_div_pow2, lor_join by (lia || done).
    split_and!; [lia|by exists [], (x * 2 ^ n + prev / 2 ^ (MCL_BASEBITS - n))|done].
  - apply normal_cons in Ha as [?|[Hx Ha]]; [done|].
    change (fshl_loop n prev (x :: y :: a)) with
      (Z.lor (Z.land (mcl_chunk (Z.shiftl x n)) BMASK) (Z.shiftr prev (MCL_BASEBITS - n))
       :: fshl_loop n x (y :: a)).
    destruct (IH x Hn Hx Ha Htop) as (Hv & Hnm & Hl). pose proof (shiftr_high prev n Hn Hp).
    rewrite chunk_digit, Z.shiftl_mul_pow2, shl_digit, Z.shiftr_div_pow2, lor_join by lia.
    split_and!.
    + rewrite val_cons, Hv, (val_cons x). pose proof (W_split n Hn) as EW.
      pose proof (Z_div_mod_eq_full x (2 ^ (MCL_BASEBITS - n))) as Ex.
      set (q := x / 2 ^ (MCL_BASEBITS - n)) in *. set (r := x mod 2 ^ (MCL_BASEBITS - n)) in *.
      clearbody q r. rewrite Ex, EW. ring.
    + apply normal_cons. right. split; [|done]. pose proof (shl_digit x n Hn) as E.
      pose proof (mod_digit (x * 2 ^ n)) as Hd. unfold digit in *. rewrite E in Hd.
      pose proof (Z.mod_pos_bound x (2 ^ (MCL_BASEBITS - n)) ltac:(apply Z.pow_pos_nonneg; lia)).
      rewrite (W_split n) in * by done. nia.
    + cbn [length] in *. lia.
Qed.

(** The low bits of the word above, moved to the top of the word below. *)
Lemma low_moved y k : 0 <= k <= MCL_BASEBITS ->
  Z.land (mcl_chunk (Z.shiftl y (MCL_BASEBITS - k))) BMASK = y mod 2 ^ k * 2 ^ (MCL_BASEBITS - k).
Proof.
  intros Hk. rewrite chunk_digit, Z.shiftl_mul_pow2, shl_digit by lia.
  by replace (MCL_BASEBITS - (MCL_BASEBITS - k)) with k by lia.
Qed.

Lemma shr_join x y k : 0 <= k <= MCL_BASEBITS -> digit x ->
  Z.lor (Z.shiftr x k) (y * 2 ^ (MCL_BASEBITS - k)) = x / 2 ^ k + y * 2 ^ (MCL_BASEBITS - k).
Proof.
  intros Hk Hx. assert (0 < 2 ^ k) by (apply Z.pow_pos_nonneg; lia).
  unfold digit in Hx. rewrite (W_split k) in Hx by done.
  assert (0 <= x / 2 ^ k < 2 ^ (MCL_BASEBITS - k)) by
    (split; [apply Z.div_pos|apply Z.div_lt_upper_bound]; lia).
  rewrite Z.shiftr_div_pow2, Z.lor_comm, lor_join by lia. lia.
Qed.

Lemma fshr_loop_val k a :
  0 <= k <= MCL_BASEBITS -> normal a ->
  val (fshr_loop k a) = val a / 2 ^ k /\ normal (fshr_loop k a) /\
  length (fshr_loop k a) = length a.
Proof.
  intros Hk. assert (0 < 2 ^ k) by (apply Z.pow_pos_nonneg; lia).
  induction a as [|x [|y a] IH]; intros Ha.
  { by destruct Ha as ([|] & ? & ? & _). }
  - cbn [fshr_loop val length]. rewrite Z.shiftr_div_pow2, !Z.mul_0_r, !Z.add_0_r by lia.
    split_and!; [done|by exists [], (x / 2 ^ k)|done].
  - apply normal_cons in Ha as [?|[Hx Ha]]; [done|].
    change (fshr_loop k (x :: y :: a)) with
      (Z.lor (Z.shiftr x k) (Z.land (mcl_chunk (Z.shiftl y (MCL_BASEBITS - k))) BMASK)
       :: fshr_loop k (y :: a)).
    destruct (IH Ha) as (Hv & Hn & Hl). rewrite low_moved, shr_join by done.
    pose proof (W_split k Hk) as EW. split_and!.
    + rewrite val_cons, Hv, (val_cons x). set (v := val (y :: a)).
      assert (v mod 2 ^ k = y mod 2 ^ k) as Ev.
      { unfold v. rewrite val_cons, EW, <- Z.mul_assoc, (Z.mul_comm (2 ^ k)). apply Z_mod_plus_full. }
      rewrite <- Ev. pose proof (Z_div_mod_eq_full v (2 ^ k)) as E.
      replace (x + W * v) with (x + (2 ^ (MCL_BASEBITS - k) * v) * 2 ^ k) by (rewrite EW; ring).
      rewrite Z.div_add by lia. set (q := v / 2 ^ k) in *. set (r := v mod 2 ^ k) in *.
      clearbody q r. rewrite E, EW. ring.
    + apply normal_cons. right. split; [|done].
      pose proof (Z.mod_pos_bound y (2 ^ k) ltac:(lia)).
      assert (0 < 2 ^ (MCL_BASEBITS - k)) by (apply Z.pow_pos_nonneg; lia).
      unfold digit in *. rewrite EW in *.
      assert (0 <= x / 2 ^ k < 2 ^ (MCL_BASEBITS - k)).
      { split; [apply Z.div_pos; lia|apply Z.div_lt_upper_bound; lia]. }
      nia.
    + cbn [length] in *. lia.
Qed.

(** ** Splitting *)

(** Each round keeps [W * t + carry] at the value of the words read so far,
    shifted to the split position. *)
Lemma split_loop_val m d n : forall carry t v,
  0 <= m <= MCL_BASEBITS ->
  (forall i, (i < n)%nat -> digit (at_ d (MCL_NLEN - 1 + i))) ->
  (exists e, carry = e * 2 ^ (MCL_BASEBITS - m)) ->
  W * val t + carry = 2 ^ (MCL_BASEBITS - m) * v -> 
  let low := val ((λ i, at_ d (MCL_NLEN - 1 + i)) <$> seq 0 n) in
  n <> 0%nat ->
  2 ^ m * val (split_loop m n carry d t) + at_ d (MCL_NLEN - 1) mod 2 ^ m =
    low + W ^ Z.of_nat n * v /\
  length (split_loop m n carry d t) = (n + length t)%nat.
Proof.
  intros carry t v Hm Hd Hc Hi low Hn. subst low. revert carry t v Hd Hc Hi.
  assert (0 < 2 ^ m) by (apply Z.pow_pos_nonneg; lia).
  assert (0 < 2 ^ (MCL_BASEBITS - m)) by (apply Z.pow_pos_nonneg; lia).
  pose proof (W_split m Hm) as EW.
  induction n as [|n IH]; intros carry t v Hd [e ->] Hi; [done|].
  cbn [split_loop]. set (x := at_ d (MCL_NLEN - 1 + n)) in *.
  assert (Hx : digit x) by (apply Hd; lia). rewrite low_moved, shr_join by done.
  pose proof (Z_div_mod_eq_full x (2 ^ m)) as Ex.
  assert (Hinv : W * val (x / 2 ^ m + e * 2 ^ (MCL_BASEBITS - m) :: t) +
                 x mod 2 ^ m * 2 ^ (MCL_BASEBITS - m) = 2 ^ (MCL_BASEBITS - m) * (x + W * v)).
  { rewrite val_cons. transitivity (2 ^ (MCL_BASEBITS - m) * x + W * (W * val t + e * 2 ^ (MCL_BASEBITS - m)));
      [|rewrite Hi; ring].
    set (q := x / 2 ^ m) in *. set (r := x mod 2 ^ m) in *. clearbody q r x. rewrite Ex, EW. ring. }
  rewrite seq_S, fmap_app, val_app. cbn [fmap list_fmap Nat.add]. rewrite length_fmap, length_seq.
  fold x. rewrite Nat2Z.inj_succ, Z.pow_succ_r by lia. rewrite val_cons. cbn [val].
  destruct (decide (n = 0)%nat) as [->|Hn0].
  - cbn [split_loop seq fmap list_fmap val length]. split; [|done].
    unfold x in *. rewrite Nat.add_0_r in *. change (Z.of_nat 0) with 0. rewrite Z.pow_0_r.
    rewrite val_cons in Hinv. nia.
  - destruct (IH Hn0 (x mod 2 ^ m * 2 ^ (MCL_BASEBITS - m))
      (x / 2 ^ m + e * 2 ^ (MCL_BASEBITS - m) :: t) (x + W * v)) as [E El];
      [intros; apply Hd; lia|by eexists|exact Hinv|].
    rewrite E, El. cbn [length]. split; [ring|lia].
Qed.

Lemma split_loop_normal m d n : forall carry t,
  0 <= m <= MCL_BASEBITS ->
  (forall i, (i < n)%nat -> digit (at_ d (MCL_NLEN - 1 + i))) ->
  (t = [] /\ n <> 0%nat /\ (exists e, carry = e * 2 ^ (MCL_BASEBITS - m)) \/
   normal t /\ exists e, 0 <= e < 2 ^ m /\ carry = e * 2 ^ (MCL_BASEBITS - m)) ->
  normal (split_loop m n carry d t).
Proof.
  intros carry t Hm. revert carry t. assert (0 < 2 ^ m) by (apply Z.pow_pos_nonneg; lia).
  assert (0 < 2 ^ (MCL_BASEBITS - m)) by (apply Z.pow_pos_nonneg; lia).
  induction n as [|n IH]; intros carry t Hd Ht; cbn [split_loop].
  { by destruct Ht as [(_ & ? & _)|[? _]]. }
  set (x := at_ d (MCL_NLEN - 1 + n)). assert (Hx : digit x) by (apply Hd; lia).
  rewrite low_moved by done. apply IH; [intros; apply Hd; lia|]. right. split.
  - destruct Ht as [(-> & _ & _)|[Ht (e & He & ->)]]; [by eexists [], _|].
    apply normal_cons. right. split; [|done]. rewrite shr_join by done.
    pose proof (W_split m Hm) as EW. unfold digit in *. rewrite EW in *.
    assert (0 <= x / 2 ^ m < 2 ^ (MCL_BASEBITS - m)) by
      (split; [apply Z.div_pos|apply Z.div_lt_upper_bound]; lia). nia.
  - exists (x mod 2 ^ m). split; [by apply Z.mod_pos_bound|done].
Qed.

(** A product splits into the part above [MCL_BIGBITS] and the part below. *)
Lemma split_val lo top :
  Forall digit lo -> length lo = (DMCL_NLEN - 1)%nat ->
  word (top * 2 ^ (MCL_BASEBITS - P_TBITS)) ->
  let '(t, b) := MCL_BIG_split (lo ++ [top]) MCL_BIGBITS in
  val (lo ++ [top]) = 2 ^ MCL_BIGBITS * val t + val b /\
  normal t /\ length t = MCL_NLEN /\ normal b /\ length b = MCL_NLEN /\
  0 <= val b < 2 ^ MCL_BIGBITS.
Proof.
  intros Hlo Hl Htop. pose proof words_2. pose proof base_8. unfold MCL_BIG_split, DMCL_NLEN in *.
  replace (MCL_BIGBITS mod MCL_BASEBITS) with P_TBITS by (unfold P_TBITS, MCL_BIGBITS; f_equal; lia).
  pose proof tbits_range as HT.
  set (d := lo ++ [top]). assert (Hd : forall i, (i < 2 * MCL_NLEN - 1)%nat -> digit (at_ d i)).
  { intros i Hi. unfold at_, d. rewrite lookup_app_l by lia.
    destruct (lookup_lt_is_Some_2 lo i) as [x Hx]; [lia|]. rewrite Hx. by eapply Forall_lookup_1. }
  assert (Et : at_ d (2 * MCL_NLEN - 1) = top).
  { unfold at_, d. rewrite lookup_app_r by lia. by replace (_ - length lo)%nat with 0%nat by lia. }
  rewrite Et, Z.shiftl_mul_pow2, chunk_small by (done || lia).
  assert (Hdl : length d = (2 * MCL_NLEN)%nat) by (unfold d; rewrite length_app; cbn; lia).
  assert (Ed : d = take (MCL_NLEN - 1) d ++ ((λ i, at_ d (MCL_NLEN - 1 + i)) <$> seq 0 MCL_NLEN) ++ [top]).
  { apply list_eq_same_length with (2 * MCL_NLEN)%nat; [|done|].
    - rewrite !length_app, length_take, length_fmap, length_seq. cbn. lia.
    - intros i x y Hi Hx Hy. assert (at_ d i = x) as <- by (unfold at_; by rewrite Hx).
      destruct (decide (i < MCL_NLEN - 1)%nat).
      { rewrite lookup_app_l, lookup_take_lt in Hy by (rewrite ?length_take; lia).
        unfold at_. by rewrite Hy. }
      rewrite lookup_app_r, length_take, Nat.min_l in Hy by (rewrite ?length_take; lia).
      destruct (decide (i = 2 * MCL_NLEN - 1)%nat) as [->|].
      { rewrite lookup_app_r, length_fmap, length_seq in Hy by (rewrite length_fmap, length_seq; lia).
        replace (2 * MCL_NLEN - 1 - (MCL_NLEN - 1) - MCL_NLEN)%nat with 0%nat in Hy by lia.
        injection Hy as <-. done. }
      rewrite lookup_app_l, list_lookup_fmap, lookup_seq_lt in Hy by (rewrite ?length_fmap, ?length_seq; lia).
      injection Hy as <-. f_equal. lia. }
  destruct (split_loop_val P_TBITS d MCL_NLEN (top * 2 ^ (MCL_BASEBITS - P_TBITS)) [] top) as [Ev El];
    [lia|intros; apply Hd; lia|by eexists|cbn [val]; lia|lia|].
  assert (Hn : normal (split_loop P_TBITS MCL_NLEN (top * 2 ^ (MCL_BASEBITS - P_TBITS)) d [])).
  { apply split_loop_normal; [lia|intros; apply Hd; lia|left].
    split_and!; [done|lia|by eexists]. }
  set (t := split_loop _ _ _ _ _) in *. clearbody t. rewrite Nat.add_0_r in El.
  rewrite Z.shiftl_1_l. change (2 ^ P_TBITS - 1) with (Z.pred (2 ^ P_TBITS)).
  rewrite <- Z.ones_equiv, Z.land_ones by lia. set (r := at_ d (MCL_NLEN - 1) mod 2 ^ P_TBITS) in *.
  assert (0 <= r < 2 ^ P_TBITS) as Hr by (apply Z.mod_pos_bound, Z.pow_pos_nonneg; lia).
  set (l := take (MCL_NLEN - 1) d) in *.
  assert (length l = (MCL_NLEN - 1)%nat) as Hll by (unfold l; rewrite length_take; lia).
  assert (Forall digit l) as Hld.
  { unfold l, d. rewrite take_app_le by lia. by apply Forall_take. }
  pose proof (val_digits l Hld) as Hlv. rewrite Hll in Hlv.
  pose proof bigbits_pow as EB.
  assert (Evb : val (l ++ [r]) = val l + W ^ Z.of_nat (MCL_NLEN - 1) * r).
  { rewrite val_app, Hll. cbn [val]. lia. }
  split_and!; [|done|lia|by exists l, r|rewrite length_app; cbn; lia|rewrite Evb; nia|rewrite Evb, EB; nia].
  rewrite Ed, !val_app, Hll, length_fmap, length_seq. cbn [val]. rewrite EB.
  set (low := val (_ <$> _)) in *. set (P := W ^ Z.of_nat (MCL_NLEN - 1)) in *.
  set (Q := W ^ Z.of_nat MCL_NLEN) in *. clearbody low P Q r. nia.
Qed.

End spec.
