(* ===== verification/MclMul.v ===== *)
(** * MclMul: the column-wise multiplication computes the product

    [MCL_BIG_mul] adds the products of a column in pairs: with the running sum
    [s] of the squares [a[i]*b[i]] it only multiplies once for two products.
    Every column fits the double word, and the columns spell the product. *)

From S2P Require Import Prelude Sha256 Sha256Spec MclBig MclBigSpec.

(** ** Sums *)

(** [n] terms of [f] from index [lo]. *)
Fixpoint rsum (f : nat -> Z) (lo n : nat) : Z :=
  match n with
  | O => 0
  | S n => f lo + rsum f (S lo) n
  end.

Lemma rsum_S f lo n : rsum f lo (S n) = f lo + rsum f (S lo) n.
Proof. done. Qed.

Lemma rsum_last f n : forall lo, rsum f lo (S n) = rsum f lo n + f (lo + n)%nat.
Proof.
  induction n as [|n IH]; intros lo.
  - cbn [rsum]. rewrite Nat.add_0_r. lia.
  - cbn [rsum] in *. rewrite IH. replace (lo + S n)%nat with (S lo + n)%nat by lia. lia.
Qed.

Lemma rsum_split f n m : forall lo, rsum f lo (n + m) = rsum f lo n + rsum f (lo + n) m.
Proof.
  induction n as [|n IH]; intros lo; cbn [rsum Nat.add]; [by rewrite Nat.add_0_r|].
  rewrite IH. replace (S lo + n)%nat with (lo + S n)%nat by lia. lia.
Qed.

Lemma rsum_ext f g n : forall lo,
  (forall i, (lo <= i < lo + n)%nat -> f i = g i) -> rsum f lo n = rsum g lo n.
Proof.
  induction n as [|n IH]; intros lo H; cbn [rsum]; [done|].
  rewrite H by lia. f_equal. apply IH. intros. apply H. lia.
Qed.

Lemma rsum_zero f n lo : (forall i, (lo <= i < lo + n)%nat -> f i = 0) -> rsum f lo n = 0.
Proof.
  revert lo. induction n as [|n IH]; intros lo H; cbn [rsum]; [done|].
  rewrite H, IH; [done|intros; apply H; lia|lia].
Qed.

Lemma rsum_shift f n : forall lo, rsum f (S lo) n = rsum (λ i, f (S i)) lo n.
Proof. induction n as [|n IH]; intros lo; cbn [rsum]; [done|]. by rewrite IH. Qed.

Lemma rsum_scale f k n : forall lo, rsum (λ i, k * f i) lo n = k * rsum f lo n.
Proof. induction n as [|n IH]; intros lo; cbn [rsum]; [lia|]. rewrite IH. lia. Qed.

Lemma rsum_add f g n : forall lo, rsum (λ i, f i + g i) lo n = rsum f lo n + rsum g lo n.
Proof. induction n as [|n IH]; intros lo; cbn [rsum]; [lia|]. rewrite IH. lia. Qed.

Lemma rsum_bound f n h : forall lo,
  (forall i, (lo <= i < lo + n)%nat -> 0 <= f i <= h) -> 0 <= rsum f lo n <= Z.of_nat n * h.
Proof.
  induction n as [|n IH]; intros lo H; cbn [rsum]; [lia|].
  pose proof (H lo ltac:(lia)). pose proof (IH (S lo) ltac:(intros; apply H; lia)). lia.
Qed.

Section mul.
Context `{MclConfigOk}.
Implicit Types a b d : list Z.
Abbreviation W := (2 ^ MCL_BASEBITS).
Abbreviation at_ := Sha256.at_.

(** Column [j] of the product of [a] and [b]. *)
Definition conv a b (j : nat) : Z := rsum (λ i, at_ a i * at_ b (j - i)) 0 (S j).

Lemma at_out (l : list Z) i : (length l <= i)%nat -> at_ l i = 0.
Proof. intros. unfold at_. by rewrite lookup_ge_None_2. Qed.

Lemma val_rsum b : forall n, (length b <= n)%nat -> val b = rsum (λ j, at_ b j * W ^ Z.of_nat j) 0 n.
Proof.
  induction b as [|y b IH]; intros n Hn.
  { symmetry. apply rsum_zero. intros. by rewrite at_out by (cbn; lia). }
  destruct n as [|n]; [cbn in Hn; lia|]. cbn [length] in Hn. rewrite val_cons, (IH n) by lia.
  cbn [rsum]. change (Z.of_nat 0) with 0. rewrite Z.pow_0_r, rsum_shift, <- rsum_scale.
  change (at_ (y :: b) 0) with y. rewrite Z.mul_1_r. f_equal. apply rsum_ext. intros i _.
  change (at_ (y :: b) (S i)) with (at_ b i). rewrite Nat2Z.inj_succ, Z.pow_succ_r by lia. ring.
Qed.

Lemma conv_cons x a b j :
  conv (x :: a) b j = x * at_ b j + match j with O => 0 | S j => conv a b j end.
Proof.
  unfold conv at 1. rewrite rsum_S. change (at_ (x :: a) 0) with x. rewrite Nat.sub_0_r. f_equal.
  destruct j as [|j]; [done|]. rewrite rsum_shift. apply rsum_ext. intros i _. done.
Qed.

(** The columns spell the product. *)
Lemma conv_val a : forall b n, (length a + length b <= S n)%nat ->
  rsum (λ j, conv a b j * W ^ Z.of_nat j) 0 n = val a * val b.
Proof.
  induction a as [|x a IH]; intros b n Hn.
  { cbn [val]. rewrite rsum_zero; [lia|]. intros j _. unfold conv. rewrite rsum_zero; [lia|].
    intros i _. rewrite at_out by (cbn; lia). lia. }
  cbn [length] in Hn. rewrite val_cons.
  transitivity (rsum (λ j, x * (at_ b j * W ^ Z.of_nat j) +
                 match j with O => 0 | S j => conv a b j * W ^ Z.of_nat (S j) end) 0 n).
  { apply rsum_ext. intros j _. rewrite conv_cons. destruct j; ring. }
  rewrite rsum_add, rsum_scale, <- val_rsum by lia.
  destruct n as [|n].
  - destruct b as [|]; [|cbn in Hn; lia]. cbn [rsum val]. lia.
  - rewrite rsum_S, rsum_shift, Z.add_0_l.
    transitivity (x * val b + W * rsum (λ j, conv a b j * W ^ Z.of_nat j) 0 n).
    { f_equal. rewrite <- rsum_scale. apply rsum_ext. intros j _.
      rewrite Nat2Z.inj_succ, Z.pow_succ_r by lia. ring. }
    rewrite IH by lia. ring.
Qed.

(** ** The columns of the routine *)

Definition dword (x : Z) : Prop := - 2 ^ (2 * MCL_CHUNK - 1) <= x < 2 ^ (2 * MCL_CHUNK - 1).

Lemma dchunk_small x : dword x -> mcl_dchunk x = x.
Proof. intros. apply swrap_small; [pose proof base_8; pose proof base_room; lia|done]. Qed.

(** A multiple of [W * W] that fits a double word. *)
Lemma dword_bound x k :
  k <= 2 * Z.of_nat MCL_NLEN + 2 -> - (k * (W * W)) <= x < k * (W * W) -> dword x.
Proof.
  intros Hk Hx. pose proof column_room as Hr. pose proof W_pos. pose proof base_8.
  replace (2 ^ (2 * MCL_BASEBITS)) with (W * W) in Hr by (rewrite <- Z.pow_add_r by lia; f_equal; lia).
  assert (k * (W * W) <= (2 * Z.of_nat MCL_NLEN + 2) * (W * W)) by (apply Z.mul_le_mono_nonneg_r; nia).
  unfold dword. lia.
Qed.

Lemma digit_mul x y : digit x -> digit y -> 0 <= x * y <= (W - 1) * (W - 1).
Proof. unfold digit. nia. Qed.

Section operands.
Context a b (Ha : Forall digit a) (Hb : Forall digit b)
  (La : length a = MCL_NLEN) (Lb : length b = MCL_NLEN).

Lemma at_digit (l : list Z) i : Forall digit l -> digit (at_ l i).
Proof.
  intros Hl. unfold at_. destruct (l !! i) as [x|] eqn:E; cbn; [by eapply Forall_lookup_1|].
  split; [done|apply W_pos].
Qed.

Lemma digit_word_diff x y : digit x -> digit y -> word (x - y).
Proof.
  unfold digit, word. pose proof W_half. pose proof word_half. lia.
Qed.

Lemma at_comba_d i : (i < MCL_NLEN)%nat -> at_ (comba_d a b) i = at_ a i * at_ b i.
Proof.
  intros Hi. unfold comba_d, at_.
  destruct (lookup_lt_is_Some_2 a i) as [x Hx]; [lia|].
  destruct (lookup_lt_is_Some_2 b i) as [y Hy]; [lia|].
  rewrite lookup_zip_with, Hx. cbn. rewrite Hy. cbn. apply dchunk_small.
  pose proof (Forall_lookup_1 _ _ _ _ Ha Hx) as Dx. pose proof (Forall_lookup_1 _ _ _ _ Hb Hy) as Dy.
  apply (dword_bound _ 1); [lia|]. unfold digit in *. nia.
Qed.

(** The squares of the diagonal. *)
Definition diag (i : nat) : Z := at_ a i * at_ b i.

Lemma diag_bound i : 0 <= diag i <= W * W.
Proof.
  unfold diag. pose proof (at_digit a i Ha). pose proof (at_digit b i Hb). unfold digit in *. nia.
Qed.

Lemma diag_sum_dword lo n : (n <= MCL_NLEN)%nat -> dword (rsum diag lo n).
Proof.
  intros Hn. apply (dword_bound _ (Z.of_nat MCL_NLEN + 1)); [lia|].
  pose proof (rsum_bound diag n (W * W) lo ltac:(intros; apply diag_bound)). pose proof W_pos. nia.
Qed.

Lemma comba_s_low j : (j < MCL_NLEN)%nat -> comba_s (comba_d a b) j = rsum diag 0 (S j).
Proof.
  intros Hj. unfold comba_s. rewrite (proj2 (Nat.ltb_lt _ _)) by done.
  assert (forall n, (n <= j)%nat ->
    foldl (λ s i, mcl_dchunk (s + at_ (comba_d a b) i)) (at_ (comba_d a b) 0) (seq 1 n) = rsum diag 0 (S n)) as E;
    [|by apply E].
  induction n as [|n IH]; intros Hn.
  { cbn [seq foldl rsum]. rewrite at_comba_d by lia. unfold diag. lia. }
  rewrite seq_S, foldl_app, IH by lia. cbn [foldl].
  rewrite at_comba_d by lia. change (at_ a (1 + n) * at_ b (1 + n)) with (diag (0 + S n)).
  rewrite <- rsum_last. apply dchunk_small, diag_sum_dword. lia.
Qed.

Lemma comba_s_high j : (MCL_NLEN <= j < 2 * MCL_NLEN - 1)%nat ->
  comba_s (comba_d a b) j = rsum diag (j - MCL_NLEN + 1) (2 * MCL_NLEN - 1 - j).
Proof.
  intros Hj. unfold comba_s. rewrite (proj2 (Nat.ltb_ge _ _)) by lia.
  assert (forall n, (n <= 2 * MCL_NLEN - 2 - j)%nat ->
    foldl (λ s i, mcl_dchunk (s + at_ (comba_d a b) (MCL_NLEN - 2 - i)))
      (at_ (comba_d a b) (MCL_NLEN - 1)) (seq 0 n) = rsum diag (MCL_NLEN - 1 - n) (S n)) as E.
  { induction n as [|n IH]; intros Hn.
    { cbn [seq foldl rsum]. rewrite at_comba_d, Nat.sub_0_r by lia. unfold diag. lia. }
    rewrite seq_S, foldl_app, IH by lia. cbn [foldl]. rewrite at_comba_d by lia.
    change (at_ a ?i * at_ b ?i) with (diag i).
    replace (MCL_NLEN - 2 - (0 + n))%nat with (MCL_NLEN - 1 - S n)%nat by lia.
    rewrite (rsum_S diag _ (S n)). replace (S (MCL_NLEN - 1 - S n)) with (MCL_NLEN - 1 - n)%nat by lia.
    rewrite Z.add_comm. apply dchunk_small.
    replace (MCL_NLEN - 1 - n)%nat with (S (MCL_NLEN - 1 - S n)) by lia.
    rewrite <- rsum_S. apply diag_sum_dword. lia. }
  rewrite E by lia. f_equal; lia.
Qed.

(** A pair of products at the price of one. *)
Lemma comba_pairs_val fuel : forall i k t T,
  (i <= S k)%nat -> (S k <= i + 2 * fuel)%nat -> - (T * (W * W)) <= t < T * (W * W) ->
  T + Z.of_nat fuel <= 2 * Z.of_nat MCL_NLEN + 2 ->
  comba_pairs fuel a b i k t =
    t + rsum (λ m, at_ a m * at_ b (i + k - m)) i (S k - i) - rsum diag i (S k - i).
Proof.
  induction fuel as [|fuel IH]; intros i k t T Hik Hf Ht HT; cbn [comba_pairs].
  { replace (S k - i)%nat with 0%nat by lia. cbn [rsum]. lia. }
  destruct (i <? k)%nat eqn:E; [apply Nat.ltb_lt in E|apply Nat.ltb_ge in E].
  - pose proof (at_digit a i Ha) as Dai. pose proof (at_digit a k Ha) as Dak.
    pose proof (at_digit b i Hb) as Dbi. pose proof (at_digit b k Hb) as Dbk.
    rewrite !chunk_small by (by apply digit_word_diff).
    set (p := (at_ a i - at_ a k) * (at_ b k - at_ b i)).
    assert (- (W * W) <= p <= W * W) as Hp by (unfold p, digit in *; nia).
    assert (- ((T + 1) * (W * W)) <= t + p < (T + 1) * (W * W)) as Htp.
    { pose proof W_pos. split; [nia|]. assert (p < W * W) by (unfold p, digit in *; nia). nia. }
    rewrite dchunk_small by (apply (dword_bound _ (T + 1)); [lia|done]).
    rewrite (IH (i + 1)%nat (k - 1)%nat (t + p) (T + 1)) by lia.
    replace (i + 1 + (k - 1))%nat with (i + k)%nat by lia.
    replace (S (k - 1) - (i + 1))%nat with (k - i - 1)%nat by lia.
    replace (S k - i)%nat with (S (S (k - i - 1))) by lia.
    rewrite (rsum_last (λ m, at_ a m * at_ b (i + k - m))), (rsum_last diag), !rsum_S.
    rewrite (Nat.add_1_r i). replace (i + S (k - i - 1))%nat with k by lia. cbv beta.
    replace (i + k - i)%nat with k by lia. replace (i + k - k)%nat with i by lia.
    change (diag i) with (at_ a i * at_ b i). change (diag k) with (at_ a k * at_ b k). unfold p. ring.
  - destruct (decide (i = k)) as [->|].
    + replace (S k - k)%nat with 1%nat by lia. cbn [rsum].
      replace (k + k - k)%nat with k by lia. unfold diag. lia.
    + replace (S k - i)%nat with 0%nat by lia. cbn [rsum]. lia.
Qed.

Definition co_max : Z := 2 * Z.of_nat MCL_NLEN * W.

Lemma co_max_bound : co_max <= 2 * (W * W).
Proof. unfold co_max. pose proof words_few. pose proof W_pos. nia. Qed.

(** A column is the carry and the products of the column. *)
Lemma comba_column_val co j :
  0 <= co <= co_max -> (j < 2 * MCL_NLEN - 1)%nat ->
  comba_column a b (comba_d a b) co j = co + conv a b j.
Proof.
  intros Hco Hj. pose proof co_max_bound. pose proof W_pos. pose proof words_2. unfold comba_column.
  assert (forall lo n, (n <= MCL_NLEN)%nat ->
    - ((Z.of_nat MCL_NLEN + 2) * (W * W)) <= co + rsum diag lo n < (Z.of_nat MCL_NLEN + 2) * (W * W)) as Hs.
  { intros lo n Hn.
    assert (0 <= rsum diag lo n <= Z.of_nat n * ((W - 1) * (W - 1))).
    { apply rsum_bound. intros. apply digit_mul; apply at_digit; done. }
    assert (Z.of_nat n * ((W - 1) * (W - 1)) <= Z.of_nat MCL_NLEN * ((W - 1) * (W - 1)))
      by (apply Z.mul_le_mono_nonneg_r; nia).
    assert ((W - 1) * (W - 1) < W * W) by nia. nia. }
  destruct (j <? MCL_NLEN)%nat eqn:E; [apply Nat.ltb_lt in E|apply Nat.ltb_ge in E].
  - rewrite comba_s_low by done.
    rewrite dchunk_small by (apply (dword_bound _ (Z.of_nat MCL_NLEN + 2)); [lia|apply Hs; lia]).
    rewrite (comba_pairs_val _ _ _ _ (Z.of_nat MCL_NLEN + 2)) by (lia || (apply Hs; lia)).
    change (0 + j)%nat with j. rewrite !Nat.sub_0_r. unfold conv. lia.
  - rewrite comba_s_high by lia.
    rewrite dchunk_small by (apply (dword_bound _ (Z.of_nat MCL_NLEN + 2)); [lia|apply Hs; lia]).
    rewrite (comba_pairs_val _ _ _ _ (Z.of_nat MCL_NLEN + 2)) by (lia || (apply Hs; lia)).
    replace (S (MCL_NLEN - 1) - (j - MCL_NLEN + 1))%nat with (2 * MCL_NLEN - 1 - j)%nat by lia.
    replace (j - MCL_NLEN + 1 + (MCL_NLEN - 1))%nat with j by lia.
    unfold conv. set (f := λ i, at_ a i * at_ b (j - i)).
    replace (S j) with ((j - MCL_NLEN + 1) + ((2 * MCL_NLEN - 1 - j) + (j - MCL_NLEN + 1)))%nat by lia.
    rewrite (rsum_split f (j - MCL_NLEN + 1)), (rsum_split f (2 * MCL_NLEN - 1 - j)), Nat.add_0_l.
    rewrite (rsum_zero f _ 0) by (intros i Hi; unfold f; rewrite (at_out b) by lia; lia).
    rewrite (rsum_zero f _ (j - MCL_NLEN + 1 + (2 * MCL_NLEN - 1 - j))) by
      (intros i Hi; unfold f; rewrite (at_out a) by lia; lia).
    lia.
Qed.

Lemma conv_bound j : (j < 2 * MCL_NLEN)%nat ->
  0 <= conv a b j <= 2 * Z.of_nat MCL_NLEN * ((W - 1) * (W - 1)).
Proof.
  intros Hj. pose proof W_pos. unfold conv.
  assert (0 <= rsum (λ i, at_ a i * at_ b (j - i)) 0 (S j) <= Z.of_nat (S j) * ((W - 1) * (W - 1))).
  { apply rsum_bound. intros. apply digit_mul; by apply at_digit. }
  assert (Z.of_nat (S j) * ((W - 1) * (W - 1)) <= 2 * Z.of_nat MCL_NLEN * ((W - 1) * (W - 1)))
    by (apply Z.mul_le_mono_nonneg_r; nia). lia.
Qed.

(** The columns are carried into digits; what is left is the last carry. *)
Lemma comba_columns_val n : forall co j,
  (n + j = 2 * MCL_NLEN - 1)%nat -> 0 <= co <= co_max ->
  exists ds cf, comba_columns n a b (comba_d a b) co j = ds ++ [mcl_chunk cf] /\
    length ds = n /\ Forall digit ds /\ 0 <= cf /\
    val ds + W ^ Z.of_nat n * cf = co + rsum (λ i, conv a b (j + i) * W ^ Z.of_nat i) 0 n.
Proof.
  induction n as [|n IH]; intros co j Hj Hco; cbn [comba_columns].
  { exists [], co. cbn [val length rsum]. change (Z.of_nat 0) with 0. rewrite Z.pow_0_r.
    split_and!; [done..|lia|lia]. }
  pose proof W_pos. pose proof (conv_bound j ltac:(lia)) as Hc.
  rewrite comba_column_val by lia. rewrite chunk_digit, shiftr_W. set (t := co + conv a b j).
  assert (0 <= t / W <= co_max) as Hq.
  { split; [apply Z.div_pos; lia|]. apply Z.div_le_upper_bound; [lia|]. unfold t, co_max in *.
    destruct Hco, Hc. set (k := 2 * Z.of_nat MCL_NLEN) in *. nia. }
  destruct (IH (t / W) (j + 1)%nat ltac:(lia) Hq) as (ds & cf & E & Hl & Hd & Hcf & Hv).
  exists ((t mod W) :: ds), cf. rewrite E. cbn [length app].
  split_and!; [done|lia|by constructor; [apply mod_digit|]|done|].
  rewrite val_cons, Nat2Z.inj_succ, Z.pow_succ_r, rsum_S, rsum_shift by lia.
  assert (rsum (λ i, conv a b (j + S i) * W ^ Z.of_nat (S i)) 0 n =
          W * rsum (λ i, conv a b (j + 1 + i) * W ^ Z.of_nat i) 0 n) as ->.
  { rewrite <- rsum_scale. apply rsum_ext. intros i _. rewrite Nat2Z.inj_succ, Z.pow_succ_r by lia.
    replace (j + S i)%nat with (j + 1 + i)%nat by lia. ring. }
  rewrite Nat.add_0_r. change (Z.of_nat 0) with 0. rewrite Z.pow_0_r.
  rewrite <- Z.mul_assoc, <- Z.add_assoc, <- Z.mul_add_distr_l, Hv.
  pose proof (Z.div_mod t W (Z.neq_sym _ _ (Z.lt_neq _ _ W_pos))) as Et.
  transitivity (t + W * rsum (λ i, conv a b (j + 1 + i) * W ^ Z.of_nat i) 0 n).
  - rewrite Et at 3. ring.
  - unfold t. ring.
Qed.

End operands.

(** The routine leaves normal operands as they are and returns their product. *)
Lemma mul_val a b :
  Forall digit a -> Forall digit b -> length a = MCL_NLEN -> length b = MCL_NLEN ->
  exists c, MCL_BIG_mul a b = (c, (a, b)) /\
    val c = val a * val b /\ Forall digit c /\ length c = DMCL_NLEN.
Proof.
  intros Ha Hb La Lb. pose proof words_2. pose proof W_pos. unfold MCL_BIG_mul, MCL_BIG_norm. cbn [fst].
  rewrite !norm_loop_digits by (done || lia).
  destruct (comba_columns_val a b Ha Hb La Lb (2 * MCL_NLEN - 1) 0 0) as (ds & cf & E & Hl & Hd & Hcf & Hv);
    [lia|unfold co_max; nia|].
  rewrite E. eexists. split; [reflexivity|]. rewrite Z.add_0_l in Hv. cbn [Nat.add] in Hv.
  rewrite conv_val in Hv by lia.
  pose proof (val_digits a Ha) as Va. pose proof (val_digits b Hb) as Vb. pose proof (val_digits ds Hd) as Vd.
  rewrite La in Va. rewrite Lb in Vb. rewrite Hl in Vd.
  assert (digit cf) as Hcd.
  { split; [done|]. set (P := W ^ Z.of_nat MCL_NLEN) in *. set (Q := W ^ Z.of_nat (2 * MCL_NLEN - 1)) in *.
    assert (P * P = W * Q) as HPQ.
    { unfold P, Q. rewrite <- Z.pow_succ_r, <- Z.pow_add_r by lia. f_equal. lia. }
    assert (0 < Q) by (unfold Q; apply Z.pow_pos_nonneg; lia). nia. }
  rewrite chunk_small by (by apply loose_word, digit_loose).
  split_and!.
  - rewrite val_app, Hl. cbn [val]. lia.
  - by apply Forall_app_2; [|constructor].
  - rewrite length_app, Hl. unfold DMCL_NLEN. cbn [length]. lia.
Qed.
End mul.
