(* ===== verification/MclFF.v ===== *)
(** * MclFF: numbers of many big numbers in the MIRACL library
      (common/vendors/MIRACL/ara/src/lib/mcl_ff.c)

    An array of [n] [MCL_BIG]s holds a number in base [2^MCL_BIGBITS], least
    significant first.  The routines get arrays and row offsets that may point
    into one another (the workspace of the Karatsuba multiplication holds
    operands and results), so all rows live in one store, and an array is the
    index of its first row. *)

From S2P Require Import Prelude Sha256 MclBig.

Section ff.
Context `{MclConfig}.
Implicit Types R : list (list Z).

Definition row R (i : nat) : list Z := default [] (R !! i).
Definition put (i : nat) (b : list Z) R : list (list Z) := <[i := b]> R.

(** [for (i=0;i<n;i++) f(i)] on the store. *)
Definition rows_loop (n : nat) (f : nat -> list (list Z) -> list (list Z)) R : list (list Z) :=
  foldl (λ R i, f i R) R (seq 0 n).

(** ** Copies and constants *)
Definition MCL_FF_copy R (x y n : nat) := rows_loop n (λ i R, put (x + i) (row R (y + i)) R) R.
Definition MCL_FF_zero R (x n : nat) := rows_loop n (λ i R, put (x + i) MCL_BIG_zero R) R.
Definition FF_dsucopy R (x y n : nat) :=
  rows_loop n (λ i R, put (x + i) MCL_BIG_zero (put (x + (n + i)) (row R (y + i)) R)) R.
Definition FF_dscopy R (x y n : nat) :=
  rows_loop n (λ i R, put (x + (n + i)) MCL_BIG_zero (put (x + i) (row R (y + i)) R)) R.
Definition FF_sducopy R (x y n : nat) := rows_loop n (λ i R, put (x + i) (row R (y + (n + i))) R) R.
Definition MCL_FF_shrw R (a n : nat) :=
  rows_loop n (λ i R, put (a + (i + n)) MCL_BIG_zero (put (a + i) (row R (a + (i + n))) R)) R.
Definition MCL_FF_shlw R (a n : nat) :=
  rows_loop n (λ i R, put (a + i) MCL_BIG_zero (put (a + (i + n)) (row R (a + i)) R)) R.
Definition MCL_FF_one R (x n : nat) :=
  foldl (λ R i, put (x + i) MCL_BIG_zero R) (put x MCL_BIG_one R) (seq 1 (n - 1)).

(** ** Comparison, from the most significant row down *)
Definition MCL_FF_iszilch R (x n : nat) : bool :=
  forallb (λ i, MCL_BIG_iszilch (row R (x + i))) (seq 0 n).
Fixpoint MCL_FF_comp R (x y n : nat) : Z :=
  match n with
  | O => 0
  | S i => let j := MCL_BIG_comp (row R (x + i)) (row R (y + i)) in
           if negb (j =? 0) then j else MCL_FF_comp R x y i
  end.

(** ** Addition, subtraction, normalisation *)
Definition FF_radd R (zp xp yp n : nat) :=
  rows_loop n (λ i R, put (zp + i) (MCL_BIG_add (row R (xp + i)) (row R (yp + i))) R) R.
Definition FF_rinc R (zp yp n : nat) :=
  rows_loop n (λ i R, put (zp + i) (MCL_BIG_add (row R (zp + i)) (row R (yp + i))) R) R.
Definition FF_rdec R (zp yp n : nat) :=
  rows_loop n (λ i R, put (zp + i) (MCL_BIG_sub (row R (zp + i)) (row R (yp + i))) R) R.
Definition MCL_FF_add R (z x y n : nat) := FF_radd R z x y n.
Definition MCL_FF_sub R (z x y n : nat) :=
  rows_loop n (λ i R, put (z + i) (MCL_BIG_sub (row R (x + i)) (row R (y + i))) R) R.

(** [z[MCL_NLEN-1]^=carry<<P_TBITS]. *)
Definition xor_top (carry : Z) b : list Z :=
  alter (λ x, Z.lxor x (mcl_chunk (Z.shiftl carry P_TBITS))) (MCL_NLEN - 1)%nat b.

(** All rows but the last hand their excess to the next row; the last keeps
    its own, unless [trunc]. *)
Fixpoint rnorm_loop R (zp n : nat) (trunc : bool) : list (list Z) :=
  match n with
  | O => R
  | S n =>
      let '(b, carry) := MCL_BIG_norm (row R zp) in
      match n with
      | O => put zp (if trunc then xor_top carry b else b) R
      | S _ =>
          let R := put zp (xor_top carry b) R in
          rnorm_loop (put (zp + 1) (add_low carry (row R (zp + 1))) R) (zp + 1) n trunc
      end
  end.

(** A negative [n] asks for truncation. *)
Definition FF_rnorm R (zp : nat) (n : Z) := rnorm_loop R zp (Z.abs_nat n) (n <? 0).
Definition MCL_FF_norm R (z n : nat) := FF_rnorm R z (Z.of_nat n).

Definition MCL_FF_inc R (x : nat) (m : Z) (n : nat) :=
  MCL_FF_norm (put x (MCL_BIG_inc (row R x) m) R) x n.
Definition MCL_FF_dec R (x : nat) (m : Z) (n : nat) :=
  MCL_FF_norm (put x (MCL_BIG_dec (row R x) m) R) x n.

(** ** Octets, most significant byte first *)
Definition MCL_FF_toOctet R (x n : nat) : list Z :=
  concat ((λ i, MCL_BIG_toBytes (row R (x + (n - i - 1)))) <$> seq 0 n).
Definition MCL_FF_fromOctet R (x : nat) (w : list Z) (n : nat) :=
  rows_loop n (λ i R,
    put (x + i) (MCL_BIG_fromBytes (drop ((n - i - 1) * Z.to_nat MCL_MODBYTES) w)) R) R.

(** ** Karatsuba multiplication *)

(** [MCL_BIG_mul(t[tp],x[xp],y[yp]); MCL_BIG_split(z[zp+1],z[zp],t[tp],MCL_BIGBITS)]:
    the double-length product fills two rows of [t], and the operands are
    normalised. *)
Definition karmul_base R (zp xp yp tp : nat) : list (list Z) :=
  let '(c, (a, b)) := MCL_BIG_mul (row R xp) (row R yp) in
  let R := put yp b (put xp a R) in
  let R := put (tp + 1) (drop MCL_NLEN c) (put tp (take MCL_NLEN c) R) in
  let '(hi, lo) := MCL_BIG_split (row R tp ++ row R (tp + 1)) MCL_BIGBITS in
  put zp lo (put (zp + 1) hi R).

(** [z=x*y], [t] is workspace; none of the four needs to be the start of an
    array.  [fuel] bounds the depth of the recursion. *)
Fixpoint FF_karmul (fuel : nat) R (zp xp yp tp n : nat) : option (list (list Z)) :=
  match fuel with
  | O => None
  | S fuel =>
      if (n =? 1)%nat then Some (karmul_base R zp xp yp tp)
      else
        let nd2 := (n / 2)%nat in
        let R := FF_radd R zp xp (xp + nd2) nd2 in
        let R := FF_rnorm R zp (Z.of_nat nd2) in
        let R := FF_radd R (zp + nd2) yp (yp + nd2) nd2 in
        let R := FF_rnorm R (zp + nd2) (Z.of_nat nd2) in
        R ← FF_karmul fuel R tp zp (zp + nd2) (tp + n) nd2;
        R ← FF_karmul fuel R zp xp yp (tp + n) nd2;
        R ← FF_karmul fuel R (zp + n) (xp + nd2) (yp + nd2) (tp + n) nd2;
        let R := FF_rdec R tp zp n in
        let R := FF_rdec R tp (zp + n) n in
        let R := FF_rinc R (zp + nd2) tp n in
        Some (FF_rnorm R zp (Z.of_nat (2 * n)))
  end.

(** Separate arrays, with the workspace [t] on the stack: the store holds [z],
    [x], [y] and [t] one after the other.  Zeros stand for what [z] and [t] hold
    before they are written.  Halving [n] reaches 1 in fewer than [n] steps. *)
Definition MCL_FF_mul (x y : list (list Z)) (n : nat) : option (list (list Z)) :=
  let R := replicate (2 * n) MCL_BIG_zero ++ x ++ y ++ replicate (2 * n) MCL_BIG_zero in
  R ← FF_karmul n R 0 (2 * n) (2 * n + n) (2 * n + n + n) n;
  Some (take (2 * n) R).

(** ** Shifts by one bit *)
Fixpoint shl_loop R (x n : nat) (delay_carry : Z) : list (list Z) :=
  match n with
  | O => R
  | S n =>
      let '(b, carry) := MCL_BIG_fshl (row R x) 1 in
      let b := alter (λ w, Z.lor w delay_carry) 0%nat b in
      match n with
      | O => put x b R
      | S _ => shl_loop (put x (xor_top carry b) R) (x + 1) n carry
      end
  end.
Definition MCL_FF_shl R (x n : nat) := shl_loop R x n 0.

(** From row [n-1] down to row 0; the bits shifted out go below. *)
Fixpoint MCL_FF_shr R (x n : nat) : list (list Z) :=
  match n with
  | O => R
  | S i =>
      let '(b, carry) := MCL_BIG_fshr (row R (x + i)) 1 in
      let R := put (x + i) b R in
      match i with
      | O => R
      | S j => MCL_FF_shr (put (x + j) (alter (λ w, Z.lor w (mcl_chunk (Z.shiftl carry P_TBITS)))
                                          (MCL_NLEN - 1)%nat (row R (x + j))) R) x i
      end
  end.
End ff.
