(* ===== verification/MclFFSpec.v ===== *)
(** * MclFFSpec: the Karatsuba multiplication computes the product

    [ffval] is the number an array of rows stands for.  Rows are [canon]ical
    when all their words are digits and all but the last stay below
    [2^MCL_BIGBITS]; the last may keep some excess. *)

From S2P Require Import Prelude Sha256 Sha256Spec MclBig MclBigSpec MclMul MclFF.

(** What the proofs need beyond [MclConfigOk]: room for three digits in a word,
    and for a carry between rows in a digit. *)
Class MclFFOk `{MclConfigOk} : Prop := {
  ff_room : MCL_BASEBITS + 4 <= MCL_CHUNK;
  carry_room : MCL_CHUNK - 1 - P_TBITS <= MCL_BASEBITS
}.

#[export] Instance C448_ff_ok : @MclFFOk C448 C448_ok.
Proof. split; vm_compute; discriminate. Qed.

Section ffspec.
Context `{MclFFOk}.
Implicit Types R : list (list Z).
Implicit Types b : list Z.
Abbreviation W := (2 ^ MCL_BASEBITS).
Abbreviation P := (2 ^ MCL_BIGBITS).

(** ** Rows of the store *)

Lemma row_put i b R : (i < length R)%nat -> row (put i b R) i = b.
Proof. intros. unfold row, put. by rewrite list_lookup_insert_eq. Qed.

Lemma row_put_ne i j b R : i <> j -> row (put i b R) j = row R j.
Proof. intros. unfold row, put. by rewrite list_lookup_insert_ne. Qed.

Lemma length_put i b R : length (put i b R) = length R.
Proof. apply length_insert. Qed.

(** A loop that writes [n] consecutive rows and reads no row it has written. *)
Lemma rows_loop_put (g : nat -> list (list Z) -> list Z) zp R n :
  (forall i R', (i < n)%nat -> (forall j, ~ (zp <= j < zp + i)%nat -> row R' j = row R j) ->
     g i R' = g i R) ->
  (zp + n <= length R)%nat ->
  let R' := rows_loop n (λ i R, put (zp + i) (g i R) R) R in
  length R' = length R /\
  (forall i, (i < n)%nat -> row R' (zp + i) = g i R) /\
  (forall j, ~ (zp <= j < zp + n)%nat -> row R' j = row R j).
Proof.
  unfold rows_loop. induction n as [|n IH]; intros Hg Hl.
  { cbn. split_and!; [done|lia|done]. }
  rewrite seq_S, foldl_app. cbn [foldl]. rewrite Nat.add_0_l.
  destruct IH as (L & E & F); [intros; apply Hg; [lia|done]|lia|].
  set (R1 := foldl _ R (seq 0 n)) in *. rewrite (Hg n R1) by (lia || done). split_and!.
  - by rewrite length_put.
  - intros i Hi. destruct (decide (i = n)) as [->|]; [by rewrite row_put by lia|].
    rewrite row_put_ne by lia. apply E. lia.
  - intros j Hj. rewrite row_put_ne by lia. apply F. lia.
Qed.

(** ** The number in [n] rows *)
Fixpoint ffval R (p n : nat) : Z :=
  match n with
  | O => 0
  | S n => val (row R p) + P * ffval R (S p) n
  end.

Lemma ffval_S R p n : ffval R p (S n) = val (row R p) + P * ffval R (S p) n.
Proof. done. Qed.

Lemma ffval_ext R R' n : forall p p',
  (forall i, (i < n)%nat -> row R' (p' + i) = row R (p + i)) -> ffval R' p' n = ffval R p n.
Proof.
  induction n as [|n IH]; intros p p' E; cbn [ffval]; [done|].
  f_equal; [f_equal; specialize (E 0%nat ltac:(lia)); by rewrite !Nat.add_0_r in E|].
  f_equal. apply IH. intros i Hi. specialize (E (S i) ltac:(lia)). by rewrite !Nat.add_succ_r in E.
Qed.

Lemma ffval_split R n m : forall p,
  ffval R p (n + m) = ffval R p n + P ^ Z.of_nat n * ffval R (p + n) m.
Proof.
  induction n as [|n IH]; intros p.
  - cbn [ffval Nat.add]. change (Z.of_nat 0) with 0. rewrite Nat.add_0_r, Z.pow_0_r. lia.
  - cbn [ffval Nat.add]. rewrite IH, Nat2Z.inj_succ, Z.pow_succ_r by lia.
    replace (S p + n)%nat with (p + S n)%nat by lia. ring.
Qed.

(** Row by row, [k] times a number added to another. *)
Lemma ffval_linear R R1 R2 k n : forall p p1 p2,
  (forall i, (i < n)%nat ->
     val (row R (p + i)) = val (row R1 (p1 + i)) + k * val (row R2 (p2 + i))) ->
  ffval R p n = ffval R1 p1 n + k * ffval R2 p2 n.
Proof.
  induction n as [|n IH]; intros p p1 p2 E; cbn [ffval]; [lia|].
  rewrite (IH (S p) (S p1) (S p2)).
  - specialize (E 0%nat ltac:(lia)). rewrite !Nat.add_0_r in E. lia.
  - intros i Hi. specialize (E (S i) ltac:(lia)). by rewrite !Nat.add_succ_r in E.
Qed.

(** ** Canonical rows *)
Definition wide (e : Z) b : Prop :=
  length b = MCL_NLEN /\ Forall digit b /\ val b < 2 ^ e * P.

Definition canon (e : Z) R (p n : nat) : Prop :=
  (forall i, (i + 1 < n)%nat -> wide 0 (row R (p + i))) /\ wide e (row R (p + (n - 1))).

Lemma P_pos : 0 < P.
Proof.
  rewrite bigbits_pow. pose proof W_pos. pose proof tbits_range.
  apply Z.mul_pos_pos; apply Z.pow_pos_nonneg; lia.
Qed.

(** A row has room for [MCL_BASEBITS - P_TBITS] bits of excess. *)
Lemma P_room e : 0 <= e <= MCL_BASEBITS - P_TBITS -> 2 ^ e * P <= W ^ Z.of_nat MCL_NLEN.
Proof.
  intros He. rewrite bigbits_pow. pose proof W_pos. pose proof tbits_range. pose proof words_2.
  replace (W ^ Z.of_nat MCL_NLEN) with (W ^ Z.of_nat (MCL_NLEN - 1) * W)
    by (rewrite Z.mul_comm, <- Z.pow_succ_r by lia; f_equal; lia).
  rewrite (Z.mul_comm (2 ^ e)), <- Z.mul_assoc.
  apply Z.mul_le_mono_nonneg_l; [apply Z.pow_nonneg; lia|].
  rewrite <- Z.pow_add_r by lia. apply Z.pow_le_mono_r; lia.
Qed.

Lemma normal_digits b :
  normal b -> 0 <= val b < W ^ Z.of_nat (length b) -> Forall digit b.
Proof.
  intros (lo & top & -> & Hlo) Hv. apply Forall_app. split; [done|]. constructor; [|done].
  apply (top_bounds lo top 0 W); [done|]. rewrite length_app in Hv. cbn [length] in Hv.
  rewrite Nat.add_1_r, Nat2Z.inj_succ, Z.pow_succ_r in Hv by lia. lia.
Qed.

Lemma normal_wide e b : 0 <= e <= MCL_BASEBITS - P_TBITS ->
  normal b -> length b = MCL_NLEN -> 0 <= val b < 2 ^ e * P -> wide e b.
Proof.
  intros He Hn Hl Hv. split_and!; [done| |lia]. apply normal_digits; [done|].
  pose proof (P_room e He). rewrite Hl. lia.
Qed.

Lemma wide_mono e e' b : 0 <= e <= e' -> wide e b -> wide e' b.
Proof.
  intros He (Hl & Hd & Hv). split_and!; [done..|]. pose proof P_pos.
  assert (2 ^ e <= 2 ^ e') by (apply Z.pow_le_mono_r; lia). nia.
Qed.

(** ** Normalisation of a row *)

Lemma xor_carry x T : 0 <= T -> Z.lxor x (x / 2 ^ T * 2 ^ T) = x mod 2 ^ T.
Proof.
  intros HT. apply Z.bits_inj'. intros i Hi. rewrite Z.lxor_spec.
  destruct (Z.lt_ge_cases i T) as [Hlt|Hge].
  - rewrite Z.mul_pow2_bits_low, Z.mod_pow2_bits_low, xorb_false_r by lia. done.
  - rewrite Z.mul_pow2_bits, Z.div_pow2_bits, Z.mod_pow2_bits_high by lia.
    replace (i - T + T) with i by lia. by rewrite xorb_nilpotent.
Qed.

(** The excess of a word, scaled back, still fits the word. *)
Lemma carry_shifted x :
  word x -> word (x / 2 ^ P_TBITS * 2 ^ P_TBITS) /\ - W <= x / 2 ^ P_TBITS <= W.
Proof.
  intros [Hl Hh]. pose proof tbits_range as HT. pose proof base_8. pose proof base_room.
  assert (0 < 2 ^ P_TBITS) as Hp by (apply Z.pow_pos_nonneg; lia).
  assert (2 ^ (MCL_CHUNK - 1) = 2 ^ (MCL_CHUNK - 1 - P_TBITS) * 2 ^ P_TBITS) as E
    by (rewrite <- Z.pow_add_r by lia; f_equal; lia).
  assert (2 ^ (MCL_CHUNK - 1 - P_TBITS) <= W) by (apply Z.pow_le_mono_r; [lia|apply carry_room]).
  assert (- 2 ^ (MCL_CHUNK - 1 - P_TBITS) <= x / 2 ^ P_TBITS < 2 ^ (MCL_CHUNK - 1 - P_TBITS)).
  { split; [apply Z.div_le_lower_bound|apply Z.div_lt_upper_bound]; lia. }
  split; [|lia]. unfold word. rewrite E. nia.
Qed.

Lemma xor_top_last lo top c :
  length lo = (MCL_NLEN - 1)%nat ->
  xor_top c (lo ++ [top]) = lo ++ [Z.lxor top (mcl_chunk (Z.shiftl c P_TBITS))].
Proof.
  intros Hl. unfold xor_top. rewrite alter_app_r_alt by lia.
  by replace (MCL_NLEN - 1 - length lo)%nat with 0%nat by lia.
Qed.

(** The excess moves from the row into the carry. *)
Lemma norm_row b :
  length b = MCL_NLEN -> Forall loose b ->
  exists b' c, MCL_BIG_norm b = (b', c) /\
    length b' = MCL_NLEN /\ normal b' /\ val b' = val b /\ - W <= c <= W /\
    c = val b / P /\ wide 0 (xor_top c b') /\ val (xor_top c b') = val b mod P.
Proof.
  intros Hl Hb. pose proof words_2. pose proof tbits_range as HT.
  assert (Hz : loose 0) by (apply digit_loose; split; [done|apply W_pos]).
  destruct (norm_loop_val b 0 ltac:(by intros ->; cbn in Hl; lia) Hz Hb) as (Hv & Hn & Hw).
  rewrite Z.add_0_r in Hv.
  assert (Hl' : length (norm_loop 0 b) = MCL_NLEN) by (by rewrite length_norm_loop).
  unfold MCL_BIG_norm. eexists _, _. split; [reflexivity|]. do 3 (split; [done|]).
  pose proof (excess_val _ Hn Hl') as Ex. rewrite Hv in Ex.
  set (b' := norm_loop 0 b) in *. clearbody b'. destruct Hn as (lo & top & -> & Hlo).
  rewrite length_app in Hl'. cbn [length] in Hl'.
  assert (length lo = (MCL_NLEN - 1)%nat) as Hll by lia.
  apply Forall_app in Hw as [_ Htop%Forall_inv].
  assert (excess (lo ++ [top]) = top / 2 ^ P_TBITS) as Ec.
  { unfold excess, Sha256.at_. rewrite lookup_app_r, Hll, Nat.sub_diag by lia. apply Z.shiftr_div_pow2. lia. }
  destruct (carry_shifted top Htop) as [Hs Hc]. rewrite <- Ec in Hc.
  assert (0 < 2 ^ P_TBITS) as Hp by (apply Z.pow_pos_nonneg; lia).
  pose proof (Z.mod_pos_bound top _ Hp) as Hr. set (r := top mod 2 ^ P_TBITS) in *.
  assert (xor_top (excess (lo ++ [top])) (lo ++ [top]) = lo ++ [r]) as ->.
  { by rewrite xor_top_last, Ec, Z.shiftl_mul_pow2, chunk_small, xor_carry by (done || lia). }
  assert (val (lo ++ [r]) = val b mod P) as Er.
  { rewrite <- Hv, !val_app, Hll. cbn [val]. pose proof (val_digits lo Hlo) as Vlo. rewrite Hll in Vlo.
    pose proof P_pos. rewrite bigbits_pow in *. set (Q := W ^ Z.of_nat (MCL_NLEN - 1)) in *.
    apply (Z.mod_unique_pos _ _ (top / 2 ^ P_TBITS)); [nia|].
    pose proof (Z_div_mod_eq_full top (2 ^ P_TBITS)) as E. fold r in E. rewrite E at 1. ring. }
  split; [done|]. split; [done|]. split; [|done].
  apply normal_wide; [lia|by exists lo, r|rewrite length_app; cbn; lia|].
  rewrite Er, Z.pow_0_r, Z.mul_1_l. apply Z.mod_pos_bound, P_pos.
Qed.

(** ** Normalisation of rows *)

(** Words that two additions or subtractions of digits leave. *)
Definition slack (x : Z) : Prop := - (2 * W) <= x <= 2 * W.

Lemma slack_carry x c : slack x -> - W <= c <= W -> loose (x + c).
Proof.
  intros Hx Hc. unfold slack, loose in *. pose proof W_pos. pose proof ff_room. pose proof base_8.
  assert (W * 2 ^ 2 <= 2 ^ (MCL_CHUNK - 2))
    by (rewrite <- Z.pow_add_r by lia; apply Z.pow_le_mono_r; lia). lia.
Qed.

Lemma slack_loose x : slack x -> loose x.
Proof. intros Hx. rewrite <- (Z.add_0_r x). apply slack_carry; [done|]. pose proof W_pos. lia. Qed.

Lemma digit_slack x : digit x -> slack x.
Proof. unfold digit, slack. lia. Qed.

Lemma add_low_row b c :
  length b = MCL_NLEN -> Forall slack b -> - W <= c <= W ->
  val (add_low c b) = val b + c /\ length (add_low c b) = MCL_NLEN /\ Forall loose (add_low c b).
Proof.
  intros Hl Hb Hc. pose proof words_2. destruct b as [|x b]; [cbn in Hl; lia|].
  apply Forall_cons in Hb as [Hx Hb]. unfold add_low. cbn [alter list_alter].
  change (alter (λ x, mcl_chunk (x + c)) 0%nat (x :: b)) with (mcl_chunk (x + c) :: b).
  pose proof (slack_carry x c Hx Hc) as Hs. rewrite chunk_small by (by apply loose_word).
  rewrite !val_cons. split_and!; [lia|done|]. constructor; [done|].
  eapply Forall_impl; [exact Hb|apply slack_loose].
Qed.

Lemma rnorm_ok e n : forall R zp,
  0 <= e <= MCL_BASEBITS - P_TBITS -> (zp + S n <= length R)%nat ->
  (forall i, (i <= n)%nat -> length (row R (zp + i)) = MCL_NLEN) ->
  Forall loose (row R zp) -> (forall i, (0 < i <= n)%nat -> Forall slack (row R (zp + i))) ->
  0 <= ffval R zp (S n) < 2 ^ e * P ^ Z.of_nat (S n) ->
  let R' := rnorm_loop R zp (S n) false in
  length R' = length R /\ ffval R' zp (S n) = ffval R zp (S n) /\ canon e R' zp (S n) /\
  forall j, ~ (zp <= j < zp + S n)%nat -> row R' j = row R j.
Proof.
  induction n as [|n IH]; intros R zp He Hlen Hl Hz Hs Hv; cbv zeta.
  - pose proof (Hl 0%nat ltac:(lia)) as L0. rewrite Nat.add_0_r in L0.
    destruct (norm_row (row R zp) L0 Hz) as (b & c & E & Hlb & Hn & Hvb & _).
    cbn [rnorm_loop]. rewrite E. cbn [ffval] in *. rewrite row_put by lia.
    change (Z.of_nat 1) with 1 in Hv. rewrite Z.pow_1_r in Hv. split_and!; [apply length_put|lia| |].
    + split; [lia|]. cbn [Nat.sub]. rewrite Nat.add_0_r, row_put by lia.
      apply normal_wide; [done..|]. lia.
    + intros j Hj. by rewrite row_put_ne by lia.
  - pose proof (Hl 0%nat ltac:(lia)) as L0. rewrite Nat.add_0_r in L0.
    destruct (norm_row (row R zp) L0 Hz) as (b & c & E & _ & _ & _ & Hc & Ec & Hw & Hm).
    assert (rnorm_loop R zp (S (S n)) false =
      rnorm_loop (put (zp + 1) (add_low c (row (put zp (xor_top c b) R) (zp + 1)))
                  (put zp (xor_top c b) R)) (zp + 1) (S n) false) as ->
      by (cbn [rnorm_loop]; by rewrite E).
    rewrite row_put_ne by lia. set (R1 := put (zp + 1) _ _).
    destruct (add_low_row (row R (zp + 1)) c) as (Va & La & Fa);
      [apply (Hl 1%nat); lia|apply (Hs 1%nat); lia|done|].
    assert (row R1 (zp + 1) = add_low c (row R (zp + 1))) as E1
      by (apply row_put; rewrite length_put; lia).
    assert (row R1 zp = xor_top c b) as E0
      by (unfold R1; rewrite row_put_ne by lia; apply row_put; lia).
    assert (forall j, j <> zp -> j <> (zp + 1)%nat -> row R1 j = row R j) as Eo
      by (intros; unfold R1; by rewrite !row_put_ne by done).
    assert (ffval R1 (zp + 1) (S n) = ffval R (S zp) (S n) + c) as Ev.
    { rewrite !ffval_S, E1, Nat.add_1_r in *. rewrite Va.
      rewrite (ffval_ext R R1 n (S (S zp)) (S (S zp))) by (intros; apply Eo; lia). lia. }
    pose proof (ffval_S R zp (S n)) as ES. rewrite ES in *. pose proof P_pos as HP.
    pose proof (Z_div_mod_eq_full (val (row R zp)) P) as Ed. rewrite <- Ec, <- Hm in Ed.
    pose proof (Z.mod_pos_bound (val (row R zp)) P HP) as Hr. rewrite <- Hm in Hr.
    rewrite Nat2Z.inj_succ, Z.pow_succ_r in Hv by lia.
    assert (0 <= ffval R1 (zp + 1) (S n) < 2 ^ e * P ^ Z.of_nat (S n)) as Hv1.
    { rewrite Ev. set (X := ffval R (S zp) (S n)) in *. set (Q := P ^ Z.of_nat (S n)) in *.
      split; [nia|]. nia. }
    destruct (IH R1 (zp + 1)%nat) as (Hlen' & Hff & Hcan & Hfr); [done| | | | |done|].
    + unfold R1. rewrite !length_put. lia.
    + intros i Hi. destruct i as [|i]; [by rewrite Nat.add_0_r, E1|].
      rewrite Eo by lia. replace (zp + 1 + S i)%nat with (zp + S (S i))%nat by lia. apply Hl. lia.
    + by rewrite E1.
    + intros i Hi. rewrite Eo by lia. replace (zp + 1 + i)%nat with (zp + S i)%nat by lia.
      apply Hs. lia.
    + set (R' := rnorm_loop R1 (zp + 1) (S n) false) in *. split_and!.
      * rewrite Hlen'. unfold R1. by rewrite !length_put.
      * rewrite ffval_S, (Hfr zp), E0 by lia. rewrite <- (Nat.add_1_r zp) in *. rewrite Hff, Ev. nia.
      * destruct Hcan as [Hc1 Hc2]. split.
        -- intros [|i] Hi; [by rewrite Nat.add_0_r, (Hfr zp), E0 by lia|].
           replace (zp + S i)%nat with (zp + 1 + i)%nat by lia. apply Hc1. lia.
        -- replace (zp + (S (S n) - 1))%nat with (zp + 1 + (S n - 1))%nat by lia. done.
      * intros j Hj. rewrite Hfr, Eo by lia. done.
Qed.

(** ** Canonical rows *)

Lemma wide_0 b : wide 0 b -> 0 <= val b < P.
Proof.
  intros (_ & Hd & Hv). rewrite Z.pow_0_r, Z.mul_1_l in Hv. pose proof (val_digits b Hd). lia.
Qed.

Lemma canon_0 R p n : (1 <= n)%nat ->
  canon 0 R p n <-> forall i, (i < n)%nat -> wide 0 (row R (p + i)).
Proof.
  intros Hn. split.
  - intros [H1' H2'] i Hi. destruct (decide (i + 1 < n)%nat); [by apply H1'|].
    by replace i with (n - 1)%nat by lia.
  - intros Hw. split; intros; apply Hw; lia.
Qed.

Lemma canon_ext e R R' p p' n :
  (1 <= n)%nat -> (forall i, (i < n)%nat -> row R' (p' + i) = row R (p + i)) ->
  canon e R p n -> canon e R' p' n.
Proof.
  intros Hn E [H1' H2']. split.
  - intros i Hi. rewrite E by lia. auto.
  - by rewrite E by lia.
Qed.

Lemma canon_mono e e' R p n : 0 <= e <= e' -> canon e R p n -> canon e' R p n.
Proof. intros He [H1' H2']. split; [done|]. by eapply wide_mono. Qed.

Lemma canon_row e R p n i : 0 <= e -> (i < n)%nat -> canon e R p n ->
  length (row R (p + i)) = MCL_NLEN /\ Forall digit (row R (p + i)).
Proof.
  intros He Hi [H1' H2']. destruct (decide (i + 1 < n)%nat) as [Hlt|].
  - by destruct (H1' i Hlt) as (? & ? & _).
  - replace i with (n - 1)%nat by lia. by destruct H2' as (? & ? & _).
Qed.

Lemma canon_lo e R p n m : (0 < m < n)%nat -> canon e R p n -> canon 0 R p m.
Proof. intros Hm [H1' _]. split; [intros i Hi|]; apply H1'; lia. Qed.

Lemma canon_hi e R p n m : (m < n)%nat -> canon e R p n -> canon e R (p + m) (n - m).
Proof.
  intros Hm [H1' H2']. split.
  - intros i Hi. rewrite <- Nat.add_assoc. apply H1'. lia.
  - by replace (p + m + (n - m - 1))%nat with (p + (n - 1))%nat by lia.
Qed.

Lemma canon_val e n : forall R p, 0 <= e -> canon e R p (S n) ->
  0 <= ffval R p (S n) < 2 ^ e * P ^ Z.of_nat (S n).
Proof.
  pose proof P_pos. induction n as [|n IH]; intros R p He Hc; rewrite ffval_S.
  - destruct Hc as [_ (_ & Hd & Hv)]. cbn [Nat.sub] in *. rewrite Nat.add_0_r in *.
    cbn [ffval]. change (Z.of_nat 1) with 1. rewrite Z.pow_1_r. pose proof (val_digits _ Hd). lia.
  - pose proof (canon_hi e R p (S (S n)) 1 ltac:(lia) Hc) as Hhi. rewrite Nat.add_1_r in Hhi.
    specialize (IH R (S p) He Hhi). destruct Hc as [H1' _]. specialize (H1' 0%nat ltac:(lia)).
    apply wide_0 in H1'. rewrite Nat.add_0_r in H1'.
    rewrite (Nat2Z.inj_succ (S n)), Z.pow_succ_r by lia.
    set (X := ffval R (S p) (S n)) in *. set (Q := P ^ Z.of_nat (S n)) in *.
    split; [nia|]. assert (X + 1 <= 2 ^ e * Q) as Hx by lia.
    apply (Z.mul_le_mono_nonneg_l _ _ P) in Hx; [|lia]. nia.
Qed.

Lemma canon_bound e R p n : (1 <= n)%nat -> 0 <= e -> canon e R p n ->
  0 <= ffval R p n < 2 ^ e * P ^ Z.of_nat n.
Proof. destruct n; [lia|]. intros _. apply canon_val. Qed.

(** ** Row by row sums and differences *)

Lemma Forall2_digits (Q : Z -> Z -> Prop) (A B : Z -> Prop) a b :
  (forall x y, A x -> B y -> Q x y) -> length a = length b ->
  Forall A a -> Forall B b -> Forall2 Q a b.
Proof.
  intros HQ Hl Ha Hb. apply Forall2_same_length_lookup_2; [done|].
  intros i x y Hx Hy. apply HQ; by eapply Forall_lookup_1.
Qed.

(** [x + k*y] word by word, with the bounds the words have. *)
Lemma zip_row (f : list Z -> list Z -> list Z) k (A B C : Z -> Prop) a b :
  (forall a b, length a = length b -> Forall2 (λ x y, word (x + k * y)) a b ->
     val (f a b) = val a + k * val b /\ f a b = zip_with (λ x y, x + k * y) a b) ->
  (forall x y, A x -> B y -> C (x + k * y)) -> (forall x, C x -> loose x) ->
  length a = MCL_NLEN -> length b = MCL_NLEN -> Forall A a -> Forall B b ->
  val (f a b) = val a + k * val b /\ length (f a b) = MCL_NLEN /\ Forall C (f a b).
Proof.
  intros Hf HC HCl La Lb Ha Hb.
  destruct (Hf a b ltac:(lia)) as [Hv E].
  { apply (Forall2_digits _ A B); [|lia|done..]. intros x y Hx Hy. apply loose_word, HCl, HC; done. }
  split; [done|]. rewrite E. split; [rewrite length_zip_with; lia|].
  apply Forall_zip_with_snd with (P := B); [|done].
  eapply Forall_impl; [exact Ha|]. intros x Hx y Hy. by apply HC.
Qed.

Definition apart (p n q m : nat) : Prop := (p + n <= q \/ q + m <= p)%nat.

(** [n] rows of well-sized words within [A]. *)
Definition rows_in (A : Z -> Prop) R (p n : nat) : Prop :=
  forall i, (i < n)%nat -> length (row R (p + i)) = MCL_NLEN /\ Forall A (row R (p + i)).

Lemma canon_rows e R p n : 0 <= e -> canon e R p n -> rows_in digit R p n.
Proof. intros He Hc i Hi. by eapply canon_row. Qed.

Lemma rows_in_ext A R R' p n :
  (forall i, (i < n)%nat -> row R' (p + i) = row R (p + i)) -> rows_in A R p n -> rows_in A R' p n.
Proof. intros E Hr i Hi. rewrite E by done. by apply Hr. Qed.

Lemma rows_in_mono (A B : Z -> Prop) R p n :
  (forall x, A x -> B x) -> rows_in A R p n -> rows_in B R p n.
Proof.
  intros HAB Hr i Hi. destruct (Hr i Hi) as [? Ha]. split; [done|]. by eapply Forall_impl.
Qed.

Lemma rows_op (f : list Z -> list Z -> list Z) k (A B C : Z -> Prop) R zp xp yp n :
  (forall a b, length a = length b -> Forall2 (λ x y, word (x + k * y)) a b ->
     val (f a b) = val a + k * val b /\ f a b = zip_with (λ x y, x + k * y) a b) ->
  (forall x y, A x -> B y -> C (x + k * y)) -> (forall x, C x -> loose x) ->
  (zp + n <= length R)%nat -> (xp = zp \/ apart zp n xp n) -> apart zp n yp n ->
  rows_in A R xp n -> rows_in B R yp n ->
  let R' := rows_loop n (λ i R, put (zp + i) (f (row R (xp + i)) (row R (yp + i))) R) R in
  length R' = length R /\ ffval R' zp n = ffval R xp n + k * ffval R yp n /\
  rows_in C R' zp n /\ forall j, ~ (zp <= j < zp + n)%nat -> row R' j = row R j.
Proof.
  intros Hf HC HCl Hl Hx Hy HA HB R'. unfold apart in *.
  destruct (rows_loop_put (λ i R, f (row R (xp + i)) (row R (yp + i))) zp R n) as (L & E & F);
    [|done|].
  { intros i R1 Hi Hfr. by rewrite !Hfr by lia. }
  fold R' in L, E, F.
  assert (forall i, (i < n)%nat -> val (row R' (zp + i)) = val (row R (xp + i)) + k * val (row R (yp + i)) /\
    length (row R' (zp + i)) = MCL_NLEN /\ Forall C (row R' (zp + i))) as Hrow.
  { intros i Hi. rewrite E by done. destruct (HA i Hi) as [? ?], (HB i Hi) as [? ?].
    by apply (zip_row f k A B C). }
  split_and!; [done| | |done].
  - apply ffval_linear. intros i Hi. by apply Hrow.
  - intros i Hi. by apply Hrow.
Qed.

(** The sum of two arrays of canonical rows, normalised again: one more bit of
    excess. *)
Lemma radd_rnorm_ok e R zp xp n :
  0 <= e -> e + 1 <= MCL_BASEBITS - P_TBITS -> (1 <= n)%nat ->
  (zp + n <= length R)%nat -> apart zp n xp (n + n) -> canon e R xp (n + n) ->
  let R' := FF_rnorm (FF_radd R zp xp (xp + n) n) zp (Z.of_nat n) in
  length R' = length R /\ ffval R' zp n = ffval R xp n + ffval R (xp + n) n /\
  canon (e + 1) R' zp n /\ forall j, ~ (zp <= j < zp + n)%nat -> row R' j = row R j.
Proof.
  intros He Hr Hn Hl Hap Hc. unfold apart in *.
  assert (canon e R (xp + n) n) as Hhi
    by (pose proof (canon_hi e R xp (n + n) n ltac:(lia) Hc) as X; by replace (n + n - n)%nat with n in X by lia).
  assert (canon 0 R xp n) as Hlo by (apply (canon_lo e R xp (n + n)); [lia|done]).
  destruct (rows_op MCL_BIG_add 1 digit digit slack R zp xp (xp + n) n) as (L & V & S & F);
    [apply add_val| |apply slack_loose|done|unfold apart; lia|unfold apart; lia| | |].
  { unfold digit, slack. lia. }
  { by apply (canon_rows 0). }
  { by apply (canon_rows e). }
  fold (FF_radd R zp xp (xp + n) n) in *. set (R1 := FF_radd R zp xp (xp + n) n) in *. cbv zeta.
  destruct n as [|n]; [lia|]. pose proof (canon_val _ n _ _ He Hhi) as Vh.
  pose proof (canon_val 0 n _ _ ltac:(lia) Hlo) as Vl. rewrite Z.pow_0_r, Z.mul_1_l in Vl.
  unfold FF_rnorm. rewrite Zabs2Nat.id, (proj2 (Z.ltb_ge _ _)) by lia.
  destruct (rnorm_ok (e + 1) n R1 zp) as (L2 & V2 & C2 & F2).
  - lia.
  - lia.
  - intros i Hi. apply S. lia.
  - rewrite <- (Nat.add_0_r zp). eapply Forall_impl; [apply S; lia|apply slack_loose].
  - intros i Hi. apply S. lia.
  - rewrite V, Z.pow_add_r, Z.pow_1_r by lia.
    assert (1 <= 2 ^ e) by (apply (Z.pow_le_mono_r 2 0); lia).
    set (Q := P ^ Z.of_nat (Datatypes.S n)) in *. nia.
  - split_and!; [lia|rewrite V2; lia|done|]. intros j Hj. by rewrite F2, F by lia.
Qed.

(** ** One step of the multiplication *)

Lemma rows_digit_at R1 R zp tp n N m :
  rows_in digit R zp N -> apart zp N tp n -> (m + n <= N)%nat ->
  (forall j, ~ (tp <= j < tp + n)%nat -> row R1 j = row R j) -> rows_in digit R1 (zp + m) n.
Proof.
  intros Hz Hap Hm Hfr i Hi. unfold apart in Hap. rewrite <- Nat.add_assoc, Hfr by lia. apply Hz. lia.
Qed.

(** The outer products are taken from the middle one. *)
Lemma rdec2_ok R zp tp n :
  (tp + n <= length R)%nat -> apart zp (n + n) tp n ->
  rows_in digit R zp (n + n) -> rows_in digit R tp n ->
  let R' := FF_rdec (FF_rdec R tp zp n) tp (zp + n) n in
  length R' = length R /\ ffval R' tp n = ffval R tp n - ffval R zp n - ffval R (zp + n) n /\
  rows_in (λ x, - (2 * W) <= x <= W) R' tp n /\
  forall j, ~ (tp <= j < tp + n)%nat -> row R' j = row R j.
Proof.
  intros Lt Hap Hz Ht R'. pose proof W_pos as HW. pose proof Hap as Hap'. unfold apart in Hap'.
  destruct (rows_op MCL_BIG_sub (-1) digit digit (λ x, - W <= x <= W) R tp tp zp n) as (L1 & V1 & S1 & F1);
    [apply sub_val|unfold digit; lia| |lia|by left|unfold apart; lia|done| |].
  { intros x Hx. apply slack_loose. unfold slack. lia. }
  { intros i Hi. apply Hz. lia. }
  fold (FF_rdec R tp zp n) in L1, V1, S1, F1. set (R1 := FF_rdec R tp zp n) in *.
  destruct (rows_op MCL_BIG_sub (-1) (λ x, - W <= x <= W) digit (λ x, - (2 * W) <= x <= W)
              R1 tp tp (zp + n) n) as (L2 & V2 & S2 & F2);
    [apply sub_val|unfold digit; lia| |lia|by left|unfold apart; lia|done| |].
  { intros x Hx. apply slack_loose. unfold slack. lia. }
  { by apply (rows_digit_at _ R _ tp n (n + n)); [..|lia|]. }
  fold (FF_rdec R1 tp (zp + n) n) in L2, V2, S2, F2. fold R' in L2, V2, S2, F2.
  split_and!; [lia| |done|intros; by rewrite F2, F1].
  rewrite V2, V1, (ffval_ext R R1 n (zp + n) (zp + n)) by (intros; apply F1; lia). lia.
Qed.

(** The middle product without the outer ones is added in the middle. *)
Lemma combine_ok e R zp tp h :
  0 <= e <= MCL_BASEBITS - P_TBITS -> (1 <= h)%nat ->
  let n := (h + h)%nat in
  (zp + (n + n) <= length R)%nat -> (tp + n <= length R)%nat -> apart zp (n + n) tp n ->
  rows_in digit R zp (n + n) -> rows_in digit R tp n ->
  let v := ffval R zp (n + n) +
           P ^ Z.of_nat h * (ffval R tp n - ffval R zp n - ffval R (zp + n) n) in
  0 <= v < 2 ^ e * P ^ Z.of_nat (n + n) ->
  let R' := FF_rnorm (FF_rinc (FF_rdec (FF_rdec R tp zp n) tp (zp + n) n) (zp + h) tp n)
              zp (Z.of_nat (2 * n)) in
  length R' = length R /\ ffval R' zp (n + n) = v /\ canon e R' zp (n + n) /\
  forall j, ~ (zp <= j < zp + (n + n))%nat -> ~ (tp <= j < tp + n)%nat -> row R' j = row R j.
Proof.
  intros He Hh n Lz Lt Hap Hz Ht v Hv. pose proof Hap as Hap'. unfold apart in Hap'.
  destruct (rdec2_ok R zp tp n) as (L2 & V2 & S2 & F2); [done..|].
  set (R2 := FF_rdec _ tp (zp + n) n) in *.
  destruct (rows_op MCL_BIG_add 1 digit (λ x, - (2 * W) <= x <= W) slack R2 (zp + h) (zp + h) tp n)
    as (L3 & V3 & S3 & F3);
    [apply add_val|unfold digit, slack; lia|apply slack_loose|lia|by left|unfold apart; lia| |done|].
  { by apply (rows_digit_at _ R _ tp n (n + n)); [..|lia|]. }
  fold (FF_rinc R2 (zp + h) tp n) in L3, V3, S3, F3. set (R3 := FF_rinc R2 (zp + h) tp n) in *.
  assert (ffval R3 zp (n + n) = v) as V.
  { unfold v. replace (n + n)%nat with (h + (n + h))%nat by lia.
    rewrite !ffval_split, V3, V2.
    rewrite (ffval_ext R R3 h zp zp), (ffval_ext R R3 h (zp + h + n) (zp + h + n)),
      (ffval_ext R R2 n (zp + h) (zp + h)) by (intros; rewrite ?F3, ?F2 by lia; done). ring. }
  assert (rows_in slack R3 zp (n + n)) as S30.
  { intros i Hi. destruct (decide (h <= i < h + n)%nat).
    - replace (zp + i)%nat with (zp + h + (i - h))%nat by lia. apply S3. lia.
    - rewrite F3, F2 by lia. destruct (Hz i ltac:(lia)) as [? Hd]. split; [done|].
      eapply Forall_impl; [exact Hd|apply digit_slack]. }
  unfold FF_rnorm. rewrite Zabs2Nat.id, (proj2 (Z.ltb_ge _ _)) by lia. rewrite <- V in *.
  replace (2 * n)%nat with (n + n)%nat by lia.
  destruct (n + n)%nat as [|m] eqn:Em; [lia|].
  destruct (rnorm_ok e m R3 zp) as (L4 & V4 & C4 & F4);
    [done|lia|intros i Hi; apply S30; lia| |intros i Hi; apply S30; lia|done|].
  { rewrite <- (Nat.add_0_r zp). eapply Forall_impl; [apply S30; lia|apply slack_loose]. }
  split_and!; [lia|done|done|]. intros j Hj1 Hj2. by rewrite F4, F3, F2 by lia.
Qed.

(** ** The multiplication *)

Lemma row_put_same i R j : row (put i (row R i) R) j = row R j.
Proof.
  destruct (decide (i = j)) as [->|]; [|by rewrite row_put_ne].
  destruct (decide (j < length R)%nat); [by rewrite row_put|].
  unfold row, put. by rewrite list_insert_ge by lia.
Qed.

(** The top word of a product leaves room for the shift of [MCL_BIG_split]. *)
Lemma product_top e lo top :
  0 <= e -> 2 * e <= MCL_BASEBITS - P_TBITS ->
  Forall digit lo -> length lo = (DMCL_NLEN - 1)%nat ->
  0 <= val (lo ++ [top]) < 2 ^ e * P * (2 ^ e * P) -> word (top * 2 ^ (MCL_BASEBITS - P_TBITS)).
Proof.
  intros He Hr Hlo Hl Hv. pose proof tbits_range as HT. pose proof words_2. pose proof W_pos.
  pose proof base_room. pose proof base_8. unfold DMCL_NLEN in Hl.
  set (s := 2 ^ (MCL_BASEBITS - P_TBITS)). assert (0 < s) by (apply Z.pow_pos_nonneg; lia).
  set (Q := W ^ Z.of_nat (MCL_NLEN - 1)). assert (0 < Q) by (apply Z.pow_pos_nonneg; lia).
  assert (W ^ Z.of_nat (length lo) = Q * Q * W) as EQ.
  { unfold Q. rewrite <- Z.pow_add_r, Z.mul_comm, <- Z.pow_succ_r by lia. f_equal. lia. }
  rewrite val_app, EQ in Hv. cbn [val] in Hv. pose proof (val_digits lo Hlo) as Vl. rewrite EQ in Vl.
  rewrite bigbits_pow in Hv. fold Q in Hv. set (t := 2 ^ P_TBITS) in *.
  assert (W = t * s) as EW by (unfold t, s; rewrite <- Z.pow_add_r by lia; f_equal; lia).
  set (k := 2 ^ e) in *. assert (0 < t) by (apply Z.pow_pos_nonneg; lia).
  assert (k * k * t <= W) as Hk.
  { unfold k, t. rewrite <- !Z.pow_add_r by lia. apply Z.pow_le_mono_r; lia. }
  assert (W <= 2 ^ (MCL_CHUNK - 1)) as Hc by (apply Z.pow_le_mono_r; lia).
  assert (0 < Q * Q) by nia. set (QQ := Q * Q) in *.
  assert (0 <= top) by nia.
  assert (QQ * (top * W) < QQ * (k * k * (t * t))) as Hlt by (unfold QQ in *; nia).
  apply Z.mul_lt_mono_pos_l in Hlt; [|done]. rewrite EW in Hlt.
  assert (top * s < k * k * t) by nia. unfold word. nia.
Qed.

Lemma karmul_base_ok e R zp xp yp tp :
  0 <= e -> 2 * e <= MCL_BASEBITS - P_TBITS ->
  wide e (row R xp) -> wide e (row R yp) ->
  (zp + 2 <= length R)%nat -> (tp + 2 <= length R)%nat -> apart zp 2 tp 2 ->
  let R' := karmul_base R zp xp yp tp in
  length R' = length R /\ ffval R' zp 2 = val (row R xp) * val (row R yp) /\
  canon (2 * e) R' zp 2 /\
  forall j, ~ (zp <= j < zp + 2)%nat -> ~ (tp <= j < tp + 2)%nat -> row R' j = row R j.
Proof.
  intros He Hr (La & Da & Va) (Lb & Db & Vb) Lz Lt Hap. unfold apart in Hap. pose proof P_pos as HP.
  destruct (mul_val _ _ Da Db La Lb) as (c & E & Vc & Dc & Lc). unfold karmul_base. rewrite E.
  set (R1 := put yp _ (put xp _ R)).
  assert (forall j, row R1 j = row R j) as E1.
  { intros j. unfold R1. rewrite <- (row_put_same xp R yp) at 1. by rewrite !row_put_same. }
  assert (length R1 = length R) as L1 by (unfold R1; by rewrite !length_put).
  set (R2 := put (tp + 1) _ (put tp _ R1)).
  assert (row R2 tp ++ row R2 (tp + 1) = c) as ->.
  { unfold R2. rewrite row_put_ne, !row_put by (rewrite ?length_put; lia). apply take_drop. }
  assert (forall j, ~ (tp <= j < tp + 2)%nat -> row R2 j = row R j) as E2
    by (intros; unfold R2; rewrite !row_put_ne by lia; apply E1).
  assert (length R2 = length R) as L2 by (unfold R2; by rewrite !length_put).
  clearbody R2. pose proof words_2. pose proof (val_digits _ Da). pose proof (val_digits _ Db).
  assert (c <> []) as Hne by (intros ->; unfold DMCL_NLEN in Lc; cbn in Lc; lia).
  destruct (exists_last Hne) as (lo & top & ->). apply Forall_app in Dc as [Dlo _].
  rewrite length_app in Lc. cbn [length] in Lc. pose proof (P_room e). pose proof tbits_range.
  assert (0 <= val (lo ++ [top]) < 2 ^ e * P * (2 ^ e * P)) as Vp by (rewrite Vc; nia).
  pose proof (product_top e lo top He Hr Dlo ltac:(lia) Vp) as Htop.
  pose proof (split_val lo top Dlo ltac:(lia) Htop) as Hsp.
  destruct (MCL_BIG_split (lo ++ [top]) MCL_BIGBITS) as [hi b].
  destruct Hsp as (Hv & Nhi & Lhi & Nb & Lb' & Vb').
  assert (2 ^ (2 * e) = 2 ^ e * 2 ^ e) as E2e by (rewrite <- Z.pow_add_r by lia; f_equal; lia).
  assert (0 <= val hi < 2 ^ (2 * e) * P) as Vhi by (rewrite E2e; split; nia).
  assert (forall j, row (put zp b (put (zp + 1) hi R2)) j =
            if decide (j = zp) then b else if decide (j = zp + 1)%nat then hi else row R2 j) as Er.
  { intros j. destruct (decide (j = zp)) as [->|]; [apply row_put; rewrite length_put; lia|].
    rewrite row_put_ne by done. destruct (decide (j = (zp + 1)%nat)) as [->|]; [apply row_put; lia|].
    by apply row_put_ne. }
  split_and!.
  - by rewrite !length_put.
  - cbn [ffval]. rewrite !Er, <- Nat.add_1_r, decide_True, decide_False, decide_True by lia. lia.
  - split.
    + intros i Hi. rewrite Er, decide_True by lia. apply normal_wide; [lia|done|done|].
      rewrite Z.pow_0_r. lia.
    + cbn [Nat.sub]. rewrite Er, decide_False, decide_True by lia. apply normal_wide; [lia|done|done|lia].
  - intros j Hj1 Hj2. rewrite Er, !decide_False, E2 by lia. done.
Qed.

Lemma karmul_step fuel R zp xp yp tp h : (1 <= h)%nat ->
  FF_karmul (S fuel) R zp xp yp tp (h + h) =
    (let R := FF_rnorm (FF_radd R zp xp (xp + h) h) zp (Z.of_nat h) in
     let R := FF_rnorm (FF_radd R (zp + h) yp (yp + h) h) (zp + h) (Z.of_nat h) in
     R ← FF_karmul fuel R tp zp (zp + h) (tp + (h + h)) h;
     R ← FF_karmul fuel R zp xp yp (tp + (h + h)) h;
     R ← FF_karmul fuel R (zp + (h + h)) (xp + h) (yp + h) (tp + (h + h)) h;
     Some (FF_rnorm (FF_rinc (FF_rdec (FF_rdec R tp zp (h + h)) tp (zp + (h + h)) (h + h))
                       (zp + h) tp (h + h)) zp (Z.of_nat (2 * (h + h))))).
Proof.
  intros Hh. cbn [FF_karmul]. rewrite (proj2 (Nat.eqb_neq _ _)) by lia.
  by replace ((h + h) / 2)%nat with h by (rewrite <- (Nat.div_mul h 2) at 1 by done; f_equal; lia).
Qed.

Lemma karmul_value e h X0 X1 Y0 Y1 :
  0 <= e -> 0 <= X0 < P ^ Z.of_nat h -> 0 <= X1 < 2 ^ e * P ^ Z.of_nat h ->
  0 <= Y0 < P ^ Z.of_nat h -> 0 <= Y1 < 2 ^ e * P ^ Z.of_nat h ->
  let Q := P ^ Z.of_nat h in
  (X0 * Y0 + P ^ Z.of_nat (h + h) * (X1 * Y1)) +
    Q * ((X0 + X1) * (Y0 + Y1) - X0 * Y0 - X1 * Y1) = (X0 + Q * X1) * (Y0 + Q * Y1) /\
  0 <= (X0 + Q * X1) * (Y0 + Q * Y1) < 2 ^ (2 * e) * P ^ Z.of_nat (h + h + (h + h)).
Proof.
  intros He HX0 HX1 HY0 HY1 Q.
  assert (P ^ Z.of_nat (h + h) = Q * Q) as EQ by (unfold Q; rewrite <- Z.pow_add_r by lia; f_equal; lia).
  assert (P ^ Z.of_nat (h + h + (h + h)) = Q * Q * (Q * Q)) as EQ4
    by (unfold Q; rewrite <- !Z.pow_add_r by lia; f_equal; lia).
  assert (2 ^ (2 * e) = 2 ^ e * 2 ^ e) as -> by (rewrite <- Z.pow_add_r by lia; f_equal; lia).
  rewrite EQ, EQ4. fold Q in HX0, HX1, HY0, HY1. set (k := 2 ^ e) in *. split; [ring|].
  assert (0 <= X0 + Q * X1 < k * (Q * Q)) by nia.
  assert (0 <= Y0 + Q * Y1 < k * (Q * Q)) by nia. clearbody Q k.
  set (X := X0 + Q * X1) in *. set (Y := Y0 + Q * Y1) in *.
  split; [nia|]. replace (k * k * (Q * Q * (Q * Q))) with (k * (Q * Q) * (k * (Q * Q))) by ring.
  apply Z.mul_lt_mono_nonneg; lia.
Qed.

(** Where the arrays lie, and what the operands hold. *)
Record operands R (e : Z) (zp xp yp tp n : nat) : Prop := {
  op_e : 0 <= e;
  op_z : (zp + (n + n) <= length R)%nat;
  op_t : (tp + (n + n) <= length R)%nat;
  op_zt : apart zp (n + n) tp (n + n);
  op_zx : apart zp (n + n) xp n;
  op_zy : apart zp (n + n) yp n;
  op_tx : apart tp (n + n) xp n;
  op_ty : apart tp (n + n) yp n;
  op_x : canon e R xp n;
  op_y : canon e R yp n
}.

(** Only the result and the workspace change. *)
Definition frame R R' (zp tp n : nat) : Prop :=
  length R' = length R /\
  forall j, ~ (zp <= j < zp + n)%nat -> ~ (tp <= j < tp + n)%nat -> row R' j = row R j.

Definition product e R R' (zp xp yp tp n : nat) : Prop :=
  ffval R' zp (n + n) = ffval R xp n * ffval R yp n /\ canon (2 * e) R' zp (n + n) /\
  frame R R' zp tp (n + n).

Lemma canon_halves e R R' xp h : 0 <= e -> (1 <= h)%nat ->
  (forall i, (i < h + h)%nat -> row R' (xp + i) = row R (xp + i)) -> canon e R xp (h + h) ->
  canon 0 R' xp h /\ canon e R' (xp + h) h /\
  ffval R' xp h = ffval R xp h /\ ffval R' (xp + h) h = ffval R (xp + h) h.
Proof.
  intros He Hh E Hc. apply (canon_ext _ R R' xp xp) in Hc; [|lia|done]. split_and!.
  - by apply (canon_lo e _ _ (h + h)); [lia|].
  - pose proof (canon_hi e R' xp (h + h) h ltac:(lia) Hc) as X.
    by replace (h + h - h)%nat with h in X by lia.
  - apply ffval_ext. intros. apply E. lia.
  - apply ffval_ext. intros. rewrite <- Nat.add_assoc. apply E. lia.
Qed.

(** The operands of the first call: the sums of the halves. *)
Lemma sums_ok e R zp xp yp tp h :
  (1 <= h)%nat -> e + 1 <= MCL_BASEBITS - P_TBITS -> operands R e zp xp yp tp (h + h) ->
  let R1 := FF_rnorm (FF_radd R zp xp (xp + h) h) zp (Z.of_nat h) in
  let R2 := FF_rnorm (FF_radd R1 (zp + h) yp (yp + h) h) (zp + h) (Z.of_nat h) in
  operands R2 (e + 1) tp zp (zp + h) (tp + (h + h)) h /\
  ffval R2 zp h = ffval R xp h + ffval R (xp + h) h /\
  ffval R2 (zp + h) h = ffval R yp h + ffval R (yp + h) h /\
  frame R R2 zp tp (h + h + (h + h)).
Proof.
  intros Hh Hr [He Lz Lt Azt Azx Azy Atx Aty Cx Cy]. unfold apart in *. cbv zeta.
  destruct (radd_rnorm_ok e R zp xp h) as (L1 & V1 & C1 & F1);
    [lia|lia|lia|lia|unfold apart; lia|done|].
  set (R1 := FF_rnorm (FF_radd R _ _ _ _) _ _) in *.
  destruct (radd_rnorm_ok e R1 (zp + h) yp h) as (L2 & V2 & C2 & F2);
    [lia|lia|lia|lia|unfold apart; lia| |].
  { eapply (canon_ext _ R); [lia| |exact Cy]. intros i Hi. apply F1. lia. }
  set (R2 := FF_rnorm (FF_radd R1 _ _ _ _) _ _) in *. split_and!.
  - split; unfold apart; [lia..| |done].
    eapply (canon_ext _ R1); [lia| |exact C1]. intros i Hi. apply F2. lia.
  - rewrite <- V1. apply ffval_ext. intros. apply F2. lia.
  - rewrite V2. f_equal; apply ffval_ext; intros; apply F1; lia.
  - split; [lia|]. intros. by rewrite F2, F1 by lia.
Qed.

(** The operands of the other two calls. *)
Lemma halves_ok e R R' zp xp yp tp h :
  (1 <= h)%nat -> operands R e zp xp yp tp (h + h) -> frame R R' zp tp (h + h + (h + h)) ->
  operands R' e zp xp yp (tp + (h + h)) h /\
  operands R' e (zp + (h + h)) (xp + h) (yp + h) (tp + (h + h)) h /\
  ffval R' xp h = ffval R xp h /\ ffval R' yp h = ffval R yp h /\
  ffval R' (xp + h) h = ffval R (xp + h) h /\ ffval R' (yp + h) h = ffval R (yp + h) h.
Proof.
  intros Hh [He Lz Lt Azt Azx Azy Atx Aty Cx Cy] [L F]. unfold apart in *.
  destruct (canon_halves e R R' xp h) as (Cx0 & Cx1 & Vx0 & Vx1);
    [done|done|intros; apply F; lia|done|].
  destruct (canon_halves e R R' yp h) as (Cy0 & Cy1 & Vy0 & Vy1);
    [done|done|intros; apply F; lia|done|].
  apply (canon_mono 0 e) in Cx0, Cy0; [|lia|lia].
  split_and!; try done; split; unfold apart; (done || lia).
Qed.

(** The three products are put together. *)
Lemma products_combine e R R2 R3 R4 R5 zp xp yp tp h :
  (1 <= h)%nat -> 2 * (e + 1) <= MCL_BASEBITS - P_TBITS -> operands R e zp xp yp tp (h + h) ->
  ffval R2 zp h = ffval R xp h + ffval R (xp + h) h ->
  ffval R2 (zp + h) h = ffval R yp h + ffval R (yp + h) h ->
  frame R R2 zp tp (h + h + (h + h)) ->
  product (e + 1) R2 R3 tp zp (zp + h) (tp + (h + h)) h ->
  product e R3 R4 zp xp yp (tp + (h + h)) h ->
  product e R4 R5 (zp + (h + h)) (xp + h) (yp + h) (tp + (h + h)) h ->
  product e R (FF_rnorm (FF_rinc (FF_rdec (FF_rdec R5 tp zp (h + h)) tp (zp + (h + h)) (h + h))
                           (zp + h) tp (h + h)) zp (Z.of_nat (2 * (h + h)))) zp xp yp tp (h + h).
Proof.
  intros Hh Hr Hop VX VY Fr2 (V3 & C3 & L3 & F3) (V4 & C4 & L4 & F4) (V5 & C5 & L5 & F5).
  assert (frame R R3 zp tp (h + h + (h + h))) as Fr3
    by (destruct Fr2 as [L2 F2]; split; [lia|]; intros; rewrite F3, F2 by lia; done).
  assert (frame R R4 zp tp (h + h + (h + h))) as Fr4
    by (destruct Fr3 as [? F]; split; [lia|]; intros; rewrite F4, F by lia; done).
  destruct (halves_ok e R R3 zp xp yp tp h Hh Hop Fr3) as (_ & _ & VX0 & VY0 & _ & _).
  destruct (halves_ok e R R4 zp xp yp tp h Hh Hop Fr4) as (_ & _ & _ & _ & VX1 & VY1).
  destruct Hop as [He Lz Lt Azt _ _ _ _ Cx Cy]. unfold apart in Azt. destruct Fr4 as [L F].
  destruct (canon_halves e R R xp h) as (Cx0 & Cx1 & _ & _); [done..|].
  destruct (canon_halves e R R yp h) as (Cy0 & Cy1 & _ & _); [done..|].
  pose proof (canon_bound 0 _ _ _ Hh (Z.le_refl 0) Cx0) as BX0.
  pose proof (canon_bound 0 _ _ _ Hh (Z.le_refl 0) Cy0) as BY0.
  pose proof (canon_bound e _ _ _ Hh He Cx1) as BX1. pose proof (canon_bound e _ _ _ Hh He Cy1) as BY1.
  rewrite Z.pow_0_r, Z.mul_1_l in BX0, BY0.
  destruct (karmul_value e h _ _ _ _ He BX0 BX1 BY0 BY1) as [Hval Hbound].
  set (n := (h + h)%nat) in *. assert (ffval R5 tp n = ffval R2 zp h * ffval R2 (zp + h) h) as Vt.
  { rewrite <- V3. apply ffval_ext. intros. by rewrite F5, F4 by lia. }
  assert (ffval R5 zp n = ffval R xp h * ffval R yp h) as Vlo.
  { rewrite <- VX0, <- VY0, <- V4. apply ffval_ext. intros. by rewrite F5 by lia. }
  assert (ffval R5 (zp + n) n = ffval R (xp + h) h * ffval R (yp + h) h) as Vhi
    by (by rewrite <- VX1, <- VY1).
  pose proof tbits_range. destruct (combine_ok (2 * e) R5 zp tp h) as (L6 & V6 & C6 & F6).
  - lia.
  - done.
  - fold n. lia.
  - fold n. lia.
  - unfold apart. fold n. lia.
  - fold n. intros i Hi. destruct (decide (i < n)%nat).
    + rewrite F5 by lia. apply (canon_rows (2 * e) R4 zp n); [lia|done|done].
    + replace (zp + i)%nat with (zp + n + (i - n))%nat by lia.
      apply (canon_rows (2 * e) R5 (zp + n) n); [lia|done|lia].
  - fold n. intros i Hi. rewrite F5, F4 by lia.
    apply (canon_rows (2 * (e + 1)) R3 tp n); [lia|done|done].
  - fold n. rewrite ffval_split, Vlo, Vhi, Vt, VX, VY, Hval. done.
  - fold n in L6, V6, C6, F6. split_and!; [|done|split; [lia|]].
    + rewrite V6, ffval_split, Vlo, Vhi, Vt, VX, VY, Hval. unfold n. by rewrite !ffval_split.
    + intros j Hj1 Hj2. rewrite F6, F5, F by lia. done.
Qed.

(** The product of [2^k] rows, for [e] bits of excess in the operands. *)
Lemma karmul_ok k : forall fuel R zp xp yp tp e,
  (k < fuel)%nat -> 2 * (e + Z.of_nat k) <= MCL_BASEBITS - P_TBITS ->
  operands R e zp xp yp tp (2 ^ k) ->
  exists R', FF_karmul fuel R zp xp yp tp (2 ^ k) = Some R' /\ product e R R' zp xp yp tp (2 ^ k).
Proof.
  induction k as [|k IH]; intros [|fuel] R zp xp yp tp e Hf Hr Hop; try lia.
  - change (2 ^ 0)%nat with 1%nat in *. cbn [FF_karmul Nat.eqb] in *.
    destruct Hop as [He Lz Lt Azt _ _ _ _ [_ Wx] [_ Wy]]. cbn [Nat.sub Nat.add] in *.
    rewrite Nat.add_0_r in Wx, Wy.
    destruct (karmul_base_ok e R zp xp yp tp) as (L & V & C & F); [done|lia|done..|].
    eexists. split; [reflexivity|]. split; [|by split].
    cbn [Nat.add]. rewrite V. cbn [ffval]. lia.
  - set (h := (2 ^ k)%nat) in *.
    replace (2 ^ S k)%nat with (h + h)%nat in * by (unfold h; cbn [Nat.pow]; lia).
    assert (1 <= h)%nat as Hh by (unfold h; apply Nat.neq_0_lt_0, Nat.pow_nonzero; lia).
    rewrite karmul_step by done. cbv zeta. pose proof (op_e _ _ _ _ _ _ _ Hop) as He.
    destruct (sums_ok e R zp xp yp tp h) as (Hop2 & VX & VY & Fr2); [done|lia|done|].
    set (R2 := FF_rnorm (FF_radd (FF_rnorm _ _ _) _ _ _ _) _ _) in *.
    destruct (IH fuel R2 tp zp (zp + h)%nat (tp + (h + h))%nat (e + 1)) as (R3 & E3 & P3); [lia|lia|done|].
    rewrite E3. cbn [mbind option_bind].
    assert (frame R R3 zp tp (h + h + (h + h))) as Fr3.
    { destruct Fr2 as [L2 F2], P3 as (_ & _ & L3 & F3). split; [lia|]. intros. by rewrite F3, F2 by lia. }
    destruct (halves_ok e R R3 zp xp yp tp h Hh Hop Fr3) as (Hop3 & _).
    destruct (IH fuel R3 zp xp yp (tp + (h + h))%nat e) as (R4 & E4 & P4); [lia|lia|done|].
    rewrite E4. cbn [mbind option_bind].
    assert (frame R R4 zp tp (h + h + (h + h))) as Fr4.
    { destruct Fr3 as [L3 F3], P4 as (_ & _ & L4 & F4). split; [lia|]. intros. by rewrite F4, F3 by lia. }
    destruct (halves_ok e R R4 zp xp yp tp h Hh Hop Fr4) as (_ & Hop4 & _).
    destruct (IH fuel R4 (zp + (h + h))%nat (xp + h)%nat (yp + h)%nat (tp + (h + h))%nat e)
      as (R5 & E5 & P5); [lia|lia|done|].
    rewrite E5. cbn [mbind option_bind]. eexists. split; [reflexivity|].
    by apply (products_combine e R R2 R3 R4 R5); [|lia|..].
Qed.
End ffspec.
