(* ===== verification/MclOctet.v ===== *)
(** * MclOctet: numbers to and from octets, increments

    The octets of a number are its big-endian bytes, for one row and for an
    array of rows; adding a small integer to an array adds it to the number. *)

From S2P Require Import Prelude Sha256 StreamHash Sha256Spec MclBig MclBigSpec MclMul MclFF MclFFSpec.
Import Sha256.

(** ** Bytes of a number *)

Lemma le_split_mod n x k : le_split n (x + 2 ^ (8 * Z.of_nat n) * k) = le_split n x.
Proof.
  rewrite <- (le_split_combine (le_split n (x + _))), <- (le_split_combine (le_split n x)) by apply le_split_bytes.
  by rewrite !length_le_split, !le_combine_split, (Z.mul_comm _ k), Z_mod_plus_full.
Qed.

Section octet.
Context `{MclFFOk}.
Implicit Types R : list (list Z).
Abbreviation W := (2 ^ MCL_BASEBITS).
Abbreviation P := (2 ^ MCL_BIGBITS).
Abbreviation MB := (Z.to_nat MCL_MODBYTES).

Lemma MB_bits : MCL_BIGBITS = 8 * Z.of_nat MB.
Proof.
  unfold MCL_BIGBITS. pose proof bits_top as E. pose proof tbits_range. pose proof words_2. pose proof base_8.
  assert (0 <= MCL_BIGBITS) by nia. unfold MCL_BIGBITS in *. lia.
Qed.

Lemma W_256 : W = 256 * 2 ^ (MCL_BASEBITS - 8).
Proof. pose proof base_8. change 256 with (2 ^ 8). rewrite <- Z.pow_add_r by lia. f_equal. lia. Qed.

(** ** One row *)

Lemma low_word x b : val (x :: b) mod 256 = x mod 256.
Proof.
  rewrite val_cons, W_256, <- Z.mul_assoc, Z.mul_comm. rewrite Z_mod_plus_full. done.
Qed.

(** A byte is shifted in from the right. *)
Lemma fromBytes_step_ok b y :
  normal b -> length b = MCL_NLEN -> is_u8 y -> 0 <= val b -> 256 * val b < P ->
  let b' := fromBytes_step b y in
  normal b' /\ length b' = MCL_NLEN /\ val b' = val b * 256 + y.
Proof.
  intros Hn Hl Hy Hv Hp. pose proof base_8. pose proof base_room. pose proof words_2.
  pose proof W_pos. pose proof tbits_range.
  destruct (fshl_loop_val 8 b 0) as (Ev & En & El); [lia|split; lia|done| |].
  { intros top Et. destruct Hn as (lo & top' & -> & Hlo). rewrite last_snoc in Et. injection Et as ->.
    rewrite length_app in Hl. cbn [length] in Hl. pose proof (top_bounds lo top 0 (2 ^ P_TBITS)) as Ht.
    rewrite bigbits_pow in Hp. replace (Z.of_nat (MCL_NLEN - 1)) with (Z.of_nat (length lo)) in Hp by lia.
    assert (0 <= 256 * top < 2 ^ P_TBITS) as Htop.
    { pose proof (val_digits lo Hlo). rewrite val_app in Hv, Hp. cbn [val] in Hv, Hp.
      set (Q := W ^ Z.of_nat (length lo)) in *. assert (0 <= top) by nia. split; [lia|]. nia. }
    assert (2 ^ P_TBITS <= 2 ^ (MCL_CHUNK - 1)) by (apply Z.pow_le_mono_r; lia).
    change (2 ^ 8) with 256. unfold word. lia. }
  rewrite Z.div_0_l, Z.add_0_r in Ev by (apply Z.pow_nonzero; lia). change (2 ^ 8) with 256 in Ev.
  unfold fromBytes_step, MCL_BIG_fshl. cbn [fst]. set (c := fshl_loop 8 0 b) in *. clearbody c.
  destruct c as [|x c]; [cbn in El; lia|]. unfold add_low.
  change (alter (λ x, mcl_chunk (x + u8 y)) 0%nat (x :: c)) with (mcl_chunk (x + u8 y) :: c).
  rewrite (u8_small y) by done. apply normal_cons in En as [->|[Hx Hc]]; [cbn in El; lia|].
  assert (x mod 256 = 0) as Hx0 by (by rewrite <- (low_word x c), Ev, Z.mul_comm, Z_mod_mult).
  assert (digit (x + y)) as Hd.
  { unfold digit in *. rewrite W_256 in *. unfold is_u8 in Hy. change (2 ^ 8) with 256 in Hy.
    pose proof (Z_div_mod_eq_full x 256) as E. rewrite Hx0 in E. nia. }
  rewrite chunk_small by (by apply loose_word, digit_loose). split_and!.
  - apply normal_cons. by right.
  - cbn [length] in *. lia.
  - rewrite val_cons in *. lia.
Qed.

Lemma zero_normal : normal MCL_BIG_zero.
Proof.
  apply digits_normal; [|unfold MCL_BIG_zero; pose proof words_2; by destruct MCL_NLEN; [lia|]].
  apply Forall_replicate. split; [lia|apply W_pos].
Qed.

Lemma fromBytes_ok bs :
  bytes_ok bs -> length bs = MB -> wide 0 (MCL_BIG_fromBytes bs) /\ val (MCL_BIG_fromBytes bs) = be bs.
Proof.
  intros Hb Hl. unfold MCL_BIG_fromBytes. rewrite take_ge by lia. pose proof tbits_range.
  assert (forall l, (length l <= MB)%nat -> bytes_ok l ->
    let b := foldl fromBytes_step MCL_BIG_zero l in
    normal b /\ length b = MCL_NLEN /\ val b = be l) as Hf.
  { induction l as [|y l IH] using rev_ind; intros Hle Hl'.
    { cbn [foldl]. split_and!; [apply zero_normal|apply length_replicate|apply val_zeros]. }
    apply Forall_app in Hl' as [Hl' [Hy _]%Forall_cons]. rewrite length_app in Hle. cbn [length] in Hle.
    destruct (IH ltac:(lia) Hl') as (Hn & Hlen & Hv). rewrite foldl_app, be_snoc, <- Hv. cbn [foldl].
    pose proof (be_range l Hl') as Hr. rewrite <- Hv in Hr.
    apply fromBytes_step_ok; [done..|lia|]. rewrite MB_bits.
    assert (2 ^ (8 * Z.of_nat (length l) + 8) <= 2 ^ (8 * Z.of_nat MB)) as Hp by (apply Z.pow_le_mono_r; lia).
    rewrite Z.pow_add_r in Hp by lia. lia. }
  destruct (Hf bs ltac:(lia) Hb) as (Hn & Hlen & Hv). split; [|done].
  apply normal_wide; [lia|done..|]. rewrite Hv, MB_bits, <- Hl. pose proof (be_range bs Hb). lia.
Qed.

Lemma toBytes_loop_ok n : forall b,
  normal b -> length b = MCL_NLEN -> toBytes_loop n b = reverse (le_split n (val b)).
Proof.
  pose proof base_8. pose proof words_2. induction n as [|n IH]; intros b Hn Hl; [done|].
  destruct (fshr_loop_val 8 b) as (Ev & En & El); [lia|done|].
  cbn [toBytes_loop le_split]. unfold MCL_BIG_fshr. cbn [fst].
  rewrite IH, Ev, reverse_cons by (done || lia). f_equal. f_equal.
  destruct b as [|x b]; [cbn in Hl; lia|]. change (Sha256.at_ (x :: b) 0) with x.
  rewrite u8_mod. change (2 ^ 8) with 256. rewrite low_word. change 0xff with (Z.ones 8).
  by rewrite Z.land_ones.
Qed.

Lemma toBytes_ok b :
  length b = MCL_NLEN -> Forall digit b -> MCL_BIG_toBytes b = reverse (le_split MB (val b)).
Proof.
  intros Hl Hd. pose proof words_2. unfold MCL_BIG_toBytes, MCL_BIG_norm. cbn [fst].
  rewrite norm_loop_digits by (done || lia). apply toBytes_loop_ok; [|done].
  apply digits_normal; [done|]. intros ->. cbn in Hl. lia.
Qed.

(** ** Arrays of rows *)

Lemma fromOctet_rows n : forall R x w,
  length w = (n * MB)%nat -> bytes_ok w ->
  (forall i, (i < n)%nat -> row R (x + i) = MCL_BIG_fromBytes (drop ((n - i - 1) * MB) w)) ->
  (forall i, (i < n)%nat -> wide 0 (row R (x + i))) /\ ffval R x n = be w.
Proof.
  induction n as [|n IH]; intros R x w Hl Hw Hrow.
  { split; [lia|]. by destruct w. }
  set (w' := take (n * MB) w). assert (length w' = (n * MB)%nat) as Hl' by (unfold w'; rewrite length_take; lia).
  assert (length (drop (n * MB) w) = MB) as Hld by (rewrite length_drop; lia).
  destruct (fromBytes_ok (drop (n * MB) w)) as [W0 V0]; [by apply Forall_drop|done|].
  pose proof (Hrow 0%nat ltac:(lia)) as E0. rewrite Nat.add_0_r in E0.
  replace (S n - 0 - 1)%nat with n in E0 by lia.
  destruct (IH R (S x) w') as [Wr Vr]; [done|by apply Forall_take| |].
  { intros i Hi. rewrite Nat.add_succ_comm, Hrow by lia.
    replace (S n - S i - 1)%nat with (n - i - 1)%nat by lia. unfold MCL_BIG_fromBytes. f_equal.
    unfold w'. rewrite !take_drop_commute, take_take, Nat.min_l; [done|].
    assert (((n - i - 1) + 1) * MB <= n * MB)%nat by (apply Nat.mul_le_mono_r; lia). lia. }
  rewrite ffval_S, Vr, E0, V0. split.
  - intros [|i] Hi; [by rewrite Nat.add_0_r, E0|]. rewrite Nat.add_succ_r. apply Wr. lia.
  - transitivity (be (w' ++ drop (n * MB) w)); [|unfold w'; by rewrite take_drop].
    rewrite be_app, Hld, MB_bits. ring.
Qed.

Lemma fromOctet_ok R x w n :
  (1 <= n)%nat -> (x + n <= length R)%nat -> length w = (n * MB)%nat -> bytes_ok w ->
  let R' := MCL_FF_fromOctet R x w n in
  length R' = length R /\ canon 0 R' x n /\ ffval R' x n = be w /\
  forall j, ~ (x <= j < x + n)%nat -> row R' j = row R j.
Proof.
  intros Hn Hx Hl Hw. unfold MCL_FF_fromOctet.
  destruct (rows_loop_put (λ i _, MCL_BIG_fromBytes (drop ((n - i - 1) * MB) w)) x R n) as (L & E & F);
    [done|done|].
  set (R' := rows_loop _ _ _) in *. destruct (fromOctet_rows n R' x w Hl Hw E) as [Wr V].
  split_and!; [done|by apply canon_0|done|done].
Qed.

Lemma toOctet_ok n : forall R x,
  (forall i, (i + 1 < n)%nat -> wide 0 (row R (x + i))) -> rows_in digit R x n ->
  MCL_FF_toOctet R x n = reverse (le_split (n * MB) (ffval R x n)).
Proof.
  unfold MCL_FF_toOctet. induction n as [|n IH]; intros R x Hw Hd; [done|].
  cbn [seq]. rewrite <- seq_shift, fmap_cons, <- list_fmap_compose. cbn [concat].
  replace (S n - 0 - 1)%nat with n by lia. destruct (Hd n ltac:(lia)). rewrite toBytes_ok by done.
  transitivity (reverse (le_split MB (val (row R (x + n)))) ++ reverse (le_split (n * MB) (ffval R x n))).
  { f_equal. rewrite <- IH; [done|intros; apply Hw; lia|intros i Hi; apply Hd; lia]. }
  rewrite <- reverse_app. f_equal. replace (S n) with (n + 1)%nat by lia.
  replace ((n + 1) * MB)%nat with (n * MB + MB)%nat by lia.
  rewrite ffval_split. cbn [ffval]. rewrite Z.mul_0_r, Z.add_0_r.
  assert (P ^ Z.of_nat n = 2 ^ (8 * Z.of_nat (n * MB))) as ->.
  { rewrite MB_bits, <- Z.pow_mul_r by lia. f_equal. lia. }
  rewrite le_split_add, le_split_mod. f_equal. f_equal.
  assert (0 <= ffval R x n < 2 ^ (8 * Z.of_nat (n * MB))) as Hb.
  { destruct n as [|n]; [cbn [ffval]; split; [lia|by apply Z.pow_pos_nonneg; lia]|].
    assert (canon 0 R x (S n)) as Hc by (apply canon_0; [lia|]; intros; apply Hw; lia).
    pose proof (canon_bound 0 R x (S n) ltac:(lia) ltac:(lia) Hc) as B.
    rewrite Z.pow_0_r, Z.mul_1_l, MB_bits, <- Z.pow_mul_r in B by lia.
    by replace (8 * Z.of_nat MB * Z.of_nat (S n)) with (8 * Z.of_nat (S n * MB)) in B by lia. }
  rewrite Z.mul_comm, Z.div_add, Z.div_small by lia. lia.
Qed.

(** ** Multiplication *)

Lemma row_app_l R R' i : (i < length R)%nat -> row (R ++ R') i = row R i.
Proof. intros. unfold row. by rewrite lookup_app_l. Qed.

Lemma row_app_r R R' n i : length R = n -> row (R ++ R') (n + i) = row R' i.
Proof. intros <-. unfold row. rewrite lookup_app_r by lia. do 2 f_equal. lia. Qed.

Lemma row_take R n i : (i < n)%nat -> row (take n R) i = row R i.
Proof. intros. unfold row. by rewrite lookup_take_lt. Qed.

(** Arrays of [2^k] canonical rows are multiplied. *)
Lemma mul_ok e k x y :
  0 <= e -> 2 * (e + Z.of_nat k) <= MCL_BASEBITS - P_TBITS -> let n := (2 ^ k)%nat in
  length x = n -> length y = n -> canon e x 0 n -> canon e y 0 n ->
  exists z, MCL_FF_mul x y n = Some z /\ canon (2 * e) z 0 (2 * n) /\
    ffval z 0 (2 * n) = ffval x 0 n * ffval y 0 n.
Proof.
  intros He Hr n Lx Ly Cx Cy. unfold MCL_FF_mul. fold n.
  assert (1 <= n)%nat as Hn by (unfold n; apply Nat.neq_0_lt_0, Nat.pow_nonzero; lia).
  set (R := _ ++ x ++ _).
  assert (forall i, (i < n)%nat -> row R (2 * n + i) = row x (0 + i)) as Ex.
  { intros i Hi. unfold R. rewrite row_app_r by apply length_replicate. by rewrite row_app_l by lia. }
  assert (forall i, (i < n)%nat -> row R (2 * n + n + i) = row y (0 + i)) as Ey.
  { intros i Hi. unfold R. rewrite <- Nat.add_assoc, row_app_r by apply length_replicate.
    rewrite row_app_r by done. by rewrite row_app_l by lia. }
  destruct (karmul_ok k n R 0 (2 * n) (2 * n + n) (2 * n + n + n) e) as (R' & E & V & C & _).
  - unfold n. apply Nat.pow_gt_lin_r. lia.
  - done.
  - fold n. split; unfold apart, R; rewrite ?length_app, ?length_replicate; try lia.
    + by apply (canon_ext e x _ 0).
    + by apply (canon_ext e y _ 0).
  - fold n in E, V, C. rewrite E. eexists. split; [reflexivity|].
    replace (n + n)%nat with (2 * n)%nat in C, V by lia. split.
    + apply (canon_ext _ R' _ 0); [lia|by intros; apply row_take; lia|done].
    + rewrite (ffval_ext R' _ _ 0 0), V by (by intros; apply row_take; lia).
      f_equal; by apply ffval_ext.
Qed.

(** ** Increment *)

Lemma inc_ok R x m n :
  (1 <= n)%nat -> (x + n <= length R)%nat -> 0 <= m <= W -> 1 <= MCL_BASEBITS - P_TBITS ->
  canon 0 R x n ->
  let R' := MCL_FF_inc R x m n in
  length R' = length R /\ canon 1 R' x n /\ ffval R' x n = ffval R x n + m /\
  forall j, ~ (x <= j < x + n)%nat -> row R' j = row R j.
Proof.
  intros Hn Hx Hm Hr Hc. pose proof words_2. pose proof P_pos.
  destruct (canon_row 0 R x n 0) as [L0 D0]; [lia|lia|done|]. rewrite Nat.add_0_r in L0, D0.
  unfold MCL_FF_inc, MCL_BIG_inc, MCL_BIG_norm, MCL_FF_norm, FF_rnorm. cbn [fst].
  rewrite norm_loop_digits, Zabs2Nat.id, (proj2 (Z.ltb_ge _ _)) by (done || lia).
  destruct (add_low_row (row R x) m) as (Va & La & Fa);
    [done|eapply Forall_impl; [exact D0|apply digit_slack]|lia|].
  destruct n as [|n]; [lia|]. set (R1 := put x _ R).
  assert (row R1 x = add_low m (row R x)) as E0 by (apply row_put; lia).
  assert (forall j, j <> x -> row R1 j = row R j) as Eo by (intros; by apply row_put_ne).
  pose proof (canon_bound 0 R x (S n) ltac:(lia) ltac:(lia) Hc) as Vc. rewrite Z.pow_0_r, Z.mul_1_l in Vc.
  assert (ffval R1 x (S n) = ffval R x (S n) + m) as V1.
  { rewrite !ffval_S, E0, Va, (ffval_ext R R1 n (S x) (S x)) by (intros; apply Eo; lia). lia. }
  destruct (rnorm_ok 1 n R1 x) as (L & V & C & F).
  - lia.
  - unfold R1. rewrite length_put. lia.
  - intros [|i] Hi; [by rewrite Nat.add_0_r, E0|]. rewrite Eo by lia.
    apply (canon_row 0 R x (S n)); [lia|lia|done].
  - by rewrite E0.
  - intros i Hi. rewrite Eo by lia. destruct (canon_row 0 R x (S n) i) as [_ D]; [lia|lia|done|].
    eapply Forall_impl; [exact D|apply digit_slack].
  - rewrite V1. change (2 ^ 1) with 2. assert (W <= P ^ Z.of_nat (S n)); [|lia].
    rewrite Nat2Z.inj_succ, Z.pow_succ_r by lia.
    assert (0 < P ^ Z.of_nat n) by (apply Z.pow_pos_nonneg; lia).
    assert (W <= P); [|nia]. apply Z.pow_le_mono_r; [lia|]. rewrite bits_top. pose proof tbits_range.
    pose proof base_8. nia.
  - split_and!; [|done|lia|].
    + rewrite L. apply length_put.
    + intros j Hj. rewrite F, Eo by lia. done.
Qed.

(** ** Octets in, octets out *)

(** An array read from octets. *)
Definition of_octet (w : list Z) (n : nat) : list (list Z) :=
  MCL_FF_fromOctet (replicate n MCL_BIG_zero) 0 w n.

Lemma of_octet_ok w n :
  (1 <= n)%nat -> length w = (n * MB)%nat -> bytes_ok w ->
  length (of_octet w n) = n /\ canon 0 (of_octet w n) 0 n /\ ffval (of_octet w n) 0 n = be w.
Proof.
  intros Hn Hl Hw. destruct (fromOctet_ok (replicate n MCL_BIG_zero) 0 w n) as (L & C & V & _);
    [done|by rewrite length_replicate|done..|]. by rewrite length_replicate in L.
Qed.

Lemma canon_octet e R n : 0 <= e -> canon e R 0 n ->
  MCL_FF_toOctet R 0 n = reverse (le_split (n * MB) (ffval R 0 n)).
Proof. intros He Hc. apply toOctet_ok; [intros; by apply Hc|by apply (canon_rows e)]. Qed.

(** Octets survive the conversion to words of [MCL_BASEBITS] bits and back:
    [MCL_FF_toOctet] after [MCL_FF_fromOctet] is the identity on byte strings of
    full length. *)
Theorem octet_roundtrip w n :
  (1 <= n)%nat -> length w = (n * MB)%nat -> bytes_ok w ->
  MCL_FF_toOctet (MCL_FF_fromOctet (replicate n MCL_BIG_zero) 0 w n) 0 n = w.
Proof.
  intros Hn Hl Hw. destruct (of_octet_ok w n Hn Hl Hw) as (_ & C & V). fold (of_octet w n).
  assert (be w = le_combine (reverse w)) as E by (by rewrite <- be_reverse, reverse_involutive).
  rewrite (canon_octet 0), V, <- Hl, E, <- (length_reverse w) by done.
  rewrite le_split_combine by (by apply Forall_reverse). apply reverse_involutive.
Qed.

(** [C11] In a configuration whose words have four spare bits and whose carries
    between rows fit a digit ([MclFFOk], as the configuration for the 448-bit
    curve, the one the boot ROM multiplies with, but not the 32-bit one for the
    25519 curve), and for [2^k] rows with two spare bits of a row per level of
    the recursion ([2k <= MCL_BASEBITS - P_TBITS]), the Karatsuba multiplication
    ends and, whatever the operands, returns all octets of their product: no column
    of [MCL_BIG_mul] overflows the double word, and no carry between words or
    rows is lost. *)
Theorem karatsuba_correct k w v :
  let n := (2 ^ k)%nat in
  2 * Z.of_nat k <= MCL_BASEBITS - P_TBITS ->
  length w = (n * MB)%nat -> length v = (n * MB)%nat -> bytes_ok w -> bytes_ok v ->
  exists z,
    MCL_FF_mul (MCL_FF_fromOctet (replicate n MCL_BIG_zero) 0 w n)
               (MCL_FF_fromOctet (replicate n MCL_BIG_zero) 0 v n) n = Some z /\
    MCL_FF_toOctet z 0 (2 * n) = reverse (le_split (2 * n * MB) (be w * be v)).
Proof.
  intros n Hk Lw Lv Bw Bv.
  assert (1 <= n)%nat as Hn by (unfold n; apply Nat.neq_0_lt_0, Nat.pow_nonzero; lia).
  destruct (of_octet_ok w n Hn Lw Bw) as (Lx & Cx & Vx), (of_octet_ok v n Hn Lv Bv) as (Ly & Cy & Vy).
  destruct (mul_ok 0 k (of_octet w n) (of_octet v n)) as (z & E & C & V); [lia|lia|done..|].
  exists z. split; [exact E|]. fold n in V, C. rewrite (canon_octet (2 * 0)), V, Vx, Vy by done. done.
Qed.
End octet.

(** Two thousand bits of ones, in four rows of 56 bytes. *)
Definition octet_ones : list Z := replicate 224 0xff.

Lemma octet_roundtrip_witness :
  length octet_ones = (4 * Z.to_nat (@MCL_MODBYTES C448))%nat /\
  @MCL_FF_toOctet C448 (@MCL_FF_fromOctet C448 (replicate 4 (@MCL_BIG_zero C448)) 0 octet_ones 4) 0 4 = octet_ones.
Proof.
  split; [reflexivity|]. apply (@octet_roundtrip C448 _ octet_ones 4).
  - apply Nat.leb_le. reflexivity.
  - reflexivity.
  - apply (Forall_replicate is_u8 224 0xff). split; [discriminate|reflexivity].
Defined.

Lemma karatsuba_correct_witness :
  exists z,
    @MCL_FF_mul C448 (@MCL_FF_fromOctet C448 (replicate 4 (@MCL_BIG_zero C448)) 0 octet_ones 4)
      (@MCL_FF_fromOctet C448 (replicate 4 (@MCL_BIG_zero C448)) 0 octet_ones 4) 4 = Some z /\
    @MCL_FF_toOctet C448 z 0 8 = reverse (le_split 448 (be octet_ones * be octet_ones)).
Proof.
  apply (@karatsuba_correct C448 _ _ 2 octet_ones octet_ones).
  - vm_compute. discriminate.
  - reflexivity.
  - reflexivity.
  - apply (Forall_replicate is_u8 224 0xff). split; [discriminate|reflexivity].
  - apply (Forall_replicate is_u8 224 0xff). split; [discriminate|reflexivity].
Defined.
