(* ===== verification/MclMod.v ===== *)
(** * MclMod: division, modular arithmetic and the remaining operations of single
      numbers (common/vendors/MIRACL/ara/src/lib/mcl_big.c)

    Division shifts the divisor up until it exceeds the dividend and then comes
    back down one bit at a time, subtracting where it fits.  The loops whose number
    of rounds depends on the numbers take fuel; [None] means that it ran out.
    Arguments that a routine changes in place are part of its result. *)

From S2P Require Import Prelude Sha256 MclBig.

Section modular.
Context `{MclConfig}.
Implicit Types a b c e m p r u v x : list Z.
Abbreviation at_ := Sha256.at_.

(** A shift by one bit changes a number by at most its bits, so this many rounds
    take the divisor past any dividend. *)
Definition div_fuel : nat := (Z.to_nat MCL_CHUNK * DMCL_NLEN)%nat.

Definition MCL_BIG_copy a : list Z := take MCL_NLEN a.
Definition MCL_BIG_dcopy a : list Z := take DMCL_NLEN a.
Definition MCL_BIG_rcopy a : list Z := take MCL_NLEN a.
Definition MCL_BIG_diszilch a : bool := forallb (Z.eqb 0) a.

(** ** Bits *)

(** The sign of C's remainder is that of the dividend. *)
Definition MCL_BIG_parity a : Z := Z.rem (at_ a 0) 2.
Definition MCL_BIG_bit a (n : Z) : Z :=
  if Z.land (at_ a (Z.to_nat (n / MCL_BASEBITS))) (mcl_chunk (Z.shiftl 1 (n mod MCL_BASEBITS))) =? 0
  then 0 else 1.
Definition MCL_BIG_lastbits a (n : Z) : Z * list Z :=
  let a := fst (MCL_BIG_norm a) in (Z.land (at_ a 0) (Z.shiftl 1 n - 1), a).

(** [while (a[k]==0) k--;] from the [n]-th word down: the first word that is not 0. *)
Fixpoint top_word (n : nat) a : option nat :=
  match n with
  | O => None
  | S k => if at_ a k =? 0 then top_word k a else Some k
  end.
(** [while (c!=0) {c/=2; bts++;}]: a word is 0 after as many halvings as it has bits. *)
Fixpoint count_halvings (fuel : nat) (c bts : Z) : Z :=
  match fuel with
  | O => bts
  | S fuel => if c =? 0 then bts else count_halvings fuel (Z.quot c 2) (bts + 1)
  end.
Definition word_bits a (k : nat) : Z :=
  count_halvings (Z.to_nat MCL_CHUNK) (at_ a k) (MCL_BASEBITS * Z.of_nat k).
Definition MCL_BIG_nbits a : Z * list Z :=
  let a := fst (MCL_BIG_norm a) in
  (match top_word MCL_NLEN a with None => 0 | Some k => word_bits a k end, a).
(** The double-length version tests the word before the index, so for zero it reads
    in front of the array: no result. *)
Definition MCL_BIG_dnbits a : option Z * list Z :=
  let a := MCL_BIG_dnorm a in (word_bits a <$> top_word DMCL_NLEN a, a).

(** ** Products with a small factor, and of single length *)

(** [MCL_muladd] over the words of [a], each into a fresh word. *)
Fixpoint muladd_words a (c carry : Z) : list Z * Z :=
  match a with
  | [] => ([], carry)
  | ak :: a => let '(r, carry) := MCL_muladd ak c carry 0 in
               let '(rs, carry) := muladd_words a c carry in (r :: rs, carry)
  end.
Definition MCL_BIG_pmul a (c : Z) : (list Z * Z) * list Z :=
  let a := fst (MCL_BIG_norm a) in (muladd_words a (mcl_chunk c) 0, a).
Definition MCL_BIG_pxmul a (b : Z) : list Z :=
  let '(r, carry) := muladd_words a (mcl_chunk b) 0 in
  r ++ carry :: replicate (DMCL_NLEN - MCL_NLEN - 1) 0.

(** From the top word down; quotient and remainder round towards zero. *)
Fixpoint div3_loop (n : nat) r (carry : Z) : list Z * Z :=
  match n with
  | O => (r, carry)
  | S i => let ak := mcl_chunk (carry * mcl_chunk (Z.shiftl 1 MCL_BASEBITS) + at_ r i) in
           div3_loop i (<[i := Z.quot ak 3]> r) (Z.rem ak 3)
  end.
Definition MCL_BIG_div3 r : list Z * Z := div3_loop MCL_NLEN (fst (MCL_BIG_norm r)) 0.

(** Row [i] of the schoolbook product; what lies above the number is dropped. *)
Fixpoint smul_row (n : nat) (ai : Z) b (i j : nat) (carry : Z) c : list Z :=
  match n with
  | O => c
  | S n =>
      if (i + j <? MCL_NLEN)%nat then
        let '(w, carry) := MCL_muladd ai (at_ b j) carry (at_ c (i + j)) in
        smul_row n ai b i (j + 1) carry (<[(i + j)%nat := w]> c)
      else smul_row n ai b i (j + 1) carry c
  end.
Definition MCL_BIG_smul a b : list Z * (list Z * list Z) :=
  let a := fst (MCL_BIG_norm a) in
  let b := fst (MCL_BIG_norm b) in
  (foldl (λ c i, smul_row MCL_NLEN (at_ a i) b i 0 0 c) MCL_BIG_zero (seq 0 MCL_NLEN), (a, b)).

(** ** Squaring *)

(** The products above the diagonal of column [j], from row [lo] on. *)
Definition sqr_half a (lo j : nat) : Z :=
  foldl (λ t i, mcl_dchunk (t + at_ a (j - i) * at_ a i))
    (mcl_dchunk (at_ a (j - lo) * at_ a lo)) (seq (S lo) ((j + 1) / 2 - S lo)).
(** Twice those products, the carry, and the square in an even column.  The two
    columns at the ends have only the square. *)
Definition sqr_column a (co : Z) (j : nat) : Z :=
  if (j =? 0)%nat then mcl_dchunk (at_ a 0 * at_ a 0)
  else if (j =? DMCL_NLEN - 2)%nat then mcl_dchunk (at_ a (MCL_NLEN - 1) * at_ a (MCL_NLEN - 1) + co)
  else
    let t := sqr_half a (if (j <? MCL_NLEN)%nat then 0 else j - MCL_NLEN + 1) j in
    let t := mcl_dchunk (t + t) in
    let t := mcl_dchunk (t + co) in
    if Nat.even j then mcl_dchunk (t + at_ a (j / 2) * at_ a (j / 2)) else t.
Fixpoint sqr_columns (n : nat) a (co : Z) (j : nat) : list Z :=
  match n with
  | O => [mcl_chunk co]
  | S n =>
      let t := sqr_column a co j in
      Z.land (mcl_chunk t) BMASK :: sqr_columns n a (Z.shiftr t MCL_BASEBITS) (j + 1)
  end.
Definition MCL_BIG_sqr a : list Z * list Z :=
  let a := fst (MCL_BIG_norm a) in (sqr_columns (DMCL_NLEN - 1) a 0 0, a).
End modular.

(** ** Division

    The routines for single and for double-length numbers differ in the functions
    they call. *)
Class Width := {
  w_comp : list Z -> list Z -> Z;
  w_shl1 : list Z -> list Z;
  w_shr1 : list Z -> list Z;
  w_sub : list Z -> list Z -> list Z;
  w_norm : list Z -> list Z
}.

Section division.
Context `{MclConfig, Width}.
Implicit Types a b c e m : list Z.

(** [while (comp(b,c)>=0) { c<<=1; k++; }] *)
Fixpoint up_loop (fuel : nat) b c (k : nat) : option (list Z * nat) :=
  match fuel with
  | O => None
  | S fuel => if 0 <=? w_comp b c then up_loop fuel b (w_shl1 c) (S k) else Some (c, k)
  end.

(** [while (k>0) { c>>=1; if (comp(b,c)>=0) { b-=c; norm(b); } k--; }] *)
Fixpoint down_loop (k : nat) b c : list Z * list Z :=
  match k with
  | O => (b, c)
  | S k => let c := w_shr1 c in
           if 0 <=? w_comp b c then down_loop k (w_norm (w_sub b c)) c else down_loop k b c
  end.

(** The body of both reductions: the remainder and the divisor.  The first round
    of the [do] loop is taken without a test. *)
Definition reduce b c : option (list Z * list Z) :=
  if w_comp b c <? 0 then Some (b, c)
  else '(c, k) ← up_loop div_fuel b (w_shl1 c) 1; Some (down_loop k b c).

(** Division keeps a power of two [e] in step with the divisor and adds it to the
    quotient [a] where the divisor fits. *)
Fixpoint div_up (fuel : nat) b m e (k : nat) : option (list Z * list Z * nat) :=
  match fuel with
  | O => None
  | S fuel => if 0 <=? w_comp b m then div_up fuel b (w_shl1 m) (fst (MCL_BIG_fshl e 1)) (S k)
              else Some (m, e, k)
  end.
Fixpoint div_down (k : nat) a b m e : list Z * list Z :=
  match k with
  | O => (a, b)
  | S k =>
      let m := w_shr1 m in
      let e := fst (MCL_BIG_fshr e 1) in
      if 0 <=? w_comp b m
      then div_down k (fst (MCL_BIG_norm (MCL_BIG_add a e))) (w_norm (w_sub b m)) m e
      else div_down k a b m e
  end.
(** The quotient and what is left of [b]. *)
Definition divide b m : option (list Z * list Z) :=
  '(m, e, k) ← div_up div_fuel b m (MCL_BIG_inc MCL_BIG_zero 1) 0;
  Some (div_down k MCL_BIG_zero b m e).
End division.

Section modular2.
Context `{MclConfig}.
Implicit Types a b c e m p r u v x : list Z.
Abbreviation at_ := Sha256.at_.

#[export] Instance single_width : Width := {
  w_comp := MCL_BIG_comp;
  w_shl1 c := fst (MCL_BIG_fshl c 1);
  w_shr1 c := fst (MCL_BIG_fshr c 1);
  w_sub := MCL_BIG_sub;
  w_norm b := fst (MCL_BIG_norm b)
}.
Definition double_width : Width := {|
  w_comp := MCL_BIG_dcomp;
  w_shl1 c := MCL_BIG_dshl c 1;
  w_shr1 c := MCL_BIG_dshr c 1;
  w_sub := MCL_BIG_dsub;
  w_norm := MCL_BIG_dnorm
|}.

(** The remainder, and the modulus after it has been shifted there and back. *)
Definition MCL_BIG_mod b c : option (list Z * list Z) := reduce (fst (MCL_BIG_norm b)) c.
Definition MCL_BIG_dmod b c : option (list Z) :=
  '(b, _) ← @reduce _ double_width (MCL_BIG_dnorm b) (MCL_BIG_dscopy c);
  Some (MCL_BIG_sdcopy b).
Definition MCL_BIG_ddiv b c : option (list Z) :=
  '(a, _) ← @divide _ double_width (MCL_BIG_dnorm b) (MCL_BIG_dscopy c); Some a.
Definition MCL_BIG_sdiv a c : option (list Z) :=
  '(a, _) ← divide (MCL_BIG_copy (fst (MCL_BIG_norm a))) (MCL_BIG_copy c); Some a.

(** ** Modular arithmetic: the result and the arguments *)
Definition MCL_BIG_modmul a b m : option (list Z * (list Z * list Z * list Z)) :=
  '(a, m) ← MCL_BIG_mod a m;
  '(b, m) ← MCL_BIG_mod b m;
  let '(d, (a, b)) := MCL_BIG_mul a b in
  r ← MCL_BIG_dmod d m;
  Some (r, (a, b, m)).
Definition MCL_BIG_modsqr a m : option (list Z * (list Z * list Z)) :=
  '(a, m) ← MCL_BIG_mod a m;
  let '(d, a) := MCL_BIG_sqr a in
  r ← MCL_BIG_dmod d m;
  Some (r, (a, m)).
Definition MCL_BIG_modneg a m : option (list Z * (list Z * list Z)) :=
  '(a, m) ← MCL_BIG_mod a m;
  Some (MCL_BIG_sub m a, (a, m)).

(** [while (parity(u)==0) { u>>=1; if (parity(x)!=0) { x+=p; norm(x); } x>>=1; }] *)
Fixpoint halve_loop (fuel : nat) p u x : option (list Z * list Z) :=
  match fuel with
  | O => None
  | S fuel =>
      if MCL_BIG_parity u =? 0 then
        let u := MCL_BIG_shr u 1 in
        let x := if negb (MCL_BIG_parity x =? 0) then fst (MCL_BIG_norm (MCL_BIG_add p x)) else x in
        halve_loop fuel p u (MCL_BIG_shr x 1)
      else Some (u, x)
  end.
(** [x1-x2], or [x1+(p-x2)] if that would be negative. *)
Definition sub_mod p x y : list Z :=
  fst (MCL_BIG_norm (if 0 <=? MCL_BIG_comp x y then MCL_BIG_sub x y
                     else MCL_BIG_add x (MCL_BIG_sub p y))).
Fixpoint inv_loop (fuel : nat) p u v x1 x2 : option (list Z) :=
  match fuel with
  | O => None
  | S fuel =>
      if negb (MCL_BIG_comp u MCL_BIG_one =? 0) && negb (MCL_BIG_comp v MCL_BIG_one =? 0) then
        '(u, x1) ← halve_loop div_fuel p u x1;
        '(v, x2) ← halve_loop div_fuel p v x2;
        if 0 <=? MCL_BIG_comp u v
        then inv_loop fuel p (fst (MCL_BIG_norm (MCL_BIG_sub u v))) v (sub_mod p x1 x2) x2
        else inv_loop fuel p u (fst (MCL_BIG_norm (MCL_BIG_sub v u))) x1 (sub_mod p x2 x1)
      else Some (if MCL_BIG_comp u MCL_BIG_one =? 0 then MCL_BIG_copy x1 else MCL_BIG_copy x2)
  end.
Definition MCL_BIG_invmodp a p : option (list Z * (list Z * list Z)) :=
  '(a, p) ← MCL_BIG_mod a p;
  r ← inv_loop (2 * div_fuel) p (MCL_BIG_copy a) (MCL_BIG_copy p) (MCL_BIG_copy MCL_BIG_one) MCL_BIG_zero;
  Some (r, (a, p)).

Definition MCL_BIG_moddiv a b m : option (list Z * (list Z * list Z * list Z)) :=
  '(a, m) ← MCL_BIG_mod a m;
  '(z, (b, m)) ← MCL_BIG_invmodp b m;
  let '(d, (a, _)) := MCL_BIG_mul a z in
  r ← MCL_BIG_dmod d m;
  Some (r, (a, b, m)).

(** ** The Jacobi symbol *)

(** [while (parity(x)==0) { k++; x>>=1; }] *)
Fixpoint strip_loop (fuel : nat) x (k : Z) : option (list Z * Z) :=
  match fuel with
  | O => None
  | S fuel => if MCL_BIG_parity x =? 0 then strip_loop fuel (MCL_BIG_shr x 1) (k + 1) else Some (x, k)
  end.
Fixpoint jacobi_loop (fuel : nat) x n (m : Z) : option Z :=
  match fuel with
  | O => None
  | S fuel =>
      if 0 <? MCL_BIG_comp n MCL_BIG_one then
        if MCL_BIG_comp x MCL_BIG_zero =? 0 then Some 0
        else
          let '(n8, n) := MCL_BIG_lastbits n 3 in
          '(x, k) ← strip_loop div_fuel x 0;
          let m := if Z.rem k 2 =? 1 then m + Z.quot (n8 * n8 - 1) 8 else m in
          let '(x4, x) := MCL_BIG_lastbits x 2 in
          let m := m + Z.quot ((n8 - 1) * (x4 - 1)) 4 in
          '(t, x) ← MCL_BIG_mod (MCL_BIG_copy n) x;
          jacobi_loop fuel (MCL_BIG_copy t) (MCL_BIG_copy x) (Z.rem m 2)
      else Some (if m =? 0 then 1 else -1)
  end.
Definition MCL_BIG_jacobi a p : option Z :=
  if (MCL_BIG_parity p =? 0) || (MCL_BIG_comp a MCL_BIG_zero =? 0) || (MCL_BIG_comp p MCL_BIG_one <=? 0)
  then Some 0
  else
    let a := fst (MCL_BIG_norm a) in
    '(x, p') ← MCL_BIG_mod (MCL_BIG_copy a) p;
    jacobi_loop (2 * div_fuel) x (MCL_BIG_copy p) 0.

(** ** Signed digits of the scalar multiplication *)

(** [for (j=i-1;j>0;j--)]: the window [r] grows by one signed bit a round, until it
    exceeds 5.  The result has the last bit, the bits read and the index. *)
Fixpoint naf_loop (j : nat) x x3 (r nb nbs : Z) : Z * Z * Z * nat :=
  match j with
  | O => (r, nb, nbs, O)
  | S j' =>
      let nb := MCL_BIG_bit x3 (Z.of_nat j) - MCL_BIG_bit x (Z.of_nat j) in
      let r := r * 2 + (if 0 <? nb then 1 else 0) - (if nb <? 0 then 1 else 0) in
      if 5 <? Z.abs r then (r, nb, nbs + 1, j) else naf_loop j' x x3 r nb (nbs + 1)
  end.
(** [while (r%2==0) { r/=2; nzs++; nbs--; }] for [r] other than 0. *)
Fixpoint naf_zeros (fuel : nat) (r nbs nzs : Z) : Z * Z * Z :=
  match fuel with
  | O => (r, nbs, nzs)
  | S fuel => if Z.rem r 2 =? 0 then naf_zeros fuel (Z.quot r 2) (nbs - 1) (nzs + 1) else (r, nbs, nzs)
  end.
(** The digit, the bits it stands for and the zeros after them. *)
Definition MCL_BIG_nafbits x x3 (i : nat) : Z * Z * Z :=
  let nb := MCL_BIG_bit x3 (Z.of_nat i) - MCL_BIG_bit x (Z.of_nat i) in
  if nb =? 0 then (0, 1, 0)
  else if (i =? 0)%nat then (nb, 1, 0)
  else
    let '(r, nb, nbs, j) := naf_loop (i - 1) x x3 (if 0 <? nb then 1 else -1) nb 1 in
    let '(r, nbs) :=
      if negb (Z.rem r 2 =? 0) && negb (j =? 0)%nat then
        ((if 0 <? nb then Z.quot (r - 1) 2 else if nb <? 0 then Z.quot (r + 1) 2 else r), nbs - 1)
      else (r, nbs) in
    naf_zeros (Z.to_nat (Z.abs r)) r nbs 0.
End modular2.
