(* ===== verification/MclModSpec.v ===== *)
(** * MclModSpec: what division and modular arithmetic of single numbers compute

    [num n a v]: the [n] words of [a] are the number [v >= 0], in normal form and
    within the word range.  The laws of comparison, shifts and subtraction in terms
    of [num] are a class over the two widths; the loops are proved against it. *)

From S2P Require Import Prelude Sha256 Sha256Spec MclBig MclBigSpec MclMul MclMod.

Section num.
Context `{MclConfigOk}.
Implicit Types a b c d : list Z.
Abbreviation W := (2 ^ MCL_BASEBITS).
Abbreviation at_ := Sha256.at_.

(** What [n] words hold when the last one uses all bits but the sign. *)
Definition lim (n : nat) : Z := W ^ Z.of_nat (n - 1) * 2 ^ (MCL_CHUNK - 1).

Record num (n : nat) a (v : Z) : Prop := {
  num_length : length a = n;
  num_normal : normal a;
  num_val : val a = v;
  num_range : 0 <= v < lim n
}.

Lemma num_inj n a b v : num n a v -> num n b v -> a = b.
Proof. intros [La Na Va _] [Lb Nb Vb _]. apply normal_inj; congruence. Qed.

Lemma num_top n a v : num n a v ->
  exists lo top, a = lo ++ [top] /\ Forall digit lo /\ length lo = (n - 1)%nat /\
    0 <= top < 2 ^ (MCL_CHUNK - 1) /\ v = val lo + W ^ Z.of_nat (n - 1) * top.
Proof.
  intros [Hl (lo & top & -> & Hlo) Hv Hr]. rewrite length_app in Hl. cbn [length] in Hl.
  assert (length lo = (n - 1)%nat) as El by lia. exists lo, top.
  assert (0 <= top < 2 ^ (MCL_CHUNK - 1)).
  { apply (top_bounds lo top); [done|]. unfold lim in Hr. rewrite Hv, El. lia. }
  split_and!; try done; try lia. rewrite val_app in Hv. cbn [val] in Hv. rewrite El in Hv. lia.
Qed.

Lemma WP_pos k : 0 < W ^ Z.of_nat k.
Proof. apply Z.pow_pos_nonneg; [apply W_pos|lia]. Qed.

(** Numbers below half the limit have a word range to spare. *)
Lemma num_loose n a v : num n a v -> 2 * v < lim n -> Forall loose a.
Proof.
  intros Hn Hv. destruct (num_top n a v Hn) as (lo & top & -> & Hlo & Hl & Ht & E).
  apply Forall_app_2; [eapply Forall_impl; [exact Hlo|apply digit_loose]|].
  constructor; [|done]. unfold lim in Hv. rewrite word_half in *.
  pose proof (val_digits lo Hlo). pose proof (WP_pos (n - 1)). unfold loose. nia.
Qed.

(** Numbers of digits. *)
Lemma lim_room n : 4 * W ^ Z.of_nat (S n) <= lim (S n).
Proof.
  unfold lim. replace (S n - 1)%nat with n by lia. rewrite Nat2Z.inj_succ, Z.pow_succ_r, word_half by lia.
  pose proof W_half. pose proof (WP_pos n). nia.
Qed.

Lemma digits_num n a : Forall digit a -> length a = S n -> num (S n) a (val a).
Proof.
  intros Ha Hl. pose proof (val_digits a Ha). rewrite Hl in *. pose proof (lim_room n).
  split; [done|apply digits_normal; [done|by intros ->]|done|lia].
Qed.

Lemma num_digits n a v : num n a v -> (0 < n)%nat -> v < W ^ Z.of_nat n -> Forall digit a.
Proof.
  intros Hn Hpos Hv. destruct (num_top n a v Hn) as (lo & top & -> & Hlo & Hl & Ht & E).
  apply Forall_app_2; [done|]. constructor; [|done]. pose proof (val_digits lo Hlo).
  replace n with (S (n - 1)) in Hv by lia. rewrite Nat2Z.inj_succ, Z.pow_succ_r in Hv by lia.
  pose proof (WP_pos (n - 1)). unfold digit. nia.
Qed.

(** ** Comparison *)
Lemma comp_loop_val k a b :
  (k <= length a)%nat -> (k <= length b)%nat ->
  Forall digit (take (pred k) a) -> Forall digit (take (pred k) b) ->
  comp_loop k a b = Z.sgn (val (take k a) - val (take k b)).
Proof.
  induction k as [|k IH]; intros Ha Hb Da Db; [done|]. cbn [pred] in *. cbn [comp_loop].
  destruct (lookup_lt_is_Some_2 a k) as [x Hx]; [lia|]. destruct (lookup_lt_is_Some_2 b k) as [y Hy]; [lia|].
  unfold at_. rewrite Hx, Hy. cbn.
  rewrite (take_S_r a k x Hx), (take_S_r b k y Hy), !val_app, !length_take_le by lia.
  rewrite !val_cons. change (val []) with 0. rewrite !Z.mul_0_r, !Z.add_0_r.
  pose proof (val_digits _ Da) as Va. pose proof (val_digits _ Db) as Vb.
  rewrite length_take_le in Va, Vb by lia.
  destruct (x =? y) eqn:E; [apply Z.eqb_eq in E as ->|apply Z.eqb_neq in E].
  - rewrite IH; [f_equal; lia|lia|lia| |].
    + replace (pred k) with (Nat.min (pred k) k) by lia. rewrite <- take_take. by apply Forall_take.
    + replace (pred k) with (Nat.min (pred k) k) by lia. rewrite <- take_take. by apply Forall_take.
  - destruct (y <? x) eqn:E2; [apply Z.ltb_lt in E2|apply Z.ltb_ge in E2].
    + symmetry. apply Z.sgn_pos. nia.
    + symmetry. apply Z.sgn_neg. nia.
Qed.

Lemma num_low n a v : num n a v -> Forall digit (take (pred n) a).
Proof.
  intros Ha. destruct (num_top _ _ _ Ha) as (lo & top & -> & Hlo & Hl & _).
  by rewrite take_app_length' by lia.
Qed.

Lemma num_comp n a b x y : num n a x -> num n b y -> comp_loop n a b = Z.sgn (x - y).
Proof.
  intros Ha Hb. pose proof (num_length _ _ _ Ha). pose proof (num_length _ _ _ Hb).
  rewrite comp_loop_val by (lia || by eapply num_low).
  by rewrite !take_ge, (num_val _ _ _ Ha), (num_val _ _ _ Hb) by lia.
Qed.

(** ** Shifts by one bit *)
Lemma num_fshl n a v : num n a v -> 2 * v < lim n -> num n (fshl_loop 1 0 a) (2 * v).
Proof.
  intros Hn Hv. destruct (num_top n a v Hn) as (lo & top & E & _ & _ & Ht & _).
  destruct (fshl_loop_val 1 a 0) as (Hval & Hnm & Hl); try apply Hn.
  - pose proof base_8. lia.
  - split; [done|apply W_pos].
  - intros t Hlast. subst a. rewrite last_snoc in Hlast. injection Hlast as <-.
    pose proof (num_loose n _ v Hn Hv) as Hlo. apply Forall_app in Hlo as [_ Hlo].
    apply Forall_cons in Hlo as [[? ?] _]. unfold word. rewrite word_half. lia.
  - rewrite Z.div_0_l, (num_val _ _ _ Hn) in Hval by (apply Z.pow_nonzero; pose proof base_8; lia).
    split; [by rewrite Hl; apply Hn|done|lia|]. pose proof (num_range _ _ _ Hn). lia.
Qed.

Lemma num_fshr n a v : num n a v -> num n (fshr_loop 1 a) (v / 2).
Proof.
  intros Hn. destruct (fshr_loop_val 1 a) as (Hval & Hnm & Hl); [pose proof base_8; lia|apply Hn|].
  rewrite (num_val _ _ _ Hn) in Hval. pose proof (num_range _ _ _ Hn).
  split; [by rewrite Hl; apply Hn|done|done|]. pose proof (Z.div_pos v 2). pose proof (Z.div_le_upper_bound v 2 v). lia.
Qed.

(** Shifting by whole words and bits is the fast shift when there are no whole words. *)
Lemma fshl_loop_words n a : forall prev,
  fshl_loop n prev a = (λ i,
    let low := Z.shiftr (if (i =? 0)%nat then prev else at_ a (i - 1)) (MCL_BASEBITS - n) in
    let x := mcl_chunk (Z.shiftl (at_ a i) n) in
    Z.lor (if (i =? length a - 1)%nat then x else Z.land x BMASK) low) <$> seq 0 (length a).
Proof.
  induction a as [|x [|y a] IH]; intros prev; [done..|].
  change (fshl_loop n prev (x :: y :: a)) with
    (Z.lor (Z.land (mcl_chunk (Z.shiftl x n)) BMASK) (Z.shiftr prev (MCL_BASEBITS - n)) :: fshl_loop n x (y :: a)).
  rewrite IH. change (length (x :: y :: a)) with (S (length (y :: a))).
  cbn [seq]. rewrite <- fmap_S_seq, fmap_cons, <- list_fmap_compose.
  f_equal. apply list_fmap_ext. intros i j Hi. cbn [compose Nat.eqb].
  apply lookup_seq in Hi as [-> Hi]. cbn [Nat.add length]. rewrite !Nat.sub_succ, !Nat.sub_0_r.
  change (at_ (x :: y :: a) (S i)) with (at_ (y :: a) i). cbv iota. f_equal.
  destruct i as [|i]; [done|]. cbn [Nat.eqb]. by rewrite Nat.sub_succ, Nat.sub_0_r.
Qed.

Lemma fshr_loop_words k a :
  fshr_loop k a = (λ i,
    if (i <? length a - 1)%nat
    then Z.lor (Z.shiftr (at_ a i) k) (Z.land (mcl_chunk (Z.shiftl (at_ a (i + 1)) (MCL_BASEBITS - k))) BMASK)
    else Z.shiftr (at_ a i) k) <$> seq 0 (length a).
Proof.
  induction a as [|x [|y a] IH]; [done..|].
  change (fshr_loop k (x :: y :: a)) with
    (Z.lor (Z.shiftr x k) (Z.land (mcl_chunk (Z.shiftl y (MCL_BASEBITS - k))) BMASK) :: fshr_loop k (y :: a)).
  rewrite IH. change (length (x :: y :: a)) with (S (length (y :: a))).
  cbn [seq]. rewrite <- fmap_S_seq, fmap_cons, <- list_fmap_compose. f_equal.
  apply list_fmap_ext. intros i j Hi. apply lookup_seq in Hi as [-> Hi]. cbn [compose].
  change (at_ (x :: y :: a) (S (0 + i))) with (at_ (y :: a) (0 + i)).
  change (at_ (x :: y :: a) (S (0 + i) + 1)) with (at_ (y :: a) (0 + i + 1)).
  cbn [Nat.add length]. rewrite !Nat.sub_succ, !Nat.sub_0_r. done.
Qed.

Lemma shl_words_1 N a : length a = N -> (2 <= N)%nat -> shl_words N a 1 = fshl_loop 1 0 a.
Proof.
  intros <- HN. pose proof base_8. rewrite fshl_loop_words. unfold shl_words.
  rewrite Z.div_small, Z.mod_small by lia. change (Z.to_nat 0) with 0%nat. apply list_fmap_ext.
  intros i j Hi. apply lookup_seq in Hi as [-> Hi]. rewrite !Nat.add_0_l. cbv zeta.
  destruct i as [|i].
  - cbn [Nat.ltb Nat.leb Nat.eqb]. rewrite Z.shiftr_0_l, Z.lor_0_r.
    destruct (length a - 1)%nat eqn:E; [lia|done].
  - rewrite !Nat.sub_0_r. cbn [Nat.ltb Nat.leb Nat.eqb].
    destruct (length a - 1)%nat as [|k]; [done|]. cbn [Nat.eqb]. by destruct (i =? k)%nat.
Qed.

Lemma shr_words_1 N a : length a = N -> shr_words N a 1 = fshr_loop 1 a.
Proof.
  intros <-. pose proof base_8. rewrite fshr_loop_words. unfold shr_words.
  rewrite Z.div_small, Z.mod_small by lia. change (Z.to_nat 0) with 0%nat. apply list_fmap_ext.
  intros i j Hi. apply lookup_seq in Hi as [-> Hi]. rewrite !Nat.add_0_l, !Nat.sub_0_r.
  destruct (Nat.ltb_spec i (length a - 1)); [done|].
  assert (i = length a - 1)%nat as -> by lia. by rewrite Nat.eqb_refl.
Qed.

(** ** Sums and differences, normalised *)
Definition small (x : Z) : Prop := 0 <= x < 2 ^ (MCL_CHUNK - 2).

Lemma digit_small x : digit x -> small x.
Proof. unfold digit, small. pose proof W_half. pose proof W_pos. lia. Qed.

Lemma num_small n a v : num n a v -> 2 * v < lim n -> Forall small a.
Proof.
  intros Hn Hv. pose proof (num_loose n a v Hn Hv) as Hl.
  destruct (num_top n a v Hn) as (lo & top & -> & Hlo & _ & Ht & _).
  apply Forall_app in Hl as [_ Hl]. apply Forall_cons in Hl as [Hl _].
  apply Forall_app_2; [eapply Forall_impl; [exact Hlo|apply digit_small]|].
  constructor; [|done]. unfold loose, small in *. lia.
Qed.

Lemma num_norm n a v :
  length a = n -> (0 < n)%nat -> Forall loose a -> val a = v -> 0 <= v < lim n ->
  num n (norm_loop 0 a) v.
Proof.
  intros Hl Hn Ha <- Hv. destruct (norm_loop_val a 0) as (E & Hnm & _); [by intros ->; cbn in *; lia| |done|].
  { apply digit_loose. split; [done|apply W_pos]. }
  split; [by rewrite length_norm_loop|done|lia|done].
Qed.

Lemma num_norm_id n a v : num n a v -> 2 * v < lim n -> norm_loop 0 a = a.
Proof. intros Hn Hv. apply norm_loop_normal; [apply Hn|by eapply num_loose]. Qed.

(** Word by word, [x + k * y]. *)
Lemma zip_loose k a b :
  Forall2 (λ x y, loose (x + k * y)) a b -> Forall loose (zip_with (λ x y, x + k * y) a b).
Proof. induction 1; cbn; by constructor. Qed.

Lemma num_sub n a b x y :
  num n a x -> num n b y -> y <= x -> 2 * x < lim n -> (0 < n)%nat ->
  num n (norm_loop 0 (MCL_BIG_sub a b)) (x - y).
Proof.
  intros Ha Hb Hle Hx Hn. assert (length a = length b) as Hl by (rewrite (num_length _ _ _ Ha); symmetry; apply Hb).
  assert (Forall2 (λ x y, loose (x + -1 * y)) a b) as Hf.
  { apply Forall2_same_length_lookup_2; [done|]. intros i u v Hu Hv.
    pose proof (Forall_lookup_1 _ _ _ _ (num_small _ _ _ Ha Hx) Hu).
    pose proof (Forall_lookup_1 _ _ _ _ (num_small _ _ _ Hb ltac:(lia)) Hv). unfold small, loose in *. lia. }
  destruct (sub_val a b Hl) as [Ev E]; [eapply Forall2_impl; [exact Hf|intros; by apply loose_word]|].
  apply num_norm; [|done|rewrite E; by apply zip_loose| |pose proof (num_range _ _ _ Ha); pose proof (num_range _ _ _ Hb); lia].
  - rewrite E, length_zip_with_l_eq by done. apply Ha.
  - rewrite Ev, (num_val _ _ _ Ha), (num_val _ _ _ Hb). lia.
Qed.
Lemma digit_sum_loose x y : digit x -> digit y -> loose (x + 1 * y).
Proof. unfold digit, loose. pose proof W_half. lia. Qed.

Lemma num_add n a b x y :
  num n a x -> num n b y -> 2 * (x + y) < lim n -> (0 < n)%nat ->
  num n (norm_loop 0 (MCL_BIG_add a b)) (x + y).
Proof.
  intros Ha Hb Hx Hn. pose proof (num_range _ _ _ Ha). pose proof (num_range _ _ _ Hb).
  assert (length a = length b) as Hl by (rewrite (num_length _ _ _ Ha); symmetry; apply Hb).
  assert (Forall2 (λ x y, loose (x + 1 * y)) a b) as Hf.
  { destruct (num_top _ _ _ Ha) as (la & ta & -> & Da & Ha1 & Ha2 & Ea).
    destruct (num_top _ _ _ Hb) as (lb & tb & -> & Db & Hb1 & Hb2 & Eb).
    apply Forall2_app.
    - apply Forall2_same_length_lookup_2; [lia|]. intros i u v Hu Hv.
      apply digit_sum_loose; [exact (Forall_lookup_1 _ _ _ _ Da Hu)|exact (Forall_lookup_1 _ _ _ _ Db Hv)].
    - constructor; [|done]. unfold lim in Hx. rewrite word_half in *. unfold loose.
      pose proof (val_digits _ Da). pose proof (val_digits _ Db). pose proof (WP_pos (n - 1)). nia. }
  destruct (add_val a b Hl) as [Ev E]; [eapply Forall2_impl; [exact Hf|intros; by apply loose_word]|].
  apply num_norm; [|done|rewrite E; by apply zip_loose| |lia].
  - rewrite E, length_zip_with_l_eq by done. apply Ha.
  - rewrite Ev, (num_val _ _ _ Ha), (num_val _ _ _ Hb). lia.
Qed.
End num.

(** ** The laws of a width *)
Class WidthOk `{MclConfigOk} (n : nat) `{!Width} : Prop := {
  wo_words : (0 < n <= DMCL_NLEN)%nat;
  wo_comp a b x y : num n a x -> num n b y -> w_comp a b = Z.sgn (x - y);
  wo_shl a x : num n a x -> 2 * x < lim n -> num n (w_shl1 a) (2 * x);
  wo_shr a x : num n a x -> num n (w_shr1 a) (x / 2);
  wo_sub a b x y : num n a x -> num n b y -> y <= x -> 2 * x < lim n ->
    num n (w_norm (w_sub a b)) (x - y)
}.

#[export] Instance single_width_ok `{MclConfigOk} : WidthOk MCL_NLEN.
Proof.
  pose proof words_2. split.
  - unfold DMCL_NLEN. lia.
  - apply num_comp.
  - apply num_fshl.
  - apply num_fshr.
  - intros. apply num_sub; (done || lia).
Qed.

Lemma double_width_ok `{MclConfigOk} : @WidthOk _ _ DMCL_NLEN double_width.
Proof.
  pose proof words_2. assert (2 <= DMCL_NLEN)%nat by (unfold DMCL_NLEN; lia). split.
  - lia.
  - apply num_comp.
  - intros a x Ha Hx. change (num DMCL_NLEN (shl_words DMCL_NLEN a 1) (2 * x)). rewrite shl_words_1 by (done || apply Ha). by apply num_fshl.
  - intros a x Ha. change (num DMCL_NLEN (shr_words DMCL_NLEN a 1) (x / 2)). rewrite shr_words_1 by apply Ha. by apply num_fshr.
  - intros. apply num_sub; (done || lia).
Qed.

Section loops.
Context `{MclConfigOk} {n : nat} `{!Width, !WidthOk n}.
Implicit Types a b c e m : list Z.
Implicit Types x y : Z.
Abbreviation W := (2 ^ MCL_BASEBITS).

(** The tests of the loops. *)
Lemma comp_ge a b x y : num n a x -> num n b y -> (0 <=? w_comp a b) = (y <=? x).
Proof. intros Ha Hb. rewrite (wo_comp a b x y) by done. destruct (Z.leb_spec y x); lia. Qed.
Lemma comp_lt a b x y : num n a x -> num n b y -> (w_comp a b <? 0) = (x <? y).
Proof. intros Ha Hb. rewrite (wo_comp a b x y) by done. destruct (Z.ltb_spec x y); lia. Qed.

Lemma pow2_S (j : nat) : 2 ^ Z.of_nat (S j) = 2 * 2 ^ Z.of_nat j.
Proof. rewrite Nat2Z.inj_succ, Z.pow_succ_r; lia. Qed.

(** Going up: the divisor doubles until it exceeds the dividend. *)
Lemma up_loop_ok fuel b x : num n b x -> 2 * x < lim n -> forall c y k,
  num n c y -> x < y * 2 ^ Z.of_nat fuel ->
  exists c' j, up_loop (S fuel) b c k = Some (c', (k + j)%nat) /\ num n c' (y * 2 ^ Z.of_nat j) /\ x < y * 2 ^ Z.of_nat j.
Proof.
  intros Hb Hx. induction fuel as [|fuel IH]; intros c y k Hc Hf; cbn [up_loop];
    rewrite (comp_ge b c x y) by done.
  - change (2 ^ Z.of_nat 0) with 1 in Hf. rewrite (proj2 (Z.leb_gt _ _)) by lia.
    exists c, 0%nat. rewrite Nat.add_0_r, Z.mul_1_r. split_and!; [done|done|lia].
  - destruct (Z.leb_spec y x) as [Hle|Hgt].
    + rewrite pow2_S in Hf.
      destruct (IH (w_shl1 c) (2 * y) (S k)) as (c' & j & E & Hn & Hlt); [apply wo_shl; [done|lia]|lia|].
      cbn [up_loop] in E. rewrite E. exists c', (S j). rewrite pow2_S.
      replace (y * (2 * 2 ^ Z.of_nat j)) with (2 * y * 2 ^ Z.of_nat j) by ring.
      split_and!; [do 2 f_equal; lia|done|done].
    + exists c, 0%nat. rewrite Nat.add_0_r, Z.mul_1_r. split_and!; [done|done|lia].
Qed.

Lemma half_step y (k : nat) : y * 2 ^ Z.of_nat (S k) / 2 = y * 2 ^ Z.of_nat k.
Proof.
  rewrite pow2_S. replace (y * (2 * 2 ^ Z.of_nat k)) with (y * 2 ^ Z.of_nat k * 2) by ring.
  by apply Z.div_mul.
Qed.

Lemma sub_multiple_mod x y z : (x - y * z) mod y = x mod y.
Proof. replace (x - y * z) with (x + - z * y) by ring. apply Z_mod_plus_full. Qed.

(** Coming down: what is left is the remainder. *)
Lemma down_loop_ok k : forall b c x y,
  num n b x -> num n c (y * 2 ^ Z.of_nat k) -> x < y * 2 ^ Z.of_nat k -> 2 * x < lim n ->
  exists b' c', down_loop k b c = (b', c') /\ num n b' (x mod y) /\ num n c' y.
Proof.
  induction k as [|k IH]; intros b c x y Hb Hc Hlt Hx; cbn [down_loop].
  - change (2 ^ Z.of_nat 0) with 1 in *. rewrite Z.mul_1_r in *. exists b, c.
    rewrite Z.mod_small by (pose proof (num_range _ _ _ Hb); lia). done.
  - apply wo_shr in Hc as Hc'. rewrite half_step in Hc'. rewrite pow2_S in Hlt.
    rewrite (comp_ge b (w_shr1 c) x _ Hb Hc'). destruct (Z.leb_spec (y * 2 ^ Z.of_nat k) x) as [Hle|Hgt].
    + rewrite <- (sub_multiple_mod x y (2 ^ Z.of_nat k)). pose proof (num_range _ _ _ Hc').
      apply IH; [apply wo_sub; done|done|lia|lia].
    + by apply IH.
Qed.

(** The fuel covers every number of the width. *)
Lemma lim_fuel : lim n <= 2 ^ Z.of_nat div_fuel.
Proof.
  assert (0 < n <= DMCL_NLEN)%nat by apply wo_words.
  pose proof base_8. pose proof base_room. unfold lim, div_fuel.
  rewrite <- Z.pow_mul_r, <- Z.pow_add_r by nia. apply Z.pow_le_mono_r; [lia|].
  rewrite Nat2Z.inj_mul, Z2Nat.id, Nat2Z.inj_sub by lia. nia.
Qed.

Theorem reduce_ok b c x y :
  num n b x -> 2 * x < lim n -> num n c y -> 0 < y ->
  exists b', reduce b c = Some (b', c) /\ num n b' (x mod y).
Proof.
  intros Hb Hx Hc Hy. pose proof (num_range _ _ _ Hb). pose proof lim_fuel.
  unfold reduce. rewrite (comp_lt b c x y) by done. destruct (Z.ltb_spec x y) as [Hlt|Hge].
  { exists b. by rewrite Z.mod_small by lia. }
  assert (num n (w_shl1 c) (2 * y)) as Hc2 by (apply wo_shl; [done|lia]).
  destruct div_fuel as [|fuel]; [cbn in *; lia|].
  destruct (up_loop_ok fuel b x Hb Hx (w_shl1 c) (2 * y) 1 Hc2) as (c' & j & E & Hn & Hlt).
  { rewrite pow2_S in *. nia. }
  rewrite E. cbn [mbind option_bind]. change (1 + j)%nat with (S j).
  replace (2 * y * 2 ^ Z.of_nat j) with (y * 2 ^ Z.of_nat (S j)) in Hn, Hlt by (rewrite pow2_S; ring).
  destruct (down_loop_ok (S j) b c' x y Hb Hn Hlt Hx) as (b' & c'' & -> & Hb' & Hc'').
  exists b'. by rewrite (num_inj n c'' c y).
Qed.
(** ** Division: the quotient goes along *)
Lemma div_up_ok fuel b x y : num n b x -> 2 * x < lim n -> 0 < y -> 4 * (x / y) < lim MCL_NLEN ->
  forall m e j, num n m (y * 2 ^ Z.of_nat j) -> num MCL_NLEN e (2 ^ Z.of_nat j) ->
  x < y * 2 ^ Z.of_nat (j + fuel) ->
  exists m' e' j', div_up (S fuel) b m e j = Some (m', e', j') /\ num n m' (y * 2 ^ Z.of_nat j') /\
    num MCL_NLEN e' (2 ^ Z.of_nat j') /\ x < y * 2 ^ Z.of_nat j'.
Proof.
  intros Hb Hx Hy Hq. induction fuel as [|fuel IH]; intros m e j Hm He Hf.
  - exists m, e, j. cbn [div_up]. rewrite (comp_ge b m x _ Hb Hm), (proj2 (Z.leb_gt _ _)).
    + rewrite Nat.add_0_r in Hf. done.
    + by rewrite Nat.add_0_r in Hf.
  - change (div_up (S (S fuel)) b m e j) with
      (if 0 <=? w_comp b m then div_up (S fuel) b (w_shl1 m) (fst (MCL_BIG_fshl e 1)) (S j) else Some (m, e, j)).
    rewrite (comp_ge b m x _ Hb Hm). destruct (Z.leb_spec (y * 2 ^ Z.of_nat j) x) as [Hle|Hgt].
    + assert (2 ^ Z.of_nat j <= x / y) by (apply Z.div_le_lower_bound; lia).
      apply IH; [| |by rewrite <- Nat.add_succ_comm in Hf].
      * rewrite pow2_S. replace (y * (2 * 2 ^ Z.of_nat j)) with (2 * (y * 2 ^ Z.of_nat j)) by ring.
        apply wo_shl; [done|lia].
      * rewrite pow2_S. apply num_fshl; [done|lia].
    + by exists m, e, j.
Qed.

Lemma sub_multiple_div x y z : 0 < y -> (x - y * z) / y = x / y - z.
Proof. intros. replace (x - y * z) with (x + - z * y) by ring. rewrite Z.div_add; lia. Qed.

Lemma div_down_ok k : forall a b m e q x y,
  num MCL_NLEN a q -> num n b x -> num n m (y * 2 ^ Z.of_nat k) -> num MCL_NLEN e (2 ^ Z.of_nat k) ->
  0 < y -> x < y * 2 ^ Z.of_nat k -> 2 * x < lim n -> 2 * (q + x / y) < lim MCL_NLEN ->
  exists a' b', div_down k a b m e = (a', b') /\ num MCL_NLEN a' (q + x / y) /\ num n b' (x mod y).
Proof.
  induction k as [|k IH]; intros a b m e q x y Ha Hb Hm He Hy Hlt Hx Hq; cbn [div_down].
  - change (2 ^ Z.of_nat 0) with 1 in *. rewrite Z.mul_1_r in *. exists a, b.
    pose proof (num_range _ _ _ Hb). by rewrite Z.mod_small, Z.div_small, Z.add_0_r by lia.
  - apply wo_shr in Hm as Hm'. rewrite half_step in Hm'. rewrite pow2_S in Hlt.
    assert (num MCL_NLEN (fst (MCL_BIG_fshr e 1)) (2 ^ Z.of_nat k)) as He'.
    { rewrite <- (Z.mul_1_l (2 ^ Z.of_nat k)), <- half_step, Z.mul_1_l. by apply num_fshr. }
    rewrite (comp_ge b _ x _ Hb Hm'). destruct (Z.leb_spec (y * 2 ^ Z.of_nat k) x) as [Hle|Hgt].
    + pose proof (num_range _ _ _ Hm'). pose proof (num_range _ _ _ Ha). pose proof words_2.
      assert (2 ^ Z.of_nat k <= x / y) by (apply Z.div_le_lower_bound; lia).
      pose proof (sub_multiple_div x y (2 ^ Z.of_nat k) Hy) as Ed.
      destruct (IH (fst (MCL_BIG_norm (MCL_BIG_add a (fst (MCL_BIG_fshr e 1))))) (w_norm (w_sub b (w_shr1 m)))
        (w_shr1 m) (fst (MCL_BIG_fshr e 1)) (q + 2 ^ Z.of_nat k) (x - y * 2 ^ Z.of_nat k) y)
        as (a' & b' & E & Ha' & Hb'); try done; try lia.
      * apply num_add; (done || lia).
      * by apply wo_sub.
      * exists a', b'. rewrite sub_multiple_mod, Ed in *.
        replace (q + x / y) with (q + 2 ^ Z.of_nat k + (x / y - 2 ^ Z.of_nat k)) by lia. done.
    + by apply IH.
Qed.

Lemma num_zero : num MCL_NLEN MCL_BIG_zero 0.
Proof.
  pose proof words_2. replace MCL_NLEN with (S (MCL_NLEN - 1)) at 1 by lia.
  rewrite <- (val_zeros MCL_NLEN). apply digits_num; [|unfold MCL_BIG_zero; rewrite length_replicate; lia].
  apply Forall_replicate. split; [done|apply W_pos].
Qed.

Lemma num_one : num MCL_NLEN MCL_BIG_one 1.
Proof.
  pose proof words_2. pose proof W_pos. pose proof base_8.
  assert (2 <= W) by (change 2 with (2 ^ 1); apply Z.pow_le_mono_r; lia).
  replace MCL_NLEN with (S (MCL_NLEN - 1)) at 1 by lia.
  replace 1 with (val MCL_BIG_one) by (unfold MCL_BIG_one; rewrite val_cons, val_zeros; lia).
  apply digits_num; [|unfold MCL_BIG_one; cbn [length]; rewrite length_replicate; lia].
  constructor; [unfold digit; lia|]. apply Forall_replicate. unfold digit. lia.
Qed.

Lemma inc_zero : MCL_BIG_inc MCL_BIG_zero 1 = MCL_BIG_one.
Proof.
  unfold MCL_BIG_inc, MCL_BIG_norm, add_low. cbn [fst]. pose proof words_2.
  assert (lim MCL_NLEN > 0) by (pose proof (num_range _ _ _ num_one); lia).
  rewrite (num_norm_id _ _ _ num_zero) by lia. unfold MCL_BIG_zero, MCL_BIG_one.
  destruct MCL_NLEN as [|k]; [lia|]. cbn. rewrite Nat.sub_0_r, chunk_small; [done|].
  apply loose_word, digit_loose. unfold digit. pose proof base_8.
  split; [done|]. change 1 with (2 ^ 0) at 1. apply Z.pow_lt_mono_r; lia.
Qed.

Theorem divide_ok b m x y :
  num n b x -> 2 * x < lim n -> num n m y -> 0 < y -> 4 * (x / y) < lim MCL_NLEN ->
  exists a b', divide b m = Some (a, b') /\ num MCL_NLEN a (x / y) /\ num n b' (x mod y).
Proof.
  intros Hb Hx Hm Hy Hq. pose proof (num_range _ _ _ Hb). pose proof (num_range _ _ _ Hm). pose proof lim_fuel.
  assert (0 <= x / y) by (apply Z.div_pos; lia).
  unfold divide. rewrite inc_zero. destruct div_fuel as [|fuel]; [cbn in *; lia|].
  destruct (div_up_ok fuel b x y Hb Hx Hy Hq m MCL_BIG_one 0) as (m' & e' & j & E & Hm' & He' & Hlt).
  - by rewrite Z.mul_1_r.
  - apply num_one.
  - rewrite pow2_S in *. cbn [Nat.add]. nia.
  - rewrite E. cbn [mbind option_bind].
    destruct (div_down_ok j MCL_BIG_zero b m' e' 0 x y num_zero Hb Hm' He' Hy Hlt Hx) as (a & b' & Ed & Ha & Hb');
      [lia|]. rewrite Ed. by exists a, b'.
Qed.
End loops.

(** ** The routines *)
Section routines.
Context `{MclConfigOk}.
Implicit Types a b c d m r : list Z.
Implicit Types x y v : Z.
Abbreviation W := (2 ^ MCL_BASEBITS).
Abbreviation at_ := Sha256.at_.

(** A modulus fills the words to their digits. *)
Abbreviation full := (W ^ Z.of_nat MCL_NLEN).

Lemma full_pos : 0 < full.
Proof. apply WP_pos. Qed.

Lemma lim_single : 4 * full <= lim MCL_NLEN.
Proof.
  pose proof words_2. destruct MCL_NLEN as [|k]; [lia|]. apply lim_room.
Qed.

Lemma lim_double : 4 * (full * full) <= lim DMCL_NLEN.
Proof.
  pose proof words_2. replace (full * full) with (W ^ Z.of_nat DMCL_NLEN).
  - unfold DMCL_NLEN. replace (2 * MCL_NLEN)%nat with (S (2 * MCL_NLEN - 1)) by lia. apply lim_room.
  - unfold DMCL_NLEN. rewrite <- Z.pow_add_r by lia. f_equal. lia.
Qed.

Lemma num_copy a x : num MCL_NLEN a x -> MCL_BIG_copy a = a.
Proof. intros Ha. unfold MCL_BIG_copy. rewrite take_ge; [done|]. by rewrite (num_length _ _ _ Ha). Qed.

Lemma num_norm_copy a x : num MCL_NLEN a x -> 2 * x < lim MCL_NLEN -> fst (MCL_BIG_norm a) = a.
Proof. apply num_norm_id. Qed.

Lemma num_dscopy c y : num MCL_NLEN c y -> y < full -> num DMCL_NLEN (MCL_BIG_dscopy c) y.
Proof.
  intros Hc Hy. pose proof words_2 as Hw. pose proof W_pos.
  pose proof (num_digits _ _ _ Hc ltac:(lia) Hy) as Dc. pose proof (num_length _ _ _ Hc) as Lc.
  assert (MCL_BIG_dscopy c = c ++ replicate MCL_NLEN 0) as ->.
  { unfold MCL_BIG_dscopy. destruct (num_top _ _ _ Hc) as (lo & top & -> & _ & Ll & _).
    apply Forall_app in Dc as [_ Dt]. apply Forall_cons in Dt as [[Dt1 Dt2] _].
    unfold at_. rewrite lookup_app_r, Ll, Nat.sub_diag by lia. cbn.
    rewrite take_app_length', land_BMASK, shiftr_W, Z.mod_small, Z.div_small, <- app_assoc by (done || lia).
    f_equal. cbn [app]. f_equal. change (0 :: replicate ?k 0) with (replicate (S k) 0). f_equal. lia. }
  assert (val (c ++ replicate MCL_NLEN 0) = y) as Ev.
  { rewrite val_app, val_zeros, (num_val _ _ _ Hc). lia. }
  rewrite <- Ev. unfold DMCL_NLEN. replace (2 * MCL_NLEN)%nat with (S (2 * MCL_NLEN - 1)) by lia.
  apply digits_num; [|rewrite length_app, length_replicate; lia].
  apply Forall_app_2; [done|]. apply Forall_replicate. by split.
Qed.

Lemma num_sdcopy b x : num DMCL_NLEN b x -> x < full -> num MCL_NLEN (MCL_BIG_sdcopy b) x.
Proof.
  intros Hb Hx. pose proof words_2 as Hw. pose proof (num_length _ _ _ Hb) as Lb. unfold DMCL_NLEN in Lb.
  pose proof (num_range _ _ _ Hb). pose proof full_pos.
  assert (full <= W ^ Z.of_nat DMCL_NLEN) by (apply Z.pow_le_mono_r; [apply W_pos|unfold DMCL_NLEN; lia]).
  pose proof (num_digits _ _ _ Hb ltac:(unfold DMCL_NLEN; lia) ltac:(lia)) as Db.
  pose proof (num_val _ _ _ Hb) as Vb. rewrite <- (take_drop MCL_NLEN b), val_app, length_take_le in Vb by lia.
  rewrite <- (take_drop MCL_NLEN b) in Db. apply Forall_app in Db as [D1 D2].
  pose proof (val_digits _ D1) as [V1 _]. pose proof (val_digits _ D2) as [V2 _].
  assert (val (drop MCL_NLEN b) = 0) as Z2 by nia.
  assert (val (take MCL_NLEN b) = x) as <- by (rewrite Z2 in Vb; lia).
  unfold MCL_BIG_sdcopy. replace MCL_NLEN with (S (MCL_NLEN - 1)) at 1 by lia.
  apply digits_num; [done|]. rewrite length_take_le; lia.
Qed.

(** Remainder of a single number; the modulus comes back. *)
Theorem mod_ok b c x y :
  num MCL_NLEN b x -> 2 * x < lim MCL_NLEN -> num MCL_NLEN c y -> 0 < y ->
  exists b', MCL_BIG_mod b c = Some (b', c) /\ num MCL_NLEN b' (x mod y).
Proof.
  intros Hb Hx Hc Hy. unfold MCL_BIG_mod. rewrite (num_norm_copy b x) by done. by apply reduce_ok.
Qed.

Theorem dmod_ok b c x y :
  num DMCL_NLEN b x -> 2 * x < lim DMCL_NLEN -> num MCL_NLEN c y -> 0 < y < full ->
  exists r, MCL_BIG_dmod b c = Some r /\ num MCL_NLEN r (x mod y).
Proof.
  intros Hb Hx Hc Hy. unfold MCL_BIG_dmod, MCL_BIG_dnorm. rewrite (num_norm_id _ _ _ Hb) by done.
  destruct (@reduce_ok _ _ DMCL_NLEN double_width double_width_ok b (MCL_BIG_dscopy c) x y) as (b' & -> & Hb');
    [done|done|apply num_dscopy; (done || lia)|lia|].
  eexists. split; [reflexivity|]. apply num_sdcopy; [done|]. pose proof (Z.mod_pos_bound x y). lia.
Qed.

Theorem ddiv_ok b c x y :
  num DMCL_NLEN b x -> 2 * x < lim DMCL_NLEN -> num MCL_NLEN c y -> 0 < y < full -> x / y < full ->
  exists a, MCL_BIG_ddiv b c = Some a /\ num MCL_NLEN a (x / y).
Proof.
  intros Hb Hx Hc Hy Hq. unfold MCL_BIG_ddiv, MCL_BIG_dnorm. rewrite (num_norm_id _ _ _ Hb) by done.
  pose proof lim_single.
  destruct (@divide_ok _ _ DMCL_NLEN double_width double_width_ok b (MCL_BIG_dscopy c) x y) as (a & b' & -> & Ha & _);
    [done|done|apply num_dscopy; (done || lia)|lia|lia|]. by exists a.
Qed.

Theorem sdiv_ok a c x y :
  num MCL_NLEN a x -> x < full -> num MCL_NLEN c y -> 0 < y ->
  exists q, MCL_BIG_sdiv a c = Some q /\ num MCL_NLEN q (x / y).
Proof.
  intros Ha Hx Hc Hy. pose proof lim_single. pose proof (num_range _ _ _ Ha).
  unfold MCL_BIG_sdiv. rewrite (num_norm_copy a x), (num_copy a x), (num_copy c y) by (done || lia).
  assert (x / y <= x) by (apply Z.div_le_upper_bound; nia).
  destruct (divide_ok (n := MCL_NLEN) a c x y) as (q & b' & -> & Hq & _); [done|lia|done|lia|lia|]. by exists q.
Qed.

(** The product of two reduced numbers, as a double-length number. *)
Lemma num_mul a b x y :
  num MCL_NLEN a x -> num MCL_NLEN b y -> x < full -> y < full ->
  exists d, MCL_BIG_mul a b = (d, (a, b)) /\ num DMCL_NLEN d (x * y) /\ 2 * (x * y) < lim DMCL_NLEN.
Proof.
  intros Ha Hb Hx Hy. pose proof words_2. pose proof (num_range _ _ _ Ha). pose proof (num_range _ _ _ Hb).
  destruct (mul_val a b) as (d & E & Vd & Dd & Ld); try (by eapply num_length); try (by eapply num_digits; (done || lia)).
  exists d. rewrite (num_val _ _ _ Ha), (num_val _ _ _ Hb) in Vd. split_and!; [done| |pose proof lim_double; nia].
  rewrite <- Vd. replace DMCL_NLEN with (S (DMCL_NLEN - 1)) by (unfold DMCL_NLEN; lia).
  apply digits_num; [done|]. unfold DMCL_NLEN in *. lia.
Qed.

Theorem modneg_ok a m x v :
  num MCL_NLEN a x -> 2 * x < lim MCL_NLEN -> num MCL_NLEN m v -> 0 < v < full ->
  exists r a', MCL_BIG_modneg a m = Some (r, (a', m)) /\ val r = v - x mod v.
Proof.
  intros Ha Hx Hm Hv. unfold MCL_BIG_modneg. pose proof words_2. pose proof lim_single.
  destruct (mod_ok a m x v) as (a' & -> & Ha'); [done..|lia|]. cbn [mbind option_bind].
  eexists _, a'. split; [reflexivity|]. pose proof (Z.mod_pos_bound x v).
  destruct (sub_val m a') as [Ev _].
  - rewrite (num_length _ _ _ Hm). symmetry. apply Ha'.
  - apply Forall2_same_length_lookup_2; [rewrite (num_length _ _ _ Hm); symmetry; apply Ha'|].
    intros i u w Hu Hw. apply loose_word.
    pose proof (Forall_lookup_1 _ _ _ _ (num_small _ _ _ Hm ltac:(lia)) Hu).
    pose proof (Forall_lookup_1 _ _ _ _ (num_small _ _ _ Ha' ltac:(lia)) Hw). unfold small, loose in *. lia.
  - rewrite Ev, (num_val _ _ _ Hm), (num_val _ _ _ Ha'). lia.
Qed.
End routines.
