(* ===== verification/MclInv.v ===== *)
(** * MclInv: squares, products and inverses modulo a number, the Jacobi symbol

    Squaring equals multiplying a number by itself.  Modular products are products
    modulo the modulus; the binary inversion of an odd modulus ends with the inverse;
    the symbol is 0 exactly for arguments with a common factor. *)

From S2P Require Import Prelude Sha256 Sha256Spec MclBig MclBigSpec MclMul MclMod MclModSpec.

Section squares.
Context `{MclConfigOk}.
Implicit Types a : list Z.
Abbreviation W := (2 ^ MCL_BASEBITS).
Abbreviation at_ := Sha256.at_.

(** Reading a symmetric sum from the other end. *)
Lemma rsum_mirror (f : nat -> Z) j h : forall lo,
  (forall i, (i <= j)%nat -> f i = f (j - i)%nat) -> (lo + h <= S j)%nat ->
  rsum f lo h = rsum f (S j - lo - h) h.
Proof.
  induction h as [|h IH]; intros lo Hf Hh; [done|].
  rewrite rsum_S, IH by (done || lia). replace (S j - S lo - h)%nat with (S j - lo - S h)%nat by lia.
  rewrite rsum_last. replace (S j - lo - S h + h)%nat with (j - lo)%nat by lia. rewrite (Hf lo) by lia. lia.
Qed.

Section operand.
Context a (Ha : Forall digit a) (La : length a = MCL_NLEN).

Definition term (j i : nat) : Z := at_ a i * at_ a (j - i).

Lemma term_bound j i : 0 <= term j i <= (W - 1) * (W - 1).
Proof. apply digit_mul; by apply at_digit. Qed.

Lemma term_sym j i : (i <= j)%nat -> term j i = term j (j - i).
Proof. intros. unfold term. replace (j - (j - i))%nat with i by lia. ring. Qed.

(** A column is its products above the diagonal, twice, and its square. *)
Lemma conv_halves j lo h :
  lo = (if (j <? MCL_NLEN)%nat then 0 else j - MCL_NLEN + 1)%nat -> (lo + h = (j + 1) / 2)%nat ->
  (j < 2 * MCL_NLEN - 1)%nat ->
  conv a a j = 2 * rsum (term j) lo h + (if Nat.even j then term j (j / 2) else 0).
Proof.
  intros Hlo Hh Hj. unfold conv. fold (term j). change (λ i, at_ a i * at_ a (j - i)) with (term j).
  pose proof (Nat.div_mod j 2 ltac:(lia)) as Dj. pose proof (Nat.mod_upper_bound j 2 ltac:(lia)).
  pose proof (Nat.div_mod (j + 1) 2 ltac:(lia)) as Dj1. pose proof (Nat.mod_upper_bound (j + 1) 2 ltac:(lia)).
  assert (2 * lo <= j)%nat by (destruct (j <? MCL_NLEN)%nat eqn:E; [lia|apply Nat.ltb_ge in E; lia]).
  replace (S j) with (lo + (S j - 2 * lo + lo))%nat by lia.
  rewrite (rsum_split (term j) lo), (rsum_split (term j) (S j - 2 * lo)), Nat.add_0_l.
  assert (forall i, (i < lo)%nat -> term j i = 0) as Hz.
  { intros i Hi. unfold term. destruct (Nat.ltb_spec j MCL_NLEN); [lia|]. rewrite (at_out a (j - i)) by lia. lia. }
  rewrite (rsum_zero _ lo 0) by (intros; apply Hz; lia).
  rewrite (rsum_zero _ lo (lo + _)) by (intros i Hi; destruct (decide (i <= j)%nat);
    [rewrite term_sym by done; apply Hz; lia|unfold term; rewrite (at_out a i) by lia; lia]).
  rewrite Z.add_0_l, Z.add_0_r.
  destruct (Nat.even j) eqn:Ej.
  - apply Nat.even_spec in Ej as [q Ej].
    assert (j / 2 = q)%nat as Eq by lia. assert (lo + h = q)%nat by lia.
    replace (S j - 2 * lo)%nat with (h + (1 + h))%nat by lia.
    rewrite (rsum_split _ h), (rsum_split _ 1). replace (lo + h)%nat with q by lia. cbn [rsum].
    rewrite (rsum_mirror (term j) j h lo) at 1 by (lia || apply term_sym).
    rewrite (rsum_mirror (term j) j h lo) by (lia || apply term_sym).
    replace (q + 1)%nat with (S j - lo - h)%nat by lia. rewrite Eq. lia.
  - assert (Nat.odd j = true) as Oj by (unfold Nat.odd; by rewrite Ej).
    apply Nat.odd_spec in Oj as [q Oj].
    replace (S j - 2 * lo)%nat with (h + h)%nat by lia. rewrite (rsum_split _ h).
    rewrite (rsum_mirror (term j) j h lo) at 1 by (lia || apply term_sym).
    rewrite (rsum_mirror (term j) j h lo) by (lia || apply term_sym).
    replace (lo + h)%nat with (S j - lo - h)%nat by lia. lia.
Qed.

Lemma sqr_half_val j lo h :
  (lo + S h = (j + 1) / 2)%nat -> (2 * S h <= 2 * MCL_NLEN + 1)%nat ->
  sqr_half a lo j = rsum (term j) lo (S h).
Proof.
  intros Hh HN. unfold sqr_half. replace ((j + 1) / 2 - S lo)%nat with h by lia.
  assert (forall k, (k <= h)%nat -> foldl (λ t i, mcl_dchunk (t + at_ a (j - i) * at_ a i))
    (mcl_dchunk (at_ a (j - lo) * at_ a lo)) (seq (S lo) k) = rsum (term j) lo (S k)) as E; [|by apply E].
  assert (forall k, (k <= h)%nat -> dword (rsum (term j) lo (S k))) as Hd.
  { intros k Hk. apply (dword_bound _ (Z.of_nat MCL_NLEN + 1)); [lia|].
    pose proof (rsum_bound (term j) (S k) ((W - 1) * (W - 1)) lo ltac:(intros; apply term_bound)).
    pose proof W_pos. assert (Z.of_nat (S k) <= Z.of_nat MCL_NLEN) by lia. nia. }
  induction k as [|k IH]; intros Hk.
  - cbn [seq foldl]. rewrite Z.mul_comm. change (at_ a lo * at_ a (j - lo)) with (term j lo).
    specialize (Hd 0%nat Hk). cbn [rsum] in *. rewrite Z.add_0_r in *. by apply dchunk_small.
  - rewrite seq_S, foldl_app, IH by lia. cbn [foldl]. replace (S lo + k)%nat with (lo + S k)%nat by lia.
    rewrite (Z.mul_comm (at_ a (j - _))). change (at_ a (lo + S k) * at_ a (j - (lo + S k))) with (term j (lo + S k)).
    rewrite <- rsum_last. apply dchunk_small, Hd. lia.
Qed.
(** A column of the square is a column of the product. *)
Lemma sqr_column_val co j :
  0 <= co <= co_max -> (j = 0%nat -> co = 0) -> (j < 2 * MCL_NLEN - 1)%nat ->
  sqr_column a co j = comba_column a a (comba_d a a) co j.
Proof.
  intros Hco Hz0 Hj. pose proof (co_max_bound a a La La). pose proof W_pos. pose proof words_2.
  rewrite comba_column_val by done. unfold sqr_column, DMCL_NLEN.
  pose proof (fun i => term_bound j i) as Hb.
  assert (forall t, 0 <= t < (2 * Z.of_nat MCL_NLEN) * (W * W) -> dword (t + co)) as Hd.
  { intros t Ht. apply (dword_bound _ (2 * Z.of_nat MCL_NLEN + 2)); [lia|]. nia. }
  assert (forall i, 0 <= term j i < W * W) as Hs by (intros i; specialize (Hb i); nia).
  destruct (Nat.eqb_spec j 0) as [->|Hj0].
  { rewrite Hz0 by done. unfold conv. cbn [rsum]. rewrite Nat.sub_diag, Z.add_0_r, Z.add_0_l.
    specialize (Hs 0%nat). specialize (Hd (term 0 0)). rewrite Hz0, Z.add_0_r in Hd by done.
    apply dchunk_small, Hd. nia. }
  set (lo := (if (j <? MCL_NLEN)%nat then 0 else j - MCL_NLEN + 1)%nat).
  pose proof (Nat.div_mod (j + 1) 2 ltac:(lia)). pose proof (Nat.mod_upper_bound (j + 1) 2 ltac:(lia)).
  pose proof (Nat.div_mod j 2 ltac:(lia)). pose proof (Nat.mod_upper_bound j 2 ltac:(lia)).
  assert (2 * lo <= j /\ j - lo < MCL_NLEN)%nat as [Hlo Hlo']
    by (unfold lo; destruct (Nat.ltb_spec j MCL_NLEN); lia).
  destruct (Nat.eqb_spec j (2 * MCL_NLEN - 2)) as [Ej|Hjt].
  - rewrite (conv_halves j lo 0) by (try done; unfold lo; rewrite (proj2 (Nat.ltb_ge _ _)) by lia; lia).
    assert (Nat.even j = true) as -> by (apply Nat.even_spec; exists (MCL_NLEN - 1)%nat; lia).
    replace (j / 2)%nat with (MCL_NLEN - 1)%nat by lia.
    cbn [rsum]. specialize (Hs (MCL_NLEN - 1)%nat). unfold term in *.
    replace (j - (MCL_NLEN - 1))%nat with (MCL_NLEN - 1)%nat in * by lia.
    rewrite dchunk_small; [lia|]. apply Hd. nia.
  - assert (lo < (j + 1) / 2)%nat by (unfold lo; destruct (Nat.ltb_spec j MCL_NLEN); lia).
    destruct ((j + 1) / 2 - lo)%nat as [|h] eqn:Eh; [lia|].
    rewrite (conv_halves j lo (S h)) by (done || lia). rewrite (sqr_half_val j lo h) by lia.
    set (R := rsum (term j) lo (S h)).
    assert (0 <= 2 * R <= (2 * Z.of_nat (S h)) * ((W - 1) * (W - 1))) as HR.
    { unfold R. pose proof (rsum_bound (term j) (S h) ((W - 1) * (W - 1)) lo ltac:(intros; apply term_bound)). lia. }
    assert (2 * R + (W - 1) * (W - 1) < 2 * Z.of_nat MCL_NLEN * (W * W)) as HR2.
    { assert (2 * Z.of_nat (S h) + 1 <= 2 * Z.of_nat MCL_NLEN) by lia.
      assert (0 <= (W - 1) * (W - 1) < W * W) by nia.
      assert ((2 * Z.of_nat (S h) + 1) * ((W - 1) * (W - 1)) <= 2 * Z.of_nat MCL_NLEN * ((W - 1) * (W - 1)))
        by (apply Z.mul_le_mono_nonneg_r; lia). nia. }
    replace (R + R) with (2 * R) by ring.
    assert (0 <= (W - 1) * (W - 1)) by nia.
    rewrite (dchunk_small (2 * R)) by
      (apply (dword_bound _ (2 * Z.of_nat MCL_NLEN + 2)); [lia|nia]).
    rewrite (dchunk_small (2 * R + co)) by (apply Hd; lia).
    destruct (Nat.even j) eqn:Ej; [|lia].
    apply Nat.even_spec in Ej as [q Ej]. replace (j / 2)%nat with q by lia.
    specialize (Hb q). unfold term in Hb |- *. replace (j - q)%nat with q in * by lia.
    replace (2 * R + co + at_ a q * at_ a q) with (2 * R + at_ a q * at_ a q + co) by ring.
    rewrite dchunk_small by (apply Hd; lia). lia.
Qed.

Lemma sqr_columns_eq n : forall co j,
  (n + j = 2 * MCL_NLEN - 1)%nat -> 0 <= co <= co_max -> (j = 0%nat -> co = 0) ->
  sqr_columns n a co j = comba_columns n a a (comba_d a a) co j.
Proof.
  induction n as [|n IH]; intros co j Hj Hco Hz0; [done|]. cbn [sqr_columns comba_columns].
  rewrite sqr_column_val by (done || lia). f_equal. apply IH; [lia| |lia].
  rewrite comba_column_val, shiftr_W by (done || lia). pose proof W_pos.
  pose proof (conv_bound a a Ha Ha La La j ltac:(lia)) as Hc.
  split; [apply Z.div_pos; lia|]. apply Z.div_le_upper_bound; [lia|]. unfold co_max in *.
  set (k := 2 * Z.of_nat MCL_NLEN) in *. nia.
Qed.

(** Squaring a number is multiplying it by itself. *)
Theorem sqr_mul : MCL_BIG_sqr a = (fst (MCL_BIG_mul a a), a).
Proof.
  pose proof words_2. pose proof W_pos. unfold MCL_BIG_sqr, MCL_BIG_mul, MCL_BIG_norm. cbn [fst].
  rewrite norm_loop_digits by (done || lia). f_equal.
  apply sqr_columns_eq; [unfold DMCL_NLEN; lia|unfold co_max; nia|done].
Qed.
End operand.
End squares.

Section inverse.
Context `{MclConfigOk}.
Implicit Types a b m p r u v x : list Z.
Implicit Types U V X Y P A : Z.
Abbreviation W := (2 ^ MCL_BASEBITS).
Abbreviation at_ := Sha256.at_.
Abbreviation full := (W ^ Z.of_nat MCL_NLEN).

(** ** Modular products *)

(** The product modulo the modulus.  Both factors are left reduced, the modulus
    as it was. *)
Lemma modmul_num a b m X Y V :
  num MCL_NLEN a X -> 2 * X < lim MCL_NLEN -> num MCL_NLEN b Y -> 2 * Y < lim MCL_NLEN ->
  num MCL_NLEN m V -> 0 < V < full ->
  exists r a' b', MCL_BIG_modmul a b m = Some (r, (a', b', m)) /\
    num MCL_NLEN r ((X * Y) mod V) /\ num MCL_NLEN a' (X mod V) /\ num MCL_NLEN b' (Y mod V).
Proof.
  intros Ha HX Hb HY Hm HV. pose proof (Z.mod_pos_bound X V ltac:(lia)). pose proof (Z.mod_pos_bound Y V ltac:(lia)).
  unfold MCL_BIG_modmul.
  destruct (mod_ok a m X V) as (a' & -> & Ha'); [done..|lia|]. cbn [mbind option_bind].
  destruct (mod_ok b m Y V) as (b' & -> & Hb'); [done..|lia|]. cbn [mbind option_bind].
  destruct (num_mul a' b' (X mod V) (Y mod V)) as (d & -> & Hd & Hd2); [done..|lia|lia|].
  destruct (dmod_ok d m _ V Hd Hd2 Hm HV) as (r & -> & Hr). cbn [mbind option_bind].
  exists r, a', b'. by rewrite Zmult_mod.
Qed.

Lemma modsqr_num a m X V :
  num MCL_NLEN a X -> 2 * X < lim MCL_NLEN -> num MCL_NLEN m V -> 0 < V < full ->
  exists r a', MCL_BIG_modsqr a m = Some (r, (a', m)) /\ num MCL_NLEN r ((X * X) mod V) /\
    num MCL_NLEN a' (X mod V).
Proof.
  intros Ha HX Hm HV. pose proof (Z.mod_pos_bound X V ltac:(lia)). pose proof words_2. unfold MCL_BIG_modsqr.
  destruct (mod_ok a m X V) as (a' & -> & Ha'); [done..|lia|]. cbn [mbind option_bind].
  rewrite sqr_mul by (try (by eapply num_length); eapply num_digits; (done || lia)).
  destruct (num_mul a' a' (X mod V) (X mod V)) as (d & -> & Hd & Hd2); [done..|lia|lia|]. cbn [fst].
  destruct (dmod_ok d m _ V Hd Hd2 Hm HV) as (r & -> & Hr). cbn [mbind option_bind].
  exists r, a'. by rewrite Zmult_mod.
Qed.

(** ** Parity *)
Lemma W_even : (2 | W).
Proof.
  pose proof base_8. exists (2 ^ (MCL_BASEBITS - 1)). rewrite Z.mul_comm, <- Z.pow_succ_r by lia. f_equal. lia.
Qed.

Lemma num_parity a X : num MCL_NLEN a X -> MCL_BIG_parity a = X mod 2.
Proof.
  intros Ha. pose proof words_2. destruct (num_top _ _ _ Ha) as (lo & top & -> & Hlo & Hl & _).
  destruct lo as [|x lo]; [cbn in Hl; lia|]. apply Forall_cons in Hlo as [[Hx _] _].
  rewrite <- (num_val _ _ _ Ha). unfold MCL_BIG_parity, at_. cbn [app lookup list_lookup default from_option id val].
  rewrite Z.rem_mod_nonneg by lia. destruct W_even as [k ->].
  replace (x + k * 2 * val (lo ++ [top])) with (x + k * val (lo ++ [top]) * 2) by ring. by rewrite Z_mod_plus_full.
Qed.

Lemma even_or_odd X : X mod 2 = 0 /\ X = 2 * (X / 2) \/ X mod 2 = 1 /\ X = 2 * (X / 2) + 1.
Proof. pose proof (Z.div_mod X 2). pose proof (Z.mod_pos_bound X 2). lia. Qed.

Lemma num_half a X : num MCL_NLEN a X -> num MCL_NLEN (MCL_BIG_shr a 1) (X / 2).
Proof.
  intros Ha. unfold MCL_BIG_shr. rewrite shr_words_1 by apply Ha. by apply num_fshr.
Qed.

(** ** The binary inversion *)
Section modulus.
Context p P (Hp : num MCL_NLEN p P) (HP : P < full) (Hodd : P mod 2 = 1) (A : Z).

(** [x] is [u] over [A], modulo the modulus. *)
Record quot u x U X : Prop := {
  q_u : num MCL_NLEN u U;
  q_x : num MCL_NLEN x X;
  q_pos : 0 < U <= P;
  q_range : 0 <= X < P;
  q_div : (P | A * X - U)
}.

Lemma odd_gauss k : (P | 2 * k) -> (P | k).
Proof.
  intros Hk. apply (Z.gauss _ 2); [done|]. apply Z.bezout_1_gcd.
  exists 1, (- (P / 2)). pose proof (Z.div_mod P 2). lia.
Qed.

Lemma halve_x x X : num MCL_NLEN x X -> 0 <= X < P ->
  exists X', num MCL_NLEN
    (MCL_BIG_shr (if negb (MCL_BIG_parity x =? 0) then fst (MCL_BIG_norm (MCL_BIG_add p x)) else x) 1) X' /\
    0 <= X' < P /\ (2 * X' = X \/ 2 * X' = X + P).
Proof.
  intros Hx HX. pose proof lim_single. pose proof words_2. rewrite (num_parity x X Hx).
  destruct (even_or_odd X) as [[-> E]|[-> E]]; cbn [Z.eqb negb].
  - exists (X / 2). split; [by apply num_half|]. lia.
  - exists ((P + X) / 2). split; [apply num_half, num_add; (done || lia)|].
    pose proof (even_or_odd (P + X)) as [[E2 E3]|[E2 E3]]; [lia|].
    rewrite Zplus_mod, Hodd in E2. pose proof (Z.mod_pos_bound X 2). pose proof (even_or_odd X).
    replace (X mod 2) with 1 in E2 by lia. done.
Qed.

Lemma halve_loop_ok fuel : forall u x U X,
  quot u x U X -> U < 2 ^ Z.of_nat fuel ->
  exists u' x' U' X', halve_loop (S fuel) p u x = Some (u', x') /\ quot u' x' U' X' /\
    U' mod 2 = 1 /\ exists k, 0 <= k /\ U = U' * 2 ^ k.
Proof.
  induction fuel as [|fuel IH]; intros u x U X Hq HU; [destruct Hq; cbn in HU; lia|].
  change (halve_loop (S (S fuel)) p u x) with
    (if MCL_BIG_parity u =? 0 then
       halve_loop (S fuel) p (MCL_BIG_shr u 1)
         (MCL_BIG_shr (if negb (MCL_BIG_parity x =? 0) then fst (MCL_BIG_norm (MCL_BIG_add p x)) else x) 1)
     else Some (u, x)).
  destruct Hq as [Hu Hx HU0 HX HD]. rewrite (num_parity u U Hu).
  destruct (even_or_odd U) as [[-> E]|[E1 E]]; cbn [Z.eqb].
  - destruct (halve_x x X Hx HX) as (X' & Hx' & HX' & EX). rewrite pow2_S in HU.
    destruct (IH (MCL_BIG_shr u 1) (MCL_BIG_shr (if negb (MCL_BIG_parity x =? 0) then fst (MCL_BIG_norm (MCL_BIG_add p x)) else x) 1)
      (U / 2) X') as (u' & x' & U' & X2 & Er & Hq & Ho & k & Hk & Ek);
      [|lia|].
    { split; [by apply num_half|done|lia|done|]. apply odd_gauss.
      replace (2 * (A * X' - U / 2)) with (A * (2 * X') - U) by lia.
      destruct EX as [->| ->]; [done|]. replace (A * (X + P) - U) with (A * X - U + A * P) by ring.
      apply Z.divide_add_r; [done|by apply Z.divide_factor_r]. }
    exists u', x', U', X2. split_and!; [done..|]. exists (Z.succ k). split; [lia|].
    rewrite Z.pow_succ_r by done. lia.
  - rewrite E1. exists u, x, U, X. split_and!; [done|by split|done|]. exists 0. lia.
Qed.

(** [x1-x2] in the range of the modulus, from words that need not be digits. *)
Lemma num_sub_mod x y X Y : num MCL_NLEN x X -> num MCL_NLEN y Y -> 0 <= X < P -> 0 <= Y < P ->
  num MCL_NLEN (sub_mod p x y) (if Y <=? X then X - Y else X + (P - Y)).
Proof.
  intros Hx Hy HX HY. pose proof lim_single. pose proof words_2. unfold sub_mod.
  change MCL_BIG_comp with w_comp. rewrite (comp_ge x y X Y Hx Hy).
  destruct (Z.leb_spec Y X) as [Hle|Hgt]; [apply num_sub; (done || lia)|].
  pose proof (num_digits _ _ _ Hx ltac:(lia) ltac:(lia)) as Dx.
  pose proof (num_digits _ _ _ Hy ltac:(lia) ltac:(lia)) as Dy.
  pose proof (num_digits _ _ _ Hp ltac:(lia) HP) as Dp.
  pose proof (num_length _ _ _ Hx) as Lx. pose proof (num_length _ _ _ Hy) as Ly. pose proof (num_length _ _ _ Hp) as Lp.
  assert (forall z w, digit z -> digit w -> - W < z + -1 * w < W) as Hdd by (unfold digit; lia).
  destruct (sub_val p y) as [Et E]; [congruence| |].
  { apply Forall2_same_length_lookup_2; [congruence|]. intros i z w Hz Hw. apply loose_word.
    pose proof (Hdd z w (Forall_lookup_1 _ _ _ _ Dp Hz) (Forall_lookup_1 _ _ _ _ Dy Hw)).
    unfold loose. pose proof W_half. pose proof W_pos. lia. }
  assert (Forall (λ z, - W < z < W) (MCL_BIG_sub p y)) as Dt.
  { rewrite E. apply Forall_lookup_2. intros i t Ht. apply lookup_zip_with_Some in Ht as (z & w & -> & Hz & Hw).
    exact (Hdd z w (Forall_lookup_1 _ _ _ _ Dp Hz) (Forall_lookup_1 _ _ _ _ Dy Hw)). }
  assert (length (MCL_BIG_sub p y) = MCL_NLEN) as Lt by (rewrite E, length_zip_with_l_eq; congruence).
  assert (Forall2 (λ z w, loose (z + 1 * w)) x (MCL_BIG_sub p y)) as Hl.
  { apply Forall2_same_length_lookup_2; [congruence|]. intros i z w Hz Hw.
    pose proof (Forall_lookup_1 _ _ _ _ Dx Hz). pose proof (Forall_lookup_1 _ _ _ _ Dt Hw).
    unfold digit, loose in *. pose proof W_half. pose proof W_pos. cbn beta in *. lia. }
  destruct (add_val x (MCL_BIG_sub p y)) as [Ev E2]; [congruence| |].
  { eapply Forall2_impl; [exact Hl|]. intros. by apply loose_word. }
  apply num_norm; [|lia|rewrite E2; by apply zip_loose| |lia].
  - rewrite E2, length_zip_with_l_eq; congruence.
  - rewrite Ev, Et, (num_val _ _ _ Hx), (num_val _ _ _ Hy), (num_val _ _ _ Hp). lia.
Qed.

(** One subtraction of the inversion. *)
Lemma quot_sub u v x y U V X Y :
  quot u x U X -> quot v y V Y -> V < U ->
  exists Z0, quot (fst (MCL_BIG_norm (MCL_BIG_sub u v))) (sub_mod p x y) (U - V) Z0.
Proof.
  intros [Hu Hx HU HX HD] [Hv Hy HV HY HE] Hlt. pose proof lim_single. pose proof words_2.
  eexists. split; [apply num_sub; (done || lia)|by apply num_sub_mod|lia| |].
  - destruct (Z.leb_spec Y X); lia.
  - destruct (Z.leb_spec Y X).
    + replace (A * (X - Y) - (U - V)) with (A * X - U - (A * Y - V)) by ring. by apply Z.divide_sub_r.
    + replace (A * (X + (P - Y)) - (U - V)) with (A * X - U - (A * Y - V) + A * P) by ring.
      apply Z.divide_add_r; [by apply Z.divide_sub_r|by apply Z.divide_factor_r].
Qed.
Lemma coprime_intro X Y : (forall d, (d | X) -> (d | Y) -> (d | 1)) -> Z.gcd X Y = 1.
Proof.
  intros Hd. apply Z.divide_1_r_nonneg; [apply Z.gcd_nonneg|].
  apply Hd; [apply Z.gcd_divide_l|apply Z.gcd_divide_r].
Qed.

Lemma coprime_elim X Y d : Z.gcd X Y = 1 -> (d | X) -> (d | Y) -> (d | 1).
Proof. intros <-. apply Z.gcd_greatest. Qed.

(** What halving does to a number. *)
Lemma halved U U' k : 0 < U -> 0 <= k -> U = U' * 2 ^ k -> U' mod 2 = 1 ->
  0 < U' <= U /\ (U' | U) /\ (U mod 2 = 0 -> 2 * U' <= U).
Proof.
  intros HU Hk E Ho. assert (0 < 2 ^ k) by (apply Z.pow_pos_nonneg; lia).
  assert (0 < U') by nia. split_and!; [done|nia|by exists (2 ^ k); rewrite E; ring|].
  intros He. destruct (decide (k = 0)) as [->|]; [rewrite E, Z.pow_0_r, Z.mul_1_r in He; lia|].
  replace k with (Z.succ (k - 1)) in E by lia. rewrite Z.pow_succ_r in E by lia.
  assert (0 < 2 ^ (k - 1)) by (apply Z.pow_pos_nonneg; lia). nia.
Qed.

Lemma comp_one u U : num MCL_NLEN u U -> (MCL_BIG_comp u MCL_BIG_one =? 0) = (U =? 1).
Proof.
  intros Hu. change MCL_BIG_comp with w_comp. rewrite (wo_comp u _ U 1 Hu num_one).
  destruct (Z.eqb_spec U 1) as [->|]; [done|]. apply Z.eqb_neq. rewrite Z.sgn_null_iff. lia.
Qed.

Lemma full_fuel : exists f, div_fuel = S f /\ 2 * full <= 2 ^ Z.of_nat f.
Proof.
  pose proof lim_single. pose proof (lim_fuel (n := MCL_NLEN)). pose proof full_pos.
  destruct div_fuel as [|f]; [cbn in *; lia|]. exists f. rewrite pow2_S in *. lia.
Qed.

(** The state at the head of the loop: the numbers have no common factor, and the
    product is small enough for the fuel, or will be after a halving. *)
Record inv_state (f : nat) u v x1 x2 U V : Prop := {
  is_u : exists X, quot u x1 U X;
  is_v : exists X, quot v x2 V X;
  is_gcd : Z.gcd U V = 1;
  is_small : U * V < 2 ^ Z.of_nat f \/ U * V < 2 ^ Z.of_nat (S f) /\ (U mod 2 = 0 \/ V mod 2 = 0)
}.

(** A round: both halved, then the smaller subtracted from the larger. *)
Lemma inv_round f u v x1 x2 U V :
  inv_state f u v x1 x2 U V -> U <> 1 -> V <> 1 ->
  exists u' x1' v' x2' U' V', halve_loop div_fuel p u x1 = Some (u', x1') /\
    halve_loop div_fuel p v x2 = Some (v', x2') /\ (exists X, quot u' x1' U' X) /\ (exists X, quot v' x2' V' X) /\
    U' mod 2 = 1 /\ V' mod 2 = 1 /\ Z.gcd U' V' = 1 /\ U' <> V' /\ U' * V' < 2 ^ Z.of_nat f.
Proof.
  intros [[X1 Q1] [X2 Q2] Hg Hs] HU1 HV1. destruct full_fuel as (g & -> & Hfg). pose proof full_pos.
  pose proof (q_pos _ _ _ _ Q1). pose proof (q_pos _ _ _ _ Q2).
  destruct (halve_loop_ok g u x1 U X1 Q1) as (u' & x1' & U' & X1' & E1 & Q1' & O1 & k & Hk & EU); [lia|].
  destruct (halve_loop_ok g v x2 V X2 Q2) as (v' & x2' & V' & X2' & E2 & Q2' & O2 & l & Hl & EV); [lia|].
  destruct (halved U U' k) as (HU & DU & HU2); [lia..|done|]. destruct (halved V V' l) as (HV & DV & HV2); [lia..|done|].
  assert (Z.gcd U' V' = 1) as Hg'.
  { apply coprime_intro. intros d D1 D2. apply (coprime_elim U V d Hg);
      [exact (Z.divide_trans _ _ _ D1 DU)|exact (Z.divide_trans _ _ _ D2 DV)]. }
  exists u', x1', v', x2', U', V'. split_and!; [done|done|by exists X1'|by exists X2'|done|done|done| |].
  - intros <-. rewrite Z.gcd_diag, Z.abs_eq in Hg' by lia. subst U'.
    assert (forall j Y, 0 <= j -> Y = 1 * 2 ^ j -> Y <> 1 -> (2 | Y)) as Htwo.
    { intros j Y Hj -> Hne. destruct (decide (j = 0)) as [->|]; [done|].
      exists (2 ^ (j - 1)). rewrite Z.mul_1_l, Z.mul_comm, <- Z.pow_succ_r by lia. f_equal. lia. }
    pose proof (coprime_elim U V 2 Hg (Htwo k U Hk EU HU1) (Htwo l V Hl EV HV1)) as D.
    apply Z.divide_1_r in D. lia.
  - rewrite pow2_S in Hs. destruct Hs as [Hs|[Hs [He|He]]]; [nia|specialize (HU2 He); nia|specialize (HV2 He); nia].
Qed.

Lemma inv_loop_ok f : forall u v x1 x2 U V, inv_state f u v x1 x2 U V ->
  exists r R, inv_loop (S f) p u v x1 x2 = Some r /\ num MCL_NLEN r R /\ 0 <= R < P /\ (P | A * R - 1).
Proof.
  induction f as [|f IH]; intros u v x1 x2 U V Hst;
    destruct (is_u _ _ _ _ _ _ _ Hst) as [X1 Q1]; destruct (is_v _ _ _ _ _ _ _ Hst) as [X2 Q2];
    cbn [inv_loop]; rewrite (comp_one u U (q_u _ _ _ _ Q1)), (comp_one v V (q_u _ _ _ _ Q2));
    (destruct (Z.eqb_spec U 1) as [->|HU]; cbn [negb andb];
      [rewrite (num_copy _ _ (q_x _ _ _ _ Q1)); exists x1, X1; destruct Q1; split_and!; (done || lia)|]);
    (destruct (Z.eqb_spec V 1) as [->|HV]; cbn [negb];
      [rewrite (num_copy _ _ (q_x _ _ _ _ Q2)); exists x2, X2; destruct Q2; split_and!; (done || lia)|]);
    destruct (inv_round _ _ _ _ _ _ _ Hst HU HV)
      as (u' & x1' & v' & x2' & U' & V' & -> & E2 & [Y1 Q1'] & [Y2 Q2'] & O1 & O2 & Hg & Hne & Hlt);
    pose proof (q_pos _ _ _ _ Q1'); pose proof (q_pos _ _ _ _ Q2').
  - change (2 ^ Z.of_nat 0) with 1 in Hlt. nia.
  - cbn [mbind option_bind]. rewrite E2. cbn [mbind option_bind]. change MCL_BIG_comp with w_comp.
    rewrite (comp_ge u' v' U' V' (q_u _ _ _ _ Q1') (q_u _ _ _ _ Q2')).
    pose proof (even_or_odd U'). pose proof (even_or_odd V').
    destruct (Z.leb_spec V' U').
    + destruct (quot_sub u' v' x1' x2' U' V' Y1 Y2 Q1' Q2') as [Z1 Q]; [lia|].
      eapply IH. split; [by exists Z1|by exists Y2| |].
      * apply coprime_intro. intros d D1 D2. apply (coprime_elim U' V' d Hg); [|done].
        replace U' with (U' - V' + V') by ring. by apply Z.divide_add_r.
      * right. split; [nia|left]. pose proof (even_or_odd (U' - V')). lia.
    + destruct (quot_sub v' u' x2' x1' V' U' Y2 Y1 Q2' Q1') as [Z1 Q]; [lia|].
      eapply IH. split; [by exists Y1|by exists Z1| |].
      * apply coprime_intro. intros d D1 D2. apply (coprime_elim U' V' d Hg); [done|].
        replace V' with (V' - U' + U') by ring. by apply Z.divide_add_r.
      * right. split; [nia|right]. pose proof (even_or_odd (V' - U')). lia.
Qed.
End modulus.

(** The inverse of a number modulo an odd number that has no factor in common. *)
Lemma invmodp_num a p X P :
  num MCL_NLEN a X -> 2 * X < lim MCL_NLEN -> num MCL_NLEN p P -> 1 < P < full -> P mod 2 = 1 ->
  Z.gcd X P = 1 ->
  exists r a' R, MCL_BIG_invmodp a p = Some (r, (a', p)) /\ num MCL_NLEN a' (X mod P) /\
    num MCL_NLEN r R /\ 0 <= R < P /\ (X * R) mod P = 1.
Proof.
  intros Ha HX Hp HP Ho Hg. unfold MCL_BIG_invmodp. pose proof (Z.mod_pos_bound X P ltac:(lia)).
  destruct (mod_ok a p X P) as (a' & -> & Ha'); [done..|lia|]. cbn [mbind option_bind].
  rewrite (num_copy a' _ Ha'), (num_copy p _ Hp), (num_copy _ _ num_one).
  destruct full_fuel as (g & Eg & Hfg). replace (2 * div_fuel)%nat with (S (S (2 * g))) by lia.
  assert (Z.gcd (X mod P) P = 1) as Hg' by (by rewrite Z.gcd_mod, Z.gcd_comm by lia).
  assert (0 < X mod P) as Hpos.
  { destruct (decide (X mod P = 0)) as [E|]; [|lia]. rewrite E, Z.gcd_0_l, Z.abs_eq in Hg' by lia. lia. }
  destruct (inv_loop_ok p P Hp ltac:(lia) Ho X (S (2 * g)) a' p MCL_BIG_one MCL_BIG_zero (X mod P) P)
    as (r & R & -> & Hr & HR & D).
  - split; [exists 1|exists 0|done|left].
    + split; [done|apply num_one|lia|lia|]. exists (X / P). pose proof (Z.div_mod X P). lia.
    + split; [done|apply num_zero|lia|lia|]. exists (-1). lia.
    + rewrite pow2_S. replace (Z.of_nat (2 * g)) with (Z.of_nat g + Z.of_nat g) by lia.
      rewrite Z.pow_add_r by lia. nia.
  - cbn [mbind option_bind]. exists r, a', R. split_and!; try done; try lia.
    destruct D as [k D]. replace (X * R) with (1 + k * P) by lia.
    rewrite Z_mod_plus_full. apply Z.mod_small. lia.
Qed.

(** Division: the quotient times the divisor is the dividend. *)
Lemma moddiv_num a b m X Y V :
  num MCL_NLEN a X -> 2 * X < lim MCL_NLEN -> num MCL_NLEN b Y -> 2 * Y < lim MCL_NLEN ->
  num MCL_NLEN m V -> 1 < V < full -> V mod 2 = 1 -> Z.gcd Y V = 1 ->
  exists r a' b' R, MCL_BIG_moddiv a b m = Some (r, (a', b', m)) /\ num MCL_NLEN r R /\ 0 <= R < V /\
    (R * Y) mod V = X mod V.
Proof.
  intros Ha HX Hb HY Hm HV Ho Hg. pose proof (Z.mod_pos_bound X V ltac:(lia)). unfold MCL_BIG_moddiv.
  destruct (mod_ok a m X V) as (a' & -> & Ha'); [done..|lia|]. cbn [mbind option_bind].
  destruct (invmodp_num b m Y V) as (z & b' & Zi & -> & _ & Hz & HZ & EZ); [done..|]. cbn [mbind option_bind].
  destruct (num_mul a' z (X mod V) Zi) as (d & -> & Hd & Hd2); [done..|lia|lia|].
  destruct (dmod_ok d m _ V Hd Hd2 Hm) as (r & -> & Hr); [lia|]. cbn [mbind option_bind].
  exists r, a', b', ((X mod V * Zi) mod V). split_and!; [done|done|apply Z.mod_pos_bound; lia..|].
  rewrite Zmult_mod_idemp_l, <- Z.mul_assoc, (Z.mul_comm Zi), Zmult_mod, EZ, Z.mul_1_r, !Zmod_mod. done.
Qed.

(** ** The Jacobi symbol *)

Lemma gcd_odd_double X P : P mod 2 = 1 -> Z.gcd P (2 * X) = Z.gcd P X.
Proof.
  intros Ho. apply Z.divide_antisym_nonneg; try apply Z.gcd_nonneg; apply Z.gcd_greatest;
    try apply Z.gcd_divide_l.
  - apply (Z.gauss _ 2); [apply Z.gcd_divide_r|].
    apply coprime_intro. intros d D1 D2.
    assert (d | P) as [k Ek] by (etrans; [exact D1|apply Z.gcd_divide_l]).
    destruct D2 as [l El]. exists (k - P / 2 * l).
    replace ((k - P / 2 * l) * d) with (k * d - P / 2 * (l * d)) by ring.
    rewrite <- Ek, <- El. pose proof (Z.div_mod P 2). lia.
  - apply Z.divide_mul_r, Z.gcd_divide_r.
Qed.

Lemma strip_loop_ok P fuel : P mod 2 = 1 -> forall x X k,
  num MCL_NLEN x X -> 0 < X < 2 ^ Z.of_nat fuel ->
  exists x' X' k', strip_loop (S fuel) x k = Some (x', k') /\ num MCL_NLEN x' X' /\ 0 < X' <= X /\
    X' mod 2 = 1 /\ Z.gcd P X' = Z.gcd P X.
Proof.
  intros Ho. induction fuel as [|fuel IH]; intros x X k Hx HX; [cbn in HX; lia|].
  change (strip_loop (S (S fuel)) x k) with
    (if MCL_BIG_parity x =? 0 then strip_loop (S fuel) (MCL_BIG_shr x 1) (k + 1) else Some (x, k)).
  rewrite (num_parity x X Hx). destruct (even_or_odd X) as [[-> E]|[E1 E]]; cbn [Z.eqb].
  - rewrite pow2_S in HX.
    destruct (IH _ (X / 2) (k + 1) (num_half x X Hx)) as (x' & X' & k' & -> & Hx' & HX' & Ho' & Eg); [lia|].
    exists x', X', k'. split_and!; try done; try lia. rewrite Eg, <- (gcd_odd_double (X / 2) P Ho). f_equal. lia.
  - rewrite E1. exists x, X, k. split_and!; try done; lia.
Qed.

Lemma num_lastbits x X k : num MCL_NLEN x X -> X < full -> snd (MCL_BIG_lastbits x k) = x.
Proof.
  intros Hx HX. unfold MCL_BIG_lastbits. cbn [snd]. pose proof lim_single.
  apply (num_norm_copy x X Hx). pose proof full_pos. lia.
Qed.

Lemma comp_sgn x y X Y : num MCL_NLEN x X -> num MCL_NLEN y Y -> MCL_BIG_comp x y = Z.sgn (X - Y).
Proof. apply num_comp. Qed.

(** A remainder is less than half of what it is taken from. *)
Lemma mod_half P X : 0 < X <= P -> 2 * (P mod X) < P.
Proof.
  intros HX. pose proof (Z.div_mod P X). pose proof (Z.mod_pos_bound P X).
  assert (1 <= P / X) by (apply Z.div_le_lower_bound; lia). nia.
Qed.

Lemma jacobi_loop_S f x n (m : Z) : jacobi_loop (S f) x n m =
  if 0 <? MCL_BIG_comp n MCL_BIG_one then
    if MCL_BIG_comp x MCL_BIG_zero =? 0 then Some 0
    else
      let '(n8, n) := MCL_BIG_lastbits n 3 in
      '(x, k) ← strip_loop div_fuel x 0;
      let m := if Z.rem k 2 =? 1 then m + Z.quot (n8 * n8 - 1) 8 else m in
      let '(x4, x) := MCL_BIG_lastbits x 2 in
      let m := m + Z.quot ((n8 - 1) * (x4 - 1)) 4 in
      '(t, x) ← MCL_BIG_mod (MCL_BIG_copy n) x;
      jacobi_loop f (MCL_BIG_copy t) (MCL_BIG_copy x) (Z.rem m 2)
  else Some (if m =? 0 then 1 else -1).
Proof. done. Qed.

Lemma jacobi_loop_ok f : forall x n X P (m : Z),
  num MCL_NLEN x X -> num MCL_NLEN n P -> P < full -> P mod 2 = 1 -> X < P ->
  X * P < 2 ^ Z.of_nat f ->
  exists j, jacobi_loop (S f) x n m = Some j /\ (j = 0 \/ j = 1 \/ j = -1) /\ (j = 0 <-> Z.gcd P X <> 1).
Proof.
  destruct full_fuel as (g & Eg & Hfg). pose proof full_pos.
  induction f as [|f IH]; intros x n X P m Hx Hn HP Ho HX Hf; rewrite jacobi_loop_S;
    rewrite (comp_sgn n _ P 1 Hn num_one), (comp_sgn x _ X 0 Hx num_zero);
    pose proof (num_range _ _ _ Hx) as [HX0 _];
    (destruct (Z.ltb_spec 0 (Z.sgn (P - 1))) as [HP1|HP1];
      [|assert (P = 1) as -> by lia; exists (if m =? 0 then 1 else -1); rewrite Z.gcd_1_l;
        split_and!; [done|destruct (m =? 0); auto|destruct (m =? 0); lia]]);
    (destruct (Z.eqb_spec (Z.sgn (X - 0)) 0) as [HX1|HX1];
      [assert (X = 0) as -> by lia; exists 0; rewrite Z.gcd_0_r, Z.abs_eq by lia; split_and!; [done|auto|lia]|]).
  { change (2 ^ Z.of_nat 0) with 1 in Hf. nia. }
  pose proof (num_lastbits n P 3 Hn HP) as En. destruct (MCL_BIG_lastbits n 3) as [n8 n']. cbn [snd] in En. subst n'.
  rewrite Eg. destruct (strip_loop_ok P g Ho x X 0 Hx) as (x' & X' & k' & -> & Hx' & HX' & Ho' & Egcd); [lia|].
  cbn [mbind option_bind].
  pose proof (num_lastbits x' X' 2 Hx' ltac:(lia)) as Ex. destruct (MCL_BIG_lastbits x' 2) as [x4 x2]. cbn [snd] in Ex. subst x2.
  pose proof lim_single. pose proof (Z.mod_pos_bound P X' ltac:(lia)). pose proof (mod_half P X' ltac:(lia)).
  rewrite (num_copy n P Hn). destruct (mod_ok n x' P X' Hn ltac:(lia) Hx' ltac:(lia)) as (t & -> & Ht).
  cbn [mbind option_bind]. rewrite (num_copy t _ Ht), (num_copy x' _ Hx').
  rewrite <- Egcd, (Z.gcd_comm P X'), <- (Z.gcd_mod P X'), Z.gcd_comm by lia. rewrite pow2_S in Hf.
  apply IH; try done; try lia. nia.
Qed.

(** The symbol ends, with 0 exactly when the number and the modulus have a factor
    in common. *)
Lemma jacobi_num a p X P :
  num MCL_NLEN a X -> 2 * X < lim MCL_NLEN -> num MCL_NLEN p P -> 1 < P < full -> P mod 2 = 1 ->
  exists j, MCL_BIG_jacobi a p = Some j /\ (j = 0 \/ j = 1 \/ j = -1) /\ (j = 0 <-> Z.gcd X P <> 1).
Proof.
  intros Ha HX Hp HP Ho. unfold MCL_BIG_jacobi. pose proof lim_single.
  rewrite (num_parity p P Hp), Ho, (comp_sgn a _ X 0 Ha num_zero), (comp_sgn p _ P 1 Hp num_one), (Z.sgn_pos (P - 1)) by lia.
  pose proof (num_range _ _ _ Ha) as [HX0 _]. cbn [Z.eqb orb].
  destruct (Z.eqb_spec (Z.sgn (X - 0)) 0) as [HX1|HX1]; cbn [orb Z.leb Z.compare].
  { assert (X = 0) as -> by lia. exists 0. rewrite Z.gcd_0_l, Z.abs_eq by lia. split_and!; [done|auto|lia]. }
  rewrite (num_norm_copy a X), (num_copy a X), (num_copy p P) by done.
  destruct (mod_ok a p X P) as (x & -> & Hx); [done..|lia|]. cbn [mbind option_bind].
  pose proof (Z.mod_pos_bound X P ltac:(lia)). destruct full_fuel as (g & Eg & Hfg).
  replace (2 * div_fuel)%nat with (S (S (2 * g))) by lia.
  rewrite (Z.gcd_comm X P), <- (Z.gcd_mod X P), Z.gcd_comm by lia. apply jacobi_loop_ok; try done; try lia.
  rewrite pow2_S. replace (Z.of_nat (2 * g)) with (Z.of_nat g + Z.of_nat g) by lia.
  rewrite Z.pow_add_r by lia. pose proof full_pos. nia.
Qed.
End inverse.

(** ** Bits and small factors *)
Section bits.
Context `{MclConfigOk}.
Implicit Types a : list Z.
Abbreviation W := (2 ^ MCL_BASEBITS).
Abbreviation at_ := Sha256.at_.

Lemma count_halvings_val fuel : forall c bts, 0 <= c < 2 ^ Z.of_nat fuel ->
  count_halvings fuel c bts = bts + (if c =? 0 then 0 else Z.log2 c + 1).
Proof.
  induction fuel as [|fuel IH]; intros c bts Hc; cbn [count_halvings].
  - cbn in Hc. assert (c = 0) as -> by lia. cbn. lia.
  - destruct (Z.eqb_spec c 0) as [->|Hne]; [lia|]. rewrite pow2_S in Hc. rewrite Z.quot_div_nonneg by lia.
    rewrite IH by (split; [apply Z.div_pos|apply Z.div_lt_upper_bound]; lia).
    pose proof (Z.div_mod c 2). pose proof (Z.mod_pos_bound c 2).
    destruct (Z.eqb_spec (c / 2) 0).
    + assert (c = 1) as -> by lia. cbn. lia.
    + change 2 with (2 ^ 1) at 1. rewrite <- Z.shiftr_div_pow2, Z.log2_shiftr by lia.
      assert (1 <= Z.log2 c) by (apply Z.log2_le_pow2; lia). lia.
Qed.

Lemma top_word_val n a : (n <= length a)%nat ->
  match top_word n a with
  | None => val (take n a) = 0
  | Some k => (k < n)%nat /\ at_ a k <> 0 /\ val (take n a) = val (take k a) + W ^ Z.of_nat k * at_ a k
  end.
Proof.
  induction n as [|n IH]; intros Hn; cbn [top_word]; [done|].
  destruct (lookup_lt_is_Some_2 a n) as [x Hx]; [lia|].
  assert (at_ a n = x) as Ex by (unfold at_; by rewrite Hx).
  assert (val (take (S n) a) = val (take n a) + W ^ Z.of_nat n * x) as Ev.
  { rewrite (take_S_r a n x Hx), val_app, length_take_le by lia. cbn [val]. lia. }
  rewrite Ex. destruct (Z.eqb_spec x 0) as [->|Hne].
  - specialize (IH ltac:(lia)). rewrite Ev, Z.mul_0_r, Z.add_0_r. destruct (top_word n a); [|done].
    destruct IH as (? & ? & ?). split_and!; [lia|done|done].
  - rewrite Ex. split_and!; [lia|done|done].
Qed.

(** The number of bits is the position of the highest one. *)
Lemma nbits_num a v : num MCL_NLEN a v -> 2 * v < lim MCL_NLEN ->
  MCL_BIG_nbits a = (if v =? 0 then 0 else Z.log2 v + 1, a).
Proof.
  intros Ha Hv. pose proof words_2. unfold MCL_BIG_nbits. rewrite (num_norm_copy a v) by done. f_equal.
  pose proof (top_word_val MCL_NLEN a) as Ht. rewrite take_ge, (num_val _ _ _ Ha) in Ht
    by (rewrite (num_length _ _ _ Ha); lia).
  specialize (Ht ltac:(rewrite (num_length _ _ _ Ha); lia)). destruct (top_word MCL_NLEN a) as [k|]; [|by subst v].
  destruct Ht as (Hk & Hne & Ev). unfold word_bits.
  assert (Forall digit (take k a)) as Dk.
  { pose proof (num_low _ _ _ Ha) as Dl. replace k with (Nat.min k (pred MCL_NLEN)) by lia.
    rewrite <- take_take. by apply Forall_take. }
  assert (small (at_ a k)) as Hs.
  { pose proof (num_small _ _ _ Ha Hv) as Hs. destruct (lookup_lt_is_Some_2 a k) as [x Hx];
      [rewrite (num_length _ _ _ Ha); lia|]. unfold at_. rewrite Hx. exact (Forall_lookup_1 _ _ _ _ Hs Hx). }
  pose proof (val_digits _ Dk) as Vk. rewrite length_take_le in Vk by (rewrite (num_length _ _ _ Ha); lia).
  pose proof base_8. pose proof base_room. unfold small in Hs.
  rewrite count_halvings_val.
  2:{ split; [lia|]. rewrite Z2Nat.id by lia. assert (2 ^ (MCL_CHUNK - 2) <= 2 ^ MCL_CHUNK)
        by (apply Z.pow_le_mono_r; lia). lia. }
  pose proof (WP_pos k). set (c := at_ a k) in *. clearbody c.
  destruct (Z.eqb_spec c 0); [lia|]. destruct (Z.eqb_spec v 0); [nia|].
  rewrite (Z.log2_unique v (MCL_BASEBITS * Z.of_nat k + Z.log2 c)); [lia| |].
  - pose proof (Z.log2_nonneg c). nia.
  - pose proof (Z.log2_spec c ltac:(lia)) as Hl. pose proof (Z.log2_nonneg c).
    rewrite <- Z.add_succ_r, !Z.pow_add_r, Z.pow_mul_r by nia.
    set (P := W ^ Z.of_nat k) in *. set (Q := 2 ^ Z.log2 c) in *.
    set (R := 2 ^ Z.succ (Z.log2 c)) in *. clearbody P Q R. nia.
Qed.
End bits.

(** ** The results in terms of the words *)
Section results.
Context `{MclConfigOk}.
Implicit Types a b m p : list Z.

(** A number as it comes from [MCL_BIG_fromBytes]: all words are digits. *)
Definition digits a : Prop := Forall digit a /\ length a = MCL_NLEN.

Lemma digits_is_num a : digits a -> num MCL_NLEN a (val a) /\ 0 <= val a < (2 ^ MCL_BASEBITS) ^ Z.of_nat MCL_NLEN.
Proof.
  intros [Ha Hl]. pose proof (val_digits a Ha) as Hv. rewrite Hl in Hv. split; [|done].
  pose proof words_2. destruct MCL_NLEN as [|k] eqn:E; [lia|]. by apply digits_num.
Qed.

Lemma num_is_digits a X :
  num MCL_NLEN a X -> X < (2 ^ MCL_BASEBITS) ^ Z.of_nat MCL_NLEN -> digits a /\ val a = X.
Proof.
  intros Ha HX. pose proof words_2. split; [split|]; [eapply num_digits; (done || lia)|apply Ha..].
Qed.

(** [C13] For any two numbers and any modulus but 0, [MCL_BIG_modmul] ends, returns
    the product modulo the modulus as a number of digits, and leaves the modulus as
    it was. *)
Theorem modmul_correct a b m :
  digits a -> digits b -> digits m -> 0 < val m ->
  exists r a' b', MCL_BIG_modmul a b m = Some (r, (a', b', m)) /\ digits r /\
    val r = (val a * val b) mod val m.
Proof.
  intros Ha Hb Hm Hpos. apply digits_is_num in Ha as [Ha Ra]. apply digits_is_num in Hb as [Hb Rb].
  apply digits_is_num in Hm as [Hm Rm]. pose proof lim_single.
  destruct (modmul_num a b m (val a) (val b) (val m)) as (r & a' & b' & E & Hr & _); [done|lia|done|lia|done|lia|].
  exists r, a', b'. split; [done|]. apply num_is_digits; [done|].
  pose proof (Z.mod_pos_bound (val a * val b) (val m)). lia.
Qed.

(** [C14] For an odd modulus above 1 and a number that has no factor in common with it,
    [MCL_BIG_invmodp] ends and returns the number below the modulus whose product with
    the argument is 1 modulo the modulus. *)
Theorem invmodp_correct a p :
  digits a -> digits p -> 1 < val p -> val p mod 2 = 1 -> Z.gcd (val a) (val p) = 1 ->
  exists r a', MCL_BIG_invmodp a p = Some (r, (a', p)) /\ digits r /\ val r < val p /\
    (val a * val r) mod val p = 1.
Proof.
  intros Ha Hp H1 Ho Hg. apply digits_is_num in Ha as [Ha Ra]. apply digits_is_num in Hp as [Hp Rp].
  pose proof lim_single.
  destruct (invmodp_num a p (val a) (val p)) as (r & a' & R & E & _ & Hr & HR & Em); [done|lia|done|lia|done|done|].
  destruct (num_is_digits r R Hr ltac:(lia)) as [Hd Er]. exists r, a'. rewrite Er.
  split_and!; (done || lia).
Qed.
End results.

(** The prime of Curve25519 and a small number. *)
Definition p25519 : list Z := (2 ^ 29 - 19) :: replicate 7 (2 ^ 29 - 1) ++ [2 ^ 23 - 1].
Definition five : list Z := 5 :: replicate 8 0.

Lemma p25519_digits : digits (H := C25519) p25519.
Proof. split; [|done]. apply Forall_forall. intros x Hx. unfold digit. cbn in Hx. set_unfold. cbn. lia. Qed.
Lemma five_digits : digits (H := C25519) five.
Proof. split; [|done]. apply Forall_forall. intros x Hx. unfold digit. cbn in Hx. set_unfold. cbn. lia. Qed.

Lemma modmul_correct_witness :
  exists r a' b', MCL_BIG_modmul (H := C25519) p25519 five p25519 = Some (r, (a', b', p25519)) /\
    digits (H := C25519) r /\ val (H := C25519) r = (val (H := C25519) p25519 * 5) mod (2 ^ 255 - 19).
Proof.
  apply (modmul_correct (H := C25519) p25519 five p25519);
    [apply p25519_digits|apply five_digits|apply p25519_digits|reflexivity].
Defined.

Lemma invmodp_correct_witness :
  exists r a', MCL_BIG_invmodp (H := C25519) five p25519 = Some (r, (a', p25519)) /\
    digits (H := C25519) r /\ val (H := C25519) r < 2 ^ 255 - 19 /\
    (5 * val (H := C25519) r) mod (2 ^ 255 - 19) = 1.
Proof.
  apply (invmodp_correct (H := C25519) five p25519);
    [apply five_digits|apply p25519_digits|reflexivity|reflexivity|reflexivity].
Defined.
