(* ===== verification/Aes.v ===== *)
(** * Aes: the block cipher of the MIRACL library
      (common/vendors/MIRACL/ara/src/lib/mcl_aes.c)

    Encryption and decryption work on four words with tables that combine the
    substitution with the mixing of a column.  [char] is a byte without sign, as on
    the processor of the bridge.  A routine that changes the context or a buffer
    returns them. *)

From S2P Require Import Prelude Sha256.

Module Aes.
Abbreviation at_ := Sha256.at_.

Definition NB : nat := 4.

(** ** Tables *)
Definition InCo : list Z := [
  0xB; 0xD; 0x9; 0xE].

Definition ptab : list Z := [
  1; 3; 5; 15; 17; 51; 85; 255; 26; 46; 114; 150; 161; 248; 19; 53; 95; 225; 56; 72; 216;
  115; 149; 164; 247; 2; 6; 10; 30; 34; 102; 170; 229; 52; 92; 228; 55; 89; 235; 38; 106;
  190; 217; 112; 144; 171; 230; 49; 83; 245; 4; 12; 20; 60; 68; 204; 79; 209; 104; 184;
  211; 110; 178; 205; 76; 212; 103; 169; 224; 59; 77; 215; 98; 166; 241; 8; 24; 40; 120;
  136; 131; 158; 185; 208; 107; 189; 220; 127; 129; 152; 179; 206; 73; 219; 118; 154; 181;
  196; 87; 249; 16; 48; 80; 240; 11; 29; 39; 105; 187; 214; 97; 163; 254; 25; 43; 125; 135;
  146; 173; 236; 47; 113; 147; 174; 233; 32; 96; 160; 251; 22; 58; 78; 210; 109; 183; 194;
  93; 231; 50; 86; 250; 21; 63; 65; 195; 94; 226; 61; 71; 201; 64; 192; 91; 237; 44; 116;
  156; 191; 218; 117; 159; 186; 213; 100; 172; 239; 42; 126; 130; 157; 188; 223; 122; 142;
  137; 128; 155; 182; 193; 88; 232; 35; 101; 175; 234; 37; 111; 177; 200; 67; 197; 84; 252;
  31; 33; 99; 165; 244; 7; 9; 27; 45; 119; 153; 176; 203; 70; 202; 69; 207; 74; 222; 121;
  139; 134; 145; 168; 227; 62; 66; 198; 81; 243; 14; 18; 54; 90; 238; 41; 123; 141; 140;
  143; 138; 133; 148; 167; 242; 13; 23; 57; 75; 221; 124; 132; 151; 162; 253; 28; 36; 108;
  180; 199; 82; 246; 1].

Definition ltab : list Z := [
  0; 255; 25; 1; 50; 2; 26; 198; 75; 199; 27; 104; 51; 238; 223; 3; 100; 4; 224; 14; 52;
  141; 129; 239; 76; 113; 8; 200; 248; 105; 28; 193; 125; 194; 29; 181; 249; 185; 39; 106;
  77; 228; 166; 114; 154; 201; 9; 120; 101; 47; 138; 5; 33; 15; 225; 36; 18; 240; 130; 69;
  53; 147; 218; 142; 150; 143; 219; 189; 54; 208; 206; 148; 19; 92; 210; 241; 64; 70; 131;
  56; 102; 221; 253; 48; 191; 6; 139; 98; 179; 37; 226; 152; 34; 136; 145; 16; 126; 110;
  72; 195; 163; 182; 30; 66; 58; 107; 40; 84; 250; 133; 61; 186; 43; 121; 10; 21; 155; 159;
  94; 202; 78; 212; 172; 229; 243; 115; 167; 87; 175; 88; 168; 80; 244; 234; 214; 116; 79;
  174; 233; 213; 231; 230; 173; 232; 44; 215; 117; 122; 235; 22; 11; 245; 89; 203; 95; 176;
  156; 169; 81; 160; 127; 12; 246; 111; 23; 196; 73; 236; 216; 67; 31; 45; 164; 118; 123;
  183; 204; 187; 62; 90; 251; 96; 177; 134; 59; 82; 161; 108; 170; 85; 41; 157; 151; 178;
  135; 144; 97; 190; 220; 252; 188; 149; 207; 205; 55; 63; 91; 209; 83; 57; 132; 60; 65;
  162; 109; 71; 20; 42; 158; 93; 86; 242; 211; 171; 68; 17; 146; 217; 35; 32; 46; 137; 180;
  124; 184; 38; 119; 153; 227; 165; 103; 74; 237; 222; 197; 49; 254; 24; 13; 99; 140; 128;
  192; 247; 112; 7].

Definition fbsub : list Z := [
  99; 124; 119; 123; 242; 107; 111; 197; 48; 1; 103; 43; 254; 215; 171; 118; 202; 130; 201;
  125; 250; 89; 71; 240; 173; 212; 162; 175; 156; 164; 114; 192; 183; 253; 147; 38; 54; 63;
  247; 204; 52; 165; 229; 241; 113; 216; 49; 21; 4; 199; 35; 195; 24; 150; 5; 154; 7; 18;
  128; 226; 235; 39; 178; 117; 9; 131; 44; 26; 27; 110; 90; 160; 82; 59; 214; 179; 41; 227;
  47; 132; 83; 209; 0; 237; 32; 252; 177; 91; 106; 203; 190; 57; 74; 76; 88; 207; 208; 239;
  170; 251; 67; 77; 51; 133; 69; 249; 2; 127; 80; 60; 159; 168; 81; 163; 64; 143; 146; 157;
  56; 245; 188; 182; 218; 33; 16; 255; 243; 210; 205; 12; 19; 236; 95; 151; 68; 23; 196;
  167; 126; 61; 100; 93; 25; 115; 96; 129; 79; 220; 34; 42; 144; 136; 70; 238; 184; 20;
  222; 94; 11; 219; 224; 50; 58; 10; 73; 6; 36; 92; 194; 211; 172; 98; 145; 149; 228; 121;
  231; 200; 55; 109; 141; 213; 78; 169; 108; 86; 244; 234; 101; 122; 174; 8; 186; 120; 37;
  46; 28; 166; 180; 198; 232; 221; 116; 31; 75; 189; 139; 138; 112; 62; 181; 102; 72; 3;
  246; 14; 97; 53; 87; 185; 134; 193; 29; 158; 225; 248; 152; 17; 105; 217; 142; 148; 155;
  30; 135; 233; 206; 85; 40; 223; 140; 161; 137; 13; 191; 230; 66; 104; 65; 153; 45; 15;
  176; 84; 187; 22].

Definition rbsub : list Z := [
  82; 9; 106; 213; 48; 54; 165; 56; 191; 64; 163; 158; 129; 243; 215; 251; 124; 227; 57;
  130; 155; 47; 255; 135; 52; 142; 67; 68; 196; 222; 233; 203; 84; 123; 148; 50; 166; 194;
  35; 61; 238; 76; 149; 11; 66; 250; 195; 78; 8; 46; 161; 102; 40; 217; 36; 178; 118; 91;
  162; 73; 109; 139; 209; 37; 114; 248; 246; 100; 134; 104; 152; 22; 212; 164; 92; 204; 93;
  101; 182; 146; 108; 112; 72; 80; 253; 237; 185; 218; 94; 21; 70; 87; 167; 141; 157; 132;
  144; 216; 171; 0; 140; 188; 211; 10; 247; 228; 88; 5; 184; 179; 69; 6; 208; 44; 30; 143;
  202; 63; 15; 2; 193; 175; 189; 3; 1; 19; 138; 107; 58; 145; 17; 65; 79; 103; 220; 234;
  151; 242; 207; 206; 240; 180; 230; 115; 150; 172; 116; 34; 231; 173; 53; 133; 226; 249;
  55; 232; 28; 117; 223; 110; 71; 241; 26; 113; 29; 41; 197; 137; 111; 183; 98; 14; 170;
  24; 190; 27; 252; 86; 62; 75; 198; 210; 121; 32; 154; 219; 192; 254; 120; 205; 90; 244;
  31; 221; 168; 51; 136; 7; 199; 49; 177; 18; 16; 89; 39; 128; 236; 95; 96; 81; 127; 169;
  25; 181; 74; 13; 45; 229; 122; 159; 147; 201; 156; 239; 160; 224; 59; 77; 174; 42; 245;
  176; 200; 235; 187; 60; 131; 83; 153; 97; 23; 43; 4; 126; 186; 119; 214; 38; 225; 105;
  20; 99; 85; 33; 12; 125].

Definition rco : list Z := [
  1; 2; 4; 8; 16; 32; 64; 128; 27; 54; 108; 216; 171; 77; 154; 47].

Definition ftable : list Z := [
  0xa56363c6; 0x847c7cf8; 0x997777ee; 0x8d7b7bf6; 0xdf2f2ff; 0xbd6b6bd6; 0xb16f6fde;
  0x54c5c591; 0x50303060; 0x3010102; 0xa96767ce; 0x7d2b2b56; 0x19fefee7; 0x62d7d7b5;
  0xe6abab4d; 0x9a7676ec; 0x45caca8f; 0x9d82821f; 0x40c9c989; 0x877d7dfa; 0x15fafaef;
  0xeb5959b2; 0xc947478e; 0xbf0f0fb; 0xecadad41; 0x67d4d4b3; 0xfda2a25f; 0xeaafaf45;
  0xbf9c9c23; 0xf7a4a453; 0x967272e4; 0x5bc0c09b; 0xc2b7b775; 0x1cfdfde1; 0xae93933d;
  0x6a26264c; 0x5a36366c; 0x413f3f7e; 0x2f7f7f5; 0x4fcccc83; 0x5c343468; 0xf4a5a551;
  0x34e5e5d1; 0x8f1f1f9; 0x937171e2; 0x73d8d8ab; 0x53313162; 0x3f15152a; 0xc040408;
  0x52c7c795; 0x65232346; 0x5ec3c39d; 0x28181830; 0xa1969637; 0xf05050a; 0xb59a9a2f;
  0x907070e; 0x36121224; 0x9b80801b; 0x3de2e2df; 0x26ebebcd; 0x6927274e; 0xcdb2b27f;
  0x9f7575ea; 0x1b090912; 0x9e83831d; 0x742c2c58; 0x2e1a1a34; 0x2d1b1b36; 0xb26e6edc;
  0xee5a5ab4; 0xfba0a05b; 0xf65252a4; 0x4d3b3b76; 0x61d6d6b7; 0xceb3b37d; 0x7b292952;
  0x3ee3e3dd; 0x712f2f5e; 0x97848413; 0xf55353a6; 0x68d1d1b9; 0x0; 0x2cededc1; 0x60202040;
  0x1ffcfce3; 0xc8b1b179; 0xed5b5bb6; 0xbe6a6ad4; 0x46cbcb8d; 0xd9bebe67; 0x4b393972;
  0xde4a4a94; 0xd44c4c98; 0xe85858b0; 0x4acfcf85; 0x6bd0d0bb; 0x2aefefc5; 0xe5aaaa4f;
  0x16fbfbed; 0xc5434386; 0xd74d4d9a; 0x55333366; 0x94858511; 0xcf45458a; 0x10f9f9e9;
  0x6020204; 0x817f7ffe; 0xf05050a0; 0x443c3c78; 0xba9f9f25; 0xe3a8a84b; 0xf35151a2;
  0xfea3a35d; 0xc0404080; 0x8a8f8f05; 0xad92923f; 0xbc9d9d21; 0x48383870; 0x4f5f5f1;
  0xdfbcbc63; 0xc1b6b677; 0x75dadaaf; 0x63212142; 0x30101020; 0x1affffe5; 0xef3f3fd;
  0x6dd2d2bf; 0x4ccdcd81; 0x140c0c18; 0x35131326; 0x2fececc3; 0xe15f5fbe; 0xa2979735;
  0xcc444488; 0x3917172e; 0x57c4c493; 0xf2a7a755; 0x827e7efc; 0x473d3d7a; 0xac6464c8;
  0xe75d5dba; 0x2b191932; 0x957373e6; 0xa06060c0; 0x98818119; 0xd14f4f9e; 0x7fdcdca3;
  0x66222244; 0x7e2a2a54; 0xab90903b; 0x8388880b; 0xca46468c; 0x29eeeec7; 0xd3b8b86b;
  0x3c141428; 0x79dedea7; 0xe25e5ebc; 0x1d0b0b16; 0x76dbdbad; 0x3be0e0db; 0x56323264;
  0x4e3a3a74; 0x1e0a0a14; 0xdb494992; 0xa06060c; 0x6c242448; 0xe45c5cb8; 0x5dc2c29f;
  0x6ed3d3bd; 0xefacac43; 0xa66262c4; 0xa8919139; 0xa4959531; 0x37e4e4d3; 0x8b7979f2;
  0x32e7e7d5; 0x43c8c88b; 0x5937376e; 0xb76d6dda; 0x8c8d8d01; 0x64d5d5b1; 0xd24e4e9c;
  0xe0a9a949; 0xb46c6cd8; 0xfa5656ac; 0x7f4f4f3; 0x25eaeacf; 0xaf6565ca; 0x8e7a7af4;
  0xe9aeae47; 0x18080810; 0xd5baba6f; 0x887878f0; 0x6f25254a; 0x722e2e5c; 0x241c1c38;
  0xf1a6a657; 0xc7b4b473; 0x51c6c697; 0x23e8e8cb; 0x7cdddda1; 0x9c7474e8; 0x211f1f3e;
  0xdd4b4b96; 0xdcbdbd61; 0x868b8b0d; 0x858a8a0f; 0x907070e0; 0x423e3e7c; 0xc4b5b571;
  0xaa6666cc; 0xd8484890; 0x5030306; 0x1f6f6f7; 0x120e0e1c; 0xa36161c2; 0x5f35356a;
  0xf95757ae; 0xd0b9b969; 0x91868617; 0x58c1c199; 0x271d1d3a; 0xb99e9e27; 0x38e1e1d9;
  0x13f8f8eb; 0xb398982b; 0x33111122; 0xbb6969d2; 0x70d9d9a9; 0x898e8e07; 0xa7949433;
  0xb69b9b2d; 0x221e1e3c; 0x92878715; 0x20e9e9c9; 0x49cece87; 0xff5555aa; 0x78282850;
  0x7adfdfa5; 0x8f8c8c03; 0xf8a1a159; 0x80898909; 0x170d0d1a; 0xdabfbf65; 0x31e6e6d7;
  0xc6424284; 0xb86868d0; 0xc3414182; 0xb0999929; 0x772d2d5a; 0x110f0f1e; 0xcbb0b07b;
  0xfc5454a8; 0xd6bbbb6d; 0x3a16162c].

Definition rtable : list Z := [
  0x50a7f451; 0x5365417e; 0xc3a4171a; 0x965e273a; 0xcb6bab3b; 0xf1459d1f; 0xab58faac;
  0x9303e34b; 0x55fa3020; 0xf66d76ad; 0x9176cc88; 0x254c02f5; 0xfcd7e54f; 0xd7cb2ac5;
  0x80443526; 0x8fa362b5; 0x495ab1de; 0x671bba25; 0x980eea45; 0xe1c0fe5d; 0x2752fc3;
  0x12f04c81; 0xa397468d; 0xc6f9d36b; 0xe75f8f03; 0x959c9215; 0xeb7a6dbf; 0xda595295;
  0x2d83bed4; 0xd3217458; 0x2969e049; 0x44c8c98e; 0x6a89c275; 0x78798ef4; 0x6b3e5899;
  0xdd71b927; 0xb64fe1be; 0x17ad88f0; 0x66ac20c9; 0xb43ace7d; 0x184adf63; 0x82311ae5;
  0x60335197; 0x457f5362; 0xe07764b1; 0x84ae6bbb; 0x1ca081fe; 0x942b08f9; 0x58684870;
  0x19fd458f; 0x876cde94; 0xb7f87b52; 0x23d373ab; 0xe2024b72; 0x578f1fe3; 0x2aab5566;
  0x728ebb2; 0x3c2b52f; 0x9a7bc586; 0xa50837d3; 0xf2872830; 0xb2a5bf23; 0xba6a0302;
  0x5c8216ed; 0x2b1ccf8a; 0x92b479a7; 0xf0f207f3; 0xa1e2694e; 0xcdf4da65; 0xd5be0506;
  0x1f6234d1; 0x8afea6c4; 0x9d532e34; 0xa055f3a2; 0x32e18a05; 0x75ebf6a4; 0x39ec830b;
  0xaaef6040; 0x69f715e; 0x51106ebd; 0xf98a213e; 0x3d06dd96; 0xae053edd; 0x46bde64d;
  0xb58d5491; 0x55dc471; 0x6fd40604; 0xff155060; 0x24fb9819; 0x97e9bdd6; 0xcc434089;
  0x779ed967; 0xbd42e8b0; 0x888b8907; 0x385b19e7; 0xdbeec879; 0x470a7ca1; 0xe90f427c;
  0xc91e84f8; 0x0; 0x83868009; 0x48ed2b32; 0xac70111e; 0x4e725a6c; 0xfbff0efd; 0x5638850f;
  0x1ed5ae3d; 0x27392d36; 0x64d90f0a; 0x21a65c68; 0xd1545b9b; 0x3a2e3624; 0xb1670a0c;
  0xfe75793; 0xd296eeb4; 0x9e919b1b; 0x4fc5c080; 0xa220dc61; 0x694b775a; 0x161a121c;
  0xaba93e2; 0xe52aa0c0; 0x43e0223c; 0x1d171b12; 0xb0d090e; 0xadc78bf2; 0xb9a8b62d;
  0xc8a91e14; 0x8519f157; 0x4c0775af; 0xbbdd99ee; 0xfd607fa3; 0x9f2601f7; 0xbcf5725c;
  0xc53b6644; 0x347efb5b; 0x7629438b; 0xdcc623cb; 0x68fcedb6; 0x63f1e4b8; 0xcadc31d7;
  0x10856342; 0x40229713; 0x2011c684; 0x7d244a85; 0xf83dbbd2; 0x1132f9ae; 0x6da129c7;
  0x4b2f9e1d; 0xf330b2dc; 0xec52860d; 0xd0e3c177; 0x6c16b32b; 0x99b970a9; 0xfa489411;
  0x2264e947; 0xc48cfca8; 0x1a3ff0a0; 0xd82c7d56; 0xef903322; 0xc74e4987; 0xc1d138d9;
  0xfea2ca8c; 0x360bd498; 0xcf81f5a6; 0x28de7aa5; 0x268eb7da; 0xa4bfad3f; 0xe49d3a2c;
  0xd927850; 0x9bcc5f6a; 0x62467e54; 0xc2138df6; 0xe8b8d890; 0x5ef7392e; 0xf5afc382;
  0xbe805d9f; 0x7c93d069; 0xa92dd56f; 0xb31225cf; 0x3b99acc8; 0xa77d1810; 0x6e639ce8;
  0x7bbb3bdb; 0x97826cd; 0xf418596e; 0x1b79aec; 0xa89a4f83; 0x656e95e6; 0x7ee6ffaa;
  0x8cfbc21; 0xe6e815ef; 0xd99be7ba; 0xce366f4a; 0xd4099fea; 0xd67cb029; 0xafb2a431;
  0x31233f2a; 0x3094a5c6; 0xc066a235; 0x37bc4e74; 0xa6ca82fc; 0xb0d090e0; 0x15d8a733;
  0x4a9804f1; 0xf7daec41; 0xe50cd7f; 0x2ff69117; 0x8dd64d76; 0x4db0ef43; 0x544daacc;
  0xdf0496e4; 0xe3b5d19e; 0x1b886a4c; 0xb81f2cc1; 0x7f516546; 0x4ea5e9d; 0x5d358c01;
  0x737487fa; 0x2e410bfb; 0x5a1d67b3; 0x52d2db92; 0x335610e9; 0x1347d66d; 0x8c61d79a;
  0x7a0ca137; 0x8e14f859; 0x893c13eb; 0xee27a9ce; 0x35c961b7; 0xede51ce1; 0x3cb1477a;
  0x59dfd29c; 0x3f73f255; 0x79ce1418; 0xbf37c773; 0xeacdf753; 0x5baafd5f; 0x146f3ddf;
  0x86db4478; 0x81f3afca; 0x3ec468b9; 0x2c342438; 0x5f40a3c2; 0x72c31d16; 0xc25e2bc;
  0x8b493c28; 0x41950dff; 0x7101a839; 0xdeb30c08; 0x9ce4b4d8; 0x90c15664; 0x6184cb7b;
  0x70b632d5; 0x745c6c48; 0x4257b8d0].

(** Table entry [i]; the indices are bytes. *)
Definition tab (t : list Z) (i : Z) : Z := at_ t (Z.to_nat i).
Definition MR_TOBYTE (x : Z) : Z := u8 x.

(** ** Words *)
Definition ROTL8 (x : Z) : Z := Z.lor (x <<₃₂ 8) (Z.shiftr x 24).
Definition ROTL16 (x : Z) : Z := Z.lor (x <<₃₂ 16) (Z.shiftr x 16).
Definition ROTL24 (x : Z) : Z := Z.lor (x <<₃₂ 24) (Z.shiftr x 8).

Definition pack (b : list Z) : Z :=
  Z.lor (Z.lor (Z.lor (at_ b 3 <<₃₂ 24) (at_ b 2 <<₃₂ 16)) (at_ b 1 <<₃₂ 8)) (at_ b 0).
Definition unpack (a : Z) : list Z :=
  [MR_TOBYTE a; MR_TOBYTE (Z.shiftr a 8); MR_TOBYTE (Z.shiftr a 16); MR_TOBYTE (Z.shiftr a 24)].

(** Product in the field of 256 elements by logarithms. *)
Definition bmul (x y : Z) : Z :=
  if negb (x =? 0) && negb (y =? 0) then tab ptab ((tab ltab x + tab ltab y) mod 255) else 0.
Definition SubByte (a : Z) : Z := pack (tab fbsub <$> unpack a).
(** Dot product of two arrays of four bytes. *)
Definition product (x y : Z) : Z :=
  let xb := unpack x in
  let yb := unpack y in
  Z.lxor (Z.lxor (Z.lxor (bmul (at_ xb 0) (at_ yb 0)) (bmul (at_ xb 1) (at_ yb 1)))
    (bmul (at_ xb 2) (at_ yb 2))) (bmul (at_ xb 3) (at_ yb 3)).
Definition InvMixCol (x : Z) : Z :=
  let m := pack InCo in
  let b3 := product m x in
  let m := ROTL24 m in
  let b2 := product m x in
  let m := ROTL24 m in
  let b1 := product m x in
  let m := ROTL24 m in
  let b0 := product m x in
  pack [b0; b1; b2; b3].

(** ** The context *)
Inductive aes_mode := ECB | CBC | CFB1 | CFB2 | CFB4 | OFB1 | OFB2 | OFB4 | OFB8 | OFB16.
#[export] Instance aes_mode_dec : EqDecision aes_mode.
Proof. solve_decision. Defined.

Record mcl_aes := {
  Nk : Z;
  Nr : nat;
  mode : aes_mode;
  fkey : list Z;
  rkey : list Z;
  f : list Z
}.
Definition set_f (v : list Z) (a : mcl_aes) : mcl_aes :=
  {| Nk := Nk a; Nr := Nr a; mode := mode a; fkey := fkey a; rkey := rkey a; f := v |}.

(** [for (j=0;j<n;j++) dst[off+j]=src[j];] *)
Definition copy (n off : nat) (src dst : list Z) : list Z :=
  foldl (λ d j, <[(off + j)%nat := at_ src j]> d) dst (seq 0 n).

(** The mode and the chaining vector; [None] is the null pointer. *)
Definition MCL_AES_reset (a : mcl_aes) (m : aes_mode) (iv : option (list Z)) : mcl_aes :=
  let f := copy (4 * NB) 0 (replicate (4 * NB) 0) (f a) in
  {| Nk := Nk a; Nr := Nr a; mode := m; fkey := fkey a; rkey := rkey a;
     f := match iv with
          | Some iv => if decide (m = ECB) then f else copy (4 * NB) 0 iv f
          | None => f
          end |}.
Definition MCL_AES_getreg (a : mcl_aes) (ir : list Z) : list Z := copy (4 * NB) 0 (f a) ir.

(** ** The key schedule *)

(** [for (i=lo;i<hi && (i+j)<N;i++) fkey[i+j]=fkey[i+j-nk]^fkey[i+j-1];] *)
Definition chain (nk N j lo hi : nat) (k : list Z) : list Z :=
  foldl (λ k i, if (i + j <? N)%nat
                then <[(i + j)%nat := Z.lxor (at_ k (i + j - nk)) (at_ k (i + j - 1))]> k else k)
    k (seq lo (hi - lo)).

(** One turn of [for (j=nk,k=0;j<N;j+=nk,k++)]. *)
Definition expand_step (nk N j r : nat) (k : list Z) : list Z :=
  let k := <[j := Z.lxor (Z.lxor (at_ k (j - nk)) (SubByte (ROTL24 (at_ k (j - 1))))) (at_ rco r)]> k in
  if (nk <=? 6)%nat then chain nk N j 1 nk k
  else
    let k := chain nk N j 1 4 k in
    let k := if (j + 4 <? N)%nat
             then <[(j + 4)%nat := Z.lxor (at_ k (j + 4 - nk)) (SubByte (at_ k (j + 3)))]> k else k in
    chain nk N j 5 nk k.
Fixpoint expand (fuel nk N j r : nat) (k : list Z) : list Z :=
  match fuel with
  | O => k
  | S fuel => if (j <? N)%nat then expand fuel nk N (j + nk) (r + 1) (expand_step nk N j r k) else k
  end.

(** [for (j=0;j<NB;j++) key[pos+j]=w(j);] *)
Definition put_round (pos : nat) (w : nat -> Z) (k : list Z) : list Z :=
  foldl (λ k j, <[(pos + j)%nat := w j]> k) k (seq 0 NB).

(** The decryption keys: the rounds in reverse order, the inner ones transformed. *)
Definition reverse_key (N : nat) (fk k : list Z) : list Z :=
  let k := put_round (N - NB) (λ j, at_ fk j) k in
  let k := foldl (λ k i, put_round (N - NB - i) (λ j, InvMixCol (at_ fk (i + j))) k) k
             ((λ r, NB * r)%nat <$> seq 1 (N / NB - 2)) in
  put_round 0 (λ j, at_ fk (N - NB + j)) k.

(** The key has [nk] bytes; an unknown length leaves the context alone. *)
Definition MCL_AES_init (a : mcl_aes) (m : aes_mode) (nk : Z) (key : list Z) (iv : option (list Z)) : Z * mcl_aes :=
  let nk := Z.quot nk 4 in
  if negb (nk =? 4) && negb (nk =? 6) && negb (nk =? 8) then (0, a)
  else
    let nr := Z.to_nat (6 + nk) in
    let n := Z.to_nat nk in
    let a := MCL_AES_reset {| Nk := nk; Nr := nr; mode := mode a; fkey := fkey a; rkey := rkey a; f := f a |} m iv in
    let N := (NB * (nr + 1))%nat in
    let CipherKey := (λ i, pack (take 4 (drop (4 * i) key))) <$> seq 0 n in
    let fk := copy n 0 CipherKey (fkey a) in
    let fk := expand N n N n 0 fk in
    (1, {| Nk := nk; Nr := nr; mode := mode a; fkey := fk; rkey := reverse_key N fk (rkey a); f := f a |}).

(** ** Blocks *)
Definition block := (Z * Z * Z * Z)%type.

(** The word of a round: a key word and one byte of each of four words, through a table. *)
Definition table_word (t : list Z) (kw a b c d : Z) : Z :=
  Z.lxor (Z.lxor (Z.lxor (Z.lxor kw (tab t (MR_TOBYTE a))) (ROTL8 (tab t (MR_TOBYTE (Z.shiftr b 8)))))
    (ROTL16 (tab t (MR_TOBYTE (Z.shiftr c 16))))) (ROTL24 (tab t (Z.shiftr d 24))).

Definition enc_round (t key : list Z) (k : nat) (x : block) : block :=
  let '(x0, x1, x2, x3) := x in
  (table_word t (at_ key k) x0 x1 x2 x3, table_word t (at_ key (k + 1)) x1 x2 x3 x0,
   table_word t (at_ key (k + 2)) x2 x3 x0 x1, table_word t (at_ key (k + 3)) x3 x0 x1 x2).
Definition dec_round (t key : list Z) (k : nat) (x : block) : block :=
  let '(x0, x1, x2, x3) := x in
  (table_word t (at_ key k) x0 x3 x2 x1, table_word t (at_ key (k + 1)) x1 x0 x3 x2,
   table_word t (at_ key (k + 2)) x2 x1 x0 x3, table_word t (at_ key (k + 3)) x3 x2 x1 x0).

(** [for (i=1;i<Nr;i++) { ... k+=4; }]: the state after [n] rounds. *)
Fixpoint rounds (n : nat) (round : nat -> block -> block) (k : nat) (x : block) : block :=
  match n with
  | O => x
  | S n => rounds n round (k + 4) (round k x)
  end.

Definition load_block (key buff : list Z) : block :=
  let w i := Z.lxor (pack (take 4 (drop (4 * i) buff))) (at_ key i) in
  (w 0%nat, w 1%nat, w 2%nat, w 3%nat).
Definition store_block (x : block) : list Z :=
  let '(x0, x1, x2, x3) := x in unpack x0 ++ unpack x1 ++ unpack x2 ++ unpack x3.

Definition MCL_AES_ecb_encrypt (a : mcl_aes) (buff : list Z) : list Z :=
  let x := rounds (Nr a - 1) (enc_round ftable (fkey a)) NB (load_block (fkey a) buff) in
  store_block (enc_round fbsub (fkey a) (NB * Nr a) x).
Definition MCL_AES_ecb_decrypt (a : mcl_aes) (buff : list Z) : list Z :=
  let x := rounds (Nr a - 1) (dec_round rtable (rkey a)) NB (load_block (rkey a) buff) in
  store_block (dec_round rbsub (rkey a) (NB * Nr a) x).

(** ** Modes of operation *)

(** [for (j=0;j<n;j++) buff[j]^=st[j];] *)
Definition xor_prefix (n : nat) (st buff : list Z) : list Z :=
  foldl (λ b j, <[j := Z.lxor (at_ b j) (at_ st j)]> b) buff (seq 0 n).
(** The bytes that leave the chaining vector, and the vector moved down by them. *)
Definition shifted_out (n : nat) (f : list Z) : Z :=
  foldl (λ o j, Z.lor (o <<₃₂ 8) (at_ f j)) 0 (seq 0 n).
Definition move_down (n : nat) (f : list Z) : list Z :=
  foldl (λ f j, <[(j - n)%nat := at_ f j]> f) f (seq n (4 * NB - n)).

Definition feedback_bytes (m : aes_mode) : nat :=
  match m with
  | CFB1 | OFB1 => 1
  | CFB2 | OFB2 => 2
  | CFB4 | OFB4 => 4
  | OFB8 => 8
  | OFB16 => 16
  | ECB | CBC => 0
  end.

Definition MCL_AES_encrypt (a : mcl_aes) (buff : list Z) : Z * list Z * mcl_aes :=
  let bytes := feedback_bytes (mode a) in
  match mode a with
  | ECB => (0, MCL_AES_ecb_encrypt a buff, a)
  | CBC =>
      let buff := MCL_AES_ecb_encrypt a (xor_prefix (4 * NB) (f a) buff) in
      (0, buff, set_f (copy (4 * NB) 0 buff (f a)) a)
  | CFB1 | CFB2 | CFB4 =>
      let buff := xor_prefix bytes (MCL_AES_ecb_encrypt a (f a)) buff in
      (shifted_out bytes (f a), buff, set_f (copy bytes (16 - bytes) buff (move_down bytes (f a))) a)
  | OFB1 | OFB2 | OFB4 | OFB8 | OFB16 =>
      let f := MCL_AES_ecb_encrypt a (f a) in
      (0, xor_prefix bytes f buff, set_f f a)
  end.

Definition MCL_AES_decrypt (a : mcl_aes) (buff : list Z) : Z * list Z * mcl_aes :=
  let bytes := feedback_bytes (mode a) in
  match mode a with
  | ECB => (0, MCL_AES_ecb_decrypt a buff, a)
  | CBC =>
      let a' := set_f (copy (4 * NB) 0 buff (f a)) a in
      (0, xor_prefix (4 * NB) (f a) (MCL_AES_ecb_decrypt a buff), a')
  | CFB1 | CFB2 | CFB4 =>
      let a' := set_f (copy bytes (16 - bytes) buff (move_down bytes (f a))) a in
      (shifted_out bytes (f a), xor_prefix bytes (MCL_AES_ecb_encrypt a (f a)) buff, a')
  | OFB1 | OFB2 | OFB4 | OFB8 | OFB16 =>
      let f := MCL_AES_ecb_encrypt a (f a) in
      (0, xor_prefix bytes f buff, set_f f a)
  end.

Definition MCL_AES_end (a : mcl_aes) : mcl_aes :=
  let n := (NB * (Nr a + 1))%nat in
  {| Nk := Nk a; Nr := Nr a; mode := mode a; fkey := copy n 0 (replicate n 0) (fkey a);
     rkey := copy n 0 (replicate n 0) (rkey a); f := copy (4 * NB) 0 (replicate (4 * NB) 0) (f a) |}.

(** The vectors of FIPS 197, appendix C. *)
Definition fresh : mcl_aes :=
  {| Nk := 0; Nr := 0; mode := ECB; fkey := replicate 60 0; rkey := replicate 60 0; f := replicate 16 0 |}.
Definition fips_plain : list Z := (λ i, 0x11 * i) <$> seqZ 0 16.
Definition fips_cipher (n : nat) : list Z :=
  MCL_AES_ecb_encrypt (snd (MCL_AES_init fresh ECB (Z.of_nat n) (seqZ 0 (Z.of_nat n)) None)) fips_plain.
Example fips_128 : fips_cipher 16 =
  [0x69; 0xc4; 0xe0; 0xd8; 0x6a; 0x7b; 0x04; 0x30; 0xd8; 0xcd; 0xb7; 0x80; 0x70; 0xb4; 0xc5; 0x5a].
Proof. vm_compute. reflexivity. Qed.
Example fips_192 : fips_cipher 24 =
  [0xdd; 0xa9; 0x7c; 0xa4; 0x86; 0x4c; 0xdf; 0xe0; 0x6e; 0xaf; 0x70; 0xa0; 0xec; 0x0d; 0x71; 0x91].
Proof. vm_compute. reflexivity. Qed.
Example fips_256 : fips_cipher 32 =
  [0x8e; 0xa2; 0xb7; 0xca; 0x51; 0x67; 0x45; 0xbf; 0xea; 0xfc; 0x49; 0x90; 0x4b; 0x49; 0x60; 0x89].
Proof. vm_compute. reflexivity. Qed.
End Aes.
