(* ===== verification/AesSpec.v ===== *)
(** * AesSpec: the cipher the tables implement, and that decryption undoes it

    The reference follows FIPS 197: bytes are substituted, rows shifted, columns mixed
    in the field of 256 elements, and the round key added.  The tables combine these
    steps; the decryption keys are the encryption keys in reverse, the inner ones mixed
    backwards, so that every decryption round undoes an encryption round. *)

From Stdlib Require Import Btauto.
From S2P Require Import Prelude Sha256 StreamHash Sha256Spec Aes.
Import Aes.
Abbreviation at_ := Sha256.at_.

(** ** Exclusive or *)
Declare Scope aes_scope.
Infix "⊕" := Z.lxor (at level 50, left associativity) : aes_scope.
#[local] Open Scope aes_scope.

(** Equations of sums in which terms cancel. *)
Ltac xor_ring := apply Z.bits_inj'; intros ? _; rewrite !Z.lxor_spec; try rewrite !Z.bits_0; btauto.

(** Such equations for each byte of a word. *)
Ltac pack_ring := f_equal; f_equal; [xor_ring|f_equal; [xor_ring|f_equal; [xor_ring|f_equal; xor_ring]]].

Lemma u8_lxor a b : u8 (a ⊕ b) = u8 a ⊕ u8 b.
Proof.
  unfold u8. apply Z.bits_inj'. intros i _. rewrite !Z.lxor_spec, !Z.land_spec, Z.lxor_spec. btauto.
Qed.
Lemma u8_range_eq x : u8 x = x -> is_u8 x.
Proof. intros <-. apply u8_range. Qed.
Lemma lxor_u8 a b : is_u8 a -> is_u8 b -> is_u8 (a ⊕ b).
Proof. intros Ha Hb. apply u8_range_eq. by rewrite u8_lxor, !u8_small by done. Qed.

(** ** Words and their bytes *)
Lemma pack_le_combine a b c d : is_u8 a -> is_u8 b -> is_u8 c -> is_u8 d ->
  pack [a; b; c; d] = le_combine [a; b; c; d].
Proof.
  intros Ha Hb Hc Hd. unfold is_u8 in *. unfold pack, at_. cbn [lookup list_lookup default from_option id].
  rewrite !Z.shiftl_mul_pow2 by lia. rewrite !u32_small by (unfold is_u32; lia).
  rewrite lor_join by lia.
  replace (d * 2 ^ 24 + c * 2 ^ 16) with ((d * 2 ^ 8 + c) * 2 ^ 16) by lia. rewrite lor_join by lia.
  replace ((d * 2 ^ 8 + c) * 2 ^ 16 + b * 2 ^ 8) with (((d * 2 ^ 8 + c) * 2 ^ 8 + b) * 2 ^ 8) by lia.
  rewrite lor_join by lia. cbn [le_combine]. lia.
Qed.

Lemma unpack_le_split x : unpack x = le_split 4 x.
Proof.
  unfold unpack, MR_TOBYTE. cbn [le_split]. rewrite !Z.shiftr_div_pow2, !Z.div_div by lia. done.
Qed.

Lemma bytes_4 a b c d : is_u8 a -> is_u8 b -> is_u8 c -> is_u8 d -> bytes_ok [a; b; c; d].
Proof. intros. rewrite !Forall_cons. auto. Qed.

Lemma unpack_pack a b c d : is_u8 a -> is_u8 b -> is_u8 c -> is_u8 d ->
  unpack (pack [a; b; c; d]) = [a; b; c; d].
Proof.
  intros. rewrite pack_le_combine, unpack_le_split by done.
  apply (le_split_combine [a; b; c; d]). by apply bytes_4.
Qed.

(** Every word is spelt by four bytes. *)
Lemma word_pack w : is_u32 w -> exists a b c d, is_u8 a /\ is_u8 b /\ is_u8 c /\ is_u8 d /\ w = pack [a; b; c; d].
Proof.
  intros Hw. pose proof (le_split_bytes 4 w) as Hb. pose proof (le_combine_split 4 w) as E.
  rewrite Z.mod_small in E by (unfold is_u32 in Hw; lia).
  destruct (le_split 4 w) as [|a [|b [|c [|d [|]]]]] eqn:El; try done.
  apply Forall_cons in Hb as [Ha Hb]. apply Forall_cons in Hb as [Hb Hc].
  apply Forall_cons in Hc as [Hc Hd]. apply Forall_cons in Hd as [Hd _].
  exists a, b, c, d. by rewrite pack_le_combine.
Qed.

Lemma pack_u32 a b c d : is_u8 a -> is_u8 b -> is_u8 c -> is_u8 d -> is_u32 (pack [a; b; c; d]).
Proof.
  intros. rewrite pack_le_combine by done. apply (le_combine_bound [a; b; c; d]). by apply bytes_4.
Qed.

Lemma join_lxor b x : is_u8 b -> b + 2 ^ 8 * x = Z.shiftl x 8 ⊕ b.
Proof.
  intros Hb. rewrite Z.shiftl_mul_pow2, Z.add_comm, Z.mul_comm by lia. apply Z.add_nocarry_lxor.
  apply Z.bits_inj'. intros i Hi. rewrite Z.land_spec, Z.bits_0.
  destruct (Z.lt_ge_cases i 8); [by rewrite Z.mul_pow2_bits_low|].
  rewrite <- (u8_small b Hb), u8_mod, Z.mod_pow2_bits_high by lia. apply andb_false_r.
Qed.

(** Words are added byte by byte. *)
Lemma lxor_pack a b c d a' b' c' d' :
  is_u8 a -> is_u8 b -> is_u8 c -> is_u8 d -> is_u8 a' -> is_u8 b' -> is_u8 c' -> is_u8 d' ->
  pack [a; b; c; d] ⊕ pack [a'; b'; c'; d'] = pack [a ⊕ a'; b ⊕ b'; c ⊕ c'; d ⊕ d'].
Proof.
  intros. rewrite !pack_le_combine by (done || by apply lxor_u8). cbn [le_combine].
  rewrite !join_lxor by (done || by apply lxor_u8). rewrite !Z.shiftl_lxor. xor_ring.
Qed.

(** Rotation exchanges the two parts of a word. *)
Lemma rotate_split k lo hi : 0 <= k <= 32 -> 0 <= lo < 2 ^ (32 - k) -> 0 <= hi < 2 ^ k ->
  Z.lor (u32 (Z.shiftl (lo + 2 ^ (32 - k) * hi) k)) (Z.shiftr (lo + 2 ^ (32 - k) * hi) (32 - k)) = lo * 2 ^ k + hi.
Proof.
  intros Hk Hlo Hhi. assert (2 ^ 32 = 2 ^ (32 - k) * 2 ^ k) as E by (rewrite <- Z.pow_add_r by lia; f_equal; lia).
  rewrite Z.shiftr_div_pow2, Z.shiftl_mul_pow2, u32_mod by lia.
  rewrite (Z.mul_comm (2 ^ (32 - k)) hi), Z.div_add, (Z.div_small lo), Z.add_0_l by lia.
  replace ((lo + hi * 2 ^ (32 - k)) * 2 ^ k) with (lo * 2 ^ k + hi * 2 ^ 32) by (rewrite E; ring).
  rewrite Z_mod_plus_full, Z.mod_small by nia. apply lor_join; lia.
Qed.

Section rotations.
Context a b c d (Ha : is_u8 a) (Hb : is_u8 b) (Hc : is_u8 c) (Hd : is_u8 d).

Lemma ROTL8_pack : ROTL8 (pack [a; b; c; d]) = pack [d; a; b; c].
Proof.
  rewrite !pack_le_combine by done. unfold is_u8 in *. cbn [le_combine].
  transitivity ((a + 2 ^ 8 * b + 2 ^ 16 * c) * 2 ^ 8 + d); [|lia].
  rewrite <- (rotate_split 8) by lia. unfold ROTL8. do 2 f_equal; [f_equal|]; lia.
Qed.
Lemma ROTL16_pack : ROTL16 (pack [a; b; c; d]) = pack [c; d; a; b].
Proof.
  rewrite !pack_le_combine by done. unfold is_u8 in *. cbn [le_combine].
  transitivity ((a + 2 ^ 8 * b) * 2 ^ 16 + (c + 2 ^ 8 * d)); [|lia].
  rewrite <- (rotate_split 16) by lia. unfold ROTL16. do 2 f_equal; [f_equal|]; lia.
Qed.
Lemma ROTL24_pack : ROTL24 (pack [a; b; c; d]) = pack [b; c; d; a].
Proof.
  rewrite !pack_le_combine by done. unfold is_u8 in *. cbn [le_combine].
  transitivity (a * 2 ^ 24 + (b + 2 ^ 8 * c + 2 ^ 16 * d)); [|lia].
  rewrite <- (rotate_split 24) by lia. unfold ROTL24. do 2 f_equal; [f_equal|]; lia.
Qed.
End rotations.

(** ** The field of 256 elements *)
Definition xtime (b : Z) : Z := u8 (Z.shiftl b 1) ⊕ (if Z.testbit b 7 then 0x1b else 0).
Definition mul2 (b : Z) : Z := xtime b.
Definition mul3 (b : Z) : Z := xtime b ⊕ b.
Definition mul9 (b : Z) : Z := xtime (xtime (xtime b)) ⊕ b.
Definition mulB (b : Z) : Z := xtime (xtime (xtime b)) ⊕ xtime b ⊕ b.
Definition mulD (b : Z) : Z := xtime (xtime (xtime b)) ⊕ xtime (xtime b) ⊕ b.
Definition mulE (b : Z) : Z := xtime (xtime (xtime b)) ⊕ xtime (xtime b) ⊕ xtime b.

Lemma xtime_u8 b : is_u8 (xtime b).
Proof. apply lxor_u8; [apply u8_range|]. by destruct (Z.testbit b 7). Qed.

Lemma xtime_lxor a b : xtime (a ⊕ b) = xtime a ⊕ xtime b.
Proof.
  unfold xtime. rewrite Z.shiftl_lxor, u8_lxor, Z.lxor_spec.
  destruct (Z.testbit a 7), (Z.testbit b 7); cbn [xorb]; xor_ring.
Qed.

(** Statements about all bytes, by computation. *)
Lemma byte_cases (P : Z -> bool) : forallb P (seqZ 0 256) = true -> forall x, is_u8 x -> P x = true.
Proof.
  intros HP x Hx. rewrite forallb_forall in HP. apply HP. apply list_elem_of_In, elem_of_seqZ.
  unfold is_u8 in Hx. lia.
Qed.

Lemma bmul_coefficients x : is_u8 x ->
  bmul 0xB x = mulB x /\ bmul 0xD x = mulD x /\ bmul 0x9 x = mul9 x /\ bmul 0xE x = mulE x.
Proof.
  intros Hx. pose proof (byte_cases (λ x, (bmul 0xB x =? mulB x) && (bmul 0xD x =? mulD x) && (bmul 0x9 x =? mul9 x) &&
    (bmul 0xE x =? mulE x)) ltac:(vm_compute; reflexivity) x Hx) as H.
  cbv beta in H. rewrite !andb_true_iff, !Z.eqb_eq in H. tauto.
Qed.

(** The substitutions are inverse to each other, with bytes as results. *)
Lemma fbsub_inverse x : is_u8 x -> is_u8 (tab fbsub x) /\ tab rbsub (tab fbsub x) = x.
Proof.
  intros Hx. pose proof (byte_cases (λ x, (0 <=? tab fbsub x) && (tab fbsub x <? 256) && (tab rbsub (tab fbsub x) =? x)) ltac:(vm_compute; reflexivity) x Hx) as H.
  cbv beta in H. rewrite !andb_true_iff, Z.leb_le, Z.ltb_lt, Z.eqb_eq in H. unfold is_u8. lia.
Qed.
Lemma rbsub_u8 x : is_u8 x -> is_u8 (tab rbsub x).
Proof.
  intros Hx. pose proof (byte_cases (λ x, (0 <=? tab rbsub x) && (tab rbsub x <? 256)) ltac:(vm_compute; reflexivity) x Hx) as H.
  cbv beta in H. rewrite !andb_true_iff, Z.leb_le, Z.ltb_lt in H. unfold is_u8. lia.
Qed.

(** The substitution of FIPS 197, 5.1.1: the inverse in the field, then an affine map. *)
Fixpoint gmul (n : nat) (a b : Z) : Z :=
  match n with
  | O => 0
  | S n => (if Z.testbit b 0 then a else 0) ⊕ gmul n (xtime a) (Z.shiftr b 1)
  end.
(** The power 254 = 2 + 4 + ... + 128. *)
Definition ginv (a : Z) : Z := fst (Nat.iter 7 (λ '(r, s), let s := gmul 8 s s in (gmul 8 r s, s)) (1, a)).
Definition rotl_byte (b k : Z) : Z := u8 (Z.lor (Z.shiftl b k) (Z.shiftr b (8 - k))).
Definition SBox (x : Z) : Z :=
  let b := ginv x in
  b ⊕ rotl_byte b 1 ⊕ rotl_byte b 2 ⊕ rotl_byte b 3 ⊕ rotl_byte b 4 ⊕ 0x63.

Lemma fbsub_SBox x : is_u8 x -> tab fbsub x = SBox x.
Proof. intros Hx. apply Z.eqb_eq. revert x Hx. apply byte_cases. vm_compute. reflexivity. Qed.
#[global] Opaque SBox.

(** A table entry is a substituted byte times the first column of the mixing matrix. *)
Lemma ftable_column x : is_u8 x ->
  tab ftable x = pack [mul2 (tab fbsub x); tab fbsub x; tab fbsub x; mul3 (tab fbsub x)].
Proof.
  intros Hx. apply Z.eqb_eq. revert x Hx. apply byte_cases. vm_compute. reflexivity.
Qed.
Lemma rtable_column x : is_u8 x ->
  tab rtable x = pack [mulE (tab rbsub x); mul9 (tab rbsub x); mulD (tab rbsub x); mulB (tab rbsub x)].
Proof.
  intros Hx. apply Z.eqb_eq. revert x Hx. apply byte_cases. vm_compute. reflexivity.
Qed.

(** ** Columns *)
Definition byte (w : Z) (i : nat) : Z := at_ (unpack w) i.

(** FIPS 197, 5.1.3: every byte is a sum over the column. *)
Definition MixColumn (w : Z) : Z :=
  let a := byte w 0 in let b := byte w 1 in let c := byte w 2 in let d := byte w 3 in
  pack [mul2 a ⊕ mul3 b ⊕ c ⊕ d; a ⊕ mul2 b ⊕ mul3 c ⊕ d; a ⊕ b ⊕ mul2 c ⊕ mul3 d; mul3 a ⊕ b ⊕ c ⊕ mul2 d].
(** One substituted byte of each of four words: the column after the shift of the rows. *)
Definition SubColumn (g : Z -> Z) (w0 w1 w2 w3 : Z) : Z :=
  pack [g (byte w0 0); g (byte w1 1); g (byte w2 2); g (byte w3 3)].

Lemma byte_u8 w i : is_u8 (byte w i).
Proof.
  unfold byte, at_. destruct (unpack w !! i) as [x|] eqn:E; [|done]. rewrite unpack_le_split in E.
  exact (Forall_lookup_1 _ _ _ _ (le_split_bytes 4 w) E).
Qed.

Create HintDb bytes.
#[export] Hint Resolve byte_u8 lxor_u8 xtime_u8 rbsub_u8 : bytes.
#[export] Hint Extern 1 (is_u8 0) => done : bytes.
#[export] Hint Extern 1 (is_u8 (tab fbsub _)) => apply fbsub_inverse : bytes.
#[export] Hint Extern 2 (is_u8 (mul2 _)) => unfold mul2 : bytes.
#[export] Hint Extern 2 (is_u8 (mul3 _)) => unfold mul3 : bytes.
#[export] Hint Extern 2 (is_u8 (mul9 _)) => unfold mul9 : bytes.
#[export] Hint Extern 2 (is_u8 (mulB _)) => unfold mulB : bytes.
#[export] Hint Extern 2 (is_u8 (mulD _)) => unfold mulD : bytes.
#[export] Hint Extern 2 (is_u8 (mulE _)) => unfold mulE : bytes.
Ltac bytes := eauto 20 with bytes.

Lemma byte_pack a b c d : is_u8 a -> is_u8 b -> is_u8 c -> is_u8 d ->
  byte (pack [a; b; c; d]) 0 = a /\ byte (pack [a; b; c; d]) 1 = b /\
  byte (pack [a; b; c; d]) 2 = c /\ byte (pack [a; b; c; d]) 3 = d.
Proof. intros. unfold byte. by rewrite unpack_pack. Qed.

(** Split the words of a goal into bytes. *)
Ltac bytes_of w Hw :=
  let a := fresh "a" in let b := fresh "b" in let c := fresh "c" in let d := fresh "d" in
  let Ha := fresh "Ha" in let Hb := fresh "Hb" in let Hc := fresh "Hc" in let Hd := fresh "Hd" in
  destruct (word_pack w Hw) as (a & b & c & d & Ha & Hb & Hc & Hd & ->);
  destruct (byte_pack a b c d Ha Hb Hc Hd) as (?E0 & ?E1 & ?E2 & ?E3).

Lemma shifted_byte w : is_u32 w ->
  MR_TOBYTE w = byte w 0 /\ MR_TOBYTE (Z.shiftr w 8) = byte w 1 /\ MR_TOBYTE (Z.shiftr w 16) = byte w 2 /\
  Z.shiftr w 24 = byte w 3.
Proof.
  intros Hw. split_and!; try done. change (byte w 3) with (u8 (Z.shiftr w 24)).
  rewrite u8_small; [done|]. rewrite Z.shiftr_div_pow2 by lia. unfold is_u32, is_u8 in *.
  split; [apply Z.div_pos; lia|apply Z.div_lt_upper_bound; lia].
Qed.

(** The backward mixing of a column, by logarithms and by shifts. *)
Lemma InvMixCol_pack a b c d : is_u8 a -> is_u8 b -> is_u8 c -> is_u8 d ->
  InvMixCol (pack [a; b; c; d]) =
  pack [mulE a ⊕ mulB b ⊕ mulD c ⊕ mul9 d; mul9 a ⊕ mulE b ⊕ mulB c ⊕ mulD d;
        mulD a ⊕ mul9 b ⊕ mulE c ⊕ mulB d; mulB a ⊕ mulD b ⊕ mul9 c ⊕ mulE d].
Proof.
  intros Ha Hb Hc Hd. unfold InvMixCol. cbv zeta.
  assert (pack InCo = pack [0xB; 0xD; 0x9; 0xE]) as -> by reflexivity.
  rewrite (ROTL24_pack 0xB 0xD 0x9 0xE), (ROTL24_pack 0xD 0x9 0xE 0xB), (ROTL24_pack 0x9 0xE 0xB 0xD) by done.
  unfold product. rewrite !(unpack_pack a b c d) by done. rewrite !unpack_pack by done.
  unfold at_. cbn [lookup list_lookup default from_option id].
  destruct (bmul_coefficients a Ha) as (-> & -> & -> & ->). destruct (bmul_coefficients b Hb) as (-> & -> & -> & ->).
  destruct (bmul_coefficients c Hc) as (-> & -> & -> & ->). destruct (bmul_coefficients d Hd) as (-> & -> & -> & ->).
  reflexivity.
Qed.

(** Backward mixing undoes mixing, and distributes over sums. *)
Lemma InvMixCol_MixColumn w : is_u32 w -> InvMixCol (MixColumn w) = w.
Proof.
  intros Hw. bytes_of w Hw. unfold MixColumn. rewrite E0, E1, E2, E3, InvMixCol_pack by bytes.
  unfold mul2, mul3, mul9, mulB, mulD, mulE. rewrite !xtime_lxor.
  pack_ring.
Qed.

Lemma InvMixCol_lxor v w : is_u32 v -> is_u32 w -> InvMixCol (v ⊕ w) = InvMixCol v ⊕ InvMixCol w.
Proof.
  intros Hv Hw. bytes_of v Hv. bytes_of w Hw. rewrite lxor_pack, !InvMixCol_pack, lxor_pack by bytes.
  unfold mul2, mul3, mul9, mulB, mulD, mulE. rewrite !xtime_lxor.
  pack_ring.
Qed.

(** The tables: substitution and mixing in one step. *)
Section table_words.
Context (k a b c d : Z) (Ha : is_u32 a) (Hb : is_u32 b) (Hc : is_u32 c) (Hd : is_u32 d).

Lemma table_word_bytes t : table_word t k a b c d =
  k ⊕ (tab t (byte a 0) ⊕ ROTL8 (tab t (byte b 1)) ⊕ ROTL16 (tab t (byte c 2)) ⊕ ROTL24 (tab t (byte d 3))).
Proof.
  unfold table_word. destruct (shifted_byte a Ha) as (-> & _). destruct (shifted_byte b Hb) as (_ & -> & _).
  destruct (shifted_byte c Hc) as (_ & _ & -> & _). destruct (shifted_byte d Hd) as (_ & _ & _ & ->). xor_ring.
Qed.

Lemma table_word_ftable : table_word ftable k a b c d = k ⊕ MixColumn (SubColumn (tab fbsub) a b c d).
Proof.
  rewrite table_word_bytes, !ftable_column by bytes. f_equal. unfold MixColumn, SubColumn.
  destruct (byte_pack (tab fbsub (byte a 0)) (tab fbsub (byte b 1)) (tab fbsub (byte c 2)) (tab fbsub (byte d 3)))
    as (-> & -> & -> & ->); try bytes.
  rewrite ROTL8_pack, ROTL16_pack, ROTL24_pack, !lxor_pack by bytes. reflexivity.
Qed.
Lemma ROTL_byte x : is_u8 x -> pack [x; 0; 0; 0] = x.
Proof. intros Hx. rewrite pack_le_combine by done. cbn. lia. Qed.

Lemma table_word_sub t : (forall x, is_u8 x -> is_u8 (tab t x)) -> table_word t k a b c d = k ⊕ SubColumn (tab t) a b c d.
Proof.
  intros Ht. rewrite table_word_bytes. f_equal. unfold SubColumn.
  pose proof (Ht (byte a 0) (byte_u8 _ _)) as H0. pose proof (Ht (byte b 1) (byte_u8 _ _)) as H1.
  pose proof (Ht (byte c 2) (byte_u8 _ _)) as H2. pose proof (Ht (byte d 3) (byte_u8 _ _)) as H3.
  set (s0 := tab t (byte a 0)) in *. set (s1 := tab t (byte b 1)) in *.
  set (s2 := tab t (byte c 2)) in *. set (s3 := tab t (byte d 3)) in *.
  rewrite <- (ROTL_byte s0 H0) at 1. rewrite <- (ROTL_byte s1 H1) at 1.
  rewrite <- (ROTL_byte s2 H2) at 1. rewrite <- (ROTL_byte s3 H3) at 1.
  rewrite ROTL8_pack, ROTL16_pack, ROTL24_pack, !lxor_pack by bytes.
  by rewrite !Z.lxor_0_l, !Z.lxor_0_r.
Qed.

Lemma table_word_fbsub : table_word fbsub k a b c d = k ⊕ SubColumn (tab fbsub) a b c d.
Proof. apply table_word_sub. intros. bytes. Qed.
Lemma table_word_rbsub : table_word rbsub k a b c d = k ⊕ SubColumn (tab rbsub) a b c d.
Proof. apply table_word_sub. intros. bytes. Qed.

Lemma table_word_rtable : table_word rtable k a b c d = k ⊕ InvMixCol (SubColumn (tab rbsub) a b c d).
Proof.
  rewrite table_word_bytes, !rtable_column by bytes. f_equal. unfold SubColumn.
  rewrite InvMixCol_pack, ROTL8_pack, ROTL16_pack, ROTL24_pack, !lxor_pack by bytes. reflexivity.
Qed.
End table_words.

(** ** Blocks *)
Definition words_ok (x : block) : Prop :=
  let '(x0, x1, x2, x3) := x in is_u32 x0 /\ is_u32 x1 /\ is_u32 x2 /\ is_u32 x3.

(** FIPS 197: the substitution and the shift of the rows together, the mixing of the
    columns, and the addition of a round key. *)
Definition SubShift (x : block) : block :=
  let '(x0, x1, x2, x3) := x in
  (SubColumn SBox x0 x1 x2 x3, SubColumn SBox x1 x2 x3 x0, SubColumn SBox x2 x3 x0 x1, SubColumn SBox x3 x0 x1 x2).
Definition InvSubShift (x : block) : block :=
  let '(x0, x1, x2, x3) := x in
  (SubColumn (tab rbsub) x0 x3 x2 x1, SubColumn (tab rbsub) x1 x0 x3 x2, SubColumn (tab rbsub) x2 x1 x0 x3, SubColumn (tab rbsub) x3 x2 x1 x0).
Definition columns (g : Z -> Z) (x : block) : block :=
  let '(x0, x1, x2, x3) := x in (g x0, g x1, g x2, g x3).
Definition AddRoundKey (key : list Z) (k : nat) (x : block) : block :=
  let '(x0, x1, x2, x3) := x in
  (at_ key k ⊕ x0, at_ key (k + 1) ⊕ x1, at_ key (k + 2) ⊕ x2, at_ key (k + 3) ⊕ x3).

Definition cipher_round (key : list Z) (k : nat) (x : block) : block :=
  AddRoundKey key k (columns MixColumn (SubShift x)).
Definition Cipher (nr : nat) (key buff : list Z) : list Z :=
  store_block (AddRoundKey key (NB * nr)
    (SubShift (rounds (nr - 1) (cipher_round key) NB (load_block key buff)))).

Lemma SubColumn_SBox w0 w1 w2 w3 : SubColumn (tab fbsub) w0 w1 w2 w3 = SubColumn SBox w0 w1 w2 w3.
Proof. unfold SubColumn. by rewrite !fbsub_SBox by bytes. Qed.

Lemma SubColumn_u32 g w0 w1 w2 w3 : (forall x, is_u8 x -> is_u8 (g x)) -> is_u32 (SubColumn g w0 w1 w2 w3).
Proof. intros Ht. apply pack_u32; apply Ht; bytes. Qed.
Lemma MixColumn_u32 w : is_u32 (MixColumn w).
Proof. apply pack_u32; bytes. Qed.

Lemma key_u32 key k : Forall is_u32 key -> is_u32 (at_ key k).
Proof.
  intros Hk. unfold at_, Sha256.at_. destruct (key !! k) eqn:E; [exact (Forall_lookup_1 _ _ _ _ Hk E)|done].
Qed.

Lemma SubShift_ok x : words_ok (SubShift x).
Proof.
  destruct x as [[[x0 x1] x2] x3]. cbn. rewrite <- !SubColumn_SBox. split_and!; apply SubColumn_u32; intros; bytes.
Qed.
Lemma columns_ok g x : (forall w, is_u32 (g w)) -> words_ok (columns g x).
Proof. destruct x as [[[x0 x1] x2] x3]. cbn. auto. Qed.
Lemma AddRoundKey_ok key k x : Forall is_u32 key -> words_ok x -> words_ok (AddRoundKey key k x).
Proof.
  destruct x as [[[x0 x1] x2] x3]. cbn. intros Hk (? & ? & ? & ?).
  split_and!; apply lxor_is_u32; try done; by apply key_u32.
Qed.
Lemma cipher_round_ok key k x : Forall is_u32 key -> words_ok (cipher_round key k x).
Proof. intros. apply AddRoundKey_ok; [done|]. apply columns_ok. apply MixColumn_u32. Qed.

(** The rounds of the program are the rounds of the reference. *)
Lemma enc_round_cipher key k x : words_ok x -> enc_round ftable key k x = cipher_round key k x.
Proof.
  destruct x as [[[x0 x1] x2] x3]. intros (? & ? & ? & ?). unfold enc_round.
  by rewrite !table_word_ftable, !SubColumn_SBox by done.
Qed.
Lemma enc_last_cipher key k x : words_ok x -> enc_round fbsub key k x = AddRoundKey key k (SubShift x).
Proof.
  destruct x as [[[x0 x1] x2] x3]. intros (? & ? & ? & ?). unfold enc_round.
  by rewrite !table_word_fbsub, !SubColumn_SBox by done.
Qed.
Lemma dec_round_inverse key k x : words_ok x ->
  dec_round rtable key k x = AddRoundKey key k (columns InvMixCol (InvSubShift x)).
Proof.
  destruct x as [[[x0 x1] x2] x3]. intros (? & ? & ? & ?). unfold dec_round.
  by rewrite !table_word_rtable by done.
Qed.
Lemma dec_last_inverse key k x : words_ok x -> dec_round rbsub key k x = AddRoundKey key k (InvSubShift x).
Proof.
  destruct x as [[[x0 x1] x2] x3]. intros (? & ? & ? & ?). unfold dec_round.
  by rewrite !table_word_rbsub by done.
Qed.

Lemma rounds_cipher key n : forall k x, Forall is_u32 key -> words_ok x ->
  rounds n (enc_round ftable key) k x = rounds n (cipher_round key) k x /\
  words_ok (rounds n (cipher_round key) k x).
Proof.
  induction n as [|n IH]; intros k x Hk Hx; [done|]. cbn [rounds]. rewrite enc_round_cipher by done.
  apply IH; [done|by apply cipher_round_ok].
Qed.

Lemma load_block_ok key buff : Forall is_u32 key -> bytes_ok buff -> (16 <= length buff)%nat ->
  words_ok (load_block key buff).
Proof.
  intros Hk Hb Hl. unfold load_block. assert (forall i, (i < 4)%nat ->
    is_u32 (pack (take 4 (drop (4 * i) buff)) ⊕ at_ key i)) as Hw.
  { intros i Hi. apply lxor_is_u32; [|by apply key_u32].
    assert (bytes_ok (take 4 (drop (4 * i) buff))) as Hs by (by apply Forall_take, Forall_drop).
    assert (length (take 4 (drop (4 * i) buff)) = 4%nat) as Hsl by (rewrite length_take, length_drop; lia).
    destruct (take 4 (drop (4 * i) buff)) as [|a [|b [|c [|d [|]]]]]; try done.
    rewrite !Forall_cons in Hs. destruct Hs as (? & ? & ? & ? & _). by apply pack_u32. }
  cbv beta zeta. split_and!; apply Hw; lia.
Qed.

(** ** Inverses *)
Lemma InvSubShift_SubShift x : words_ok x -> InvSubShift (SubShift x) = x.
Proof.
  destruct x as [[[x0 x1] x2] x3]. intros (H0 & H1 & H2 & H3). unfold InvSubShift, SubShift.
  rewrite <- !SubColumn_SBox. unfold SubColumn.
  bytes_of x0 H0. bytes_of x1 H1. bytes_of x2 H2. bytes_of x3 H3.
  repeat match goal with |- context [byte (pack [?p; ?q; ?r; ?s]) _] =>
    destruct (byte_pack p q r s) as (-> & -> & -> & ->); try bytes end.
  by rewrite !(fun x Hx => proj2 (fbsub_inverse x Hx)) by bytes.
Qed.

(** A decryption round, with the key mixed backwards, undoes an encryption round. *)
Lemma round_undone fk rk p q y :
  Forall is_u32 fk -> words_ok y -> (forall j, (j < NB)%nat -> at_ rk (p + j) = InvMixCol (at_ fk (q + j))) ->
  dec_round rtable rk p (SubShift (cipher_round fk q y)) = SubShift y.
Proof.
  intros Hf Hy Hk. rewrite dec_round_inverse by apply SubShift_ok.
  rewrite InvSubShift_SubShift by (by apply cipher_round_ok). unfold cipher_round.
  pose proof (Hk 0%nat ltac:(unfold NB; lia)) as K0. pose proof (Hk 1%nat ltac:(unfold NB; lia)) as K1.
  pose proof (Hk 2%nat ltac:(unfold NB; lia)) as K2. pose proof (Hk 3%nat ltac:(unfold NB; lia)) as K3.
  rewrite Nat.add_0_r in K0. rewrite Nat.add_0_r in K0. pose proof (SubShift_ok y) as Hs.
  destruct (SubShift y) as [[[x0 x1] x2] x3]. destruct Hs as (W0 & W1 & W2 & W3).
  unfold AddRoundKey, columns. rewrite K0, K1, K2, K3.
  rewrite !InvMixCol_lxor, !InvMixCol_MixColumn by (first [done|by apply key_u32|apply MixColumn_u32]).
  f_equal; [f_equal; [f_equal|]|]; xor_ring.
Qed.

Lemma rounds_last round n : forall k x, rounds (S n) round k x = round (k + 4 * n)%nat (rounds n round k x).
Proof.
  induction n as [|n IH]; intros k x; [by rewrite Nat.mul_0_r, Nat.add_0_r|].
  cbn [rounds] in *. rewrite IH. f_equal. lia.
Qed.

(** The rounds run backwards from the last one. *)
Lemma rounds_undone fk rk n : forall p q x,
  Forall is_u32 fk -> words_ok x ->
  (forall i j, (i < n)%nat -> (j < NB)%nat -> at_ rk (p + 4 * i + j) = InvMixCol (at_ fk (q + 4 * (n - 1 - i) + j))) ->
  rounds n (dec_round rtable rk) p (SubShift (rounds n (cipher_round fk) q x)) = SubShift x.
Proof.
  induction n as [|n IH]; intros p q x Hf Hx Hk; [done|].
  rewrite (rounds_last (cipher_round fk)). cbn [rounds]. destruct (rounds_cipher fk n q x Hf Hx) as [_ Hy].
  rewrite round_undone; [|done|done|].
  - apply IH; [done|done|]. intros i j Hi Hj. specialize (Hk (S i) j ltac:(lia) Hj).
    replace (p + 4 + 4 * i + j)%nat with (p + 4 * S i + j)%nat by lia. rewrite Hk. do 2 f_equal. lia.
  - intros j Hj. specialize (Hk 0%nat j ltac:(lia) Hj).
    replace (p + j)%nat with (p + 4 * 0 + j)%nat by lia. rewrite Hk. do 2 f_equal. lia.
Qed.

(** ** Keys *)
(** What the decryption of a context needs of its keys. *)
Record keyed (a : mcl_aes) : Prop := {
  k_rounds : (2 <= Nr a)%nat;
  k_words : Forall is_u32 (fkey a);
  k_first j : (j < NB)%nat -> at_ (rkey a) j = at_ (fkey a) (4 * Nr a + j);
  k_inner r j : (0 < r < Nr a)%nat -> (j < NB)%nat ->
    at_ (rkey a) (4 * (Nr a - r) + j) = InvMixCol (at_ (fkey a) (4 * r + j));
  k_last j : (j < NB)%nat -> at_ (rkey a) (4 * Nr a + j) = at_ (fkey a) j
}.

Lemma load_store key x : words_ok x -> load_block key (store_block x) = AddRoundKey key 0 x.
Proof.
  destruct x as [[[x0 x1] x2] x3]. intros (H0 & H1 & H2 & H3). unfold load_block, store_block, AddRoundKey.
  assert (forall w, is_u32 w -> pack (unpack w) = w) as Hp.
  { intros w Hw. destruct (word_pack w Hw) as (a & b & c & d & Ha & Hb & Hc & Hd & ->). by rewrite unpack_pack. }
  change (take 4 (drop (4 * 0) (unpack x0 ++ unpack x1 ++ unpack x2 ++ unpack x3))) with (unpack x0).
  change (take 4 (drop (4 * 1) (unpack x0 ++ unpack x1 ++ unpack x2 ++ unpack x3))) with (unpack x1).
  change (take 4 (drop (4 * 2) (unpack x0 ++ unpack x1 ++ unpack x2 ++ unpack x3))) with (unpack x2).
  change (take 4 (drop (4 * 3) (unpack x0 ++ unpack x1 ++ unpack x2 ++ unpack x3))) with (unpack x3).
  rewrite !Hp by done. f_equal; [f_equal; [f_equal|]|]; apply Z.lxor_comm.
Qed.

Lemma store_load key buff : bytes_ok buff -> length buff = 16%nat ->
  store_block (AddRoundKey key 0 (load_block key buff)) = buff.
Proof.
  intros Hb Hl. do 16 (destruct buff as [|? buff]; [done|]). destruct buff; [|done].
  rewrite !Forall_cons in Hb. unfold load_block, AddRoundKey, store_block.
  cbn [take drop Nat.mul Nat.add]. rewrite !(fun k x => eq_trans (Z.lxor_comm k (x ⊕ k)) (Z.lxor_assoc x k k)).
  rewrite !Z.lxor_nilpotent, !Z.lxor_0_r. rewrite !unpack_pack by tauto. done.
Qed.

(** The program's encryption is the reference. *)
Lemma ecb_encrypt_cipher a buff : Forall is_u32 (fkey a) -> bytes_ok buff -> length buff = 16%nat ->
  MCL_AES_ecb_encrypt a buff = Cipher (Nr a) (fkey a) buff.
Proof.
  intros Hk Hb Hl. unfold MCL_AES_ecb_encrypt, Cipher.
  destruct (rounds_cipher (fkey a) (Nr a - 1) NB (load_block (fkey a) buff) Hk) as [-> Hx];
    [apply load_block_ok; (done || lia)|].
  by rewrite enc_last_cipher.
Qed.

Lemma ecb_undone a buff : keyed a -> bytes_ok buff -> length buff = 16%nat ->
  MCL_AES_ecb_decrypt a (MCL_AES_ecb_encrypt a buff) = buff.
Proof.
  intros [Hr Hk K1 K2 K3] Hb Hl. rewrite ecb_encrypt_cipher by done. unfold Cipher, MCL_AES_ecb_decrypt.
  pose proof (load_block_ok (fkey a) buff Hk Hb ltac:(lia)) as H0.
  destruct (rounds_cipher (fkey a) (Nr a - 1) NB _ Hk H0) as [_ Hx].
  set (y := rounds (Nr a - 1) (cipher_round (fkey a)) NB (load_block (fkey a) buff)) in *.
  rewrite load_store by (apply AddRoundKey_ok; [done|apply SubShift_ok]).
  assert (AddRoundKey (rkey a) 0 (AddRoundKey (fkey a) (NB * Nr a) (SubShift y)) = SubShift y) as ->.
  { pose proof (K1 0%nat ltac:(unfold NB; lia)) as E0. pose proof (K1 1%nat ltac:(unfold NB; lia)) as E1.
    pose proof (K1 2%nat ltac:(unfold NB; lia)) as E2. pose proof (K1 3%nat ltac:(unfold NB; lia)) as E3.
    rewrite Nat.add_0_r in E0. destruct (SubShift y) as [[[x0 x1] x2] x3]. unfold AddRoundKey. cbn [Nat.add].
    change (NB * Nr a)%nat with (4 * Nr a)%nat. rewrite E0, E1, E2, E3. f_equal; [f_equal; [f_equal|]|]; xor_ring. }
  unfold y. rewrite rounds_undone; [|done|done|].
  - rewrite dec_last_inverse, InvSubShift_SubShift by (done || apply SubShift_ok).
    rewrite <- (store_load (fkey a) buff) at 2 by done. f_equal.
    pose proof (K3 0%nat ltac:(unfold NB; lia)) as E0. pose proof (K3 1%nat ltac:(unfold NB; lia)) as E1.
    pose proof (K3 2%nat ltac:(unfold NB; lia)) as E2. pose proof (K3 3%nat ltac:(unfold NB; lia)) as E3.
    rewrite Nat.add_0_r in E0. change (NB * Nr a)%nat with (4 * Nr a)%nat.
    destruct (load_block (fkey a) buff) as [[[x0 x1] x2] x3]. unfold AddRoundKey. cbn [Nat.add].
    by rewrite E0, E1, E2, E3.
  - intros i j Hi Hj. unfold NB.
    replace (4 + 4 * i + j)%nat with (4 * (Nr a - (Nr a - 1 - i)) + j)%nat by lia.
    rewrite K2 by lia. do 2 f_equal. lia.
Qed.

(** ** The key schedule *)
Lemma put_round_length pos w k : length (put_round pos w k) = length k.
Proof. unfold put_round. cbn [seq foldl NB]. by rewrite !length_insert. Qed.

Lemma at_put_round pos w k i : (pos + 4 <= length k)%nat ->
  at_ (put_round pos w k) i = if decide (pos <= i < pos + 4)%nat then w (i - pos)%nat else at_ k i.
Proof.
  intros Hl. unfold put_round. cbn [seq foldl NB].
  rewrite !at_insert by (rewrite ?length_insert; lia).
  repeat case_decide; try lia; try done; f_equal; lia.
Qed.

Section reverse.
Context (fk : list Z) (nr : nat) (Hnr : (2 <= nr <= 14)%nat).
Let step := λ k i, put_round (NB * (nr + 1) - NB - i) (λ j, InvMixCol (at_ fk (i + j))) k.

Lemma at_middle ts : forall k r j, length k = 60%nat -> Forall (λ t, 0 < t < nr)%nat ts ->
  (r <= nr)%nat -> (j < NB)%nat ->
  at_ (foldl step k ((λ r, NB * r)%nat <$> ts)) (4 * (nr - r) + j) =
    if decide (r ∈ ts) then InvMixCol (at_ fk (4 * r + j)) else at_ k (4 * (nr - r) + j).
Proof.
  induction ts as [|t ts IH]; intros k r j Hl Hts Hr Hj; [done|].
  apply Forall_cons in Hts as [Ht Hts]. rewrite fmap_cons. cbn [foldl].
  rewrite IH; [|unfold step; by rewrite put_round_length|done|done|done].
  unfold step. rewrite at_put_round by (unfold NB; lia). unfold NB in *.
  destruct (decide (r ∈ ts)) as [Hin|Hin].
  - by rewrite decide_True by (by right).
  - destruct (decide (r = t)) as [->|Hne].
    + rewrite decide_True by lia. rewrite decide_True by left. do 2 f_equal. lia.
    + rewrite decide_False by lia. rewrite decide_False; [done|].
      rewrite elem_of_cons. tauto.
Qed.

Lemma at_reverse_key k r j : length k = 60%nat -> (r <= nr)%nat -> (j < NB)%nat ->
  at_ (reverse_key (NB * (nr + 1)) fk k) (4 * (nr - r) + j) =
    if decide (r = 0 \/ r = nr)%nat then at_ fk (4 * r + j) else InvMixCol (at_ fk (4 * r + j)).
Proof.
  intros Hl Hr Hj. unfold reverse_key.
  set (k1 := put_round (NB * (nr + 1) - NB) (λ j, at_ fk j) k). fold step.
  assert (length k1 = 60%nat) as Hl1 by (unfold k1; by rewrite put_round_length).
  assert (forall l, length (foldl step k1 l) = 60%nat) as Hl2.
  { intros l. rewrite <- Hl1. clear. generalize k1. induction l as [|i l IH]; intros k'; [done|].
    cbn [foldl]. rewrite IH. unfold step. apply put_round_length. }
  rewrite at_put_round by (rewrite Hl2; unfold NB; lia). unfold NB in *.
  destruct (decide (r = nr)) as [->|Hrn].
  { rewrite decide_True by lia. rewrite decide_True by auto. do 2 f_equal; lia. }
  rewrite decide_False by lia. rewrite at_middle; [|done| |done|done].
  2:{ apply Forall_forall. intros t Ht. apply elem_of_seq in Ht.
      replace (4 * (nr + 1) / 4)%nat with (nr + 1)%nat in Ht by (rewrite Nat.mul_comm, Nat.div_mul; lia). lia. }
  replace (4 * (nr + 1) / 4)%nat with (nr + 1)%nat by (rewrite Nat.mul_comm, Nat.div_mul; lia).
  destruct (decide (r = 0%nat)) as [->|Hr0].
  - rewrite decide_False by (rewrite elem_of_seq; lia). rewrite decide_True by auto.
    unfold k1. rewrite at_put_round by lia. rewrite decide_True by lia. f_equal. lia.
  - rewrite decide_True by (rewrite elem_of_seq; lia). rewrite decide_False by lia. done.
Qed.
End reverse.

(** Copies and the expansion keep lengths and ranges. *)
Lemma copy_inv n off src dst (P : Z -> Prop) : Forall P dst -> (forall j, (j < n)%nat -> P (at_ src j)) ->
  Forall P (copy n off src dst) /\ length (copy n off src dst) = length dst.
Proof.
  intros Hd Hs. unfold copy. assert (forall j, j ∈ seq 0 n -> (j < n)%nat) as Hin by (intros j Hj; apply elem_of_seq in Hj; lia).
  revert dst Hd Hin. generalize (seq 0 n). intros l. induction l as [|j l IH]; intros dst Hd Hin; [done|].
  cbn [foldl]. destruct (IH (<[(off + j)%nat:=at_ src j]> dst)) as [H1 H2].
  - apply Forall_insert; [done|]. apply Hs, Hin. left.
  - intros i Hi. apply Hin. by right.
  - split; [done|]. by rewrite H2, length_insert.
Qed.

Definition key_ok (k : list Z) : Prop := Forall is_u32 k /\ length k = 60%nat.

Lemma key_ok_insert k i v : key_ok k -> is_u32 v -> key_ok (<[i := v]> k).
Proof. intros [Hk Hl] Hv. split; [by apply Forall_insert|by rewrite length_insert]. Qed.

Lemma chain_ok nk N j lo hi k : key_ok k -> key_ok (chain nk N j lo hi k).
Proof.
  unfold chain. generalize (seq lo (hi - lo)). intros l. revert k. induction l as [|i l IH]; intros k Hk; [done|].
  cbn [foldl]. apply IH. destruct (i + j <? N)%nat; [|done]. apply key_ok_insert; [done|].
  apply lxor_is_u32; apply key_u32, Hk.
Qed.

Lemma SubByte_u32 w : is_u32 (SubByte w).
Proof.
  unfold SubByte. unfold unpack. cbn [fmap list_fmap]. apply pack_u32; apply fbsub_inverse, u8_range.
Qed.
Lemma rco_u32 r : is_u32 (at_ rco r).
Proof. apply key_u32. unfold rco. rewrite !Forall_cons. repeat split; (done || lia). Qed.

Lemma expand_ok nk N fuel : forall j r k, key_ok k -> key_ok (expand fuel nk N j r k).
Proof.
  induction fuel as [|fuel IH]; intros j r k Hk; [done|]. cbn [expand].
  destruct (j <? N)%nat; [|done]. apply IH. unfold expand_step.
  assert (key_ok (<[j := at_ k (j - nk) ⊕ SubByte (ROTL24 (at_ k (j - 1))) ⊕ at_ rco r]> k)) as H1.
  { apply key_ok_insert; [done|]. repeat apply lxor_is_u32; [apply key_u32, Hk|apply SubByte_u32|apply rco_u32]. }
  destruct (nk <=? 6)%nat; [by apply chain_ok|]. apply chain_ok.
  destruct (j + 4 <? N)%nat; [|by apply chain_ok]. apply key_ok_insert; [by apply chain_ok|].
  apply lxor_is_u32; [|apply SubByte_u32]. apply key_u32. by apply (chain_ok nk N j 1 4).
Qed.

Lemma pack_any_u32 bs : bytes_ok bs -> is_u32 (pack bs).
Proof.
  intros Hb. assert (forall i, is_u32 (at_ bs i)) as H.
  { intros i. apply is_u8_u32. unfold at_, Sha256.at_.
    destruct (bs !! i) eqn:E; [exact (Forall_lookup_1 _ _ _ _ Hb E)|done]. }
  unfold pack. repeat apply lor_is_u32; (apply u32_range || apply H).
Qed.

(** ** Buffers of sixteen bytes *)
Definition buffer (b : list Z) : Prop := bytes_ok b /\ length b = 16%nat.

Lemma at_byte b j : bytes_ok b -> is_u8 (at_ b j).
Proof.
  intros Hb. unfold at_, Sha256.at_. destruct (b !! j) eqn:E; [exact (Forall_lookup_1 _ _ _ _ Hb E)|done].
Qed.

(** Loops that write the first [n] positions from what was there. *)
Lemma lookup_writes (g : list Z -> nat -> Z) n (b : list Z) i :
  (forall b b' j, b !! j = b' !! j -> g b j = g b' j) -> (n <= length b)%nat ->
  foldl (λ b j, <[j := g b j]> b) b (seq 0 n) !! i = if decide (i < n)%nat then Some (g b i) else b !! i.
Proof.
  intros Hg. induction n as [|n IH] in i |- *; intros Hn; [done|].
  rewrite seq_S, foldl_app. cbn [foldl Nat.add].
  set (b' := foldl _ b (seq 0 n)) in *.
  assert (b' !! n = b !! n) as En by (rewrite IH, decide_False by lia; done).
  assert (length b' = length b) as Hl.
  { unfold b'. clear. generalize (seq 0 n). intros l. revert b. induction l as [|x l IH]; intros b; [done|].
    cbn [foldl]. rewrite IH. apply length_insert. }
  destruct (decide (i = n)) as [->|Hne].
  - rewrite list_lookup_insert_eq, decide_True by lia. f_equal. by apply Hg.
  - rewrite list_lookup_insert_ne, IH by lia. repeat case_decide; (done || lia).
Qed.

Lemma lookup_xor_prefix n st b i : (n <= length b)%nat ->
  xor_prefix n st b !! i = if decide (i < n)%nat then Some (at_ b i ⊕ at_ st i) else b !! i.
Proof.
  intros Hn. apply (lookup_writes (λ b j, at_ b j ⊕ at_ st j)); [|done].
  intros b1 b2 j E. unfold at_, Sha256.at_. by rewrite E.
Qed.

Lemma xor_prefix_twice n st b : (n <= length b)%nat -> xor_prefix n st (xor_prefix n st b) = b.
Proof.
  intros Hn. assert (length (xor_prefix n st b) = length b) as Hl.
  { unfold xor_prefix. generalize (seq 0 n). intros l. revert b Hn. clear. induction l as [|x l IH]; intros b Hn; [done|].
    cbn [foldl]. rewrite IH; rewrite ?length_insert; done. }
  apply list_eq. intros i. rewrite lookup_xor_prefix by lia. case_decide as Hi.
  - destruct (lookup_lt_is_Some_2 b i) as [x Hx]; [lia|]. rewrite Hx. f_equal.
    unfold at_ at 1, Sha256.at_ at 1. rewrite lookup_xor_prefix, decide_True by lia. cbn.
    unfold at_, Sha256.at_. rewrite Hx. cbn. xor_ring.
  - by rewrite lookup_xor_prefix, decide_False by lia.
Qed.

Lemma xor_prefix_buffer n st b : buffer b -> bytes_ok st -> buffer (xor_prefix n st b).
Proof.
  intros Hb Hst. unfold xor_prefix. generalize (seq 0 n). intros l. revert b Hb.
  induction l as [|j l IH]; intros b [Hb Hl]; [done|]. cbn [foldl]. apply IH. split; [|by rewrite length_insert].
  apply Forall_insert; [done|]. apply lxor_u8; by apply at_byte.
Qed.

Lemma copy_buffer n off src dst : bytes_ok src -> buffer dst -> buffer (copy n off src dst).
Proof.
  intros Hs [Hd Hl]. destruct (copy_inv n off src dst is_u8 Hd) as [H1 H2]; [intros; by apply at_byte|].
  split; [done|lia].
Qed.

Lemma copy_all src dst : length src = 16%nat -> length dst = 16%nat -> copy (4 * NB) 0 src dst = src.
Proof.
  intros Hs Hd. apply list_eq. intros i. change (copy (4 * NB) 0 src dst) with
    (foldl (λ b j, <[j := at_ src j]> b) dst (seq 0 16)).
  rewrite (lookup_writes (λ _ j, at_ src j)) by (done || lia). case_decide.
  - destruct (lookup_lt_is_Some_2 src i) as [x Hx]; [lia|]. unfold at_, Sha256.at_. by rewrite Hx.
  - rewrite !lookup_ge_None_2 by lia. done.
Qed.

Lemma move_down_buffer n b : buffer b -> buffer (move_down n b).
Proof.
  unfold move_down. generalize (seq n (4 * NB - n)). intros l. revert b.
  induction l as [|j l IH]; intros b [Hb Hl]; [done|]. cbn [foldl]. apply IH.
  split; [|by rewrite length_insert]. apply Forall_insert; [done|]. by apply at_byte.
Qed.

Lemma store_buffer x : buffer (store_block x).
Proof.
  destruct x as [[[x0 x1] x2] x3]. unfold store_block. rewrite !unpack_le_split. split; [|done].
  rewrite !Forall_app. split_and!; apply le_split_bytes.
Qed.

(** ** Modes *)
Record ready (a : mcl_aes) : Prop := { r_keyed : keyed a; r_f : buffer (f a) }.

Lemma ready_set_f v a : ready a -> buffer v -> ready (set_f v a).
Proof. intros [[] ?] Hv. by split; [split|]. Qed.

(** Decrypting what was encrypted from the same context gives the block back, and
    leaves the same context. *)
Lemma decrypt_encrypt a b : ready a -> buffer b ->
  exists r c v, MCL_AES_encrypt a b = (r, c, set_f v a) /\ buffer c /\ buffer v /\
    MCL_AES_decrypt a c = (r, b, set_f v a).
Proof.
  intros [Hk Hf] Hb. assert (set_f (f a) a = a) as Ea by (by destruct a).
  assert (forall s, buffer (MCL_AES_ecb_encrypt a s)) as He by (intros; apply store_buffer).
  assert (forall s n, buffer s -> (n <= 16)%nat -> forall b, buffer b -> xor_prefix n s (xor_prefix n s b) = b) as Hxx
    by (intros s n Hs Hn b' [? ?]; apply xor_prefix_twice; lia).
  pose proof (He (f a)) as [Hs _]. unfold MCL_AES_encrypt, MCL_AES_decrypt.
  destruct (mode a) eqn:Em; cbn [feedback_bytes];
    try (eexists _, _, (copy _ _ _ (move_down _ (f a))); split_and!;
         [reflexivity|by apply xor_prefix_buffer|
          by apply copy_buffer; [by apply xor_prefix_buffer|by apply move_down_buffer]|
          by rewrite Hxx by (done || lia)]; fail);
    try (eexists _, _, (MCL_AES_ecb_encrypt a (f a)); split_and!;
         [reflexivity|by apply xor_prefix_buffer|done|by rewrite Hxx by (done || lia)]; fail).
  - exists 0, (MCL_AES_ecb_encrypt a b), (f a). rewrite Ea, ecb_undone by (done || apply Hb). done.
  - pose proof (xor_prefix_buffer (4 * NB) (f a) b Hb (proj1 Hf)) as Hx.
    eexists _, _, (copy (4 * NB) 0 _ (f a)). split_and!; [reflexivity|apply He|apply copy_buffer; [apply He|done]|].
    rewrite ecb_undone by (done || apply Hx). by rewrite Hxx by (done || unfold NB; lia).
Qed.

(** A message is a list of blocks. *)
Fixpoint crypt_all (op : mcl_aes -> list Z -> Z * list Z * mcl_aes) (a : mcl_aes) (bs : list (list Z))
  : list (list Z) * mcl_aes :=
  match bs with
  | [] => ([], a)
  | b :: bs => let '(_, c, a) := op a b in let '(cs, a) := crypt_all op a bs in (c :: cs, a)
  end.

Lemma message_undone bs : forall a, ready a -> Forall buffer bs ->
  exists cs v, crypt_all MCL_AES_encrypt a bs = (cs, set_f v a) /\ buffer v /\
    crypt_all MCL_AES_decrypt a cs = (bs, set_f v a).
Proof.
  induction bs as [|b bs IH]; intros a Ha Hbs.
  { exists [], (f a). destruct a. split_and!; [done|apply Ha|done]. }
  apply Forall_cons in Hbs as [Hb Hbs]. destruct (decrypt_encrypt a b Ha Hb) as (r & c & v & E & Hc & Hv & D).
  destruct (IH (set_f v a) (ready_set_f v a Ha Hv) Hbs) as (cs & w & E2 & Hw & D2).
  exists (c :: cs), w. cbn [crypt_all]. rewrite E, E2, D, D2. done.
Qed.

(** ** Initialisation *)
Record ctx_ok (a : mcl_aes) : Prop := {
  c_fkey : key_ok (fkey a);
  c_rkey : length (rkey a) = 60%nat;
  c_f : buffer (f a)
}.
Definition start_vector (m : aes_mode) (iv : option (list Z)) : list Z :=
  match iv with
  | Some iv => if decide (m = ECB) then replicate 16 0 else iv
  | None => replicate 16 0
  end.

Lemma zeros_buffer : buffer (replicate 16 0).
Proof. split; [|done]. by apply Forall_replicate. Qed.

Lemma reset_vector a m iv : buffer (f a) -> (forall v, iv = Some v -> buffer v) ->
  MCL_AES_reset a m iv =
    {| Nk := Nk a; Nr := Nr a; mode := m; fkey := fkey a; rkey := rkey a; f := start_vector m iv |}.
Proof.
  intros [_ Hf] Hiv. unfold MCL_AES_reset. rewrite (copy_all (replicate (4 * NB) 0)) by done. f_equal.
  unfold start_vector. destruct iv as [v|]; [|done]. case_decide; [done|].
  destruct (Hiv v eq_refl) as [_ Hv]. by apply copy_all.
Qed.

Lemma start_vector_buffer m iv : (forall v, iv = Some v -> buffer v) -> buffer (start_vector m iv).
Proof. intros Hiv. unfold start_vector. destruct iv; [case_decide|]; auto using zeros_buffer. Qed.

Lemma init_ready a m nk key iv :
  ctx_ok a -> nk = 16 \/ nk = 24 \/ nk = 32 -> bytes_ok key -> (forall v, iv = Some v -> buffer v) ->
  exists a', MCL_AES_init a m nk key iv = (1, a') /\ ready a' /\ mode a' = m /\ f a' = start_vector m iv /\
    Z.of_nat (Nr a') = 6 + nk / 4.
Proof.
  intros [Hk Hr Hf] Hnk Hkey Hiv. unfold MCL_AES_init.
  assert (Z.quot nk 4 = nk / 4) as Eq by (apply Z.quot_div_nonneg; lia). rewrite Eq.
  assert (2 <= Z.to_nat (6 + nk / 4) <= 14)%nat as Hn by (destruct Hnk as [-> |[-> | ->]]; vm_compute; lia).
  replace (negb (nk / 4 =? 4) && negb (nk / 4 =? 6) && negb (nk / 4 =? 8)) with false
    by (by destruct Hnk as [-> |[-> | ->]]).
  rewrite reset_vector by done. cbn [f fkey rkey Nk Nr mode].
  set (nr := Z.to_nat (6 + nk / 4)) in *. set (n := Z.to_nat (nk / 4)). set (N := (NB * (nr + 1))%nat).
  set (CK := (λ i, pack (take 4 (drop (4 * i) key))) <$> seq 0 n).
  assert (key_ok (copy n 0 CK (fkey a))) as Hc.
  { destruct (copy_inv n 0 CK (fkey a) is_u32 (proj1 Hk)) as [H1 H2]; [|split; [done|rewrite H2; apply Hk]].
    intros j Hj. apply key_u32, Forall_forall. intros w Hw. apply list_elem_of_fmap in Hw as (i & -> & _).
    apply pack_any_u32. by apply Forall_take, Forall_drop. }
  pose proof (expand_ok n N N n 0 _ Hc) as [Hw Hl]. set (fk := expand N n N n 0 _) in *.
  eexists. split; [reflexivity|]. cbn [f fkey rkey Nk Nr mode]. split_and!; [|done|done|].
  2:{ unfold nr. rewrite Z2Nat.id; [done|]. destruct Hnk as [-> |[-> | ->]]; vm_compute; discriminate. }
  split; [|by apply start_vector_buffer]. split; cbn [f fkey rkey Nk Nr mode]; [lia|done| | |].
  - intros j Hj. pose proof (at_reverse_key fk nr Hn (rkey a) nr j Hr ltac:(lia) Hj) as E.
    rewrite decide_True in E by auto. by rewrite Nat.sub_diag in E.
  - intros r j Hrr Hj. pose proof (at_reverse_key fk nr Hn (rkey a) r j Hr ltac:(lia) Hj) as E.
    by rewrite decide_False in E by lia.
  - intros j Hj. pose proof (at_reverse_key fk nr Hn (rkey a) 0 j Hr ltac:(lia) Hj) as E.
    rewrite decide_True in E by auto. by rewrite Nat.sub_0_r in E.
Qed.

(** [C16] Initialised with a key of 16, 24 or 32 bytes, encryption of a block is the
    cipher of FIPS 197 with the expanded key: the tables implement the substitution
    by inversion in the field, the shift of the rows and the mixing of the columns. *)
Theorem aes_is_fips197 a m nk key iv b :
  ctx_ok a -> nk = 16 \/ nk = 24 \/ nk = 32 -> bytes_ok key -> (forall v, iv = Some v -> buffer v) -> buffer b ->
  exists a', MCL_AES_init a m nk key iv = (1, a') /\ Z.of_nat (Nr a') = 6 + nk / 4 /\
    MCL_AES_ecb_encrypt a' b = Cipher (Nr a') (fkey a') b.
Proof.
  intros Ha Hnk Hk Hiv [Hb Hl]. destruct (init_ready a m nk key iv Ha Hnk Hk Hiv) as (a' & E & [Hr _] & _ & _ & En).
  exists a'. split_and!; [done|done|]. apply ecb_encrypt_cipher; [apply Hr|done|done].
Qed.

(** [C15] In every mode of operation, with every key of 16, 24 or 32 bytes and every start
    vector: decrypting the encrypted blocks of a message after a reset to the start vector
    gives the message back. *)
Theorem aes_roundtrip a m nk key iv bs :
  ctx_ok a -> nk = 16 \/ nk = 24 \/ nk = 32 -> bytes_ok key -> (forall v, iv = Some v -> buffer v) ->
  Forall buffer bs ->
  let '(rc, a1) := MCL_AES_init a m nk key iv in
  let '(cs, a2) := crypt_all MCL_AES_encrypt a1 bs in
  rc = 1 /\ fst (crypt_all MCL_AES_decrypt (MCL_AES_reset a2 m iv) cs) = bs.
Proof.
  intros Ha Hnk Hk Hiv Hbs. destruct (init_ready a m nk key iv Ha Hnk Hk Hiv) as (a1 & -> & Hr & Em & Ef & _).
  destruct (message_undone bs a1 Hr Hbs) as (cs & v & -> & Hv & D). split; [done|].
  rewrite reset_vector by done. cbn [set_f Nk Nr mode fkey rkey f].
  replace {| Nk := _; Nr := _; mode := _; fkey := _; rkey := _; f := _ |} with a1
    by (rewrite <- Ef, <- Em; by destruct a1).
  by rewrite D.
Qed.

(** A message of two blocks in each kind of mode. *)
Definition sample : list (list Z) := [fips_plain; reverse fips_plain].
Lemma fresh_ok : ctx_ok fresh.
Proof. split; [split; [|done]|done|split; [|done]]; cbn [fkey f fresh]; by apply Forall_replicate. Qed.
Lemma sample_ok : Forall buffer sample.
Proof.
  assert (bytes_ok fips_plain) as Hp by (apply Forall_fmap, Forall_forall; intros x Hx; apply elem_of_seqZ in Hx; unfold is_u8; cbn; lia).
  apply Forall_cons. split; [by split|]. apply Forall_cons. split; [|done]. split; [by apply Forall_reverse|done].
Qed.

Lemma aes_is_fips197_witness :
  exists a', MCL_AES_init fresh ECB 16 (replicate 16 7) None = (1, a') /\ Z.of_nat (Nr a') = 10 /\
    MCL_AES_ecb_encrypt a' fips_plain = Cipher (Nr a') (fkey a') fips_plain.
Proof.
  apply (aes_is_fips197 fresh ECB 16 (replicate 16 7) None fips_plain);
    [apply fresh_ok|auto|by apply Forall_replicate|discriminate|].
  exact (proj1 (proj1 (Forall_cons _ _ _) sample_ok)).
Defined.

Lemma aes_roundtrip_witness :
  let '(rc, a1) := MCL_AES_init fresh CFB4 24 (replicate 24 9) (Some (replicate 16 3)) in
  let '(cs, a2) := crypt_all MCL_AES_encrypt a1 sample in
  rc = 1 /\ fst (crypt_all MCL_AES_decrypt (MCL_AES_reset a2 CFB4 (Some (replicate 16 3))) cs) = sample.
Proof.
  apply (aes_roundtrip fresh CFB4 24 (replicate 24 9) (Some (replicate 16 3)) sample);
    [apply fresh_ok|auto|by apply Forall_replicate| |apply sample_ok].
  intros v E. replace v with (replicate 16 3) by congruence. split; [by apply Forall_replicate|done].
Defined.
