(* ===== verification/Gcm.v ===== *)
(** * Gcm: authenticated encryption of the MIRACL library
      (common/vendors/MIRACL/ara/src/lib/mcl_gcm.c, mcl_gcm.h)

    A [char] pointer with its length is the list of the bytes it addresses.  A routine
    that writes an output buffer returns the bytes it writes, next to its return code
    and the new instance. *)

From S2P Require Import Prelude Sha256 Aes.

Module Gcm.
Abbreviation at_ := Sha256.at_.
Abbreviation copy := Aes.copy.

Definition NB : nat := 4.
Definition MR_TOBYTE (x : Z) : Z := u8 x.

(** ** Words, most significant byte first *)
Definition pack (b : list Z) : Z :=
  Z.lor (Z.lor (Z.lor (at_ b 0 <<₃₂ 24) (at_ b 1 <<₃₂ 16)) (at_ b 2 <<₃₂ 8)) (at_ b 3).
Definition unpack (a : Z) : list Z :=
  [MR_TOBYTE (Z.shiftr a 24); MR_TOBYTE (Z.shiftr a 16); MR_TOBYTE (Z.shiftr a 8); MR_TOBYTE a].

(** ** The instance *)
Inductive gcm_status :=
| MCL_GCM_ACCEPTING_HEADER
| MCL_GCM_ACCEPTING_CIPHER
| MCL_GCM_NOT_ACCEPTING_MORE
| MCL_GCM_FINISHED.
#[export] Instance gcm_status_dec : EqDecision gcm_status.
Proof. solve_decision. Defined.

(** The counters of 64 bits are pairs of words, the high word first. *)
Record mcl_gcm := {
  table : list (list Z);
  stateX : list Z;
  Y_0 : list Z;
  lenA : Z * Z;
  lenC : Z * Z;
  status : gcm_status;
  a : Aes.mcl_aes
}.
Definition set_stateX (v : list Z) (g : mcl_gcm) : mcl_gcm :=
  {| table := table g; stateX := v; Y_0 := Y_0 g; lenA := lenA g; lenC := lenC g; status := status g; a := a g |}.
Definition set_Y_0 (v : list Z) (g : mcl_gcm) : mcl_gcm :=
  {| table := table g; stateX := stateX g; Y_0 := v; lenA := lenA g; lenC := lenC g; status := status g; a := a g |}.
Definition set_lens (va vc : Z * Z) (g : mcl_gcm) : mcl_gcm :=
  {| table := table g; stateX := stateX g; Y_0 := Y_0 g; lenA := va; lenC := vc; status := status g; a := a g |}.
Definition set_status (v : gcm_status) (g : mcl_gcm) : mcl_gcm :=
  {| table := table g; stateX := stateX g; Y_0 := Y_0 g; lenA := lenA g; lenC := lenC g; status := v; a := a g |}.
Definition set_a (v : Aes.mcl_aes) (g : mcl_gcm) : mcl_gcm :=
  {| table := table g; stateX := stateX g; Y_0 := Y_0 g; lenA := lenA g; lenC := lenC g; status := status g; a := v |}.
Definition set_table (v : list (list Z)) (g : mcl_gcm) : mcl_gcm :=
  {| table := v; stateX := stateX g; Y_0 := Y_0 g; lenA := lenA g; lenC := lenC g; status := status g; a := a g |}.

(** ** Multiplication in the field of 2^128 elements *)
Definition row (t : list (list Z)) (i : nat) : list Z := default [] (t !! i).

(** One row from the one before: [next[j]=b|(last[j])>>1; b=last[j]<<31], then the
    reduction. *)
Definition shift_row (last : list Z) : list Z :=
  let '(next, b) := foldl (λ '(next, b) j,
    (next ++ [Z.lor b (Z.shiftr (at_ last j) 1)], at_ last j <<₃₂ 31)) ([], 0) (seq 0 NB) in
  if b =? 0 then next else <[0%nat := Z.lxor (at_ next 0) 0xE1000000]> next.

Definition precompute (t : list (list Z)) (H : list Z) : list (list Z) :=
  let t := <[0%nat := (λ i, pack (drop (4 * i) H)) <$> seq 0 NB]> t in
  foldl (λ t i, <[i := shift_row (row t (i - 1))]> t) t (seq 1 127).

(** Bit [j] from the top of byte [m] of the state is bit [i = 8 m + j] of the loop. *)
Definition state_bit (x : list Z) (i : nat) : bool :=
  negb (Z.land (Z.shiftr (at_ x (i / 8)) (7 - Z.of_nat (i mod 8))) 1 =? 0).
Definition xor_row (P r : list Z) : list Z := (λ k, Z.lxor (at_ P k) (at_ r k)) <$> seq 0 NB.
Definition gf2mul (g : mcl_gcm) : mcl_gcm :=
  let P := foldl (λ P i, if state_bit (stateX g) i then xor_row P (row (table g) i) else P)
             (replicate NB 0) (seq 0 128) in
  set_stateX (foldl (λ x i, copy 4 (4 * i) (unpack (at_ P i)) x) (stateX g) (seq 0 NB)) g.

(** ** Hashing *)
Definition tick (l : Z * Z) : Z * Z :=
  let lo := snd l +₃₂ 1 in (if lo =? 0 then fst l +₃₂ 1 else fst l, lo).

(** [g->stateX[i]^=b;] *)
Definition mix (i : nat) (b : Z) (g : mcl_gcm) : mcl_gcm :=
  set_stateX (<[i := Z.lxor (at_ (stateX g) i) b]> (stateX g)) g.

Definition MCL_GCM_wrap (g : mcl_gcm) : mcl_gcm :=
  let F := [Z.lor (fst (lenA g) <<₃₂ 3) (Z.shiftr (Z.land (snd (lenA g)) 0xE0000000) 29);
            snd (lenA g) <<₃₂ 3;
            Z.lor (fst (lenC g) <<₃₂ 3) (Z.shiftr (Z.land (snd (lenC g)) 0xE0000000) 29);
            snd (lenC g) <<₃₂ 3] in
  let L := foldl (λ L i, copy 4 (4 * i) (unpack (at_ F i)) L) (replicate 16 0) (seq 0 NB) in
  gf2mul (foldl (λ g i, mix i (at_ L i) g) g (seq 0 16)).

(** [while (j<len) { for (i=0;i<16 && j<len;i++) ...byte j++...; gf2mul(g); }] *)
Fixpoint absorb (fuel : nat) (byte : mcl_gcm -> nat -> Z -> mcl_gcm) (data : list Z) (j : nat) (g : mcl_gcm) : mcl_gcm :=
  match fuel with
  | O => g
  | S fuel =>
      if (j <? length data)%nat then
        let n := (16 `min` (length data - j))%nat in
        absorb fuel byte data (j + n) (gf2mul (foldl (λ g i, byte g i (at_ data (j + i))) g (seq 0 n)))
      else g
  end.
Definition header_byte (g : mcl_gcm) (i : nat) (b : Z) : mcl_gcm :=
  let g := mix i b g in set_lens (tick (lenA g)) (lenC g) g.
Definition cipher_byte (g : mcl_gcm) (i : nat) (b : Z) : mcl_gcm :=
  let g := mix i b g in set_lens (lenA g) (tick (lenC g)) g.

(** The status after a piece that is not a whole number of blocks. *)
Definition partial (len : nat) (s : gcm_status) (g : mcl_gcm) : mcl_gcm :=
  if (len mod 16 =? 0)%nat then g else set_status s g.
(** [if (status==ACCEPTING_HEADER) status=ACCEPTING_CIPHER;] *)
Definition end_header (g : mcl_gcm) : mcl_gcm :=
  if decide (status g = MCL_GCM_ACCEPTING_HEADER) then set_status MCL_GCM_ACCEPTING_CIPHER g else g.

Definition MCL_GCM_ghash (g : mcl_gcm) (plain : list Z) : Z * mcl_gcm :=
  let g := end_header g in
  if decide (status g = MCL_GCM_ACCEPTING_CIPHER) then
    let g := absorb (length plain) cipher_byte plain 0 g in
    (1, partial (length plain) MCL_GCM_NOT_ACCEPTING_MORE g)
  else (0, g).

(** ** Interface *)
Definition MCL_GCM_init (g : mcl_gcm) (nk : Z) (key iv : list Z) : mcl_gcm :=
  let H := replicate 16 0 in
  let g := set_stateX (copy 16 0 H (stateX g)) g in
  let g := set_a (snd (Aes.MCL_AES_init (a g) Aes.ECB nk key (Some iv))) g in
  let H := Aes.MCL_AES_ecb_encrypt (a g) H in
  let g := set_table (precompute (table g) H) g in
  let g := set_lens (0, 0) (0, 0) g in
  let g :=
    if (length iv =? 12)%nat then
      let f := copy 4 12 (unpack 1) (copy 12 0 iv (Aes.f (a g))) in
      set_Y_0 (copy 16 0 f (Y_0 g)) (set_a (Aes.set_f f (a g)) g)
    else
      let g := set_status MCL_GCM_ACCEPTING_CIPHER g in
      let g := MCL_GCM_wrap (snd (MCL_GCM_ghash g iv)) in
      let f := copy 16 0 (stateX g) (Aes.f (a g)) in
      let g := set_Y_0 (copy 16 0 f (Y_0 g)) (set_a (Aes.set_f f (a g)) g) in
      set_lens (0, 0) (0, 0) (set_stateX (copy 16 0 (replicate 16 0) (stateX g)) g) in
  set_status MCL_GCM_ACCEPTING_HEADER g.

Definition MCL_GCM_add_header (g : mcl_gcm) (header : list Z) : Z * mcl_gcm :=
  if decide (status g = MCL_GCM_ACCEPTING_HEADER) then
    let g := absorb (length header) header_byte header 0 g in
    (1, partial (length header) MCL_GCM_ACCEPTING_CIPHER g)
  else (0, g).

(** The counter in the last four bytes of [f] goes up by one; the block [B] is the
    new [f] encrypted. *)
Definition next_block (g : mcl_gcm) : list Z * mcl_gcm :=
  let f := Aes.f (a g) in
  let counter := pack (drop 12 f) +₃₂ 1 in
  let f := copy 4 12 (unpack counter) f in
  let g := set_a (Aes.set_f f (a g)) g in
  (Aes.MCL_AES_ecb_encrypt (a g) f, g).

(** [cipher[j]=plain[j]^B[i]; stateX[i]^=cipher[j];] and the other way round: the
    byte written and the new instance. *)
Definition plain_step (B : list Z) (g : mcl_gcm) (i : nat) (p : Z) : Z * mcl_gcm :=
  let c := Z.lxor p (at_ B i) in (c, cipher_byte g i c).
Definition cipher_step (B : list Z) (g : mcl_gcm) (i : nat) (c : Z) : Z * mcl_gcm :=
  (Z.lxor c (at_ B i), cipher_byte g i c).

Fixpoint crypt (fuel : nat) (step : list Z -> mcl_gcm -> nat -> Z -> Z * mcl_gcm) (data : list Z) (j : nat)
    (out : list Z) (g : mcl_gcm) : list Z * mcl_gcm :=
  match fuel with
  | O => (out, g)
  | S fuel =>
      if (j <? length data)%nat then
        let '(B, g) := next_block g in
        let n := (16 `min` (length data - j))%nat in
        let '(out, g) := foldl (λ '(out, g) i, let '(o, g) := step B g i (at_ data (j + i)) in (out ++ [o], g))
                           (out, g) (seq 0 n) in
        crypt fuel step data (j + n) out (gf2mul g)
      else (out, g)
  end.

Definition MCL_GCM_add_plain (g : mcl_gcm) (plain : list Z) : Z * list Z * mcl_gcm :=
  let g := end_header g in
  if decide (status g = MCL_GCM_ACCEPTING_CIPHER) then
    let '(cipher, g) := crypt (length plain) plain_step plain 0 [] g in
    (1, cipher, partial (length plain) MCL_GCM_NOT_ACCEPTING_MORE g)
  else (0, [], g).

Definition MCL_GCM_add_cipher (g : mcl_gcm) (cipher : list Z) : Z * list Z * mcl_gcm :=
  let g := end_header g in
  if decide (status g = MCL_GCM_ACCEPTING_CIPHER) then
    let '(plain, g) := crypt (length cipher) cipher_step cipher 0 [] g in
    (1, plain, partial (length cipher) MCL_GCM_NOT_ACCEPTING_MORE g)
  else (0, [], g).

(** The tag is wanted when the pointer is not null. *)
Definition MCL_GCM_finish (g : mcl_gcm) (want : bool) : option (list Z) * mcl_gcm :=
  let g := MCL_GCM_wrap g in
  let '(tag, g) :=
    if want then
      let Y := Aes.xor_prefix 16 (stateX g) (Aes.MCL_AES_ecb_encrypt (a g) (Y_0 g)) in
      let zero := replicate 16 0 in
      (Some Y, set_Y_0 (copy 16 0 zero Y) (set_stateX (copy 16 0 zero (stateX g)) g))
    else (None, g) in
  let g := set_status MCL_GCM_FINISHED g in
  (tag, set_a (Aes.MCL_AES_end (a g)) g).

(** ** The vectors of the comment at the end of the file *)
Definition fresh : mcl_gcm :=
  {| table := replicate 128 []; stateX := replicate 16 0; Y_0 := replicate 16 0; lenA := (0, 0); lenC := (0, 0);
     status := MCL_GCM_FINISHED; a := Aes.fresh |}.
Definition KT : list Z := bytes_be 16 0xfeffe9928665731c6d6a8f9467308308.
Definition MT : list Z := bytes_be 60
  0xd9313225f88406e5a55909c5aff5269a86a7a9531534f7da2e4c303d8a318a721c3c0c95956809532fcf0e2449a6b525b16aedf5aa0de657ba637b39.
Definition HT : list Z := bytes_be 20 0xfeedfacedeadbeeffeedfacedeadbeefabaddad2.
Definition NT : list Z := bytes_be 60
  0x9313225df88406e555909c5aff5269aa6a7a9538534f7da1e4c303d2a318a728c3c0c95156809539fcf0e2429a6b525416aedbf5a0de6a57a637b39b.
Definition NT_12 : list Z := bytes_be 12 0xcafebabefacedbaddecaf888.
Definition run_vector (iv : list Z) : option (list Z) :=
  let g := MCL_GCM_init fresh 16 KT iv in
  let '(_, g) := MCL_GCM_add_header g HT in
  let '(_, _, g) := MCL_GCM_add_plain g MT in
  fst (MCL_GCM_finish g true).
Example vector_12 : run_vector NT_12 = Some (bytes_be 16 0x5bc94fbc3221a5db94fae95ae7121a47).
Proof. vm_compute. reflexivity. Qed.
Example vector_60 : run_vector NT = Some (bytes_be 16 0x619cc5aefffe0bfa462af43c1699d050).
Proof. vm_compute. reflexivity. Qed.
End Gcm.
