(* ===== verification/GcmSpec.v ===== *)
(** * GcmSpec: the tables and counters compute the Galois/Counter Mode

    The reference follows NIST SP 800-38D: blocks are numbers of 128 bits, the hash
    multiplies them in the field, the cipher encrypts a counter. *)

From S2P Require Import Prelude Sha256 StreamHash Sha256Spec Aes AesSpec Gcm.
Import Gcm.
Abbreviation at_ := Sha256.at_.
Abbreviation be := Sha256.be.
#[local] Open Scope aes_scope.

(** ** Numbers and their bytes *)
Lemma be_bytes_be n x : be (bytes_be n x) = x mod 2 ^ (8 * Z.of_nat n).
Proof. unfold bytes_be. by rewrite be_reverse, le_combine_split. Qed.

Lemma bytes_be_be l : bytes_ok l -> bytes_be (length l) (be l) = l.
Proof.
  intros Hl. rewrite <- (reverse_involutive l) at 2. rewrite be_reverse. unfold bytes_be.
  rewrite <- (length_reverse l), le_split_combine by (by apply Forall_reverse). apply reverse_involutive.
Qed.

Lemma be_inj l l' : bytes_ok l -> bytes_ok l' -> length l = length l' -> be l = be l' -> l = l'.
Proof. intros Hl Hl' E Eb. rewrite <- (bytes_be_be l), <- (bytes_be_be l') by done. by rewrite E, Eb. Qed.

Lemma le_combine_bit l : bytes_ok l -> forall m k, 0 <= k < 8 ->
  Z.testbit (le_combine l) (8 * Z.of_nat m + k) = Z.testbit (at_ l m) k.
Proof.
  induction 1 as [|b l Hb _ IH]; intros m k Hk; [by rewrite Z.bits_0, Z.bits_0|].
  cbn [le_combine]. rewrite join_lxor, Z.lxor_spec by done. destruct m as [|m].
  - rewrite Z.shiftl_spec_low by lia. by rewrite Z.mul_0_r, Z.add_0_l.
  - rewrite Z.shiftl_spec by lia. replace (8 * Z.of_nat (S m) + k - 8) with (8 * Z.of_nat m + k) by lia.
    rewrite IH by done. replace (Z.testbit b (8 * Z.of_nat (S m) + k)) with false; [apply xorb_false_r|].
    symmetry. rewrite <- (u8_small b Hb), u8_mod. apply Z.mod_pow2_bits_high. lia.
Qed.

Lemma be_bit l m k : bytes_ok l -> (m < length l)%nat -> 0 <= k < 8 ->
  Z.testbit (be l) (8 * Z.of_nat (length l - 1 - m) + k) = Z.testbit (at_ l m) k.
Proof.
  intros Hl Hm Hk. rewrite <- (reverse_involutive l) at 1. rewrite be_reverse.
  rewrite le_combine_bit by (done || by apply Forall_reverse). f_equal. unfold at_, Sha256.at_.
  rewrite reverse_lookup by lia. do 2 f_equal. lia.
Qed.

Lemma be_lxor l : forall l', bytes_ok l -> bytes_ok l' -> length l = length l' ->
  be (zip_with Z.lxor l l') = be l ⊕ be l'.
Proof.
  induction l as [|x l IH] using rev_ind; intros l' Hl Hl' E.
  { by destruct l'. }
  destruct l' as [|y l' _] using rev_ind; [by rewrite length_app in E; cbn in E; lia|].
  rewrite !length_app in E. cbn [length] in E. rewrite zip_with_app by lia. cbn [zip_with].
  rewrite !be_snoc. apply Forall_app in Hl as [Hl Hx]. apply Forall_app in Hl' as [Hl' Hy].
  apply Forall_inv in Hx, Hy. rewrite IH by (done || lia).
  replace (_ * 256 + _) with ((x ⊕ y) + 2 ^ 8 * (be l ⊕ be l')) by lia.
  replace (be l * 256 + x) with (x + 2 ^ 8 * be l) by lia. replace (be l' * 256 + y) with (y + 2 ^ 8 * be l') by lia.
  rewrite !join_lxor by (done || by apply lxor_u8). rewrite Z.shiftl_lxor. xor_ring.
Qed.

(** ** Words *)
Lemma pack_be b0 b1 b2 b3 r : is_u8 b0 -> is_u8 b1 -> is_u8 b2 -> is_u8 b3 ->
  pack (b0 :: b1 :: b2 :: b3 :: r) = be [b0; b1; b2; b3].
Proof.
  intros H0 H1 H2 H3. change (pack (b0 :: b1 :: b2 :: b3 :: r)) with (Aes.pack [b3; b2; b1; b0]).
  rewrite pack_le_combine by done. unfold be, Sha256.be. cbn [foldl le_combine]. lia.
Qed.
Lemma unpack_be x : unpack x = bytes_be 4 x.
Proof.
  change (unpack x) with (reverse (Aes.unpack x)). by rewrite unpack_le_split.
Qed.

(** ** The field of SP 800-38D, 6.3 *)
Definition R128 : Z := 0xE1 * 2 ^ 120.
Definition halve (V : Z) : Z := Z.shiftr V 1 ⊕ (if Z.testbit V 0 then R128 else 0).
Definition gmul (X Y : Z) : Z :=
  fst (foldl (λ '(P, V) i, ((if Z.testbit X (127 - Z.of_nat i) then P ⊕ V else P), halve V)) (0, Y) (seq 0 128)).

(** Four words as a number. *)
Definition wide (r : list Z) : Z := foldl (λ acc w, acc * 2 ^ 32 + w) 0 r.
Definition words_ok (r : list Z) : Prop := Forall is_u32 r /\ length r = 4%nat.

Lemma words_ok_inv r : words_ok r -> exists w0 w1 w2 w3, r = [w0; w1; w2; w3] /\ is_u32 w0 /\ is_u32 w1 /\ is_u32 w2 /\ is_u32 w3.
Proof.
  intros [Hr Hl]. destruct r as [|w0 [|w1 [|w2 [|w3 [|]]]]]; try done. rewrite !Forall_cons in Hr.
  exists w0, w1, w2, w3. tauto.
Qed.
Lemma words_ok_4 w0 w1 w2 w3 : is_u32 w0 -> is_u32 w1 -> is_u32 w2 -> is_u32 w3 -> words_ok [w0; w1; w2; w3].
Proof. intros. split; [|done]. rewrite !Forall_cons. auto. Qed.

Lemma join32_lxor w x : is_u32 w -> x * 2 ^ 32 + w = Z.shiftl x 32 ⊕ w.
Proof.
  intros Hw. rewrite Z.shiftl_mul_pow2 by lia. apply Z.add_nocarry_lxor.
  apply Z.bits_inj'. intros i Hi. rewrite Z.land_spec, Z.bits_0.
  destruct (Z.lt_ge_cases i 32); [by rewrite Z.mul_pow2_bits_low|].
  rewrite (is_u32_testbit_high w) by done. apply andb_false_r.
Qed.

Lemma wide_lxor r s : words_ok r -> words_ok s -> words_ok (xor_row r s) /\ wide (xor_row r s) = wide r ⊕ wide s.
Proof.
  intros Hr Hs. destruct (words_ok_inv r Hr) as (r0 & r1 & r2 & r3 & -> & ? & ? & ? & ?).
  destruct (words_ok_inv s Hs) as (s0 & s1 & s2 & s3 & -> & ? & ? & ? & ?).
  unfold xor_row. cbn. split; [apply words_ok_4; by apply lxor_is_u32|]. unfold wide. cbn [foldl].
  rewrite !join32_lxor by (done || by apply lxor_is_u32). rewrite !Z.shiftl_lxor. xor_ring.
Qed.

Lemma wide_range r : words_ok r -> 0 <= wide r < 2 ^ 128.
Proof.
  intros Hr. destruct (words_ok_inv r Hr) as (r0 & r1 & r2 & r3 & -> & ? & ? & ? & ?). unfold is_u32 in *.
  unfold wide. cbn [foldl]. lia.
Qed.

Lemma carry_bit w v : is_u32 w -> is_u32 v ->
  Z.lor (w <<₃₂ 31) (Z.shiftr v 1) = (w mod 2) * 2 ^ 31 + v / 2.
Proof.
  intros Hw Hv. rewrite Z.shiftr_div_pow2, Z.shiftl_mul_pow2 by lia. unfold is_u32 in *.
  replace (u32 (w * 2 ^ 31)) with ((w mod 2) * 2 ^ 31) by word_lia. apply lor_join; [lia|].
  change (2 ^ 1) with 2. Z.div_mod_to_equations. lia.
Qed.

(** One row of the table is the row before, halved. *)
Lemma shift_row_halve r : words_ok r -> words_ok (shift_row r) /\ wide (shift_row r) = halve (wide r).
Proof.
  intros Hr. destruct (words_ok_inv r Hr) as (r0 & r1 & r2 & r3 & -> & H0 & H1 & H2 & H3).
  unfold shift_row. cbn [seq NB foldl app at_ Sha256.at_ lookup list_lookup default from_option id].
  assert (Z.lor 0 (Z.shiftr r0 1) = r0 / 2) as -> by (rewrite Z.lor_0_l, Z.shiftr_div_pow2 by lia; done).
  rewrite !carry_bit by done.
  assert ((r3 <<₃₂ 31 =? 0) = negb (Z.odd r3)) as ->.
  { rewrite Z.shiftl_mul_pow2 by lia. rewrite Zodd_mod. unfold is_u32 in *.
    destruct (Zeq_bool (r3 mod 2) 1) eqn:E; [apply Zeq_bool_eq in E|apply Zeq_bool_neq in E];
      [apply Z.eqb_neq|apply Z.eqb_eq]; word_lia. }
  set (s := [r0 / 2; r0 mod 2 * 2 ^ 31 + r1 / 2; r1 mod 2 * 2 ^ 31 + r2 / 2; r2 mod 2 * 2 ^ 31 + r3 / 2]).
  assert (words_ok s) as Hs by (unfold is_u32 in *; apply words_ok_4; word_lia).
  assert (wide s = wide [r0; r1; r2; r3] / 2) as Es.
  { unfold wide, s. cbn [foldl]. word_lia. }
  assert (Z.testbit (wide [r0; r1; r2; r3]) 0 = Z.odd r3) as Eo.
  { rewrite Z.bit0_odd. unfold wide. cbn [foldl]. rewrite Z.odd_add, Z.odd_mul. by rewrite (Z.odd_pow 2 32), andb_false_r by lia. }
  unfold halve. rewrite Eo, Z.shiftr_div_pow2 by lia. change (2 ^ 1) with 2. rewrite <- Es.
  destruct (Z.odd r3); cbn [negb].
  2: { by rewrite Z.lxor_0_r. }
  assert (words_ok [0xE1000000; 0; 0; 0]) as Hp by (by apply words_ok_4).
  replace (<[0%nat := _]> s) with (xor_row s [0xE1000000; 0; 0; 0]).
  - destruct (wide_lxor s [0xE1000000; 0; 0; 0] Hs Hp) as [? E]. split; [done|]. by rewrite E.
  - unfold xor_row, s. cbn [seq NB fmap list_fmap at_ Sha256.at_ lookup list_lookup default from_option id insert list_insert].
    by rewrite !Z.lxor_0_r.
Qed.

(** The table holds the number [H], halved again and again. *)
Definition table_of (H : Z) (t : list (list Z)) : Prop :=
  forall i, (i < 128)%nat -> words_ok (row t i) /\ wide (row t i) = Nat.iter i halve H.

Lemma row_insert t i r k : (i < length t)%nat -> row (<[i := r]> t) k = if decide (i = k) then r else row t k.
Proof.
  intros Hi. unfold row. case_decide as E; [subst; by rewrite list_lookup_insert_eq|by rewrite list_lookup_insert_ne].
Qed.

Lemma precompute_prefix t H n : length t = 128%nat -> (n < 128)%nat ->
  words_ok (row t 0) -> wide (row t 0) = H ->
  let t' := foldl (λ t i, <[i := shift_row (row t (i - 1))]> t) t (seq 1 n) in
  length t' = 128%nat /\ forall i, (i <= n)%nat -> words_ok (row t' i) /\ wide (row t' i) = Nat.iter i halve H.
Proof.
  intros Hl Hn Hw He. cbv zeta. induction n as [|n IH]; [split; [done|]; intros i Hi; by replace i with 0%nat by lia|].
  destruct IH as [IHl IH]; [lia|]. rewrite seq_S, foldl_app. cbn [foldl Nat.add].
  set (t' := foldl _ t (seq 1 n)) in *. split; [by rewrite length_insert|]. intros i Hi.
  rewrite row_insert by lia. case_decide as E; [|apply IH; lia]. subst i.
  replace (S n - 1)%nat with n by lia. destruct (IH n) as [Hn1 Hn2]; [lia|].
  destruct (shift_row_halve _ Hn1) as [Hs1 Hs2]. by rewrite Hs2, Hn2, Nat.iter_succ.
Qed.

Lemma words_of_block h : buffer h ->
  let r := (λ i, pack (drop (4 * i) h)) <$> seq 0 NB in words_ok r /\ wide r = be h.
Proof.
  intros [Hb Hl]. do 17 (destruct h as [|?b h]; try discriminate Hl). rewrite !Forall_cons in Hb.
  cbn [seq NB fmap list_fmap drop Nat.mul Nat.add]. rewrite !pack_be by tauto. split.
  - apply words_ok_4; (eapply (be_range [_; _; _; _]); rewrite !Forall_cons; tauto).
  - unfold wide, be, Sha256.be. cbn [foldl]. lia.
Qed.

Lemma precompute_table t h : length t = 128%nat -> buffer h -> table_of (be h) (precompute t h).
Proof.
  intros Hl Hh. destruct (words_of_block h Hh) as [Hw He]. unfold precompute.
  set (r := (λ i, pack (drop (4 * i) h)) <$> seq 0 NB) in *.
  destruct (precompute_prefix (<[0%nat := r]> t) (be h) 127) as [_ HP].
  - by rewrite length_insert.
  - lia.
  - by rewrite row_insert, decide_True by lia.
  - by rewrite row_insert, decide_True by lia.
  - intros i Hi. apply HP. lia.
Qed.

Lemma state_bit_be x i : buffer x -> (i < 128)%nat -> state_bit x i = Z.testbit (be x) (127 - Z.of_nat i).
Proof.
  intros [Hb Hl] Hi. pose proof (Nat.div_mod_eq i 8) as D. pose proof (Nat.mod_upper_bound i 8 ltac:(lia)) as M.
  replace (127 - Z.of_nat i) with (8 * Z.of_nat (length x - 1 - i / 8) + (7 - Z.of_nat (i mod 8))) by lia.
  rewrite be_bit by (done || lia). unfold state_bit.
  rewrite (Z.land_ones _ 1), Z.shiftr_div_pow2 by lia. change (2 ^ 1) with 2. rewrite <- Z.testbit_spec' by lia.
  by destruct (Z.testbit _ _).
Qed.

Lemma foldl_pair {A B} (fP : A -> B -> nat -> A) (fV : B -> B) l : forall n P V,
  l = seq n (length l) ->
  foldl (λ '(P, V) i, (fP P V i, fV V)) (P, V) l =
    (foldl (λ P i, fP P (Nat.iter (i - n) fV V) i) P l, Nat.iter (length l) fV V).
Proof.
  induction l as [|i l IH] using rev_ind; intros n P V E; [done|].
  rewrite length_app, Nat.add_1_r, seq_S in E. apply app_inj_tail in E as [E ->].
  rewrite !foldl_app, (IH n) by done. cbn [foldl]. rewrite length_app, Nat.add_1_r, Nat.iter_succ.
  do 2 f_equal. f_equal. lia.
Qed.

(** The sum over the rows chosen by the bits of the state is the product. *)
Lemma product_gmul x t H : buffer x -> table_of H t ->
  let P := foldl (λ P i, if state_bit x i then xor_row P (row t i) else P) (replicate NB 0) (seq 0 128) in
  words_ok P /\ wide P = gmul (be x) H.
Proof.
  intros Hx Ht. unfold gmul.
  rewrite (foldl_pair (λ P V i, if Z.testbit (be x) (127 - Z.of_nat i) then P ⊕ V else P) halve (seq 0 128) 0) by done.
  cbn [fst]. cbv zeta. assert (forall i, i ∈ seq 0 128 -> (i < 128)%nat) as Hin by (intros i [_ ?]%elem_of_seq; lia).
  revert Hin. generalize (seq 0 128). intros l Hin. induction l as [|i l IH] using rev_ind.
  { split; [by apply words_ok_4|done]. }
  destruct IH as [IHw IHe]; [intros; apply Hin, elem_of_app; by left|].
  assert (i < 128)%nat as Hi by (apply Hin, elem_of_app; right; by apply list_elem_of_singleton).
  rewrite !foldl_app. cbn [foldl]. rewrite (state_bit_be x i Hx Hi), Nat.sub_0_r.
  destruct (Z.testbit (be x) (127 - Z.of_nat i)); [|done].
  destruct (Ht i Hi) as [Hw <-]. rewrite <- IHe. by apply wide_lxor.
Qed.

(** Four words written as sixteen bytes. *)
Lemma store_words r x : words_ok r -> length x = 16%nat ->
  foldl (λ x i, copy 4 (4 * i) (unpack (at_ r i)) x) x (seq 0 NB) = bytes_be 16 (wide r).
Proof.
  intros Hr Hx. destruct (words_ok_inv r Hr) as (r0 & r1 & r2 & r3 & -> & H0 & H1 & H2 & H3).
  transitivity (unpack r0 ++ unpack r1 ++ unpack r2 ++ unpack r3).
  { do 17 (destruct x as [|? x]; try discriminate Hx). reflexivity. }
  rewrite !unpack_be. apply be_inj.
  - rewrite !Forall_app. split_and!; apply bytes_be_ok.
  - apply bytes_be_ok.
  - reflexivity.
  - rewrite be_bytes_be, Z.mod_small by (by apply wide_range).
    assert (forall l x, is_u32 x -> be (l ++ bytes_be 4 x) = be l * 2 ^ 32 + x) as E.
    { intros l y Hy. rewrite be_app, be_bytes_be, length_bytes_be, Z.mod_small by done. done. }
    rewrite !app_assoc, !E by done. rewrite be_bytes_be, Z.mod_small by done. reflexivity.
Qed.

Lemma gf2mul_gmul g H : buffer (stateX g) -> table_of H (table g) ->
  gf2mul g = set_stateX (bytes_be 16 (gmul (be (stateX g)) H)) g.
Proof.
  intros Hx Ht. unfold gf2mul. destruct (product_gmul (stateX g) (table g) H Hx Ht) as [Hw <-].
  rewrite store_words by (done || apply Hx). done.
Qed.

(** ** The mode, as SP 800-38D defines it *)

(** Pieces of sixteen bytes; the last may be shorter. *)
Fixpoint chunks_of (n : nat) (bs : list Z) : list (list Z) :=
  match n with
  | O => []
  | S n => if decide (bs = []) then [] else take 16 bs :: chunks_of n (drop 16 bs)
  end.
Definition chunks (bs : list Z) : list (list Z) := chunks_of (length bs) bs.
(** A piece padded with zeros, as a number. *)
Definition blk (c : list Z) : Z := be (c ++ replicate (16 - length c) 0).
Definition GHASH (H Y : Z) (X : list Z) : Z := foldl (λ Y x, gmul (Y ⊕ x) H) Y X.
Definition inc32 (f : list Z) : list Z := take 12 f ++ bytes_be 4 (be (drop 12 f) + 1).

Section mode.
Context (E : list Z -> list Z).

Fixpoint GCTR (cb : list Z) (cs : list (list Z)) : list (list Z) :=
  match cs with
  | [] => []
  | c :: cs => zip_with Z.lxor c (E cb) :: GCTR (inc32 cb) cs
  end.
Definition subkey : Z := be (E (replicate 16 0)).
Definition J0 (iv : list Z) : list Z :=
  if (length iv =? 12)%nat then iv ++ [0; 0; 0; 1]
  else bytes_be 16 (GHASH subkey 0 ((blk <$> chunks iv) ++ [8 * Z.of_nat (length iv)])).
Definition gcm_tag (iv A C : list Z) : list Z :=
  let lens := 8 * Z.of_nat (length A) * 2 ^ 64 + 8 * Z.of_nat (length C) in
  zip_with Z.lxor (E (J0 iv)) (bytes_be 16 (GHASH subkey 0 ((blk <$> chunks A) ++ (blk <$> chunks C) ++ [lens]))).
Definition gcm_stream (iv P : list Z) : list Z := concat (GCTR (inc32 (J0 iv)) (chunks P)).
Definition GCM_AE (iv A P : list Z) : list Z * list Z :=
  let C := gcm_stream iv P in (C, gcm_tag iv A C).
End mode.

(** *** Pieces *)
Lemma chunks_of_enough n : forall bs, (length bs <= n)%nat -> chunks_of n bs = chunks bs.
Proof.
  unfold chunks. induction n as [n IH] using lt_wf_ind. intros bs Hn.
  destruct n as [|n]; [by destruct bs; cbn in Hn; [|lia]|]. cbn [chunks_of].
  destruct bs as [|b bs]; [done|]. rewrite decide_False by done. cbn [length chunks_of].
  rewrite decide_False by done. cbn [length] in Hn. f_equal.
  assert (length (drop 16 (b :: bs)) <= length bs)%nat by (rewrite length_drop; cbn; lia).
  rewrite IH by lia. destruct (decide (length bs < S n)%nat); [|lia]. by rewrite (IH (length bs)) by lia.
Qed.

Lemma chunks_cons bs : bs <> [] -> chunks bs = take 16 bs :: chunks (drop 16 bs).
Proof.
  intros Hb. unfold chunks at 1. destruct bs as [|b bs]; [done|]. cbn [length chunks_of].
  rewrite decide_False by done. f_equal. apply chunks_of_enough. rewrite length_drop. cbn. lia.
Qed.

(** Induction piece by piece. *)
Lemma chunks_ind (P : list Z -> Prop) :
  P [] -> (forall bs, bs <> [] -> P (drop 16 bs) -> P bs) -> forall bs, P bs.
Proof.
  intros H0 HS bs. remember (length bs) as n eqn:En. revert bs En. induction n as [n IH] using lt_wf_ind. intros bs ->.
  destruct bs as [|b bs]; [done|]. apply HS; [done|]. eapply IH; [|reflexivity]. rewrite length_drop. cbn. lia.
Qed.

Lemma concat_chunks bs : concat (chunks bs) = bs.
Proof.
  induction bs as [|bs Hb IH] using chunks_ind; [done|]. rewrite chunks_cons by done. cbn [concat].
  rewrite IH. apply take_drop.
Qed.

Lemma chunks_app bs bs' : (length bs mod 16 = 0)%nat -> chunks (bs ++ bs') = chunks bs ++ chunks bs'.
Proof.
  induction bs as [|bs Hb IH] using chunks_ind; intros Hm; [done|].
  assert (16 <= length bs)%nat as Hl.
  { destruct (decide (16 <= length bs)%nat); [done|]. rewrite Nat.mod_small in Hm by lia. destruct bs; [done|discriminate Hm]. }
  rewrite chunks_cons by (destruct bs; [done|discriminate]). rewrite (chunks_cons bs) by done. cbn [app].
  rewrite take_app_le, drop_app_le by lia. f_equal. apply IH. rewrite length_drop.
  apply Nat.Div0.mod_divides in Hm as [q Hq]. replace (length bs - 16)%nat with ((q - 1) * 16)%nat by lia.
  apply Nat.Div0.mod_mul.
Qed.

Lemma length_GCTR E f cs : length (GCTR E f cs) = length cs.
Proof. revert f. induction cs; intros; cbn; auto. Qed.

Lemma GCTR_app E cs cs' : forall f, GCTR E f (cs ++ cs') = GCTR E f cs ++ GCTR E (Nat.iter (length cs) inc32 f) cs'.
Proof.
  induction cs as [|c cs IH]; intros f; [done|]. cbn [app GCTR length]. by rewrite IH, <- Nat.iter_succ_r.
Qed.

(** The stream is cut where the message is cut. *)
Lemma chunks_GCTR E bs : (forall f, length (E f) = 16%nat) -> forall f,
  chunks (concat (GCTR E f (chunks bs))) = GCTR E f (chunks bs) /\ length (concat (GCTR E f (chunks bs))) = length bs.
Proof.
  intros HE. induction bs as [|bs Hb IH] using chunks_ind; intros f; [done|].
  rewrite (chunks_cons bs) by done. cbn [GCTR concat]. destruct (IH (inc32 f)) as [IH1 IH2].
  set (o := zip_with Z.lxor (take 16 bs) (E f)).
  assert (length o = 16 `min` length bs)%nat as Ho by (unfold o; rewrite length_zip_with, HE, length_take; lia).
  assert (0 < length bs)%nat by (destruct bs; [done|cbn; lia]).
  assert (chunks o = [o]) as Eo.
  { rewrite chunks_cons by (intros E0; rewrite E0 in Ho; cbn [length] in Ho; lia). by rewrite take_ge, drop_ge by lia. }
  split.
  - destruct (decide (16 <= length bs)%nat).
    + rewrite chunks_app, IH1 by (replace (length o) with 16%nat by lia; done). by rewrite Eo.
    + rewrite !(drop_ge bs) by lia. cbn [chunks length chunks_of GCTR concat]. by rewrite app_nil_r, Eo.
  - rewrite length_app, IH2, Ho, length_drop. lia.
Qed.
