(* ===== verification/GcmRun.v ===== *)
(** * GcmRun: the routines run the Galois/Counter Mode

    An instance between two calls is determined by a number, the hash so far, by the
    counter block and by two lengths; every routine is a step of these. *)

From S2P Require Import Prelude Sha256 StreamHash Sha256Spec Aes AesSpec Gcm GcmSpec.
Import Gcm.
Abbreviation at_ := Sha256.at_.
Abbreviation be := Sha256.be.
#[local] Open Scope aes_scope.

Definition split64 (n : Z) : Z * Z := (u32 (n / 2 ^ 32), u32 n).

Lemma tick_split n : 0 <= n -> tick (split64 n) = split64 (n + 1).
Proof.
  intros Hn. unfold tick, split64. cbn [fst snd].
  assert (u32 n +₃₂ 1 = u32 (n + 1)) as -> by word_lia. f_equal.
  destruct (Z.eqb_spec (u32 (n + 1)) 0) as [E|E].
  - replace ((n + 1) / 2 ^ 32) with (n / 2 ^ 32 + 1) by word_lia. word_lia.
  - f_equal. word_lia.
Qed.

(** The bit length of [n] bytes, in two words, as the code shifts it. *)
Lemma bit_length n : 0 <= n < 2 ^ 61 ->
  Z.lor (fst (split64 n) <<₃₂ 3) (Z.shiftr (Z.land (snd (split64 n)) 0xE0000000) 29) = 8 * n / 2 ^ 32 /\
  snd (split64 n) <<₃₂ 3 = (8 * n) mod 2 ^ 32.
Proof.
  intros Hn. unfold split64. cbn [fst snd]. rewrite !Z.shiftl_mul_pow2 by lia. split; [|word_lia].
  rewrite Z.shiftr_land. change (Z.shiftr 0xE0000000 29) with (Z.ones 3).
  rewrite Z.land_ones, Z.shiftr_div_pow2 by lia.
  replace (u32 (u32 (n / 2 ^ 32) * 2 ^ 3)) with (n / 2 ^ 32 * 2 ^ 3) by word_lia.
  rewrite lor_join by (try apply Z.mod_pos_bound; lia).
  rewrite (Z.mod_small (u32 n / 2 ^ 29)); [|change (2 ^ 29) with 536870912; word_lia].
  change (2 ^ 29) with 536870912. word_lia.
Qed.

(** ** Pieces added to the state *)
Lemma fold_mix n c : forall g,
  foldl (λ g i, mix i (at_ c i) g) g (seq 0 n) = set_stateX (Aes.xor_prefix n c (stateX g)) g.
Proof.
  induction n as [|n IH]; intros g; [by destruct g|].
  rewrite seq_S, foldl_app, IH. unfold Aes.xor_prefix. rewrite seq_S, foldl_app. by destruct g.
Qed.

Lemma lxor_bytes l : forall l', bytes_ok l -> bytes_ok l' -> bytes_ok (zip_with Z.lxor l l').
Proof.
  induction l as [|x l IH]; intros l' Hl Hl'; [done|]. destruct Hl' as [|y l' Hy Hl']; [done|].
  apply Forall_cons in Hl as [Hx Hl]. cbn [zip_with]. apply Forall_cons. split; [by apply lxor_u8|]. by apply IH.
Qed.

Lemma xor_chunk X c : bytes_ok c -> (length c <= 16)%nat -> 0 <= X < 2 ^ 128 ->
  Aes.xor_prefix (length c) c (bytes_be 16 X) = bytes_be 16 (X ⊕ blk c).
Proof.
  intros Hc Hl HX. set (x := bytes_be 16 X). assert (length x = 16%nat) as Hx by apply length_bytes_be.
  set (p := c ++ replicate (16 - length c) 0).
  assert (length p = 16%nat) as Hp by (unfold p; rewrite length_app, length_replicate; lia).
  assert (bytes_ok p) as Hpb by (apply Forall_app; split; [done|by apply Forall_replicate]).
  assert (bytes_ok x) as Hxb by apply bytes_be_ok.
  assert (be x = X) as Ex by (unfold x; rewrite be_bytes_be, Z.mod_small; done).
  clearbody x. transitivity (zip_with Z.lxor x p).
  - apply list_eq. intros i. rewrite lookup_xor_prefix by lia. rewrite lookup_zip_with.
    destruct (decide (i < 16)%nat) as [Hi|Hi].
    2: { rewrite decide_False by lia. by rewrite (lookup_ge_None_2 x) by lia. }
    destruct (lookup_lt_is_Some_2 x i) as [b Hb]; [lia|]. rewrite Hb. cbn [option_bind mbind].
    unfold p, at_, Sha256.at_. rewrite Hb. case_decide as Hic.
    + rewrite lookup_app_l by done. destruct (lookup_lt_is_Some_2 c i) as [b' Hb']; [done|]. by rewrite Hb'.
    + rewrite lookup_app_r, lookup_replicate_2 by lia. cbn. by rewrite Z.lxor_0_r.
  - rewrite <- Ex. unfold blk. fold p. rewrite <- be_lxor by (done || lia).
    rewrite <- (bytes_be_be (zip_with _ _ _)) at 1.
    + by rewrite length_zip_with, Hx, Hp.
    + by apply lxor_bytes.
Qed.

Lemma blk_range c : bytes_ok c -> (length c <= 16)%nat -> 0 <= blk c < 2 ^ 128.
Proof.
  intros Hc Hl. unfold blk. set (p := _ ++ _).
  assert (length p = 16%nat) as Hp by (unfold p; rewrite length_app, length_replicate; lia).
  pose proof (be_range p) as R. rewrite Hp in R. apply R. apply Forall_app. split; [done|by apply Forall_replicate].
Qed.

Lemma lxor_128 x y : 0 <= x < 2 ^ 128 -> 0 <= y < 2 ^ 128 -> 0 <= x ⊕ y < 2 ^ 128.
Proof.
  intros Hx Hy. destruct (decide (x ⊕ y = 0)) as [->|Hne]; [lia|].
  assert (0 <= x ⊕ y) as H0 by (apply Z.lxor_nonneg; lia). split; [done|].
  apply Z.log2_lt_pow2; [lia|]. eapply Z.le_lt_trans; [apply Z.log2_lxor; lia|].
  assert (forall z, 0 <= z < 2 ^ 128 -> Z.log2 z < 128) as L.
  { intros z Hz. destruct (decide (z = 0)) as [->|]; [done|]. apply Z.log2_lt_pow2; lia. }
  pose proof (L x Hx). pose proof (L y Hy). lia.
Qed.

(** ** A running instance *)
Lemma halve_range V : 0 <= V < 2 ^ 128 -> 0 <= halve V < 2 ^ 128.
Proof.
  intros HV. unfold halve. apply lxor_128; [|by destruct (Z.testbit V 0)].
  rewrite Z.shiftr_div_pow2 by lia. Z.div_mod_to_equations. lia.
Qed.

Lemma gmul_range X H : 0 <= H < 2 ^ 128 -> 0 <= gmul X H < 2 ^ 128.
Proof.
  unfold gmul. intros HH. assert (forall l P V, 0 <= P < 2 ^ 128 -> 0 <= V < 2 ^ 128 ->
    0 <= fst (foldl (λ '(P, V) i, ((if Z.testbit X (127 - Z.of_nat i) then P ⊕ V else P), halve V)) (P, V) l) < 2 ^ 128) as HA.
  { induction l as [|i l IH]; intros P V HP HV; [done|]. cbn [foldl]. apply IH; [|by apply halve_range].
    destruct (Z.testbit _ _); [by apply lxor_128|done]. }
  by apply HA.
Qed.

Lemma GHASH_range H X l : 0 <= H < 2 ^ 128 -> 0 <= X < 2 ^ 128 -> 0 <= GHASH H X l < 2 ^ 128.
Proof.
  intros HH. revert X. induction l as [|x l IH]; intros X HX; [done|]. apply IH. by apply gmul_range.
Qed.

Lemma inc32_buffer f : buffer f -> buffer (inc32 f).
Proof.
  intros [Hf Hl]. unfold inc32. split; [apply Forall_app; split; [by apply Forall_take|apply bytes_be_ok]|].
  rewrite length_app, length_take, length_bytes_be. lia.
Qed.

Lemma bytes_be_u32 x : unpack (u32 x) = bytes_be 4 x.
Proof.
  rewrite unpack_be. apply be_inj; [apply bytes_be_ok..|by rewrite !length_bytes_be|].
  rewrite !be_bytes_be, u32_mod. apply Z.mod_mod. lia.
Qed.

Section running.
Context (T : list (list Z)) (H : Z) (j0 : list Z) (a0 : Aes.mcl_aes).
Context (HT : table_of H T) (HH : 0 <= H < 2 ^ 128).

(** The hash [X], the counter block [f], [la] bytes of header and [lc] bytes of text. *)
Definition inst (X : Z) (f : list Z) (la lc : Z) (st : gcm_status) : mcl_gcm :=
  {| table := T; stateX := bytes_be 16 X; Y_0 := j0; lenA := split64 la; lenC := split64 lc; status := st;
     a := Aes.set_f f a0 |}.
Abbreviation E := (Aes.MCL_AES_ecb_encrypt a0).

Lemma block_buffer X : buffer (bytes_be 16 X).
Proof. split; [apply bytes_be_ok|apply length_bytes_be]. Qed.

Lemma mul_inst X f la lc st : 0 <= X < 2 ^ 128 -> gf2mul (inst X f la lc st) = inst (gmul X H) f la lc st.
Proof.
  intros HX. rewrite (gf2mul_gmul (inst X f la lc st) H (block_buffer X) HT). cbn [stateX inst].
  by rewrite be_bytes_be, Z.mod_small by done.
Qed.

(** A byte is mixed in, and one of the lengths goes up. *)
Definition byte_op (byte : mcl_gcm -> nat -> Z -> mcl_gcm) (da dc : Z) : Prop :=
  0 <= da /\ 0 <= dc /\
  forall g i b la lc, 0 <= la -> 0 <= lc -> lenA g = split64 la -> lenC g = split64 lc ->
    byte g i b = set_lens (split64 (la + da)) (split64 (lc + dc)) (mix i b g).

Lemma header_op : byte_op header_byte 1 0.
Proof.
  split_and!; [done..|]. intros g i b la lc Ha Hc Ea Ec. unfold header_byte. cbn [lenA lenC mix set_stateX].
  by rewrite Ea, Ec, tick_split, Z.add_0_r.
Qed.
Lemma cipher_op : byte_op cipher_byte 0 1.
Proof.
  split_and!; [done..|]. intros g i b la lc Ha Hc Ea Ec. unfold cipher_byte. cbn [lenA lenC mix set_stateX].
  by rewrite Ea, Ec, tick_split, Z.add_0_r.
Qed.

Lemma fold_bytes byte da dc n c g la lc : byte_op byte da dc -> 0 <= la -> 0 <= lc ->
  lenA g = split64 la -> lenC g = split64 lc ->
  foldl (λ g i, byte g i (at_ c i)) g (seq 0 n) =
    set_lens (split64 (la + Z.of_nat n * da)) (split64 (lc + Z.of_nat n * dc))
      (set_stateX (Aes.xor_prefix n c (stateX g)) g).
Proof.
  intros (Hda & Hdc & Hop) Hla Hlc Ea Ec. rewrite <- fold_mix. induction n as [|n IH].
  { cbn [seq foldl]. rewrite Z.mul_0_l, !Z.add_0_r, <- Ea, <- Ec. by destruct g. }
  rewrite seq_S, !foldl_app, IH. cbn [foldl Nat.add].
  erewrite Hop; [|shelve|shelve|reflexivity|reflexivity]. Unshelve. 2-3: nia.
  replace (la + Z.of_nat (S n) * da) with (la + Z.of_nat n * da + da) by lia.
  replace (lc + Z.of_nat (S n) * dc) with (lc + Z.of_nat n * dc + dc) by lia. by destruct (foldl _ g _).
Qed.

Lemma chunk_inst byte da dc c X f la lc st : byte_op byte da dc -> 0 <= la -> 0 <= lc ->
  bytes_ok c -> (length c <= 16)%nat -> 0 <= X < 2 ^ 128 ->
  gf2mul (foldl (λ g i, byte g i (at_ c i)) (inst X f la lc st) (seq 0 (length c))) =
    inst (gmul (X ⊕ blk c) H) f (la + Z.of_nat (length c) * da) (lc + Z.of_nat (length c) * dc) st.
Proof.
  intros Hop Hla Hlc Hc Hl HX. rewrite (fold_bytes byte da dc _ _ _ la lc) by done.
  cbn [stateX inst]. rewrite xor_chunk by done.
  rewrite <- mul_inst by (apply lxor_128; [done|by apply blk_range]). done.
Qed.

(** The indices of a piece, and the piece itself. *)
Lemma at_piece data j i n : (i < n)%nat -> at_ data (j + i) = at_ (take n (drop j data)) i.
Proof. intros Hi. unfold at_, Sha256.at_. by rewrite lookup_take_lt, lookup_drop by done. Qed.

Lemma absorb_inst byte da dc data st f : byte_op byte da dc -> bytes_ok data -> forall fuel j X la lc,
  (length data - j <= fuel)%nat -> (j <= length data)%nat -> 0 <= la -> 0 <= lc -> 0 <= X < 2 ^ 128 ->
  absorb fuel byte data j (inst X f la lc st) =
    inst (GHASH H X (blk <$> chunks (drop j data))) f (la + Z.of_nat (length data - j) * da)
      (lc + Z.of_nat (length data - j) * dc) st.
Proof.
  intros Hop Hd. pose proof Hop as (Hda & Hdc & _). induction fuel as [|fuel IH]; intros j X la lc Hf Hj Hla Hlc HX.
  { replace (length data - j)%nat with 0%nat by lia. rewrite drop_ge by lia. cbn. by rewrite !Z.add_0_r. }
  cbn [absorb]. destruct (Nat.ltb_spec j (length data)).
  2: { replace (length data - j)%nat with 0%nat by lia. rewrite drop_ge by lia. cbn. by rewrite !Z.add_0_r. }
  set (n := (16 `min` (length data - j))%nat). set (c := take 16 (drop j data)).
  assert (length c = n) as Hc by (unfold c, n; by rewrite length_take, length_drop).
  assert (bytes_ok c) as Hcb by (by apply Forall_take, Forall_drop).
  rewrite (foldl_ext_in _ (λ g i, byte g i (at_ c i))).
  2: { intros g i [_ Hi]%elem_of_seq. f_equal. apply at_piece. unfold n in Hi. lia. }
  rewrite <- Hc. rewrite (chunk_inst byte da dc) by (done || lia). rewrite Hc.
  rewrite IH by (try apply gmul_range; try done; nia).
  rewrite (chunks_cons (drop j data)); [|intros E0; apply (f_equal length) in E0; rewrite length_drop in E0; cbn in E0; lia].
  rewrite drop_drop. cbn [fmap list_fmap GHASH foldl]. fold c.
  assert (drop (j + n) data = drop (j + 16) data) as ->.
  { unfold n. destruct (decide (16 <= length data - j)%nat); [do 2 f_equal; lia|]. rewrite !drop_ge by lia. done. }
  assert (Z.of_nat (length data - (j + n)) = Z.of_nat (length data - j) - Z.of_nat n) as -> by lia.
  f_equal; ring.
Qed.

(** *** The stream *)

(** The hash takes the encrypted bytes: the output when encrypting, the input when
    decrypting. *)
Definition step_of (enc : bool) (B : list Z) (g : mcl_gcm) (i : nat) (b : Z) : Z * mcl_gcm :=
  let o := Z.lxor b (at_ B i) in (o, cipher_byte g i (if enc then o else b)).

Lemma next_inst X f la lc st : buffer f ->
  next_block (inst X f la lc st) = (E (inc32 f), inst X (inc32 f) la lc st).
Proof.
  intros Hf. pose proof Hf as [Hb Hl]. unfold next_block. cbn [a inst Aes.set_f Aes.f].
  assert (copy 4 12 (unpack (pack (drop 12 f) +₃₂ 1)) f = inc32 f) as ->; [|done].
  rewrite bytes_be_u32. do 17 (destruct f as [|?b f]; try discriminate Hl). cbn [drop].
  rewrite !Forall_cons in Hb. rewrite pack_be by tauto. unfold inc32. cbn [take drop]. fold be.
  generalize (bytes_be_ok 4 (be [b11; b12; b13; b14] + 1)) (length_bytes_be 4 (be [b11; b12; b13; b14] + 1)).
  generalize (bytes_be 4 (be [b11; b12; b13; b14] + 1)). intros l _ El.
  do 5 (destruct l as [|? l]; try discriminate El). reflexivity.
Qed.

Lemma zip_indices c B : (length c <= length B)%nat ->
  zip_with Z.lxor c B = (λ i, at_ c i ⊕ at_ B i) <$> seq 0 (length c).
Proof.
  intros Hl. apply list_eq. intros i. rewrite lookup_zip_with, list_lookup_fmap.
  destruct (decide (i < length c)%nat) as [Hi|Hi].
  - rewrite lookup_seq_lt by done. cbn. unfold at_, Sha256.at_.
    destruct (lookup_lt_is_Some_2 c i Hi) as [x ->]. destruct (lookup_lt_is_Some_2 B i) as [y ->]; [lia|]. done.
  - by rewrite (lookup_ge_None_2 c), (lookup_ge_None_2 (seq _ _)) by (rewrite ?length_seq; lia).
Qed.

Lemma fold_step enc B c g out : (length c <= length B)%nat ->
  let o := zip_with Z.lxor c B in
  foldl (λ '(out, g) i, let '(o, g) := step_of enc B g i (at_ c i) in (out ++ [o], g)) (out, g) (seq 0 (length c)) =
    (out ++ o, foldl (λ g i, cipher_byte g i (at_ (if enc then o else c) i)) g (seq 0 (length c))).
Proof.
  intros Hl. cbv zeta. rewrite zip_indices by done.
  assert (forall n, (n <= length c)%nat ->
    foldl (λ '(out, g) i, let '(o, g) := step_of enc B g i (at_ c i) in (out ++ [o], g)) (out, g) (seq 0 n) =
    (out ++ ((λ i, at_ c i ⊕ at_ B i) <$> seq 0 n),
     foldl (λ g i, cipher_byte g i (at_ (if enc then (λ i, at_ c i ⊕ at_ B i) <$> seq 0 (length c) else c) i)) g (seq 0 n))) as HA;
    [|by apply HA].
  induction n as [|n IH]; intros Hn; [by rewrite app_nil_r|].
  rewrite seq_S, !foldl_app, IH, fmap_app by lia. cbn [foldl Nat.add step_of fmap list_fmap].
  unfold step_of. rewrite app_assoc. do 3 f_equal. destruct enc; [|done].
  unfold at_ at 3, Sha256.at_ at 3. rewrite list_lookup_fmap, lookup_seq_lt by lia. done.
Qed.

Lemma crypt_inst enc data st : bytes_ok data -> forall fuel j out X f la lc,
  (length data - j <= fuel)%nat -> (j <= length data)%nat -> 0 <= la -> 0 <= lc -> 0 <= X < 2 ^ 128 -> buffer f ->
  let cs := chunks (drop j data) in
  let os := GCTR E (inc32 f) cs in
  crypt fuel (step_of enc) data j out (inst X f la lc st) =
    (out ++ concat os,
     inst (GHASH H X (blk <$> if enc then os else cs)) (Nat.iter (length cs) inc32 f) la
       (lc + Z.of_nat (length data - j)) st).
Proof.
  intros Hd. induction fuel as [|fuel IH]; intros j out X f la lc Hf Hj Hla Hlc HX Hb; cbv zeta.
  { replace (length data - j)%nat with 0%nat by lia. rewrite drop_ge by lia. destruct enc; cbn; by rewrite app_nil_r, Z.add_0_r. }
  cbn [crypt]. destruct (Nat.ltb_spec j (length data)).
  2: { replace (length data - j)%nat with 0%nat by lia. rewrite drop_ge by lia. destruct enc; cbn; by rewrite app_nil_r, Z.add_0_r. }
  rewrite next_inst by done. pose proof (inc32_buffer f Hb) as Hb'.
  assert (buffer (E (inc32 f))) as [HEb HEl] by apply store_buffer.
  set (n := (16 `min` (length data - j))%nat). set (c := take 16 (drop j data)).
  assert (length c = n) as Hc by (unfold c, n; by rewrite length_take, length_drop).
  assert (bytes_ok c) as Hcb by (by apply Forall_take, Forall_drop).
  rewrite (foldl_ext_in _ (λ '(out, g) i, let '(o, g) := step_of enc (E (inc32 f)) g i (at_ c i) in (out ++ [o], g))).
  2: { intros [out' g] i [_ Hi]%elem_of_seq. rewrite at_piece with (n := 16%nat) by (unfold n in Hi; lia). done. }
  rewrite <- Hc at 1. rewrite fold_step by lia. set (o := zip_with Z.lxor c (E (inc32 f))).
  assert (length o = length c) as Ho by (unfold o; rewrite length_zip_with; lia).
  assert (bytes_ok o) as Hob by (by apply lxor_bytes).
  assert (length (if enc then o else c) = length c) as Hh by (by destruct enc).
  rewrite <- Hh at 1. rewrite (chunk_inst cipher_byte 0 1) by (try apply cipher_op; try (by destruct enc); lia).
  rewrite Hh, Hc, IH by (try apply gmul_range; try done; lia).
  assert (drop (j + n) data = drop (j + 16) data) as ->.
  { unfold n. destruct (decide (16 <= length data - j)%nat); [do 2 f_equal; lia|]. rewrite !drop_ge by lia. done. }
  rewrite (chunks_cons (drop j data)); [|intros E0; apply (f_equal length) in E0; rewrite length_drop in E0; cbn in E0; lia].
  rewrite drop_drop. fold c. cbn [GCTR concat length]. fold o. rewrite Nat.iter_succ_r, <- app_assoc. f_equal.
  rewrite Z.mul_0_r, Z.add_0_r, Z.mul_1_r. destruct enc; cbn [fmap list_fmap GHASH foldl]; f_equal; lia.
Qed.

(** *** The lengths at the end *)
Lemma wrap_inst X f la lc st : 0 <= X < 2 ^ 128 -> 0 <= la < 2 ^ 61 -> 0 <= lc < 2 ^ 61 ->
  MCL_GCM_wrap (inst X f la lc st) = inst (gmul (X ⊕ (8 * la * 2 ^ 64 + 8 * lc)) H) f la lc st.
Proof.
  intros HX Hla Hlc. unfold MCL_GCM_wrap. cbn [lenA lenC inst].
  destruct (bit_length la Hla) as [-> ->]. destruct (bit_length lc Hlc) as [-> ->].
  set (F := [8 * la / 2 ^ 32; (8 * la) mod 2 ^ 32; 8 * lc / 2 ^ 32; (8 * lc) mod 2 ^ 32]).
  assert (words_ok F) as HF by (unfold F; apply words_ok_4; unfold is_u32; (apply Z.mod_pos_bound; lia) ||
    (split; [apply Z.div_pos; lia|apply Z.div_lt_upper_bound; lia])).
  assert (wide F = 8 * la * 2 ^ 64 + 8 * lc) as EF.
  { unfold wide, F. cbn [foldl]. pose proof (Z.div_mod (8 * la) (2 ^ 32)). pose proof (Z.div_mod (8 * lc) (2 ^ 32)). lia. }
  pose proof (wide_range F HF) as R. rewrite (store_words F) by done. rewrite EF in *. clear HF EF F.
  rewrite fold_mix. cbn [stateX inst]. set (L := bytes_be 16 (8 * la * 2 ^ 64 + 8 * lc)).
  assert (length L = 16%nat) as El by apply length_bytes_be. rewrite <- El at 1.
  rewrite xor_chunk by (try apply bytes_be_ok; try lia; done).
  assert (blk L = 8 * la * 2 ^ 64 + 8 * lc) as ->.
  { unfold blk. rewrite El. cbn [Nat.sub replicate]. unfold L. by rewrite app_nil_r, be_bytes_be, Z.mod_small by done. }
  by rewrite <- mul_inst by (by apply lxor_128).
Qed.
End running.

(** ** Calls in sequence *)

(** Every piece but the last is a whole number of blocks. *)
Fixpoint aligned (ps : list (list Z)) : Prop :=
  match ps with
  | [] | [_] => True
  | p :: ps => (length p mod 16 = 0)%nat /\ aligned ps
  end.
Definition add_headers (g : mcl_gcm) (hs : list (list Z)) : bool * mcl_gcm :=
  foldl (λ '(ok, g) h, let '(r, g) := MCL_GCM_add_header g h in (ok && (r =? 1), g)) (true, g) hs.
Definition add_text (enc : bool) : mcl_gcm -> list Z -> Z * list Z * mcl_gcm :=
  if enc then MCL_GCM_add_plain else MCL_GCM_add_cipher.
Definition add_texts (enc : bool) (g : mcl_gcm) (ps : list (list Z)) : bool * list Z * mcl_gcm :=
  foldl (λ '(ok, out, g) p, let '(r, o, g) := add_text enc g p in (ok && (r =? 1), out ++ o, g)) (true, [], g) ps.
(** The sequence of calls at the top of the file: whether all were accepted, the
    text written, and the tag. *)
Definition gcm_run (enc : bool) (g : mcl_gcm) (nk : Z) (key iv : list Z) (hs ps : list (list Z))
  : bool * list Z * option (list Z) :=
  let g := MCL_GCM_init g nk key iv in
  let '(ok1, g) := add_headers g hs in
  let '(ok2, out, g) := add_texts enc g ps in
  (ok1 && ok2, out, fst (MCL_GCM_finish g true)).

Lemma aligned_cons p ps : aligned (p :: ps) -> (ps = [] \/ (length p mod 16 = 0)%nat) /\ aligned ps.
Proof. destruct ps as [|q ps]; [by auto|]. intros [? ?]. auto. Qed.

Lemma chunks_concat_cons p ps : aligned (p :: ps) -> chunks (concat (p :: ps)) = chunks p ++ chunks (concat ps).
Proof.
  intros Ha. cbn [concat]. destruct (aligned_cons p ps Ha) as [[->|Hp] _]; [by rewrite !app_nil_r|].
  by apply chunks_app.
Qed.

Lemma GHASH_app H X l l' : GHASH H X (l ++ l') = GHASH H (GHASH H X l) l'.
Proof. apply foldl_app. Qed.

Section calls.
Context (T : list (list Z)) (H : Z) (j0 : list Z) (a0 : Aes.mcl_aes).
Context (HT : table_of H T) (HH : 0 <= H < 2 ^ 128).
Abbreviation inst := (inst T j0 a0).
Abbreviation E := (Aes.MCL_AES_ecb_encrypt a0).

Lemma add_header_inst h X f la lc : bytes_ok h -> 0 <= X < 2 ^ 128 -> 0 <= la -> 0 <= lc ->
  MCL_GCM_add_header (inst X f la lc MCL_GCM_ACCEPTING_HEADER) h =
    (1, inst (GHASH H X (blk <$> chunks h)) f (la + Z.of_nat (length h)) lc
          (if (length h mod 16 =? 0)%nat then MCL_GCM_ACCEPTING_HEADER else MCL_GCM_ACCEPTING_CIPHER)).
Proof.
  intros Hh HX Hla Hlc. unfold MCL_GCM_add_header. rewrite decide_True by done.
  rewrite (absorb_inst T H j0 a0 HT HH header_byte 1 0) by (done || apply header_op || lia).
  rewrite drop_0, Nat.sub_0_r, Z.mul_1_r, Z.mul_0_r, Z.add_0_r. unfold partial. by destruct (_ =? 0)%nat.
Qed.

Lemma headers_inst hs : forall X f la lc ok, Forall bytes_ok hs -> aligned hs ->
  0 <= X < 2 ^ 128 -> 0 <= la -> 0 <= lc ->
  exists st, foldl (λ '(ok, g) h, let '(r, g) := MCL_GCM_add_header g h in (ok && (r =? 1), g))
      (ok, inst X f la lc MCL_GCM_ACCEPTING_HEADER) hs =
    (ok, inst (GHASH H X (blk <$> chunks (concat hs))) f (la + Z.of_nat (length (concat hs))) lc st) /\
    (st = MCL_GCM_ACCEPTING_HEADER \/ st = MCL_GCM_ACCEPTING_CIPHER).
Proof.
  induction hs as [|h hs IH]; intros X f la lc ok Hb Ha HX Hla Hlc.
  { eexists. cbn. rewrite Z.add_0_r. auto. }
  apply Forall_cons in Hb as [Hh Hb]. destruct (aligned_cons h hs Ha) as [Hcase Ha'].
  cbn [foldl]. rewrite add_header_inst by done. rewrite andb_true_r, chunks_concat_cons, fmap_app, GHASH_app by done.
  destruct Hcase as [->|Hm].
  - eexists. cbn [foldl concat]. rewrite app_nil_r. split; [reflexivity|]. destruct (_ =? 0)%nat; auto.
  - rewrite Hm. cbn [Nat.eqb]. destruct (IH (GHASH H X (blk <$> chunks h)) f (la + Z.of_nat (length h)) lc ok)
      as (st & -> & Hst); try done; [by apply GHASH_range|lia|].
    exists st. split; [|done]. cbn [concat]. rewrite length_app, Nat2Z.inj_add, Z.add_assoc. done.
Qed.

Lemma add_text_inst enc p X f la lc st : bytes_ok p -> 0 <= X < 2 ^ 128 -> 0 <= la -> 0 <= lc -> buffer f ->
  st = MCL_GCM_ACCEPTING_HEADER \/ st = MCL_GCM_ACCEPTING_CIPHER ->
  let os := GCTR E (inc32 f) (chunks p) in
  add_text enc (inst X f la lc st) p =
    (1, concat os,
     inst (GHASH H X (blk <$> if enc then os else chunks p)) (Nat.iter (length (chunks p)) inc32 f) la
       (lc + Z.of_nat (length p))
       (if (length p mod 16 =? 0)%nat then MCL_GCM_ACCEPTING_CIPHER else MCL_GCM_NOT_ACCEPTING_MORE)).
Proof.
  intros Hp HX Hla Hlc Hf Hst. cbv zeta.
  assert (end_header (inst X f la lc st) = inst X f la lc MCL_GCM_ACCEPTING_CIPHER) as Ee
    by (unfold end_header; destruct Hst as [-> | ->]; reflexivity).
  pose proof (crypt_inst T H j0 a0 HT HH enc p MCL_GCM_ACCEPTING_CIPHER Hp (length p) 0 [] X f la lc
    ltac:(lia) ltac:(lia) Hla Hlc HX Hf) as Ec.
  cbv zeta in Ec. rewrite drop_0, Nat.sub_0_r in Ec.
  destruct enc; unfold add_text, MCL_GCM_add_plain, MCL_GCM_add_cipher; rewrite Ee, decide_True by done.
  - change plain_step with (step_of true). rewrite Ec. unfold partial. by destruct (_ =? 0)%nat.
  - change cipher_step with (step_of false). rewrite Ec. unfold partial. by destruct (_ =? 0)%nat.
Qed.

Lemma iter_buffer n f : buffer f -> buffer (Nat.iter n inc32 f).
Proof. intros Hf. induction n; [done|]. by apply inc32_buffer. Qed.

Lemma texts_inst enc ps : forall X f la lc st ok out, Forall bytes_ok ps -> aligned ps ->
  0 <= X < 2 ^ 128 -> 0 <= la -> 0 <= lc -> buffer f ->
  st = MCL_GCM_ACCEPTING_HEADER \/ st = MCL_GCM_ACCEPTING_CIPHER ->
  let cs := chunks (concat ps) in
  let os := GCTR E (inc32 f) cs in
  exists st', foldl (λ '(ok, out, g) p, let '(r, o, g) := add_text enc g p in (ok && (r =? 1), out ++ o, g))
      (ok, out, inst X f la lc st) ps =
    (ok, out ++ concat os,
     inst (GHASH H X (blk <$> if enc then os else cs)) (Nat.iter (length cs) inc32 f) la
       (lc + Z.of_nat (length (concat ps))) st').
Proof.
  induction ps as [|p ps IH]; intros X f la lc st ok out Hb Ha HX Hla Hlc Hf Hst; cbv zeta.
  { exists st. destruct enc; cbn; by rewrite app_nil_r, Z.add_0_r. }
  apply Forall_cons in Hb as [Hp Hb]. destruct (aligned_cons p ps Ha) as [Hcase Ha'].
  cbn [foldl]. rewrite add_text_inst by done. rewrite andb_true_r, chunks_concat_cons by done.
  destruct Hcase as [->|Hm].
  { eexists. cbn [foldl concat]. rewrite !app_nil_r. reflexivity. }
  rewrite Hm. cbn [Nat.eqb].
  destruct (IH (GHASH H X (blk <$> if enc then GCTR E (inc32 f) (chunks p) else chunks p))
              (Nat.iter (length (chunks p)) inc32 f) la (lc + Z.of_nat (length p)) MCL_GCM_ACCEPTING_CIPHER ok
              (out ++ concat (GCTR E (inc32 f) (chunks p)))) as (st' & E');
    [done|done|by apply GHASH_range|done|lia|by apply iter_buffer|auto|].
  exists st'. rewrite E'. rewrite GCTR_app, concat_app, <- app_assoc, length_app, <- Nat.iter_succ_r, Nat.iter_succ.
  cbn [concat]. rewrite (length_app p), Nat2Z.inj_add, Z.add_assoc, (Nat.add_comm (length (chunks p))), Nat.iter_add.
  destruct enc; by rewrite fmap_app, GHASH_app.
Qed.
End calls.

(** ** Start and finish *)

Record gcm_ok (g : mcl_gcm) : Prop := {
  g_table : length (table g) = 128%nat;
  g_stateX : length (stateX g) = 16%nat;
  g_Y_0 : length (Y_0 g) = 16%nat;
  g_a : ctx_ok (a g)
}.

(** The start vector is not used without chaining. *)
Lemma init_ecb a nk key iv : Aes.MCL_AES_init a Aes.ECB nk key (Some iv) = Aes.MCL_AES_init a Aes.ECB nk key None.
Proof. unfold Aes.MCL_AES_init, Aes.MCL_AES_reset. by rewrite decide_True. Qed.

Lemma set_f_id a : Aes.set_f (Aes.f a) a = a.
Proof. by destruct a. Qed.

Lemma encrypt_buffer a b : buffer (Aes.MCL_AES_ecb_encrypt a b).
Proof. apply store_buffer. Qed.

Lemma J0_buffer E iv : bytes_ok iv -> buffer (J0 E iv).
Proof.
  intros Hiv. unfold J0. destruct (Nat.eqb_spec (length iv) 12); [|apply block_buffer]. split.
  - apply Forall_app. split; [done|]. rewrite !Forall_cons. repeat split; done || lia.
  - rewrite length_app. cbn [length]. lia.
Qed.

Lemma init_inst g nk key iv : gcm_ok g -> nk = 16 \/ nk = 24 \/ nk = 32 -> bytes_ok key -> bytes_ok iv ->
  Z.of_nat (length iv) < 2 ^ 61 ->
  exists a1 T, Aes.MCL_AES_init (a g) Aes.ECB nk key (Some iv) = (1, a1) /\ ready a1 /\
    let E := Aes.MCL_AES_ecb_encrypt a1 in
    table_of (subkey E) T /\
    MCL_GCM_init g nk key iv = inst T (J0 E iv) a1 0 (J0 E iv) 0 0 MCL_GCM_ACCEPTING_HEADER.
Proof.
  intros [Ht Hx Hy Ha] Hnk Hkey Hiv Hl.
  destruct (init_ready (a g) Aes.ECB nk key None Ha Hnk Hkey ltac:(discriminate)) as (a1 & Ei & Hr & _ & _ & _).
  rewrite <- (init_ecb _ _ _ iv) in Ei.
  set (E := Aes.MCL_AES_ecb_encrypt a1). set (T := precompute (table g) (E (replicate 16 0))).
  assert (table_of (subkey E) T) as HT by (apply precompute_table; [done|apply encrypt_buffer]).
  assert (0 <= subkey E < 2 ^ 128) as HH.
  { destruct (encrypt_buffer a1 (replicate 16 0)) as [Hb Hl']. pose proof (be_range _ Hb) as R. rewrite Hl' in R. exact R. }
  exists a1, T. split; [done|]. split; [done|]. cbv zeta. split; [done|].
  pose proof (r_f _ Hr) as [Hfb Hfl]. unfold MCL_GCM_init. cbv zeta. cbn [stateX set_stateX a set_a table].
  rewrite Ei. cbn [snd]. fold E. fold T. unfold J0.
  assert (copy 16 0 (replicate 16 0) (stateX g) = bytes_be 16 0) as -> by (by apply copy_all).
  destruct (Nat.eqb_spec (length iv) 12) as [E12|E12].
  - cbn [a set_a set_lens set_table Y_0 set_stateX].
    assert (copy 4 12 (unpack 1) (copy 12 0 iv (Aes.f a1)) = iv ++ [0; 0; 0; 1]) as ->.
    { generalize (Aes.f a1) Hfl. intros f El. do 17 (destruct f as [|? f]; try discriminate El).
      do 13 (destruct iv as [|? iv]; try discriminate E12). reflexivity. }
    rewrite copy_all by (rewrite ?length_app; cbn [length]; lia). reflexivity.
  - set (g1 := set_status MCL_GCM_ACCEPTING_CIPHER _).
    assert (g1 = inst T (Y_0 g) a1 0 (Aes.f a1) 0 0 MCL_GCM_ACCEPTING_CIPHER) as -> by (unfold g1, inst; by rewrite set_f_id).
    unfold MCL_GCM_ghash. cbn [end_header status inst]. rewrite !decide_True by done. unfold end_header.
    cbn [status inst]. rewrite decide_False by done.
    rewrite (absorb_inst T (subkey E) (Y_0 g) a1 HT HH cipher_byte 0 1) by (done || apply cipher_op || lia).
    rewrite drop_0, Nat.sub_0_r, Z.mul_0_r, Z.mul_1_r, !Z.add_0_l. cbn [snd].
    set (X := GHASH (subkey E) 0 (blk <$> chunks iv)).
    assert (0 <= X < 2 ^ 128) as HX by (by apply GHASH_range).
    assert (exists st, partial (length iv) MCL_GCM_NOT_ACCEPTING_MORE
       (inst T (Y_0 g) a1 X (Aes.f a1) 0 (Z.of_nat (length iv)) MCL_GCM_ACCEPTING_CIPHER) =
       inst T (Y_0 g) a1 X (Aes.f a1) 0 (Z.of_nat (length iv)) st) as [st ->]
      by (unfold partial; destruct (_ =? 0)%nat; eexists; reflexivity).
    rewrite (wrap_inst T (subkey E) (Y_0 g) a1 HT) by (done || lia).
    rewrite GHASH_app. fold X. cbn [GHASH foldl]. rewrite Z.mul_0_r, Z.mul_0_l, Z.add_0_l.
    set (S := gmul (X ⊕ 8 * Z.of_nat (length iv)) (subkey E)).
    cbn [stateX inst a Aes.f Aes.set_f Y_0 set_a set_Y_0 set_stateX].
    assert (length (bytes_be 16 S) = 16%nat) as HS by apply length_bytes_be.
    rewrite !(copy_all (bytes_be 16 S)) by done. rewrite copy_all by done. reflexivity.
Qed.

Lemma finish_inst T H j0 a0 X f la lc st : table_of H T -> 0 <= H < 2 ^ 128 -> 0 <= X < 2 ^ 128 ->
  0 <= la < 2 ^ 61 -> 0 <= lc < 2 ^ 61 ->
  fst (MCL_GCM_finish (inst T j0 a0 X f la lc st) true) =
    Some (zip_with Z.lxor (Aes.MCL_AES_ecb_encrypt a0 j0) (bytes_be 16 (gmul (X ⊕ (8 * la * 2 ^ 64 + 8 * lc)) H))).
Proof.
  intros HT HH HX Hla Hlc. unfold MCL_GCM_finish. rewrite (wrap_inst T H j0 a0 HT) by done. cbn [fst stateX inst Y_0 a].
  f_equal. set (y := bytes_be 16 _). assert (length y = 16%nat) as Hy by apply length_bytes_be. clearbody y.
  set (b := Aes.MCL_AES_ecb_encrypt a0 j0). assert (length b = 16%nat) as Hb by apply encrypt_buffer.
  change (Aes.MCL_AES_ecb_encrypt (Aes.set_f f a0) j0) with b. clearbody b.
  apply list_eq. intros i. rewrite lookup_xor_prefix, lookup_zip_with by lia. case_decide as Hi.
  - unfold at_, Sha256.at_. destruct (lookup_lt_is_Some_2 b i) as [u ->]; [lia|].
    destruct (lookup_lt_is_Some_2 y i) as [v ->]; [lia|]. done.
  - by rewrite (lookup_ge_None_2 b) by lia.
Qed.

(** ** The whole sequence *)

(** The stream alone decrypts what it encrypted. *)
Lemma zip_lxor_twice c k : (length c <= length k)%nat -> zip_with Z.lxor (zip_with Z.lxor c k) k = c.
Proof.
  revert k. induction c as [|x c IH]; intros k Hl; [done|]. destruct k as [|y k]; [cbn in Hl; lia|].
  cbn [zip_with]. rewrite IH by (cbn in Hl; lia). f_equal. xor_ring.
Qed.

Lemma GCTR_twice E bs : (forall f, length (E f) = 16%nat) -> forall f, GCTR E f (GCTR E f (chunks bs)) = chunks bs.
Proof.
  intros HE. induction bs as [|bs Hb IH] using chunks_ind; intros f; [done|]. rewrite (chunks_cons bs) by done.
  cbn [GCTR]. rewrite IH, zip_lxor_twice; [done|]. rewrite HE, length_take. lia.
Qed.

Lemma stream_twice E iv P : (forall f, length (E f) = 16%nat) -> gcm_stream E iv (gcm_stream E iv P) = P.
Proof.
  intros HE. unfold gcm_stream. destruct (chunks_GCTR E P HE (inc32 (J0 E iv))) as [-> _].
  by rewrite GCTR_twice, concat_chunks.
Qed.

Lemma length_gcm_stream E iv P : (forall f, length (E f) = 16%nat) -> length (gcm_stream E iv P) = length P.
Proof. intros HE. apply (chunks_GCTR E P HE). Qed.

(** The mode does not see the cipher outside blocks. *)
Section same_cipher.
Context (E E' : list Z -> list Z) (HE : forall b, buffer b -> E b = E' b).

Lemma GCTR_same cs f : buffer f -> GCTR E f cs = GCTR E' f cs.
Proof.
  revert f. induction cs as [|c cs IH]; intros f Hf; [done|]. cbn [GCTR]. rewrite HE by done.
  f_equal. apply IH. by apply inc32_buffer.
Qed.
Lemma J0_same iv : J0 E iv = J0 E' iv.
Proof. unfold J0, subkey. by rewrite HE by apply zeros_buffer. Qed.
Lemma gcm_same iv A P : bytes_ok iv ->
  gcm_stream E iv P = gcm_stream E' iv P /\ gcm_tag E iv A P = gcm_tag E' iv A P.
Proof.
  intros Hiv. pose proof (J0_buffer E' iv Hiv) as HJ. unfold gcm_stream, gcm_tag, subkey.
  rewrite J0_same, !HE by (done || apply zeros_buffer). split; [|done].
  by rewrite GCTR_same by (by apply inc32_buffer).
Qed.
End same_cipher.

(** What is given to a run. *)
Record args_ok (g : mcl_gcm) (nk : Z) (key iv : list Z) (hs ps : list (list Z)) : Prop := {
  ar_gcm : gcm_ok g;
  ar_nk : nk = 16 \/ nk = 24 \/ nk = 32;
  ar_key : bytes_ok key;
  ar_iv : bytes_ok iv;
  ar_hs : Forall bytes_ok hs /\ aligned hs;
  ar_ps : Forall bytes_ok ps /\ aligned ps;
  ar_len : Z.of_nat (length iv) < 2 ^ 61 /\ Z.of_nat (length (concat hs)) < 2 ^ 61 /\
           Z.of_nat (length (concat ps)) < 2 ^ 61
}.

(** Both directions: the text is the stream of the input, and the tag is that of the
    encrypted text. *)
Lemma run_mode enc g nk key iv hs ps : args_ok g nk key iv hs ps ->
  exists a1, Aes.MCL_AES_init (a g) Aes.ECB nk key (Some iv) = (1, a1) /\ ready a1 /\
    let E := Aes.MCL_AES_ecb_encrypt a1 in
    let out := gcm_stream E iv (concat ps) in
    gcm_run enc g nk key iv hs ps =
      (true, out, Some (gcm_tag E iv (concat hs) (if enc then out else concat ps))).
Proof.
  intros [Hg Hnk Hkey Hiv [Hhs Hha] [Hps Hpa] (Hl & Hlh & Hlp)].
  destruct (init_inst g nk key iv Hg Hnk Hkey Hiv Hl) as (a1 & T & Ei & Hr & HT & Einit).
  exists a1. split; [done|]. split; [done|]. cbv zeta. set (E := Aes.MCL_AES_ecb_encrypt a1) in *.
  assert (0 <= subkey E < 2 ^ 128) as HH.
  { destruct (encrypt_buffer a1 (replicate 16 0)) as [Hb Hl']. pose proof (be_range _ Hb) as R. rewrite Hl' in R. exact R. }
  assert (0 <= 0 < 2 ^ 128) as H0 by lia. unfold gcm_run. rewrite Einit.
  unfold add_headers, add_texts.
  destruct (headers_inst T (subkey E) (J0 E iv) a1 HT HH hs 0 (J0 E iv) 0 0 true Hhs Hha H0 ltac:(lia) ltac:(lia))
    as (st & -> & Hst).
  destruct (texts_inst T (subkey E) (J0 E iv) a1 HT HH enc ps _ (J0 E iv) (0 + Z.of_nat (length (concat hs))) 0 st true []
    Hps Hpa (GHASH_range _ _ (blk <$> chunks (concat hs)) HH H0) ltac:(lia) ltac:(lia) (J0_buffer E iv Hiv) Hst) as (st' & E').
  cbv zeta in E'. rewrite E'. clear E'. cbn [andb app].
  rewrite (finish_inst T (subkey E)); [|done|done|by apply GHASH_range, GHASH_range|lia|lia].
  fold E. unfold gcm_tag. f_equal. f_equal. f_equal. f_equal.
  assert (forall f, length (E f) = 16%nat) as HE by (intros; apply encrypt_buffer).
  destruct (chunks_GCTR E (concat ps) HE (inc32 (J0 E iv))) as [Ec El].
  rewrite !GHASH_app. cbn [GHASH foldl]. rewrite !Z.add_0_l. unfold gcm_stream. destruct enc; [by rewrite Ec, El|done].
Qed.

(** [C17] Encryption is the authenticated encryption of NIST SP 800-38D: after the
    initialisation with a key of 16, 24 or 32 bytes and a start vector of any length,
    headers and text handed over in any number of calls, all but the last of whole
    blocks, are accepted, and the encrypted text and the tag are those of the mode with
    the cipher of FIPS 197. *)
Theorem gcm_is_sp800_38d g nk key iv hs ps :
  args_ok g nk key iv hs ps ->
  exists a1, Aes.MCL_AES_init (a g) Aes.ECB nk key (Some iv) = (1, a1) /\
    let '(C, T) := GCM_AE (Cipher (Aes.Nr a1) (Aes.fkey a1)) iv (concat hs) (concat ps) in
    gcm_run true g nk key iv hs ps = (true, C, Some T).
Proof.
  intros Hargs. destruct (run_mode true g nk key iv hs ps Hargs) as (a1 & Ei & [Hk _] & E).
  exists a1. split; [done|]. rewrite E. unfold GCM_AE. cbv zeta.
  assert (forall b, buffer b -> Aes.MCL_AES_ecb_encrypt a1 b = Cipher (Aes.Nr a1) (Aes.fkey a1) b) as HE
    by (intros b [? ?]; apply ecb_encrypt_cipher; [apply Hk|done|done]).
  pose proof (ar_iv _ _ _ _ _ _ Hargs) as Hiv.
  destruct (gcm_same _ _ HE iv (concat hs) (concat ps) Hiv) as [-> _].
  by destruct (gcm_same _ _ HE iv (concat hs) (gcm_stream (Cipher (Aes.Nr a1) (Aes.fkey a1)) iv (concat ps)) Hiv) as [_ ->].
Qed.

(** [C18] Decrypting what was encrypted gives the text and the same tag, in whatever
    pieces the header and the encrypted text are handed over. *)
Theorem gcm_roundtrip g nk key iv hs ps hs' cs :
  args_ok g nk key iv hs ps ->
  Forall bytes_ok hs' /\ aligned hs' -> concat hs' = concat hs ->
  Forall bytes_ok cs /\ aligned cs ->
  let '(ok, C, T) := gcm_run true g nk key iv hs ps in
  concat cs = C -> ok = true /\ gcm_run false g nk key iv hs' cs = (true, concat ps, T).
Proof.
  intros Hargs Hhs' Eh Hcs. destruct (run_mode true g nk key iv hs ps Hargs) as (a1 & Ei & _ & ->).
  intros Ec. split; [done|]. set (E := Aes.MCL_AES_ecb_encrypt a1) in *.
  assert (forall f, length (E f) = 16%nat) as HE by (intros; apply encrypt_buffer).
  assert (args_ok g nk key iv hs' cs) as Hargs'.
  { destruct Hargs as [? ? ? ? _ _ (? & ? & ?)]. split; try done. rewrite Eh, Ec, length_gcm_stream by done. done. }
  destruct (run_mode false g nk key iv hs' cs Hargs') as (a2 & Ei' & _ & ->).
  rewrite Ei in Ei'. injection Ei' as <-. fold E. by rewrite Eh, Ec, stream_twice.
Qed.

(** The vectors of the file, the header in two calls. *)
Lemma fresh_gcm_ok : gcm_ok fresh.
Proof. split; [done..|apply fresh_ok]. Qed.

Definition vector_headers : list (list Z) := [take 16 HT; drop 16 HT].
Definition vector_texts : list (list Z) := [take 32 MT; drop 32 MT].
Lemma vector_ok : args_ok fresh 16 KT NT vector_headers vector_texts.
Proof.
  split; [apply fresh_gcm_ok|auto|apply bytes_be_ok..|split|split|vm_compute; auto].
  - unfold vector_headers. rewrite !Forall_cons. split_and!; [apply Forall_take, bytes_be_ok|apply Forall_drop, bytes_be_ok|done].
  - vm_compute. auto.
  - unfold vector_texts. rewrite !Forall_cons. split_and!; [apply Forall_take, bytes_be_ok|apply Forall_drop, bytes_be_ok|done].
  - vm_compute. auto.
Qed.

Lemma gcm_is_sp800_38d_witness :
  exists a1, Aes.MCL_AES_init (a fresh) Aes.ECB 16 KT (Some NT) = (1, a1) /\
    let '(C, T) := GCM_AE (Cipher (Aes.Nr a1) (Aes.fkey a1)) NT (concat vector_headers) (concat vector_texts) in
    gcm_run true fresh 16 KT NT vector_headers vector_texts = (true, C, Some T).
Proof. apply (gcm_is_sp800_38d fresh 16 KT NT vector_headers vector_texts). apply vector_ok. Defined.


Definition vector_cipher : list Z := Eval vm_compute in snd (fst (gcm_run true fresh 16 KT NT vector_headers vector_texts)).
Lemma gcm_roundtrip_witness :
  let '(ok, C, T) := gcm_run true fresh 16 KT NT vector_headers vector_texts in
  concat [vector_cipher] = C /\ ok = true /\
  gcm_run false fresh 16 KT NT [HT] [vector_cipher] = (true, concat vector_texts, T).
Proof.
  pose proof (gcm_roundtrip fresh 16 KT NT vector_headers vector_texts [HT] [vector_cipher] vector_ok) as R.
  assert (snd (fst (gcm_run true fresh 16 KT NT vector_headers vector_texts)) = vector_cipher) as EC
    by (vm_compute; reflexivity).
  destruct (gcm_run true fresh 16 KT NT vector_headers vector_texts) as [[ok C] T]. cbn [fst snd] in EC.
  rewrite <- EC in *. cbn [concat] in *. rewrite !app_nil_r in *. split; [done|]. apply R; [|done| |done].
  - split; [|done]. apply Forall_singleton, bytes_be_ok.
  - split; [|done]. apply Forall_singleton. rewrite EC. unfold vector_cipher. rewrite !Forall_cons. repeat split; done || lia.
Defined.
