(* ===== verification/MclHash.v ===== *)
(** * MclHash: the hash functions of the MIRACL library
      (common/vendors/MIRACL/ara/src/lib/mcl_hash.c, mcl_hash.h)

    SHA-1 and SHA-256 work on words of 32 bits, SHA-384 and SHA-512 on words of 64; the
    routines that take a byte and that finish are the same text for both widths, and
    are one definition here, with the width [m] in bits and the transformation as
    arguments. *)

From S2P Require Import Prelude Sha256.

Module MclHash.
Abbreviation at_ := Sha256.at_.

(** ** Data *)
Record mcl_hash := Hash {
  length0 : Z;
  length1 : Z;
  h : list Z;
  w : list Z;
  hlen : nat
}.

Definition PAD : Z := 0x80.
Definition ZERO : Z := 0.

(** A result in a word of [m] bits. *)
Definition wrap (m x : Z) : Z := Z.land x (Z.ones m).

(** ** SHA-1 *)
Definition H_160 : list Z := [0x67452301; 0xefcdab89; 0x98badcfe; 0x10325476; 0xc3d2e1f0].
Definition K0 : Z := 0x5a827999.
Definition K1 : Z := 0x6ed9eba1.
Definition K2 : Z := 0x8f1bbcdc.
Definition K3 : Z := 0xca62c1d6.
Definition SS (n x : Z) : Z := Z.lor (x <<₃₂ n) (Z.shiftr x (32 - n)).
Definition F0 (x y z : Z) : Z := Z.lxor z (Z.land x (Z.lxor y z)).
Definition F1 (x y z : Z) : Z := Z.lxor (Z.lxor x y) z.
Definition F2 (x y z : Z) : Z := Z.lor (Z.land x y) (Z.land z (Z.lor x y)).
Definition F3 (x y z : Z) : Z := Z.lxor (Z.lxor x y) z.

Definition schedule160 (w : list Z) (t : nat) : list Z :=
  <[t := SS 1 (Z.lxor (Z.lxor (Z.lxor (at_ w (t - 3)) (at_ w (t - 8))) (at_ w (t - 14))) (at_ w (t - 16)))]> w.
(** One iteration of a mixing loop, with its constant and its function. *)
Definition mush160 (K : Z) (F : Z -> Z -> Z -> Z) (w : list Z) (v : Z * Z * Z * Z * Z) (t : nat) : Z * Z * Z * Z * Z :=
  let '(a, b, c, d, e) := v in
  let temp := u32 (K + F b c d + SS 5 a + e + at_ w t) in
  (temp, a, SS 30 b, c, d).
Definition MCL_HASH160_transform (sh : mcl_hash) : mcl_hash :=
  let w := foldl schedule160 (w sh) (seq 16 64) in
  let v := (at_ (h sh) 0, at_ (h sh) 1, at_ (h sh) 2, at_ (h sh) 3, at_ (h sh) 4) in
  let v := foldl (mush160 K0 F0 w) v (seq 0 20) in
  let v := foldl (mush160 K1 F1 w) v (seq 20 20) in
  let v := foldl (mush160 K2 F2 w) v (seq 40 20) in
  let '(a, b, c, d, e) := foldl (mush160 K3 F3 w) v (seq 60 20) in
  let h := [at_ (h sh) 0 +₃₂ a; at_ (h sh) 1 +₃₂ b; at_ (h sh) 2 +₃₂ c; at_ (h sh) 3 +₃₂ d; at_ (h sh) 4 +₃₂ e]
             ++ drop 5 (h sh) in
  Hash (length0 sh) (length1 sh) h w (hlen sh).

(** ** The transformations of SHA-256 and SHA-512 *)
Definition S_ (m n x : Z) : Z := Z.lor (Z.shiftr x n) (wrap m (Z.shiftl x (m - n))).
Definition R (n x : Z) : Z := Z.shiftr x n.
Definition Ch (m x y z : Z) : Z := Z.lxor (Z.land x y) (Z.land (wrap m (Z.lnot x)) z).
Definition Maj (x y z : Z) : Z := Z.lxor (Z.lxor (Z.land x y) (Z.land x z)) (Z.land y z).
Definition Sig0_256 (x : Z) : Z := Z.lxor (Z.lxor (S_ 32 2 x) (S_ 32 13 x)) (S_ 32 22 x).
Definition Sig1_256 (x : Z) : Z := Z.lxor (Z.lxor (S_ 32 6 x) (S_ 32 11 x)) (S_ 32 25 x).
Definition theta0_256 (x : Z) : Z := Z.lxor (Z.lxor (S_ 32 7 x) (S_ 32 18 x)) (R 3 x).
Definition theta1_256 (x : Z) : Z := Z.lxor (Z.lxor (S_ 32 17 x) (S_ 32 19 x)) (R 10 x).
Definition Sig0_512 (x : Z) : Z := Z.lxor (Z.lxor (S_ 64 28 x) (S_ 64 34 x)) (S_ 64 39 x).
Definition Sig1_512 (x : Z) : Z := Z.lxor (Z.lxor (S_ 64 14 x) (S_ 64 18 x)) (S_ 64 41 x).
Definition theta0_512 (x : Z) : Z := Z.lxor (Z.lxor (S_ 64 1 x) (S_ 64 8 x)) (R 7 x).
Definition theta1_512 (x : Z) : Z := Z.lxor (Z.lxor (S_ 64 19 x) (S_ 64 61 x)) (R 6 x).

Definition H_256 : list Z :=
  [0x6A09E667; 0xBB67AE85; 0x3C6EF372; 0xA54FF53A; 0x510E527F; 0x9B05688C; 0x1F83D9AB; 0x5BE0CD19].
(** The same 64 words, in the same order, as the table of bootrom.c. *)
Definition K_256 : list Z := Sha256.K.

(** The eight working variables. *)
Definition vars := (Z * Z * Z * Z * Z * Z * Z * Z)%type.
Definition vars_of (h : list Z) : vars :=
  (at_ h 0, at_ h 1, at_ h 2, at_ h 3, at_ h 4, at_ h 5, at_ h 6, at_ h 7).
(** [sh->h[i]+=...;] *)
Definition add_vars (m : Z) (h : list Z) (v : vars) : list Z :=
  let '(a, b, c, d, e, f, g, i) := v in
  [wrap m (at_ h 0 + a); wrap m (at_ h 1 + b); wrap m (at_ h 2 + c); wrap m (at_ h 3 + d);
   wrap m (at_ h 4 + e); wrap m (at_ h 5 + f); wrap m (at_ h 6 + g); wrap m (at_ h 7 + i)].

Definition schedule256 (w : list Z) (j : nat) : list Z :=
  <[j := u32 (theta1_256 (at_ w (j - 2)) + at_ w (j - 7) + theta0_256 (at_ w (j - 15)) + at_ w (j - 16))]> w.
Definition mush256 (w : list Z) (v : vars) (j : nat) : vars :=
  let '(a, b, c, d, e, f, g, h) := v in
  let t1 := u32 (h + Sig1_256 e + Ch 32 e f g + at_ K_256 j + at_ w j) in
  let t2 := u32 (Sig0_256 a + Maj a b c) in
  (u32 (t1 + t2), a, b, c, u32 (d + t1), e, f, g).
Definition MCL_HASH256_transform (sh : mcl_hash) : mcl_hash :=
  let w := foldl schedule256 (w sh) (seq 16 48) in
  let v := foldl (mush256 w) (vars_of (h sh)) (seq 0 64) in
  Hash (length0 sh) (length1 sh) (add_vars 32 (h sh) v) w (hlen sh).

Definition H_512 : list Z :=
  [0x6a09e667f3bcc908; 0xbb67ae8584caa73b; 0x3c6ef372fe94f82b; 0xa54ff53a5f1d36f1;
   0x510e527fade682d1; 0x9b05688c2b3e6c1f; 0x1f83d9abfb41bd6b; 0x5be0cd19137e2179].
Definition H_384 : list Z :=
  [0xcbbb9d5dc1059ed8; 0x629a292a367cd507; 0x9159015a3070dd17; 0x152fecd8f70e5939;
   0x67332667ffc00b31; 0x8eb44a8768581511; 0xdb0c2e0d64f98fa7; 0x47b5481dbefa4fa4].
Definition K_512 : list Z := [
  0x428a2f98d728ae22; 0x7137449123ef65cd; 0xb5c0fbcfec4d3b2f; 0xe9b5dba58189dbbc;
  0x3956c25bf348b538; 0x59f111f1b605d019; 0x923f82a4af194f9b; 0xab1c5ed5da6d8118;
  0xd807aa98a3030242; 0x12835b0145706fbe; 0x243185be4ee4b28c; 0x550c7dc3d5ffb4e2;
  0x72be5d74f27b896f; 0x80deb1fe3b1696b1; 0x9bdc06a725c71235; 0xc19bf174cf692694;
  0xe49b69c19ef14ad2; 0xefbe4786384f25e3; 0x0fc19dc68b8cd5b5; 0x240ca1cc77ac9c65;
  0x2de92c6f592b0275; 0x4a7484aa6ea6e483; 0x5cb0a9dcbd41fbd4; 0x76f988da831153b5;
  0x983e5152ee66dfab; 0xa831c66d2db43210; 0xb00327c898fb213f; 0xbf597fc7beef0ee4;
  0xc6e00bf33da88fc2; 0xd5a79147930aa725; 0x06ca6351e003826f; 0x142929670a0e6e70;
  0x27b70a8546d22ffc; 0x2e1b21385c26c926; 0x4d2c6dfc5ac42aed; 0x53380d139d95b3df;
  0x650a73548baf63de; 0x766a0abb3c77b2a8; 0x81c2c92e47edaee6; 0x92722c851482353b;
  0xa2bfe8a14cf10364; 0xa81a664bbc423001; 0xc24b8b70d0f89791; 0xc76c51a30654be30;
  0xd192e819d6ef5218; 0xd69906245565a910; 0xf40e35855771202a; 0x106aa07032bbd1b8;
  0x19a4c116b8d2d0c8; 0x1e376c085141ab53; 0x2748774cdf8eeb99; 0x34b0bcb5e19b48a8;
  0x391c0cb3c5c95a63; 0x4ed8aa4ae3418acb; 0x5b9cca4f7763e373; 0x682e6ff3d6b2b8a3;
  0x748f82ee5defb2fc; 0x78a5636f43172f60; 0x84c87814a1f0ab72; 0x8cc702081a6439ec;
  0x90befffa23631e28; 0xa4506cebde82bde9; 0xbef9a3f7b2c67915; 0xc67178f2e372532b;
  0xca273eceea26619c; 0xd186b8c721c0c207; 0xeada7dd6cde0eb1e; 0xf57d4f7fee6ed178;
  0x06f067aa72176fba; 0x0a637dc5a2c898a6; 0x113f9804bef90dae; 0x1b710b35131c471b;
  0x28db77f523047d84; 0x32caab7b40c72493; 0x3c9ebe0a15c9bebc; 0x431d67c49c100d4c;
  0x4cc5d4becb3e42b6; 0x597f299cfc657e2a; 0x5fcb6fab3ad6faec; 0x6c44198c4a475817].

Definition schedule512 (w : list Z) (j : nat) : list Z :=
  <[j := u64 (theta1_512 (at_ w (j - 2)) + at_ w (j - 7) + theta0_512 (at_ w (j - 15)) + at_ w (j - 16))]> w.
Definition mush512 (w : list Z) (v : vars) (j : nat) : vars :=
  let '(a, b, c, d, e, f, g, h) := v in
  let t1 := u64 (h + Sig1_512 e + Ch 64 e f g + at_ K_512 j + at_ w j) in
  let t2 := u64 (Sig0_512 a + Maj a b c) in
  (u64 (t1 + t2), a, b, c, u64 (d + t1), e, f, g).
Definition MCL_HASH512_transform (sh : mcl_hash) : mcl_hash :=
  let w := foldl schedule512 (w sh) (seq 16 64) in
  let v := foldl (mush512 w) (vars_of (h sh)) (seq 0 80) in
  Hash (length0 sh) (length1 sh) (add_vars 64 (h sh) v) w (hlen sh).

(** ** Bytes *)
Definition process (m : Z) (transform : mcl_hash -> mcl_hash) (sh : mcl_hash) (byte : Z) : mcl_hash :=
  let cnt := Z.to_nat ((length0 sh / m) mod 16) in
  let w := <[cnt := Z.lor (wrap m (Z.shiftl (at_ (w sh) cnt) 8)) (Z.land byte 0xFF)]> (w sh) in
  let l0 := wrap m (length0 sh + 8) in
  let l1 := if l0 =? 0 then wrap m (length1 sh + 1) else length1 sh in
  let sh := Hash l0 l1 (h sh) w (hlen sh) in
  if l0 mod (16 * m) =? 0 then transform sh else sh.

(** [while ((sh->length[0]%512)!=448) process(sh,ZERO);] *)
Fixpoint pad_zeros (fuel : nat) (m : Z) (transform : mcl_hash -> mcl_hash) (sh : mcl_hash) : mcl_hash :=
  match fuel with
  | O => sh
  | S fuel =>
      if length0 sh mod (16 * m) =? 14 * m then sh
      else pad_zeros fuel m transform (process m transform sh ZERO)
  end.

(** [(sh->h[i/4]>>(8*(3-i%4))) & 0xffL] *)
Definition digest_byte (m : Z) (h : list Z) (i : nat) : Z :=
  let b := Z.to_nat (m / 8) in
  Z.land (Z.shiftr (at_ h (i / b)) (8 * (Z.of_nat b - 1 - Z.of_nat i mod Z.of_nat b))) 0xff.

(** The digest, and the context before it is initialised again. *)
Definition finish (m : Z) (transform : mcl_hash -> mcl_hash) (sh : mcl_hash) : list Z * mcl_hash :=
  let len0 := length0 sh in
  let len1 := length1 sh in
  let sh := process m transform sh PAD in
  let sh := pad_zeros (Z.to_nat (2 * m)) m transform sh in
  let sh := Hash (length0 sh) (length1 sh) (h sh) (<[15%nat := len0]> (<[14%nat := len1]> (w sh))) (hlen sh) in
  let sh := transform sh in
  (digest_byte m (h sh) <$> seq 0 (hlen sh), sh).

(** [for (i=0;i<n;i++) sh->w[i]=0;], and the first words of [h]. *)
Definition init (n : nat) (H : list Z) (hlen : nat) (sh : mcl_hash) : mcl_hash :=
  Hash 0 0 (H ++ drop (length H) (h sh)) (replicate n 0 ++ drop n (w sh)) hlen.

(** ** Interface *)
Definition MCL_HASH160_init : mcl_hash -> mcl_hash := init 80 H_160 20.
Definition MCL_HASH160_process : mcl_hash -> Z -> mcl_hash := process 32 MCL_HASH160_transform.
Definition MCL_HASH160_hash (sh : mcl_hash) : list Z * mcl_hash :=
  let '(hash, sh) := finish 32 MCL_HASH160_transform sh in (hash, MCL_HASH160_init sh).

Definition MCL_HASH256_init : mcl_hash -> mcl_hash := init 64 H_256 32.
Definition MCL_HASH256_process : mcl_hash -> Z -> mcl_hash := process 32 MCL_HASH256_transform.
Definition MCL_HASH256_hash (sh : mcl_hash) : list Z * mcl_hash :=
  let '(digest, sh) := finish 32 MCL_HASH256_transform sh in (digest, MCL_HASH256_init sh).

Definition MCL_HASH512_init : mcl_hash -> mcl_hash := init 80 H_512 64.
Definition MCL_HASH512_process : mcl_hash -> Z -> mcl_hash := process 64 MCL_HASH512_transform.
Definition MCL_HASH512_hash (sh : mcl_hash) : list Z * mcl_hash :=
  let '(hash, sh) := finish 64 MCL_HASH512_transform sh in (hash, MCL_HASH512_init sh).

Definition MCL_HASH384_init : mcl_hash -> mcl_hash := init 80 H_384 48.
Definition MCL_HASH384_process : mcl_hash -> Z -> mcl_hash := MCL_HASH512_process.
Definition MCL_HASH384_hash : mcl_hash -> list Z * mcl_hash := MCL_HASH512_hash.

(** A message in one go, on a context that holds anything. *)
Definition digest (init : mcl_hash -> mcl_hash) (process : mcl_hash -> Z -> mcl_hash)
    (hash : mcl_hash -> list Z * mcl_hash) (sh : mcl_hash) (msg : list Z) : list Z :=
  fst (hash (foldl process (init sh) msg)).
Definition sha1 := digest MCL_HASH160_init MCL_HASH160_process MCL_HASH160_hash.
Definition sha256 := digest MCL_HASH256_init MCL_HASH256_process MCL_HASH256_hash.
Definition sha384 := digest MCL_HASH384_init MCL_HASH384_process MCL_HASH384_hash.
Definition sha512 := digest MCL_HASH512_init MCL_HASH512_process MCL_HASH512_hash.

(** The digests of [abc]. *)
Definition blank : mcl_hash := Hash 0 0 (replicate 8 0) (replicate 80 0) 0.
Example sha1_abc : sha1 blank [97; 98; 99] = bytes_be 20 0xa9993e364706816aba3e25717850c26c9cd0d89d.
Proof. vm_compute. reflexivity. Qed.
Example sha256_abc_mcl : sha256 blank [97; 98; 99] = Sha256.sha256 [97; 98; 99].
Proof. vm_compute. reflexivity. Qed.
Example sha384_abc : sha384 blank [97; 98; 99] = bytes_be 48
  0xcb00753f45a35e8bb5a03d699ac65007272c32ab0eded1631a8b605a43ff5bed8086072ba1e7cc2358baeca134c825a7.
Proof. vm_compute. reflexivity. Qed.
Example sha512_abc : sha512 blank [97; 98; 99] = bytes_be 64
  0xddaf35a193617abacc417349ae20413112e6fa4e89a97ea20a9eeee64b55d39a2192992a274fc1a836ba3c23a3feebbd454d4423643ce80e2a9ac94fa54ca49f.
Proof. vm_compute. reflexivity. Qed.
End MclHash.
