(* ===== verification/MclHashSpec.v ===== *)
(** * MclHashSpec: the hashes of the MIRACL library compute the standard's digests

    The references follow FIPS 180-4; SHA-256 is compared with the digest the other
    library's code computes. *)

From S2P Require Import Prelude Sha256 StreamHash Sha256Spec MclHash.
Import MclHash.
Abbreviation at_ := Sha256.at_.

(** ** The compression functions *)

(** *** SHA-1 *)
Definition ROTL (n x : Z) : Z := Z.lor (x <<₃₂ n) (Z.shiftr x (32 - n)).
Definition choose (x y z : Z) : Z := Z.lxor (Z.land x y) (Z.land (Z.lnot x) z).
Definition parity (x y z : Z) : Z := Z.lxor (Z.lxor x y) z.
Definition majority (x y z : Z) : Z := Z.lxor (Z.lxor (Z.land x y) (Z.land x z)) (Z.land y z).
Definition f1 (t : nat) : Z -> Z -> Z -> Z :=
  if (t <? 20)%nat then choose else if (t <? 40)%nat then parity else if (t <? 60)%nat then majority else parity.
Definition k1 (t : nat) : Z :=
  if (t <? 20)%nat then K0 else if (t <? 40)%nat then K1 else if (t <? 60)%nat then K2 else K3.
Definition round1 (W : list Z) (v : Z * Z * Z * Z * Z) (t : nat) : Z * Z * Z * Z * Z :=
  let '(a, b, c, d, e) := v in
  (u32 (ROTL 5 a + f1 t b c d + e + k1 t + at_ W t), a, ROTL 30 b, c, d).
Definition next1 (w : list Z) (t : nat) : Z :=
  ROTL 1 (Z.lxor (Z.lxor (Z.lxor (at_ w (t - 3)) (at_ w (t - 8))) (at_ w (t - 14))) (at_ w (t - 16))).
Definition compress1 (h ws : list Z) : list Z :=
  let W := Nat.iter 64 (grow next1) ws in
  let '(a, b, c, d, e) := foldl (round1 W) (at_ h 0, at_ h 1, at_ h 2, at_ h 3, at_ h 4) (seq 0 80) in
  [at_ h 0 +₃₂ a; at_ h 1 +₃₂ b; at_ h 2 +₃₂ c; at_ h 3 +₃₂ d; at_ h 4 +₃₂ e].

(** *** SHA-512 *)
Definition next512 (w : list Z) (j : nat) : Z :=
  u64 (theta1_512 (at_ w (j - 2)) + at_ w (j - 7) + theta0_512 (at_ w (j - 15)) + at_ w (j - 16)).
Definition compress512 (h ws : list Z) : list Z :=
  add_vars 64 h (foldl (mush512 (Nat.iter 64 (grow next512) ws)) (vars_of h) (seq 0 80)).

(** A digest: the first bytes of the words. *)
Definition serial (k n : nat) (h : list Z) : list Z := take n (concat (bytes_be k <$> h)).
Definition SHA1 (msg : list Z) : list Z := serial 4 20 (md_hash 4 compress1 H_160 msg).
Definition SHA384 (msg : list Z) : list Z := serial 8 48 (md_hash 8 compress512 H_384 msg).
Definition SHA512 (msg : list Z) : list Z := serial 8 64 (md_hash 8 compress512 H_512 msg).

(** ** The transformations *)
Lemma F0_choose x y z : F0 x y z = choose x y z.
Proof.
  unfold F0, choose. apply Z.bits_inj'. intros i Hi.
  rewrite !Z.lxor_spec, !Z.land_spec, Z.lxor_spec, Z.lnot_spec by done.
  by destruct (Z.testbit x i), (Z.testbit y i), (Z.testbit z i).
Qed.
Lemma F2_majority x y z : F2 x y z = majority x y z.
Proof.
  unfold F2, majority. apply Z.bits_inj'. intros i Hi.
  rewrite !Z.lxor_spec, Z.lor_spec, !Z.land_spec, Z.lor_spec.
  by destruct (Z.testbit x i), (Z.testbit y i), (Z.testbit z i).
Qed.

Lemma next1_take w j : (16 <= j)%nat -> next1 (take j w) j = next1 w j.
Proof. intros Hj. unfold next1. by rewrite !at_take by lia. Qed.
Lemma next512_take w j : (16 <= j)%nat -> next512 (take j w) j = next512 w j.
Proof. intros Hj. unfold next512. by rewrite !at_take by lia. Qed.

(** One of the four loops of SHA-1. *)
Lemma mush160_round1 K F w n lo v : (lo + n <= 80)%nat ->
  (forall t, (lo <= t < lo + n)%nat -> k1 t = K /\ forall x y z, F x y z = f1 t x y z) ->
  foldl (mush160 K F w) v (seq lo n) = foldl (round1 (take 80 w)) v (seq lo n).
Proof.
  intros Hn HK. apply foldl_ext_in. intros [[[[a b] c] d] e] t [Ht1 Ht2]%elem_of_seq. unfold mush160, round1.
  destruct (HK t ltac:(lia)) as [-> HF]. rewrite HF, at_take by lia. do 5 f_equal. unfold SS, ROTL. lia.
Qed.

(** The bounds and the range of one loop. *)
Ltac loop1 :=
  first [lia | intros ?t [? ?]; split; [unfold k1|intros; unfold f1];
    repeat (case_match; [try (rewrite ?Nat.ltb_lt, ?Nat.ltb_ge in *; lia)|]; try (rewrite ?Nat.ltb_lt, ?Nat.ltb_ge in *; lia));
    (done || apply F0_choose || apply F2_majority)].

Lemma seq_80 : seq 0 80 = seq 0 20 ++ seq 20 20 ++ seq 40 20 ++ seq 60 20.
Proof. reflexivity. Qed.

Lemma transform160 sh : length (w sh) = 80%nat ->
  take 5 (h (MCL_HASH160_transform sh)) = compress1 (take 5 (h sh)) (take 16 (w sh)) /\
  length (w (MCL_HASH160_transform sh)) = 80%nat /\ take 16 (w (MCL_HASH160_transform sh)) = take 16 (w sh).
Proof.
  intros Hw. destruct (fill_grow next1 next1_take (w sh) 64) as [Hl Ht]; [lia|].
  pose proof (fill_low next1 (w sh) 64 ltac:(lia)) as Hlow. change (fill next1) with schedule160 in *.
  unfold MCL_HASH160_transform. set (w' := foldl schedule160 (w sh) (seq 16 64)) in *.
  rewrite !mush160_round1 by loop1.
  rewrite <- !foldl_app, <- seq_80. unfold compress1. rewrite <- Ht. rewrite !at_take by lia.
  change (16 + 64)%nat with 80%nat. destruct (foldl (round1 _) _ _) as [[[[a b] c] d] e]. cbn [h w]. split; [done|]. by rewrite Hl.
Qed.

(** The working variables of the other library are a record. *)
Definition vars_rec (v : vars) : Sha256.vars := let '(a, b, c, d, e, f, g, i) := v in Sha256.Vars a b c d e f g i.
Lemma mush256_round w v j : vars_rec (mush256 w v j) = Sha256.round w (vars_rec v) j.
Proof. by destruct v as [[[[[[[a b] c] d] e] f] g] i]. Qed.
Lemma fold_mush256 w l : forall v, vars_rec (foldl (mush256 w) v l) = foldl (Sha256.round w) (vars_rec v) l.
Proof. induction l as [|j l IH]; intros v; [done|]. cbn [foldl]. by rewrite IH, mush256_round. Qed.
Lemma add_vars_rec hs v : add_vars 32 hs v = Sha256.add_vars hs (vars_rec v).
Proof. by destruct v as [[[[[[[a b] c] d] e] f] g] i]. Qed.

Lemma transform256 sh : length (w sh) = 80%nat ->
  take 8 (h (MCL_HASH256_transform sh)) = Sha256.compress (take 8 (h sh)) (take 16 (w sh)) /\
  length (w (MCL_HASH256_transform sh)) = 80%nat /\ take 16 (w (MCL_HASH256_transform sh)) = take 16 (w sh).
Proof.
  intros Hw. destruct (schedule_fold (w sh) Hw) as (Hl & Hs & Ht). change Sha256.schedule_step with schedule256 in *.
  unfold MCL_HASH256_transform. cbn [h w]. split; [|done]. unfold Sha256.compress. rewrite <- Hs.
  rewrite add_vars_rec, fold_mush256. rewrite take_ge by done. unfold Sha256.add_vars, Sha256.vars_of.
  rewrite !at_take by lia. rewrite (foldl_ext_in (Sha256.round (take 64 _)) (Sha256.round (foldl schedule256 (w sh) (seq 16 48)))); [done|].
  intros v j [_ Hj]%elem_of_seq. unfold Sha256.round. by rewrite at_take by lia.
Qed.

Lemma transform512 sh : length (w sh) = 80%nat ->
  take 8 (h (MCL_HASH512_transform sh)) = compress512 (take 8 (h sh)) (take 16 (w sh)) /\
  length (w (MCL_HASH512_transform sh)) = 80%nat /\ take 16 (w (MCL_HASH512_transform sh)) = take 16 (w sh).
Proof.
  intros Hw. destruct (fill_grow next512 next512_take (w sh) 64) as [Hl Ht]; [lia|].
  pose proof (fill_low next512 (w sh) 64 ltac:(lia)) as Hlow. change (fill next512) with schedule512 in *.
  unfold MCL_HASH512_transform. cbn [h w]. set (w' := foldl schedule512 (w sh) (seq 16 64)) in *.
  split; [|by rewrite Hl]. unfold compress512. rewrite <- Ht. change (16 + 64)%nat with 80%nat. rewrite (take_ge w') by lia.
  unfold vars_of, add_vars. rewrite !at_take by lia. by destruct (foldl (mush512 _) _ _) as [[[[[[[a b] c] d] e] f] g] i].
Qed.

(** ** The laws, at both widths *)

(** A transformation that compresses the first [nh] words of the state and leaves the
    rest of the context. *)
Record compresses (nh : nat) (comp : list Z -> list Z -> list Z) (T : mcl_hash -> mcl_hash) : Prop := {
  t_len0 sh : length0 (T sh) = length0 sh;
  t_len1 sh : length1 (T sh) = length1 sh;
  t_hlen sh : hlen (T sh) = hlen sh;
  t_size hs ws : length (comp hs ws) = nh;
  t_state sh : length (w sh) = 80%nat ->
    take nh (h (T sh)) = comp (take nh (h sh)) (take 16 (w sh)) /\
    length (w (T sh)) = 80%nat /\ take 16 (w (T sh)) = take 16 (w sh)
}.

Lemma compresses160 : compresses 5 compress1 MCL_HASH160_transform.
Proof.
  split; [..|apply transform160]; try (intros sh; unfold MCL_HASH160_transform; by destruct (foldl (mush160 K3 _ _) _ _) as [[[[a b] c] d] e]).
  intros hs ws. unfold compress1. by destruct (foldl (round1 _) _ _) as [[[[a b] c] d] e].
Qed.
Lemma compresses256 : compresses 8 Sha256.compress MCL_HASH256_transform.
Proof. split; [done..|apply transform256]. Qed.
Lemma compresses512 : compresses 8 compress512 MCL_HASH512_transform.
Proof.
  split; [done..| |apply transform512]. intros hs ws. unfold compress512.
  by destruct (foldl (mush512 _) _ _) as [[[[[[[a b] c] d] e] f] g] i].
Qed.

Section width.
Context (k : nat) (Hk : k = 4%nat \/ k = 8%nat).
Context (nh : nat) (comp : list Z -> list Z -> list Z) (T : mcl_hash -> mcl_hash) (HT : compresses nh comp T).
Abbreviation m := (8 * Z.of_nat k).

#[local] Instance stream : Stream mcl_hash := {|
  wb := k; len0 := length0; len1 := length1; hv sh := take nh (h sh); wv := w; absorb := process m T; compress := comp
|}.

Lemma wrap_mod x : wrap m x = x mod 2 ^ m.
Proof. unfold wrap. apply Z.land_ones. lia. Qed.

Lemma process_step sh b :
  process m T sh b =
    let sh' := Hash (counted sh) (if counted sh =? 0 then (length1 sh + 1) mod 2 ^ m else length1 sh) (h sh) (shifted sh b) (hlen sh) in
    if full sh then T sh' else sh'.
Proof.
  unfold process, full, counted, shifted. cbn [wb len0 wv stream]. rewrite !wrap_mod, Z.shiftl_mul_pow2 by lia.
  replace (16 * m) with (128 * Z.of_nat k) by lia. reflexivity.
Qed.

#[local] Instance stream_laws : StreamLaws mcl_hash.
Proof.
  split; [done|..]; intros sh b; cbn [len0 len1 hv wv absorb stream]; rewrite process_step; cbv zeta.
  - destruct (full sh); [by rewrite (t_len0 _ _ _ HT)|done].
  - destruct (full sh); [by rewrite (t_len1 _ _ _ HT)|done].
  - intros Hw. destruct (full sh); [|done]. apply (t_state _ _ _ HT). cbn [w]. unfold shifted. by rewrite length_insert.
  - intros Hw. assert (length (shifted sh b) = 80%nat) as Hl by (unfold shifted; by rewrite length_insert).
    destruct (full sh); [|done]. edestruct (t_state _ _ _ HT) as (_ & H1 & H2); [|split; [exact H1|exact H2]]. done.
Qed.

Lemma process_hlen sh b : hlen (process m T sh b) = hlen sh.
Proof. rewrite process_step. cbv zeta. destruct (full sh); [by rewrite (t_hlen _ _ _ HT)|done]. Qed.
Lemma message_hlen bs : forall sh, hlen (foldl (process m T) sh bs) = hlen sh.
Proof. induction bs as [|b bs IH]; intros sh; [done|]. cbn [foldl]. by rewrite IH, process_hlen. Qed.

Lemma pad_zeros_eq fuel : forall sh, pad_zeros fuel m T sh = pad fuel sh /\ hlen (pad fuel sh) = hlen sh.
Proof.
  induction fuel as [|fuel IH]; intros sh; [done|]. cbn [pad_zeros pad len0 wb absorb stream].
  replace (16 * m) with (128 * Z.of_nat k) by lia. replace (14 * m) with (112 * Z.of_nat k) by lia.
  destruct (_ =? _); [done|]. destruct (IH (process m T sh ZERO)) as [-> E]. split; [done|].
  etrans; [exact E|]. apply process_hlen.
Qed.

(** *** The digest *)
Lemma le_split_lookup n : forall x i, (i < n)%nat -> le_split n x !! i = Some (u8 (x / 2 ^ (8 * Z.of_nat i))).
Proof.
  induction n as [|n IH]; intros x i Hi; [lia|]. cbn [le_split]. destruct i as [|i]; [by rewrite Z.div_1_r|].
  cbn [lookup list_lookup]. rewrite IH by lia. rewrite Z.div_div by lia. do 3 f_equal.
  rewrite <- Z.pow_add_r by lia. f_equal. lia.
Qed.

Lemma bytes_be_lookup n x i : (i < n)%nat -> bytes_be n x !! i = Some (u8 (x / 2 ^ (8 * Z.of_nat (n - 1 - i)))).
Proof.
  intros Hi. unfold bytes_be. rewrite reverse_lookup by (by rewrite length_le_split). rewrite length_le_split.
  rewrite le_split_lookup by lia. do 5 f_equal. lia.
Qed.

Lemma serial_digest n (hs : list Z) : (n <= k * length hs)%nat -> digest_byte m hs <$> seq 0 n = serial k n hs.
Proof.
  intros Hn. unfold serial. apply list_eq. intros i. rewrite list_lookup_fmap.
  destruct (decide (i < n)%nat) as [Hi|Hi].
  2: { rewrite lookup_take_ge by lia. by rewrite (lookup_ge_None_2 (seq _ _)) by (rewrite length_seq; lia). }
  rewrite lookup_take_lt, lookup_seq_lt by done. cbn [fmap option_fmap option_map Nat.add].
  symmetry. assert (i < k * length hs)%nat as Hb by lia. clear Hn Hi. unfold digest_byte.
  replace (Z.to_nat (m / 8)) with k by (rewrite Z.mul_comm, Z.div_mul by lia; lia).
  revert i Hb. induction hs as [|x hs IH]; intros i Hb; [cbn in Hb; lia|]. cbn [fmap list_fmap concat].
  destruct (decide (i < k)%nat) as [Hi|Hi].
  - rewrite lookup_app_l by (by rewrite length_bytes_be). rewrite bytes_be_lookup by done.
    rewrite Nat.div_small, Z.mod_small, Z.shiftr_div_pow2 by lia.
    by replace (8 * (Z.of_nat k - 1 - Z.of_nat i)) with (8 * Z.of_nat (k - 1 - i)) by lia.
  - rewrite lookup_app_r by (rewrite length_bytes_be; lia). rewrite length_bytes_be, IH by (cbn [length] in Hb; lia).
    assert (i / k = S ((i - k) / k))%nat as ->
      by (replace i with (i - k + 1 * k)%nat at 1 by lia; rewrite Nat.div_add by lia; lia).
    assert (Z.of_nat i mod Z.of_nat k = Z.of_nat (i - k) mod Z.of_nat k) as ->
      by (replace (Z.of_nat i) with (Z.of_nat (i - k) + 1 * Z.of_nat k) by lia; by rewrite Z_mod_plus_full).
    reflexivity.
Qed.

(** *** A message *)

Lemma init_fresh n H nb sh : length (w sh) = 80%nat -> length H = nh -> (16 <= n <= 80)%nat ->
  let c := init n H nb sh in
  take nh (h c) = H /\ length (w c) = 80%nat /\ take 16 (w c) = replicate 16 0.
Proof.
  intros Hw HH Hn. cbn [init h w]. split_and!.
  - by rewrite take_app_length'.
  - rewrite length_app, length_replicate, length_drop. lia.
  - rewrite take_app_le by (rewrite length_replicate; lia). by rewrite take_replicate, Nat.min_l by lia.
Qed.

Lemma md_hash_size H msg : length H = nh -> length (md_hash k comp H msg) = nh.
Proof.
  unfold md_hash. generalize (padded k msg). intros p. generalize (length p / (16 * k))%nat. intros n. revert H p.
  induction n as [|n IH]; intros H p HH; [done|]. cbn [hash_blocks]. apply IH, (t_size _ _ _ HT).
Qed.

(** The digest of a message, and what is left of the context. *)
Lemma digest_message n H nb sh msg :
  length (w sh) = 80%nat -> length H = nh -> (16 <= n <= 80)%nat -> (nb <= k * nh)%nat -> bytes_ok msg ->
  let '(d, c) := finish m T (foldl (process m T) (init n H nb sh) msg) in
  d = serial k nb (md_hash k comp H msg) /\ length (w c) = 80%nat.
Proof.
  intros Hw HH Hn Hnb Hm. destruct (init_fresh n H nb sh Hw HH Hn) as (Eh & Hl & Ez).
  set (c := foldl (process m T) (init n H nb sh) msg).
  assert (length (w c) = 80%nat) as Hc by exact (message_length msg (init n H nb sh) Hl).
  assert (hlen c = nb) as Hh by (unfold c; rewrite message_hlen; done).
  unfold finish. cbv zeta. destruct (pad_zeros_eq (Z.to_nat (2 * m)) (process m T c PAD)) as [-> Eh2].
  pose proof (pad_length (Z.to_nat (2 * m)) _ (absorb_length c PAD Hc)) as Hp.
  change (absorb c PAD) with (process m T c PAD) in Hp. cbn [wv stream] in Hp.
  pose proof (last_hash H (Z.to_nat (2 * m)) msg c) as EL. unfold last_state in EL.
  change (absorb c 128) with (process m T c PAD) in EL. cbn [len0 len1 hv wv wb stream StreamHash.compress] in EL.
  set (c2 := pad (Z.to_nat (2 * m)) (process m T c PAD)) in *.
  set (c3 := Hash (length0 c2) (length1 c2) (h c2) (<[15%nat:=length0 c]> (<[14%nat:=length1 c]> (w c2))) (hlen c2)).
  destruct (t_state _ _ _ HT c3) as (Et & Hw3 & _); [cbn [c3 w]; by rewrite !length_insert|].
  split; [|done]. cbn [c3 w h] in Et. rewrite (take_set_length _ _ _ Hp) in Et. rewrite EL in Et; cycle 1.
  { exact (repr_message H msg [] (init n H nb sh) (repr_fresh H (init n H nb sh) eq_refl eq_refl Eh Hl Ez) Hm). }
  { lia. }
  rewrite (t_hlen _ _ _ HT). cbn [c3 hlen]. rewrite Eh2, process_hlen, Hh, <- Et.
  rewrite <- serial_digest by (rewrite Et, md_hash_size by done; done).
  apply list_fmap_ext. intros j i [-> Hi]%lookup_seq. cbn [Nat.add]. unfold digest_byte.
  rewrite at_take; [done|]. replace (Z.to_nat (m / 8)) with k by (rewrite Z.mul_comm, Z.div_mul by lia; lia).
  apply Nat.Div0.div_lt_upper_bound. lia.
Qed.
End width.

(** The digest of the boot ROM is written byte by byte. *)
Lemma digest_of_serial hs : length hs = 8%nat -> serial 4 32 hs = Sha256.digest_of hs.
Proof. intros Hl. by rewrite <- (serial_digest 4 (or_introl eq_refl)) by lia. Qed.

(** ** The digests *)

(** The four hashes. *)
Section messages.
Context (sh : mcl_hash) (msg : list Z) (Hw : length (w sh) = 80%nat) (Hm : bytes_ok msg).

Lemma hash160_message : fst (MCL_HASH160_hash (foldl MCL_HASH160_process (MCL_HASH160_init sh) msg)) = SHA1 msg.
Proof.
  pose proof (digest_message 4 (or_introl eq_refl) 5 _ _ compresses160 80 H_160 20 sh msg Hw) as D.
  unfold MCL_HASH160_hash, MCL_HASH160_process, MCL_HASH160_init.
  change (8 * Z.of_nat 4) with 32 in D. destruct (finish _ _ _) as [d c]. apply D; (done || lia).
Qed.
Lemma hash256_message : fst (MCL_HASH256_hash (foldl MCL_HASH256_process (MCL_HASH256_init sh) msg)) = Sha256.sha256 msg.
Proof.
  pose proof (digest_message 4 (or_introl eq_refl) 8 _ _ compresses256 64 H_256 32 sh msg Hw) as D.
  unfold MCL_HASH256_hash, MCL_HASH256_process, MCL_HASH256_init.
  change (8 * Z.of_nat 4) with 32 in D. destruct (finish _ _ _) as [d c].
  rewrite sha256_md. change Sha256.H_init with H_256.
  rewrite <- (digest_of_serial _ (md_hash_size 4 8 _ _ compresses256 H_256 msg eq_refl)). apply D; (done || lia).
Qed.
Lemma hash384_message : fst (MCL_HASH384_hash (foldl MCL_HASH384_process (MCL_HASH384_init sh) msg)) = SHA384 msg.
Proof.
  pose proof (digest_message 8 (or_intror eq_refl) 8 _ _ compresses512 80 H_384 48 sh msg Hw) as D.
  unfold MCL_HASH384_hash, MCL_HASH512_hash, MCL_HASH384_process, MCL_HASH512_process, MCL_HASH384_init.
  change (8 * Z.of_nat 8) with 64 in D. destruct (finish _ _ _) as [d c]. apply D; (done || lia).
Qed.
Lemma hash512_message : fst (MCL_HASH512_hash (foldl MCL_HASH512_process (MCL_HASH512_init sh) msg)) = SHA512 msg.
Proof.
  pose proof (digest_message 8 (or_intror eq_refl) 8 _ _ compresses512 80 H_512 64 sh msg Hw) as D.
  unfold MCL_HASH512_hash, MCL_HASH512_process, MCL_HASH512_init.
  change (8 * Z.of_nat 8) with 64 in D. destruct (finish _ _ _) as [d c]. apply D; (done || lia).
Qed.
End messages.

(** [C19] Each of the four hashes, started on a context that holds anything, computes
    the digest of FIPS 180-4; the SHA-256 of the library is that of the boot ROM. *)
Theorem mcl_hashes_correct sh msg :
  length (w sh) = 80%nat -> bytes_ok msg ->
  sha1 sh msg = SHA1 msg /\ sha256 sh msg = Sha256.sha256 msg /\
  sha384 sh msg = SHA384 msg /\ sha512 sh msg = SHA512 msg.
Proof.
  intros Hw Hm. unfold sha1, sha256, sha384, sha512, digest. split_and!.
  - by apply hash160_message.
  - by apply hash256_message.
  - by apply hash384_message.
  - by apply hash512_message.
Qed.

(** What a finished hash leaves: a context initialised again. *)
Lemma left160 sh msg : length (w sh) = 80%nat -> bytes_ok msg ->
  exists c, snd (MCL_HASH160_hash (foldl MCL_HASH160_process (MCL_HASH160_init sh) msg)) = MCL_HASH160_init c /\ length (w c) = 80%nat.
Proof.
  intros Hw Hm. pose proof (digest_message 4 (or_introl eq_refl) 5 _ _ compresses160 80 H_160 20 sh msg Hw eq_refl) as D.
  unfold MCL_HASH160_hash, MCL_HASH160_process, MCL_HASH160_init. change (8 * Z.of_nat 4) with 32 in D.
  destruct (finish _ _ _) as [d c]. exists c. split; [reflexivity|]. refine (proj2 (D _ _ _)); (done || lia).
Qed.
Lemma left256 sh msg : length (w sh) = 80%nat -> bytes_ok msg ->
  exists c, snd (MCL_HASH256_hash (foldl MCL_HASH256_process (MCL_HASH256_init sh) msg)) = MCL_HASH256_init c /\ length (w c) = 80%nat.
Proof.
  intros Hw Hm. pose proof (digest_message 4 (or_introl eq_refl) 8 _ _ compresses256 64 H_256 32 sh msg Hw eq_refl) as D.
  unfold MCL_HASH256_hash, MCL_HASH256_process, MCL_HASH256_init. change (8 * Z.of_nat 4) with 32 in D.
  destruct (finish _ _ _) as [d c]. exists c. split; [reflexivity|]. refine (proj2 (D _ _ _)); (done || lia).
Qed.
Lemma left512 H nb sh msg : length H = 8%nat -> (nb <= 64)%nat -> length (w sh) = 80%nat -> bytes_ok msg ->
  exists c, snd (MCL_HASH512_hash (foldl MCL_HASH512_process (init 80 H nb sh) msg)) = MCL_HASH512_init c /\ length (w c) = 80%nat.
Proof.
  intros HH Hnb Hw Hm. pose proof (digest_message 8 (or_intror eq_refl) 8 _ _ compresses512 80 H nb sh msg Hw HH) as D.
  unfold MCL_HASH512_hash, MCL_HASH512_process. change (8 * Z.of_nat 8) with 64 in D.
  destruct (finish _ _ _) as [d c]. exists c. split; [reflexivity|]. refine (proj2 (D _ _ _)); (done || lia).
Qed.

(** [C40] Finishing a SHA-384 digest leaves the context of SHA-512: a second message
    taken without a new initialisation gets the 64 bytes of its SHA-512 digest, while
    SHA-1, SHA-256 and SHA-512 contexts are ready for the next message. *)
Theorem hash384_leaves_sha512 sh msg msg' :
  length (w sh) = 80%nat -> bytes_ok msg -> bytes_ok msg' ->
  let again process (hash : mcl_hash -> list Z * mcl_hash) init :=
    fst (hash (foldl process (snd (hash (foldl process (init sh) msg))) msg')) in
  again MCL_HASH384_process MCL_HASH384_hash MCL_HASH384_init = SHA512 msg' /\
  again MCL_HASH512_process MCL_HASH512_hash MCL_HASH512_init = SHA512 msg' /\
  again MCL_HASH256_process MCL_HASH256_hash MCL_HASH256_init = Sha256.sha256 msg' /\
  again MCL_HASH160_process MCL_HASH160_hash MCL_HASH160_init = SHA1 msg'.
Proof.
  intros Hw Hm Hm'. cbv beta zeta. split_and!.
  - unfold MCL_HASH384_hash, MCL_HASH384_process, MCL_HASH384_init.
    destruct (left512 H_384 48 sh msg eq_refl ltac:(lia) Hw Hm) as (c & -> & Hc). exact (hash512_message c msg' Hc Hm').
  - destruct (left512 H_512 64 sh msg eq_refl ltac:(lia) Hw Hm) as (c & E & Hc).
    unfold MCL_HASH512_init at 1. rewrite E. exact (hash512_message c msg' Hc Hm').
  - destruct (left256 sh msg Hw Hm) as (c & -> & Hc). exact (hash256_message c msg' Hc Hm').
  - destruct (left160 sh msg Hw Hm) as (c & -> & Hc). exact (hash160_message c msg' Hc Hm').
Qed.

Lemma mcl_hashes_correct_witness :
  sha1 blank [97; 98; 99] = SHA1 [97; 98; 99] /\ sha256 blank [97; 98; 99] = Sha256.sha256 [97; 98; 99] /\
  sha384 blank [97; 98; 99] = SHA384 [97; 98; 99] /\ sha512 blank [97; 98; 99] = SHA512 [97; 98; 99].
Proof. apply (mcl_hashes_correct blank [97; 98; 99]); [done|]. rewrite !Forall_cons. repeat split; done || lia. Defined.

Lemma hash384_leaves_sha512_witness :
  fst (MCL_HASH384_hash (foldl MCL_HASH384_process (snd (MCL_HASH384_hash (foldl MCL_HASH384_process (MCL_HASH384_init blank) [1]))) [2]))
    = SHA512 [2].
Proof.
  refine (proj1 (hash384_leaves_sha512 blank [1] [2] _ _ _)); [done|..]; rewrite Forall_singleton; done || lia.
Defined.
