(* ===== verification/Machine.v ===== *)
(** * Machine: the data the boot code works on

    The platform (linker symbols, build options, tables compiled in), the
    hardware behind memory-mapped registers, the static variables of the C
    files as records, and the memory that images are loaded into.

    Hardware is a parameter: a device state with a register read and a register
    write.  The statics of the firmware live in objects of their own; RAM at
    absolute addresses is a separate object, [ram_lo .. ram_hi), the part of
    work RAM where the linker puts none of them.  A store or a load outside of
    it may hit a static or nothing at all, so it ends the run ([Fault]): what
    the theorems say of a run that returns is said of runs whose image loads
    stayed in that RAM, the others are not described. *)

From S2P Require Import Prelude Sha256.

(** ** Parameters *)

Inductive stage := Stage1 | Stage2.

#[global] Instance stage_eq_dec : EqDecision stage.
Proof. solve_decision. Defined.

(** [crypto_public_key] of common/shared_inc/crypto.h. *)
Record crypto_public_key := {
  pk_type : Z;
  pk_key_name : list Z;     (* char key_name[96] *)
  pk_key : list Z           (* unsigned char key[256] *)
}.

(** What the build and the linker fix.  [poll_fuel] bounds every loop that
    polls a device register. *)
Class Platform := {
  boot_stage : stage;
  workram_start : Z;
  bootrom_data_area : Z;
  bootrom_text_area : Z;
  tftf_addr : Z;            (* address of the static [tftf], its header first *)
  ffff_header1_addr : Z;    (* addresses of [ffff.header1] and [ffff.header2] *)
  ffff_header2_addr : Z;
  ram_lo : Z;               (* the RAM without objects of the program *)
  ram_hi : Z;
  public_keys : list crypto_public_key;
  s2l_buf : list Z;         (* second stage config data, S2LCFG_MAX_SIZE bytes *)
  manifest_mnfb : list Z;
  CPORT_MAX : Z;
  poll_fuel : nat
}.

(** The end of the memory that images may be loaded to. *)
Definition image_area_end `{Platform} : Z :=
  match boot_stage with Stage1 => bootrom_data_area | Stage2 => bootrom_text_area end.

(** The object at [a .. a+n-1] lies outside of that RAM. *)
Definition apart_from_ram `{Platform} (a n : Z) : Prop := a + n <= ram_lo \/ ram_hi <= a.

(** What the C types of those objects and the linker script say about them. *)
Class PlatformOk `{Platform} : Prop := {
  public_keys_ok : Forall (λ k, length (pk_key_name k) = 96%nat /\ length (pk_key k) = 256%nat /\
                                bytes_ok (pk_key k)) public_keys;
  public_keys_few : (length public_keys <= 32)%nat;
  s2l_buf_ok : bytes_ok s2l_buf;
  tftf_addr_ok : 0 <= tftf_addr /\ tftf_addr + 0x2000 <= 2 ^ 32;
  ffff_header1_addr_ok : 0 <= ffff_header1_addr /\ ffff_header1_addr + 0x2000 <= 2 ^ 32;
  ffff_header2_addr_ok : 0 <= ffff_header2_addr /\ ffff_header2_addr + 0x2000 <= 2 ^ 32;
  load_area_ok : 0 <= ram_lo <= workram_start /\ workram_start < image_area_end <= ram_hi /\ ram_hi <= 2 ^ 32;
  statics_apart : apart_from_ram tftf_addr 4096 /\ apart_from_ram ffff_header1_addr 4096 /\
                  apart_from_ram ffff_header2_addr 4096
}.

(** Devices: 32-bit register accesses, byte stores to the CPort transmit
    buffers, and the BufRAM bytes that the UniPro receiver fills. *)
Class Hardware := {
  dev : Type;
  reg_read : Z -> dev -> Z * dev;
  reg_write : Z -> Z -> dev -> dev;
  reg_write8 : Z -> Z -> dev -> dev;
  buf_read8 : Z -> dev -> Z
}.

(** ** TFTF *)

Definition TFTF_HEADER_SIZE_MIN : Z := 512.
Definition MAX_TFTF_HEADER_SIZE_SUPPORTED : Z := 4096.
Definition TFTF_SIGNATURE_STRUCT_SIZE : Z := 360.

Inductive crypto_processing_state :=
| CRYPTO_STATE_INIT
| CRYPTO_STATE_HASHING
| CRYPTO_STATE_HASHED
| CRYPTO_STATE_VERIFIED.

#[global] Instance crypto_state_eq_dec : EqDecision crypto_processing_state.
Proof. solve_decision. Defined.

Record tftf_processing_state := {
  t_header : list Z;                        (* the header buffer *)
  t_header_end : Z;
  t_crypto_state : crypto_processing_state;
  t_hash : list Z;
  t_signature : list Z;                     (* the tftf_signature, as bytes *)
  t_contain_signature : bool
}.

(** ** FFFF *)

Definition FFFF_HEADER_SIZE_MIN : Z := 512.
Definition MAX_FFFF_HEADER_SIZE_SUPPORTED : Z := 4096.

(** [ffff.cur_header] points to one of the two headers; [ffff.cur_element] is
    a byte offset into it, or NULL. *)
Inductive ffff_which := Header1 | Header2.

Record ffff_processing_state := {
  f_header1 : list Z;
  f_header2 : list Z;
  f_cur_header : ffff_which;
  f_cur_element : option Z
}.

(** ** Crypto *)

(** The functions the boot ROM shares with later stages, as values of the
    function pointers that can hold them. *)
Inductive shared_fn :=
| FN_shs256_init | FN_shs256_process | FN_shs256_hash | FN_rsa_verify
| FN_chip_enter_standby.

Record crypto_state := {
  c_shctx : Sha256.ctx;
  c_sha256_init_func : option shared_fn;
  c_sha256_process_func : option shared_fn;
  c_sha256_hash_func : option shared_fn;
  c_rsa2048_verify_func : option shared_fn
}.

(** ** Communication area *)

Record secret_keys_comm_area := {
  k_epsk : list Z; k_essk : list Z; k_ergs : list Z; k_errk_n : list Z
}.

Record communication_area := {
  ca_keys : secret_keys_comm_area;
  ca_shared_functions : list (option shared_fn);
  ca_endpoint_unique_id : list Z;
  ca_stage_2_firmware_identity : list Z;
  ca_stage_2_validation_key_name : list Z;
  ca_build_timestamp : list Z;
  ca_firmware_package_name : list Z
}.

(** ** Pointers the loaders store through *)

Inductive block := BTftfHeader | BTftfSignature | BTemp | BFfffHeader1 | BFfffHeader2
                 | BRam | BNull.

#[global] Instance block_eq_dec : EqDecision block.
Proof. solve_decision. Defined.

(** A pointer: an object and a byte offset; in [BRam] the offset is the
    address. *)
Record ptr := Ptr { p_blk : block; p_ofs : Z }.
Definition null : ptr := Ptr BNull 0.
Definition ptr_add (p : ptr) (n : Z) : ptr := Ptr (p_blk p) (p_ofs p + n).

(** ** Transports *)

(** The statics of the storage driver: es3_spi.c counts the users of its clock,
    es2_spi.c has a flag. *)
Record spi_state := { current_addr : Z; spi_clk_usage_count : Z; initialized : Z }.

(** A Greybus handler table, as the static array it names. *)
Inductive gb_table := control_cport_handlers | gbboot_cport_handlers.

Record gb_state := {
  g_handler_table : list (option gb_table);
  g_manifest_fetched : bool;
  g_responded_op : Z;
  g_firmware_size_response : Z;
  g_fw_buff : ptr;              (* fw_get_firmware_buff.buffer *)
  g_fw_buff_size : Z;           (* fw_get_firmware_buff.size *)
  g_offset : Z;                 (* static int offset *)
  g_firmware_size : Z
}.

(** The statics of the download server (apps/gbboot_server/src/start.c). *)
Record server_state := {
  srv_image_download_finished : bool;
  srv_stage_to_load : Z
}.

(** ** The machine *)

Section machine.
Context `{Platform, Hardware}.

Record machine := Machine {
  m_dev : dev;
  m_ram : gmap Z Z;
  m_temp : list Z;
  m_errno : Z;                  (* fw_errno *)
  m_offline : bool;             (* boot_status_offline *)
  m_ara_vid : Z;
  m_ara_pid : Z;
  m_tftf : tftf_processing_state;
  m_ffff : ffff_processing_state;
  m_crypto : crypto_state;
  m_comm : communication_area;
  m_spi : spi_state;
  m_gb : gb_state;
  m_server : server_state
}.

(** Field updates. *)
Definition set_dev (v : dev) (m : machine) : machine :=
  Machine v (m_ram m) (m_temp m) (m_errno m) (m_offline m) (m_ara_vid m) (m_ara_pid m) (m_tftf m) (m_ffff m) (m_crypto m) (m_comm m) (m_spi m) (m_gb m) (m_server m).
Definition set_ram (v : gmap Z Z) (m : machine) : machine :=
  Machine (m_dev m) v (m_temp m) (m_errno m) (m_offline m) (m_ara_vid m) (m_ara_pid m) (m_tftf m) (m_ffff m) (m_crypto m) (m_comm m) (m_spi m) (m_gb m) (m_server m).
Definition set_temp (v : list Z) (m : machine) : machine :=
  Machine (m_dev m) (m_ram m) v (m_errno m) (m_offline m) (m_ara_vid m) (m_ara_pid m) (m_tftf m) (m_ffff m) (m_crypto m) (m_comm m) (m_spi m) (m_gb m) (m_server m).
Definition set_errno (v : Z) (m : machine) : machine :=
  Machine (m_dev m) (m_ram m) (m_temp m) v (m_offline m) (m_ara_vid m) (m_ara_pid m) (m_tftf m) (m_ffff m) (m_crypto m) (m_comm m) (m_spi m) (m_gb m) (m_server m).
Definition set_offline (v : bool) (m : machine) : machine :=
  Machine (m_dev m) (m_ram m) (m_temp m) (m_errno m) v (m_ara_vid m) (m_ara_pid m) (m_tftf m) (m_ffff m) (m_crypto m) (m_comm m) (m_spi m) (m_gb m) (m_server m).
Definition set_ara_vid (v : Z) (m : machine) : machine :=
  Machine (m_dev m) (m_ram m) (m_temp m) (m_errno m) (m_offline m) v (m_ara_pid m) (m_tftf m) (m_ffff m) (m_crypto m) (m_comm m) (m_spi m) (m_gb m) (m_server m).
Definition set_ara_pid (v : Z) (m : machine) : machine :=
  Machine (m_dev m) (m_ram m) (m_temp m) (m_errno m) (m_offline m) (m_ara_vid m) v (m_tftf m) (m_ffff m) (m_crypto m) (m_comm m) (m_spi m) (m_gb m) (m_server m).
Definition set_tftf (v : tftf_processing_state) (m : machine) : machine :=
  Machine (m_dev m) (m_ram m) (m_temp m) (m_errno m) (m_offline m) (m_ara_vid m) (m_ara_pid m) v (m_ffff m) (m_crypto m) (m_comm m) (m_spi m) (m_gb m) (m_server m).
Definition set_ffff (v : ffff_processing_state) (m : machine) : machine :=
  Machine (m_dev m) (m_ram m) (m_temp m) (m_errno m) (m_offline m) (m_ara_vid m) (m_ara_pid m) (m_tftf m) v (m_crypto m) (m_comm m) (m_spi m) (m_gb m) (m_server m).
Definition set_crypto (v : crypto_state) (m : machine) : machine :=
  Machine (m_dev m) (m_ram m) (m_temp m) (m_errno m) (m_offline m) (m_ara_vid m) (m_ara_pid m) (m_tftf m) (m_ffff m) v (m_comm m) (m_spi m) (m_gb m) (m_server m).
Definition set_comm (v : communication_area) (m : machine) : machine :=
  Machine (m_dev m) (m_ram m) (m_temp m) (m_errno m) (m_offline m) (m_ara_vid m) (m_ara_pid m) (m_tftf m) (m_ffff m) (m_crypto m) v (m_spi m) (m_gb m) (m_server m).
Definition set_spi (v : spi_state) (m : machine) : machine :=
  Machine (m_dev m) (m_ram m) (m_temp m) (m_errno m) (m_offline m) (m_ara_vid m) (m_ara_pid m) (m_tftf m) (m_ffff m) (m_crypto m) (m_comm m) v (m_gb m) (m_server m).
Definition set_gb (v : gb_state) (m : machine) : machine :=
  Machine (m_dev m) (m_ram m) (m_temp m) (m_errno m) (m_offline m) (m_ara_vid m) (m_ara_pid m) (m_tftf m) (m_ffff m) (m_crypto m) (m_comm m) (m_spi m) v (m_server m).
Definition set_server (v : server_state) (m : machine) : machine :=
  Machine (m_dev m) (m_ram m) (m_temp m) (m_errno m) (m_offline m) (m_ara_vid m) (m_ara_pid m) (m_tftf m) (m_ffff m) (m_crypto m) (m_comm m) (m_spi m) (m_gb m) v.

(** The firmware monad. *)
Abbreviation B := (boot machine).

(** ** Register access *)

Definition getreg32 (a : Z) : B Z := λ m,
  let '(v, d) := reg_read a (m_dev m) in (Done v, set_dev d m).

Definition putreg32 (v a : Z) : B unit := modify (λ m, set_dev (reg_write a v (m_dev m)) m).

Definition putreg8 (v a : Z) : B unit := modify (λ m, set_dev (reg_write8 a v (m_dev m)) m).

(** ** Memory *)

Fixpoint ram_write (a : Z) (bs : list Z) (r : gmap Z Z) : gmap Z Z :=
  match bs with
  | [] => r
  | b :: bs => ram_write (a + 1) bs (<[a := b]> r)
  end.

Definition ram_get (r : gmap Z Z) (a : Z) : Z := default 0 (r !! a).

Definition ram_read (r : gmap Z Z) (a n : Z) : list Z := map (ram_get r) (seqZ a n).

(** The bytes of an object other than RAM. *)
Definition blk_get (b : block) (m : machine) : list Z :=
  match b with
  | BTftfHeader => t_header (m_tftf m)
  | BTftfSignature => t_signature (m_tftf m)
  | BTemp => m_temp m
  | BFfffHeader1 => f_header1 (m_ffff m)
  | BFfffHeader2 => f_header2 (m_ffff m)
  | BRam | BNull => []
  end.

Definition set_t_header (h : list Z) (t : tftf_processing_state) :=
  {| t_header := h; t_header_end := t_header_end t; t_crypto_state := t_crypto_state t;
     t_hash := t_hash t; t_signature := t_signature t;
     t_contain_signature := t_contain_signature t |}.

Definition set_t_signature (s : list Z) (t : tftf_processing_state) :=
  {| t_header := t_header t; t_header_end := t_header_end t; t_crypto_state := t_crypto_state t;
     t_hash := t_hash t; t_signature := s;
     t_contain_signature := t_contain_signature t |}.

Definition set_f_header1 (h : list Z) (f : ffff_processing_state) :=
  {| f_header1 := h; f_header2 := f_header2 f; f_cur_header := f_cur_header f;
     f_cur_element := f_cur_element f |}.

Definition set_f_header2 (h : list Z) (f : ffff_processing_state) :=
  {| f_header1 := f_header1 f; f_header2 := h; f_cur_header := f_cur_header f;
     f_cur_element := f_cur_element f |}.

Definition blk_set (b : block) (l : list Z) (m : machine) : machine :=
  match b with
  | BTftfHeader => set_tftf (set_t_header l (m_tftf m)) m
  | BTftfSignature => set_tftf (set_t_signature l (m_tftf m)) m
  | BTemp => set_temp l m
  | BFfffHeader1 => set_ffff (set_f_header1 l (m_ffff m)) m
  | BFfffHeader2 => set_ffff (set_f_header2 l (m_ffff m)) m
  | BRam | BNull => m
  end.

(** The accesses [p .. p+n-1] stay inside the object. *)
Definition in_bounds (p : ptr) (n : Z) (m : machine) : bool :=
  (0 <=? p_ofs p) &&
  match p_blk p with
  | BRam => (ram_lo <=? p_ofs p) && (p_ofs p + n <=? ram_hi) && (p_ofs p + n <=? 2 ^ 32)
  | BNull => n =? 0
  | b => p_ofs p + n <=? Z.of_nat (length (blk_get b m))
  end.

Definition mem_write (p : ptr) (bs : list Z) (m : machine) : machine :=
  match p_blk p with
  | BRam => set_ram (ram_write (p_ofs p) bs (m_ram m)) m
  | b => blk_set b (splice (blk_get b m) (p_ofs p) bs) m
  end.

Definition mem_read (p : ptr) (n : Z) (m : machine) : list Z :=
  match p_blk p with
  | BRam => ram_read (m_ram m) (p_ofs p) n
  | b => sub (blk_get b m) (p_ofs p) n
  end.

Definition write_ptr (p : ptr) (bs : list Z) : B unit := λ m,
  if in_bounds p (Z.of_nat (length bs)) m then (Done tt, mem_write p bs m) else (Fault, m).

Definition read_ptr (p : ptr) (n : Z) : B (list Z) := λ m,
  if in_bounds p n m then (Done (mem_read p n m), m) else (Fault, m).

(** ** The storage interface: [data_load_ops] of common/include/data_loading.h *)

Record data_load_ops := {
  ops_init : B Z;
  ops_read : option (ptr -> Z -> Z -> B Z);
  ops_load : ptr -> Z -> bool -> B Z;
  ops_finish : bool -> bool -> B Z
}.

End machine.
Abbreviation B := (boot machine).

(** ** Memory lemmas *)

Lemma lookup_ram_write bs : forall a r x,
  ram_write a bs r !! x =
    if decide (a <= x < a + Z.of_nat (length bs)) then bs !! Z.to_nat (x - a) else r !! x.
Proof.
  induction bs as [|b bs IH]; intros a r x; cbn [ram_write length].
  - rewrite decide_False by lia. done.
  - rewrite IH. destruct (decide (a = x)) as [->|Hne].
    + rewrite decide_False by lia. rewrite decide_True by lia.
      by rewrite lookup_insert_eq, Z.sub_diag.
    + rewrite lookup_insert_ne by done.
      destruct (decide (a + 1 <= x < a + 1 + Z.of_nat (length bs))).
      * rewrite decide_True by lia.
        by replace (Z.to_nat (x - a)) with (S (Z.to_nat (x - (a + 1)))) by lia.
      * rewrite decide_False by lia. done.
Qed.

Lemma ram_get_write_in a bs r i :
  (i < length bs)%nat -> ram_get (ram_write a bs r) (a + Z.of_nat i) = bs !!! i.
Proof.
  intros Hi. unfold ram_get. rewrite lookup_ram_write, decide_True by lia.
  replace (Z.to_nat (a + Z.of_nat i - a)) with i by lia.
  by rewrite (list_lookup_lookup_total_lt bs i Hi).
Qed.

Lemma ram_get_write_out a bs r x :
  ~ (a <= x < a + Z.of_nat (length bs)) -> ram_get (ram_write a bs r) x = ram_get r x.
Proof. intros. unfold ram_get. by rewrite lookup_ram_write, decide_False. Qed.

Lemma length_ram_read r a n : 0 <= n -> length (ram_read r a n) = Z.to_nat n.
Proof. intros. unfold ram_read. rewrite length_map, length_seqZ. lia. Qed.

Lemma lookup_ram_read r a n i :
  0 <= n -> ram_read r a n !! i = if decide (i < Z.to_nat n)%nat then Some (ram_get r (a + Z.of_nat i)) else None.
Proof.
  intros Hn. unfold ram_read. rewrite list_lookup_fmap. case_decide.
  - by rewrite lookup_seqZ_lt by lia.
  - by rewrite lookup_seqZ_ge by lia.
Qed.

Lemma ram_read_ext r r' a n :
  0 <= n -> (forall x, a <= x < a + n -> ram_get r x = ram_get r' x) -> ram_read r a n = ram_read r' a n.
Proof.
  intros Hn Hext. apply list_eq. intros i. rewrite !lookup_ram_read by done.
  case_decide; [|done]. f_equal. apply Hext. lia.
Qed.

Lemma ram_read_write a bs r : ram_read (ram_write a bs r) a (Z.of_nat (length bs)) = bs.
Proof.
  apply list_eq. intros i. rewrite lookup_ram_read, Nat2Z.id by lia. case_decide as Hi.
  - rewrite ram_get_write_in by done. symmetry. by apply list_lookup_lookup_total_lt.
  - symmetry. apply lookup_ge_None_2. lia.
Qed.
