(* ===== verification/Chip.v ===== *)
(** * Chip: register-level operations of the Toshiba bridge

    chips/tsb/src/tsb_scm.c (clocks, resets, boot selector, Ara VID/PID),
    tsb_isaa.c (serial number, IMS, key revocation, lock-down), tsb_gpio.c,
    tsb_chipapi.c (load-location check), chips/es3tsb/src/es3_unipro.c (DME
    attribute access) and apps/secondstage/src/cfgdata.c.

    Every register loop runs on [poll_fuel]; a device that answers within that
    many polls makes the loop return (see [attr_access_done]). *)

From S2P Require Import Prelude Utils Sha256 Machine.

(** ** Memory map (chips/tsb/include/chipdef.h) *)
Definition SYSCTL_BASE : Z := 0x40000000.
Definition GPIO_BASE : Z := 0x40003000.
Definition AIO_UNIPRO_BASE : Z := 0x40020000.
Definition ISAA_BASE : Z := 0x40084000.

Section chip.
Context `{Platform, Hardware}.

(** [do body while it yields None], bounded. *)
Fixpoint poll {A} (n : nat) (body : B (option A)) : B A :=
  match n with
  | O => spin
  | S n => r ← body;
           match r with
           | Some a => mret a
           | None => poll n body
           end
  end.

(** ** Second stage configuration data (cfgdata.c, 2ndstage_cfgdata.h)

    The two statics only cache the comparison, and [s2l_buf] never changes, so
    every call returns what the first one computes. *)
Definition SECONDSTAGE_CFG_SENTINEL_SIZE : Z := 16.
Definition secondstage_cfg_sentinel : list Z :=
  [0x32;0x6e;0x64;0x53;0x74;0x61;0x67;0x65;0x46;0x57;0x43;0x6f;0x6e;0x66;0x69;0x67].
Definition FAKE_IMS_SIZE : Z := 35.

Record secondstage_cfgdata := {
  cfg_sentinel : list Z;
  disable_jtag : Z;
  use_fake_ara_vidpid : Z;
  fake_ara_vid : Z;
  fake_ara_pid : Z;
  use_fake_ims : Z;
  fake_ims : list Z;
  number_of_public_keys : Z;
  cfg_public_keys_bytes : list Z      (* the flexible array, as bytes *)
}.

Definition cfgdata_of (b : list Z) : secondstage_cfgdata :=
  {| cfg_sentinel := sub b 0 16; disable_jtag := get32 b 16; use_fake_ara_vidpid := get32 b 20;
     fake_ara_vid := get32 b 24; fake_ara_pid := get32 b 28; use_fake_ims := get8 b 32;
     fake_ims := sub b 33 FAKE_IMS_SIZE; number_of_public_keys := get32 b 68;
     cfg_public_keys_bytes := drop 72 b |}.

(** [Some cfg] when the C function returns 0. *)
Definition get_2ndstage_cfgdata : option secondstage_cfgdata :=
  let cfg := cfgdata_of s2l_buf in
  if decide (memcmp (cfg_sentinel cfg) secondstage_cfg_sentinel
               (Z.to_nat SECONDSTAGE_CFG_SENTINEL_SIZE) = Some 0)
  then Some cfg else None.

(** ** System controller (tsb_scm.c) *)
Definition TSB_SCM_SOFTRESET0 : Z := 0x000.
Definition TSB_SCM_SOFTRESETRELEASE0 : Z := 0x100.
Definition TSB_SCM_CLOCKGATING0 : Z := 0x200.
Definition TSB_SCM_CLOCKENABLE0 : Z := 0x300.
Definition TSB_SCM_BOOTSELECTOR : Z := 0x400.
Definition TSB_SCM_ECCERROR : Z := 0x4c4.
Definition TSB_SCM_VID : Z := 0x700.
Definition TSB_SCM_PID : Z := 0x704.
Definition TSB_SCM_PINSHARE : Z := 0x800.
Definition TSB_CLK_SPIP : Z := 23.
Definition TSB_CLK_SPIS : Z := 24.
Definition TSB_CLK_GPIO : Z := 25.
Definition TSB_RST_SPIP : Z := 20.
Definition TSB_RST_SPIS : Z := 21.
Definition TSB_RST_GPIO : Z := 22.

Definition CLK_OFFSET (clk : Z) : Z := Z.land (Z.shiftr clk 22) 0xfc.
Definition CLK_MASK (clk : Z) : Z := 1 <<₃₂ Z.land clk 0x1f.

(** SDIOSYS, SDIOSD, then MBOX (12) to GPIO (25). *)
Definition INIT_PERIPHERAL_CLOCK_BITS : Z :=
  foldr (λ c acc, Z.lor (CLK_MASK c) acc) 0 [9;10;12;13;14;15;16;17;18;19;20;21;22;23;24;25].

Definition scm_read (offset : Z) : B Z := getreg32 (SYSCTL_BASE +₃₂ offset).
Definition scm_write (offset v : Z) : B unit := putreg32 v (SYSCTL_BASE +₃₂ offset).

Definition tsb_clk_init : B unit := scm_write TSB_SCM_CLOCKGATING0 INIT_PERIPHERAL_CLOCK_BITS.
Definition tsb_clk_enable (clk : Z) : B unit :=
  scm_write (TSB_SCM_CLOCKENABLE0 +₃₂ CLK_OFFSET clk) (CLK_MASK clk).
Definition tsb_clk_disable (clk : Z) : B unit :=
  scm_write (TSB_SCM_CLOCKGATING0 +₃₂ CLK_OFFSET clk) (CLK_MASK clk).
Definition tsb_reset (rst : Z) : B unit :=
  scm_write (TSB_SCM_SOFTRESET0 +₃₂ CLK_OFFSET rst) (CLK_MASK rst) ;;
  scm_write (TSB_SCM_SOFTRESETRELEASE0 +₃₂ CLK_OFFSET rst) (CLK_MASK rst).
Definition tsb_set_pinshare (bits : Z) : B unit :=
  r ← scm_read TSB_SCM_PINSHARE; scm_write TSB_SCM_PINSHARE (Z.lor r bits).
Definition tsb_clr_pinshare (bits : Z) : B unit :=
  r ← scm_read TSB_SCM_PINSHARE; scm_write TSB_SCM_PINSHARE (Z.land r (~₃₂ bits)).
Definition tsb_get_bootselector : B Z := scm_read TSB_SCM_BOOTSELECTOR.
Definition tsb_get_debug_reg (offset : Z) : B Z := scm_read offset.
Definition tsb_get_eccerror : B Z := scm_read TSB_SCM_ECCERROR.

Definition tsb_get_ara_vid : B Z :=
  match boot_stage, get_2ndstage_cfgdata with
  | Stage2, Some cfg => mret (fake_ara_vid cfg)
  | _, _ => scm_read TSB_SCM_VID
  end.

Definition tsb_get_ara_pid : B Z :=
  match boot_stage, get_2ndstage_cfgdata with
  | Stage2, Some cfg =>
      if negb (use_fake_ara_vidpid cfg =? 0) then mret (fake_ara_pid cfg) else scm_read TSB_SCM_PID
  | _, _ => scm_read TSB_SCM_PID
  end.

(** ** GPIO (tsb_gpio.c) *)
Definition GPIO_DATA : Z := GPIO_BASE.
Definition GPIO_ODATASET : Z := GPIO_BASE + 0x8.
Definition GPIO_ODATACLR : Z := GPIO_BASE + 0xc.
Definition GPIO_DIROUT : Z := GPIO_BASE + 0x14.
Definition GPIO_DIRIN : Z := GPIO_BASE + 0x18.

Definition chip_gpio_init : B unit := tsb_clk_enable TSB_CLK_GPIO ;; tsb_reset TSB_RST_GPIO.
Definition chip_gpio_get_value (which : Z) : B Z :=
  v ← getreg32 GPIO_DATA; mret (if Z.land v (Z.shiftl 1 which) =? 0 then 0 else 1).
Definition chip_gpio_set_value (which value : Z) : B unit :=
  putreg32 (1 <<₃₂ which) (if value =? 0 then GPIO_ODATACLR else GPIO_ODATASET).
Definition chip_gpio_direction_in (which : Z) : B unit := putreg32 (1 <<₃₂ which) GPIO_DIRIN.
Definition chip_gpio_direction_out (which value : Z) : B unit :=
  chip_gpio_set_value which value ;; putreg32 (1 <<₃₂ which) GPIO_DIROUT.

(** ** Security registers (tsb_isaa.c) *)
Definition TSB_ISAA_IMS0 : Z := 0x100.
Definition TSB_ISAA_CMS0 : Z := 0x200.
Definition TSB_ISAA_SN0 : Z := 0x300.
Definition TSB_ISAA_SCR : Z := 0x308.
Definition TSB_ISAA_TRUSTED_ONLY : Z := 0x10.
Definition TSB_ISAA_ROM_KEY_VALIDITY : Z := 0x0f.
Definition TSB_ISAA_RETEST : Z := 0x30c.
Definition TSB_ISAA_DISABLE_IMS_ACCESS : Z := 0x400.
Definition TSB_ISAA_DISABLE_CMS_ACCESS : Z := 0x404.
Definition TSB_ISAA_JTAG_ENABLE : Z := 0x408.
Definition TSB_ISAA_JTAG_DISABLE : Z := 0x40c.
Definition TSB_ISAA_NUM_IMS_BYTES : Z := 35.
Definition TSB_ISAA_NUM_CMS_BYTES : Z := 24.

Definition isaa_read (offset : Z) : B Z := getreg32 (ISAA_BASE +₃₂ offset).
Definition isaa_write (offset v : Z) : B unit := putreg32 v (ISAA_BASE +₃₂ offset).

(** The bytes stored through [buf].  [fuel] bounds the register count. *)
Fixpoint isaa_read_words (fuel : nat) (offset size : Z) : B (list Z) :=
  match fuel with
  | O => mret []
  | S fuel =>
      if 4 <? size then
        v ← getreg32 (ISAA_BASE +₃₂ offset);
        rest ← isaa_read_words fuel (offset + 4) (size - 4);
        mret (le_split 4 v ++ rest)
      else if 0 <? size then
        v ← getreg32 (ISAA_BASE +₃₂ offset);
        mret (le_split (Z.to_nat size) v)
      else mret []
  end.
Definition isaa_read_n (offset size : Z) : B (list Z) :=
  isaa_read_words (S (Z.to_nat size)) offset size.

Definition tsb_get_serial_no : B Z :=
  bs ← isaa_read_n TSB_ISAA_SN0 8; mret (le_combine bs).

(** [tsb_get_ims buf size]: the new contents of [buf]. *)
Definition tsb_get_ims (buf : list Z) (size : Z) : B (list Z) :=
  match boot_stage, get_2ndstage_cfgdata with
  | Stage2, Some cfg =>
      let size := if FAKE_IMS_SIZE <? size then FAKE_IMS_SIZE else size in
      mret (if use_fake_ims cfg =? 0 then buf else splice buf 0 (sub (fake_ims cfg) 0 size))
  | _, _ =>
      let size := if TSB_ISAA_NUM_IMS_BYTES <? size then TSB_ISAA_NUM_IMS_BYTES else size in
      bs ← isaa_read_n TSB_ISAA_IMS0 size; mret (splice buf 0 bs)
  end.

Definition tsb_get_cms (buf : list Z) (size : Z) : B (list Z) :=
  let size := if TSB_ISAA_NUM_CMS_BYTES <? size then TSB_ISAA_NUM_CMS_BYTES else size in
  bs ← isaa_read_n TSB_ISAA_CMS0 size; mret (splice buf 0 bs).

Definition tsb_get_disable_ims_access : B Z := isaa_read TSB_ISAA_DISABLE_IMS_ACCESS.
Definition tsb_disable_ims_access : B unit := isaa_write TSB_ISAA_DISABLE_IMS_ACCESS 1.
Definition tsb_get_disable_cms_access : B Z := isaa_read TSB_ISAA_DISABLE_CMS_ACCESS.
Definition tsb_disable_cms_access : B unit := isaa_write TSB_ISAA_DISABLE_CMS_ACCESS 1.
Definition tsb_enable_ims_access : B unit := isaa_write TSB_ISAA_DISABLE_IMS_ACCESS 0.
Definition tsb_enable_cms_access : B unit := isaa_write TSB_ISAA_DISABLE_CMS_ACCESS 0.
Definition tsb_jtag_disable : B unit := isaa_write TSB_ISAA_JTAG_DISABLE 1.
Definition tsb_get_scr : B Z := isaa_read TSB_ISAA_SCR.
Definition tsb_get_retest : B Z := isaa_read TSB_ISAA_RETEST.
Definition tsb_get_jtag_enable : B Z := isaa_read TSB_ISAA_JTAG_ENABLE.
Definition tsb_get_jtag_disable : B Z := isaa_read TSB_ISAA_JTAG_DISABLE.

Definition chip_is_key_revoked (index : Z) : B bool :=
  let bit := 1 <<₃₂ index in
  if Z.land bit TSB_ISAA_ROM_KEY_VALIDITY =? 0 then mret true
  else
    scr ← isaa_read TSB_ISAA_SCR;
    mret (negb (Z.land scr bit =? 0)).

Definition chip_is_untrusted_image_allowed : B bool :=
  scr ← isaa_read TSB_ISAA_SCR;
  mret (Z.land scr TSB_ISAA_TRUSTED_ONLY =? 0).

(** ** Load-location check (tsb_chipapi.c), ES3 *)
Definition chip_validate_data_load_location (base length : Z) : Z :=
  if base <? workram_start then -1
  else
    let limit := match boot_stage with
                 | Stage1 => bootrom_data_area
                 | Stage2 => bootrom_text_area
                 end in
    if limit <=? base +₃₂ length then -1 else 0.

(** ** UniPro registers and DME attributes (tsb_unipro.c, es3_unipro.c) *)
Definition A2D_ATTRACS_INT_BEF : Z := 0x338.
Definition A2D_ATTRACS_MSTR_CTRL : Z := 0x500.
Definition A2D_ATTRACS_CTRL_00 : Z := 0x504.
Definition A2D_ATTRACS_DATA_CTRL_00 : Z := 0x550.
Definition A2D_ATTRACS_STS_00 : Z := 0x590.
Definition A2D_ATTRACS_DATA_STS_00 : Z := 0x5A0.
Definition REG_ATTRACS_UPD : Z := 1.
Definition REG_ATTRACS_CNT (x : Z) : Z := Z.shiftl x 16.
Definition REG_ATTRACS_CTRL_PEERENA (x : bool) : Z := Z.shiftl (Z.b2z x) 29.
Definition REG_ATTRACS_CTRL_SELECT (x : Z) : Z := Z.shiftl (Z.land x 0x7FF) 16.
Definition REG_ATTRACS_CTRL_WRITE (x : bool) : Z := Z.shiftl (Z.b2z x) 28.

Definition tsb_unipro_read (offset : Z) : B Z := getreg32 (AIO_UNIPRO_BASE +₃₂ offset).
Definition tsb_unipro_write (offset v : Z) : B unit := putreg32 v (AIO_UNIPRO_BASE +₃₂ offset).

(** The DME access; the pair is the return code and the new [*val]. *)
Definition unipro_attr_access (attr val selector : Z) (peer write : bool) : B (Z * Z) :=
  let ctrl := Z.lor (Z.lor (Z.lor (REG_ATTRACS_CTRL_PEERENA peer) (REG_ATTRACS_CTRL_SELECT selector))
                           (REG_ATTRACS_CTRL_WRITE write)) attr in
  tsb_unipro_write A2D_ATTRACS_CTRL_00 ctrl ;;
  when write (tsb_unipro_write A2D_ATTRACS_DATA_CTRL_00 val) ;;
  tsb_unipro_write A2D_ATTRACS_MSTR_CTRL (Z.lor (REG_ATTRACS_CNT 1) REG_ATTRACS_UPD) ;;
  poll poll_fuel (v ← tsb_unipro_read A2D_ATTRACS_INT_BEF;
                  mret (if v =? 0 then None else Some tt)) ;;
  tsb_unipro_write A2D_ATTRACS_INT_BEF 1 ;;
  rc ← tsb_unipro_read A2D_ATTRACS_STS_00;
  if write then mret (rc, val)
  else v ← tsb_unipro_read A2D_ATTRACS_DATA_STS_00; mret (rc, v).

(** [val] is the old contents of [*val]; a read always overwrites it. *)
Definition chip_unipro_attr_read (attr selector : Z) (peer : bool) : B (Z * Z) :=
  unipro_attr_access attr 0 selector peer false.

Definition chip_unipro_attr_write (attr val selector : Z) (peer : bool) : B Z :=
  r ← unipro_attr_access attr val selector peer true; mret (fst r).

End chip.

Definition ATTR_LOCAL : bool := false.
Definition ATTR_PEER : bool := true.

(** ** Fused configuration

    The security configuration register reflects e-fuses: every read of it, in
    whatever state the devices are, gives the same value. *)
Class Fuses `{Hardware} := {
  scr : Z;
  scr_fixed : forall d, fst (reg_read (ISAA_BASE +₃₂ TSB_ISAA_SCR) d) = scr
}.

(** ** Frame: register code changes the devices only *)

Section frame.
Context `{Platform, Hardware}.

Definition only_dev (m m' : machine) : Prop := exists d, m' = set_dev d m.

#[export] Instance only_dev_refl : Reflexive only_dev.
Proof. intros m. exists (m_dev m). by destruct m. Qed.
#[export] Instance only_dev_trans : Transitive only_dev.
Proof. intros m1 m2 m3 [d ->] [d' ->]. exists d'. by destruct m1. Qed.

Lemma pres_getreg32 a : pres only_dev (getreg32 a).
Proof. intros m. unfold getreg32. destruct (reg_read a (m_dev m)) as [v d]. by exists d. Qed.
Lemma pres_putreg32 v a : pres only_dev (putreg32 v a).
Proof. intros m. by eexists. Qed.
Lemma pres_putreg8 v a : pres only_dev (putreg8 v a).
Proof. intros m. by eexists. Qed.

Lemma pres_poll {A} R `{!Reflexive R, !Transitive R} n (body : B (option A)) :
  pres R body -> pres R (poll n body).
Proof.
  intros Hb. induction n as [|n IH]; simpl; [apply pres_spin; typeclasses eauto|].
  apply pres_bind; [typeclasses eauto|done|]. intros [a|]; [apply pres_ret; typeclasses eauto|done].
Qed.

Lemma isaa_read_scr `{!Fuses} m : exists d, isaa_read TSB_ISAA_SCR m = (Done scr, set_dev d m).
Proof.
  unfold isaa_read, getreg32. pose proof (scr_fixed (m_dev m)) as Hs.
  destruct (reg_read _ _) as [v d]. simpl in Hs. subst v. by exists d.
Qed.

(** A register read always returns. *)
Lemma getreg32_done a m : exists v d, getreg32 a m = (Done v, set_dev d m).
Proof. unfold getreg32. destruct (reg_read a (m_dev m)) as [v d]. eauto. Qed.

End frame.

#[export] Hint Resolve pres_getreg32 pres_putreg32 pres_putreg8 : pres.

Section frame_ops.
Context `{Platform, Hardware}.

Lemma pres_isaa_read o : pres only_dev (isaa_read o).
Proof. unfold isaa_read. pres_auto. Qed.
Lemma pres_isaa_write o v : pres only_dev (isaa_write o v).
Proof. unfold isaa_write. pres_auto. Qed.
Lemma pres_scm_read o : pres only_dev (scm_read o).
Proof. unfold scm_read. pres_auto. Qed.
Lemma pres_scm_write o v : pres only_dev (scm_write o v).
Proof. unfold scm_write. pres_auto. Qed.
Lemma pres_unipro_read o : pres only_dev (tsb_unipro_read o).
Proof. unfold tsb_unipro_read. pres_auto. Qed.
Lemma pres_unipro_write o v : pres only_dev (tsb_unipro_write o v).
Proof. unfold tsb_unipro_write. pres_auto. Qed.
End frame_ops.
#[export] Hint Resolve pres_isaa_read pres_isaa_write pres_scm_read pres_scm_write
  pres_unipro_read pres_unipro_write : pres.

Section frame_attr.
Context `{Platform, Hardware}.

Lemma pres_attr_access a v s p w : pres only_dev (unipro_attr_access a v s p w).
Proof.
  unfold unipro_attr_access. cbv zeta.
  pres_auto. apply pres_poll; [typeclasses eauto..|]. pres_auto.
Qed.

Lemma pres_attr_read a s p : pres only_dev (chip_unipro_attr_read a s p).
Proof. apply pres_attr_access. Qed.
Lemma pres_attr_write a v s p : pres only_dev (chip_unipro_attr_write a v s p).
Proof. unfold chip_unipro_attr_write. pres_auto. apply pres_attr_access. Qed.

Lemma pres_key_revoked k : pres only_dev (chip_is_key_revoked k).
Proof. unfold chip_is_key_revoked. cbv zeta. pres_auto. Qed.
Lemma pres_untrusted_allowed : pres only_dev chip_is_untrusted_image_allowed.
Proof. unfold chip_is_untrusted_image_allowed. pres_auto. Qed.
End frame_attr.
#[export] Hint Resolve pres_attr_access pres_attr_read pres_attr_write pres_key_revoked
  pres_untrusted_allowed : pres.

(** ** Outcomes of register code: it returns, or waits for hardware *)

Section outcomes.
Context `{Platform, Hardware}.

Definition returns_or_spins {A} (c : B A) : Prop :=
  forall m, (exists a, fst (c m) = Done a) \/ fst (c m) = Spin.

Lemma ros_ret {A} (a : A) : returns_or_spins (mret a).
Proof. intros m. left. by eexists. Qed.
Lemma ros_gets {A} (f : machine -> A) : returns_or_spins (gets f).
Proof. intros m. left. by eexists. Qed.
Lemma ros_modify f : returns_or_spins (modify f).
Proof. intros m. left. by eexists. Qed.
Lemma ros_getreg32 a : returns_or_spins (getreg32 a).
Proof. intros m. destruct (getreg32_done a m) as (v & d & ->). left. by eexists. Qed.
Lemma ros_bind {A C} (c : B A) (f : A -> B C) :
  returns_or_spins c -> (forall a, returns_or_spins (f a)) -> returns_or_spins (c ≫= f).
Proof.
  intros Hc Hf m. unfold mbind, boot_bind. specialize (Hc m).
  destruct (c m) as [[a| | | |] m1]; simpl in *; destruct Hc as [[? Hc]|Hc]; try done; [|by right].
  apply Hf.
Qed.
Lemma ros_when b (c : B unit) : returns_or_spins c -> returns_or_spins (when b c).
Proof. destruct b; [done|]. intros. apply ros_ret. Qed.
Lemma ros_poll {A} n (body : B (option A)) : returns_or_spins body -> returns_or_spins (poll n body).
Proof.
  intros Hb. induction n as [|n IH]; simpl; [intros m; by right|].
  apply ros_bind; [done|]. intros [a|]; [apply ros_ret | done].
Qed.

Lemma ros_attr_access a v s p w : returns_or_spins (unipro_attr_access a v s p w).
Proof.
  unfold unipro_attr_access, tsb_unipro_write, tsb_unipro_read, putreg32. cbv zeta.
  repeat first [ apply ros_bind | apply ros_when | apply ros_modify | apply ros_getreg32
               | apply ros_poll | apply ros_ret | intros ? | destruct w ].
Qed.

Lemma ros_attr_write a v s p : returns_or_spins (chip_unipro_attr_write a v s p).
Proof. apply ros_bind; [apply ros_attr_access | intros; apply ros_ret]. Qed.

Lemma attr_write_outcome a v s p m o m1 :
  chip_unipro_attr_write a v s p m = (o, m1) -> (exists rc, o = Done rc) \/ o = Spin.
Proof. intros E. pose proof (ros_attr_write a v s p m) as Hr. by rewrite E in Hr. Qed.
End outcomes.
