(* ===== verification/Sim.v ===== *)
(** * Sim: a simulated bridge chip

    A concrete platform and a concrete device, so that the definitions run and
    the theorems can be applied: plain registers, the DME attribute engine, and
    the SPI controller with a flash chip behind it. *)

From S2P Require Import Prelude Sha256 Machine Chip.

(** The boot ROM build for ES3 (chips/tsb/scripts/ld.script). *)
Definition sim_platform (st : stage) (keys : list crypto_public_key) (cfg : list Z) : Platform :=
  {| boot_stage := st; workram_start := 0x10000000; bootrom_data_area := 0x1002F000;
     bootrom_text_area := 0x10020000; tftf_addr := 0x1002F100; ffff_header1_addr := 0x10030400;
     ffff_header2_addr := 0x10031400; ram_lo := 0x10000000;
     ram_hi := match st with Stage1 => 0x1002F000 | Stage2 => 0x10020000 end; public_keys := keys; s2l_buf := cfg; manifest_mnfb := [];
     CPORT_MAX := 2; poll_fuel := 3000 |}.

Lemma sim_platform_ok st : @PlatformOk (sim_platform st [] []).
Proof. split; try (constructor; fail); unfold apart_from_ram, image_area_end; destruct st; simpl; lia. Qed.

(** A TFTF header of 512 bytes: sections as (type, length, load address,
    expanded length). *)
Definition sim_section (s : Z * Z * Z * Z) : list Z :=
  let '(ty, len, load, exp) := s in
  le_split 4 ty ++ le_split 4 0 ++ le_split 4 len ++ le_split 4 load ++ le_split 4 exp.

Definition sim_header (start : Z) (secs : list (Z * Z * Z * Z)) : list Z :=
  let b := [0x54; 0x46; 0x54; 0x46] ++ le_split 4 512 ++ replicate 68 0 ++ le_split 4 start
           ++ replicate 32 0 ++ concat (map sim_section secs) ++ sim_section (0xFE, 0, 0, 0) in
  b ++ replicate (512 - length b) 0.

(** ** The device *)
Record soc := Soc {
  s_regs : gmap Z Z;
  s_attrs : gmap Z Z;       (* by control word without the write bit *)
  s_flash : list Z;
  s_fifo : list Z;          (* frames the SPI controller still has to hand out *)
  s_msgs : list (Z * list Z);     (* messages waiting, by CPort *)
  s_sent : list Z           (* bytes stored to the transmit buffers, last first *)
}.

Definition soc_reg (a : Z) (d : soc) : Z := default 0 (s_regs d !! a).
Definition soc_ctrl (d : soc) : Z := soc_reg (AIO_UNIPRO_BASE + A2D_ATTRACS_CTRL_00) d.
Definition ctrl_key (c : Z) : Z := Z.ldiff c (Z.shiftl 1 28).

Definition flash_frame (fl : list Z) (a : Z) : Z :=
  get8 fl a * 2 ^ 24 + get8 fl (a + 1) * 2 ^ 16 + get8 fl (a + 2) * 2 ^ 8 + get8 fl (a + 3).

Definition set_regs (r : gmap Z Z) (d : soc) : soc :=
  Soc r (s_attrs d) (s_flash d) (s_fifo d) (s_msgs d) (s_sent d).
Definition set_attrs (r : gmap Z Z) (d : soc) : soc :=
  Soc (s_regs d) r (s_flash d) (s_fifo d) (s_msgs d) (s_sent d).
Definition set_fifo (r : list Z) (d : soc) : soc :=
  Soc (s_regs d) (s_attrs d) (s_flash d) r (s_msgs d) (s_sent d).

Definition soc_read (scr a : Z) (d : soc) : Z * soc :=
  if a =? ISAA_BASE + TSB_ISAA_SCR then (scr, d)
  else if a =? AIO_UNIPRO_BASE + A2D_ATTRACS_INT_BEF then (1, d)
  else if a =? AIO_UNIPRO_BASE + A2D_ATTRACS_STS_00 then (0, d)
  else if a =? AIO_UNIPRO_BASE + A2D_ATTRACS_DATA_STS_00
  then (default 0 (s_attrs d !! ctrl_key (soc_ctrl d)), d)
  else if a =? 0x40018028 then (match s_fifo d with [] => 0 | _ => 9 end, d)
  else if a =? 0x40018060 then
    match s_fifo d with [] => (0, d) | f :: fs => (f, set_fifo fs d) end
  else (soc_reg a d, d).

Definition soc_write (a v : Z) (d : soc) : soc :=
  if a =? AIO_UNIPRO_BASE + A2D_ATTRACS_MSTR_CTRL then
    if Z.testbit (soc_ctrl d) 28
    then set_attrs (<[ctrl_key (soc_ctrl d) :=
                        soc_reg (AIO_UNIPRO_BASE + A2D_ATTRACS_DATA_CTRL_00) d]> (s_attrs d)) d
    else d
  else if a =? 0x40018060 then
    set_fifo (map (λ i, flash_frame (s_flash d) (Z.land v 0xFFFFFF + 4 * i))
                  (seqZ 0 (u16 (soc_reg 0x40018004 d) + 1))) d
  else set_regs (<[a := v]> (s_regs d)) d.

(** [scr]: the fused security configuration. *)
Definition sim_hw_with (scr : Z) : Hardware :=
  {| dev := soc; reg_read := soc_read scr; reg_write := soc_write;
     reg_write8 := λ _ v d, Soc (s_regs d) (s_attrs d) (s_flash d) (s_fifo d) (s_msgs d) (v :: s_sent d);
     buf_read8 := λ _ _, 0 |}.

Definition sim_hw : Hardware := sim_hw_with 0.

Definition sim_soc (regs : gmap Z Z) (flash : list Z) : soc := Soc regs ∅ flash [] [] [].

(** A machine after reset, with devices in state [d]. *)
Definition sim_machine_at `{Hardware} (d : dev) : machine :=
  {| m_dev := d; m_ram := ∅; m_temp := replicate 2048 0; m_errno := 0; m_offline := false;
     m_ara_vid := 0; m_ara_pid := 0;
     m_tftf := {| t_header := replicate 4096 0; t_header_end := 0;
                  t_crypto_state := CRYPTO_STATE_INIT; t_hash := replicate 32 0;
                  t_signature := replicate 360 0; t_contain_signature := false |};
     m_ffff := {| f_header1 := replicate 4096 0; f_header2 := replicate 4096 0;
                  f_cur_header := Header1; f_cur_element := None |};
     m_crypto := {| c_shctx := Sha256.zero_ctx; c_sha256_init_func := None;
                    c_sha256_process_func := None; c_sha256_hash_func := None;
                    c_rsa2048_verify_func := None |};
     m_comm := {| ca_keys := {| k_epsk := replicate 56 0; k_essk := replicate 32 0;
                                k_ergs := replicate 32 0; k_errk_n := replicate 256 0 |};
                  ca_shared_functions := replicate 5 None;
                  ca_endpoint_unique_id := replicate 8 0;
                  ca_stage_2_firmware_identity := replicate 32 0;
                  ca_stage_2_validation_key_name := replicate 96 0;
                  ca_build_timestamp := replicate 16 0;
                  ca_firmware_package_name := replicate 48 0 |};
     m_spi := {| current_addr := 0; spi_clk_usage_count := 0; initialized := 0 |};
     m_gb := {| g_handler_table := [None; None]; g_manifest_fetched := false; g_responded_op := 0;
                g_firmware_size_response := 0; g_fw_buff := null; g_fw_buff_size := 0;
                g_offset := 0; g_firmware_size := 0 |};
     m_server := {| srv_image_download_finished := false; srv_stage_to_load := 0 |} |}.

Definition sim_machine_with (scr : Z) (d : soc) : @machine (sim_hw_with scr) :=
  @sim_machine_at (sim_hw_with scr) d.

Definition sim_machine (d : soc) : @machine sim_hw := sim_machine_with 0 d.
