(* ===== verification/Errors.v ===== *)
(** * Errors: the sticky error code and the boot status
    (common/src/error.c, chips/es3tsb/src/es3_advertise.c)

    [fw_errno] holds one error per reporting zone: stage 1 primary boot in bits
    0-7, stage 1 fallback boot in bits 8-15, stage 2 in bits 16-23.  The boot
    status lives in a DME attribute.  Writing the status can fail, which halts,
    which writes the status: [boot_status_offline] cuts that recursion, and
    [halt_depth_enough] shows that two levels are all there is. *)

From S2P Require Import Prelude Utils Machine Chip Sim.

(** ** Error codes (common/include/error.h) *)
Definition BRE_OK : Z := 0.
Definition BRE_S1_PAIMARY_MASK : Z := 0x000000ff.
Definition BRE_S1_FALLBACK_MASK : Z := 0x0000ff00.
Definition BRE_S2_FW_MASK : Z := 0x00ff0000.
Definition BRE_S1_PRIMARY_SHIFT : Z := 0.
Definition BRE_S1_FALLBACK_SHIFT : Z := 8.
Definition BRE_S2_FW_SHIFT : Z := 16.

Definition BRE_EFUSE_BASE : Z := 0x10.
Definition BRE_EFUSE_ECC : Z := BRE_EFUSE_BASE + 0.
Definition BRE_EFUSE_BAD_ARA_VID : Z := BRE_EFUSE_BASE + 1.
Definition BRE_EFUSE_BAD_ARA_PID : Z := BRE_EFUSE_BASE + 2.
Definition BRE_EFUSE_BAD_IMS : Z := BRE_EFUSE_BASE + 3.
Definition BRE_EFUSE_BAD_SERIAL_NO : Z := BRE_EFUSE_BASE + 4.
Definition BRE_EFUSE_UNIPRO_VID_READ : Z := BRE_EFUSE_BASE + 5.
Definition BRE_EFUSE_UNIPRO_PID_READ : Z := BRE_EFUSE_BASE + 6.
Definition BRE_EFUSE_ENDPOINT_ID_WRITE : Z := BRE_EFUSE_BASE + 7.

Definition BRE_TFTF_BASE : Z := 0x20.
Definition BRE_TFTF_LOAD_HEADER : Z := BRE_TFTF_BASE + 0.
Definition BRE_TFTF_HEADER_SIZE : Z := BRE_TFTF_BASE + 1.
Definition BRE_TFTF_MEMORY_RANGE : Z := BRE_TFTF_BASE + 2.
Definition BRE_TFTF_SENTINEL : Z := BRE_TFTF_BASE + 3.
Definition BRE_TFTF_NO_TABLE_END : Z := BRE_TFTF_BASE + 4.
Definition BRE_TFTF_LOAD_SIGNATURE : Z := BRE_TFTF_BASE + 6.
Definition BRE_TFTF_VIDPID_MISMATCH : Z := BRE_TFTF_BASE + 7.
Definition BRE_TFTF_COMPRESSION_UNSUPPORTED : Z := BRE_TFTF_BASE + 8.
Definition BRE_TFTF_COMPRESSION_BAD : Z := BRE_TFTF_BASE + 9.
Definition BRE_TFTF_HASHED_SECTION_AFTER_UNHASHED : Z := BRE_TFTF_BASE + 10.
Definition BRE_TFTF_HEADER_TYPE : Z := BRE_TFTF_BASE + 11.
Definition BRE_TFTF_COLLISION : Z := BRE_TFTF_BASE + 12.
Definition BRE_TFTF_START_NOT_IN_CODE : Z := BRE_TFTF_BASE + 13.
Definition BRE_TFTF_IMAGE_CORRUPTED : Z := BRE_TFTF_BASE + 14.
Definition BRE_TFTF_LOAD_DATA : Z := BRE_TFTF_BASE + 15.
Definition BRE_TFTF_UNTRUSTED_NOT_ALLOWED : Z := BRE_TFTF_BASE + 16.

Definition BRE_FFFF_BASE : Z := 0x40.
Definition BRE_FFFF_LOAD_HEADER : Z := BRE_FFFF_BASE + 0.
Definition BRE_FFFF_HEADER_SIZE : Z := BRE_FFFF_BASE + 1.
Definition BRE_FFFF_MEMORY_RANGE : Z := BRE_FFFF_BASE + 2.
Definition BRE_FFFF_SENTINEL : Z := BRE_FFFF_BASE + 3.
Definition BRE_FFFF_NO_TABLE_END : Z := BRE_FFFF_BASE + 4.
Definition BRE_FFFF_NON_ZERO_PAD : Z := BRE_FFFF_BASE + 5.
Definition BRE_FFFF_BLOCK_SIZE : Z := BRE_FFFF_BASE + 6.
Definition BRE_FFFF_FLASH_CAPACITY : Z := BRE_FFFF_BASE + 7.
Definition BRE_FFFF_IMAGE_LENGTH : Z := BRE_FFFF_BASE + 8.
Definition BRE_FFFF_HEADER_NOT_FOUND : Z := BRE_FFFF_BASE + 9.
Definition BRE_FFFF_NO_FIRMWARE : Z := BRE_FFFF_BASE + 10.
Definition BRE_FFFF_ELT_RESERVED_MEMORY : Z := BRE_FFFF_BASE + 11.
Definition BRE_FFFF_ELT_ALIGNMENT : Z := BRE_FFFF_BASE + 12.
Definition BRE_FFFF_ELT_COLLISION : Z := BRE_FFFF_BASE + 13.
Definition BRE_FFFF_ELT_DUPLICATE : Z := BRE_FFFF_BASE + 14.

Definition BRE_BOU_BASE : Z := 0x80.
Definition BRE_BOU_GBCTRL_CPORT : Z := BRE_BOU_BASE + 0.
Definition BRE_BOU_GBCTRL_CONNECTED : Z := BRE_BOU_BASE + 1.
Definition BRE_BOU_GBBOOT_CPORT : Z := BRE_BOU_BASE + 3.
Definition BRE_BOU_GBBOOT_CONNECTED : Z := BRE_BOU_BASE + 4.
Definition BRE_BOU_GBBOOT_AP_READY_TIMEOUT : Z := BRE_BOU_BASE + 7.
Definition BRE_BOU_GBBOOT_FW_SIZE : Z := BRE_BOU_BASE + 8.
Definition BRE_BOU_GBBOOT_FW_TOO_LARGE : Z := BRE_BOU_BASE + 9.
Definition BRE_BOU_GBBOOT_GET_FW : Z := BRE_BOU_BASE + 10.
Definition BRE_BOU_GBBOOT_READY : Z := BRE_BOU_BASE + 11.

(** ** Boot status (common/include/init_status.h) *)
Definition INIT_TYPE_TOSHIBA : Z := 0x01260001.
Definition INIT_STATUS_OPERATING : Z := Z.shiftl 1 24.
Definition INIT_STATUS_SPI_BOOT_STARTED : Z := Z.shiftl 2 24.
Definition INIT_STATUS_TRUSTED_SPI_FLASH_BOOT_FINISHED : Z := Z.shiftl 3 24.
Definition INIT_STATUS_UNTRUSTED_SPI_FLASH_BOOT_FINISHED : Z := Z.shiftl 4 24.
Definition INIT_STATUS_UNIPRO_BOOT_STARTED : Z := Z.shiftl 6 24.
Definition INIT_STATUS_TRUSTED_UNIPRO_BOOT_FINISHED : Z := Z.shiftl 7 24.
Definition INIT_STATUS_UNTRUSTED_UNIPRO_BOOT_FINISHED : Z := Z.shiftl 8 24.
Definition INIT_STATUS_FALLLBACK_UNIPRO_BOOT_STARTED : Z := Z.shiftl 9 24.
Definition INIT_STATUS_FALLLBACK_TRUSTED_UNIPRO_BOOT_FINISHED : Z := Z.shiftl 10 24.
Definition INIT_STATUS_FALLLBACK_UNTRUSTED_UNIPRO_BOOT_FINISHED : Z := Z.shiftl 11 24.
Definition INIT_STATUS_FAILED : Z := 0x80000000.
Definition INIT_STATUS_ERROR_MASK : Z := 0x80000000.
Definition INIT_STATUS_STATUS_MASK : Z := 0x7f000000.
Definition INIT_STATUS_ERROR_CODE_MASK : Z := 0x00ffffff.
Definition DME_ARA_INIT_TYPE : Z := 0x6100.
Definition DME_ARA_INIT_STATUS : Z := 0x6101.

Section errors.
Context `{Platform, Hardware}.

Definition get_last_error : B Z := gets m_errno.

Definition merge_errno_with_boot_status (boot_status : Z) : B Z :=
  e ← get_last_error;
  mret (Z.lor (Z.land boot_status (~₃₂ INIT_STATUS_ERROR_CODE_MASK))
              (Z.land e INIT_STATUS_ERROR_CODE_MASK)).

(** [chip_advertise_boot_status], with the halt function it calls. *)
Definition advertise_with (halt : Z -> B unit) (boot_status : Z) : B unit :=
  offline ← gets m_offline;
  if (offline : bool) then mret tt
  else
    status ← chip_unipro_attr_write DME_ARA_INIT_STATUS boot_status 0 ATTR_LOCAL;
    when (negb (status =? 0)) (modify (set_offline true) ;; halt boot_status).

(** [halt_and_catch_fire] cut off after [n] nested calls. *)
Fixpoint halt_at (n : nat) (boot_status : Z) : B unit :=
  match n with
  | O => spin
  | S n =>
      merged ← merge_errno_with_boot_status boot_status;
      advertise_with (halt_at n) (Z.lor merged INIT_STATUS_FAILED) ;;
      halted
  end.

Definition halt_and_catch_fire (boot_status : Z) : B unit := halt_at 2 boot_status.

Definition chip_advertise_boot_status (boot_status : Z) : B unit :=
  advertise_with halt_and_catch_fire boot_status.

Definition chip_get_boot_status : B Z :=
  r ← chip_unipro_attr_read DME_ARA_INIT_STATUS 0 ATTR_LOCAL;
  let '(status, boot_status) := r : Z * Z in
  when (negb (status =? 0))
    (modify (set_offline true) ;; halt_and_catch_fire boot_status) ;;
  mret boot_status.

Definition chip_advertise_boot_type : B Z :=
  chip_unipro_attr_write DME_ARA_INIT_TYPE INIT_TYPE_TOSHIBA 0 ATTR_LOCAL.

Definition init_last_error : B unit :=
  match boot_stage with
  | Stage1 => modify (set_errno BRE_OK)
  | Stage2 =>
      r ← chip_unipro_attr_read DME_ARA_INIT_STATUS 0 ATTR_LOCAL;
      let '(rc, v) := r : Z * Z in
      let e := if rc =? 0 then v else BRE_OK in
      modify (set_errno (Z.land (Z.land e INIT_STATUS_ERROR_CODE_MASK) (~₃₂ BRE_S2_FW_MASK)))
  end.

(** The reporting zone of the running stage: mask and shift. *)
Definition error_zone : B (Z * Z) :=
  match boot_stage with
  | Stage1 =>
      boot_status ← chip_get_boot_status;
      if Z.land boot_status (Z.lor INIT_STATUS_STATUS_MASK INIT_STATUS_ERROR_MASK)
         =? INIT_STATUS_FALLLBACK_UNIPRO_BOOT_STARTED
      then mret (BRE_S1_FALLBACK_MASK, BRE_S1_FALLBACK_SHIFT)
      else mret (BRE_S1_PAIMARY_MASK, BRE_S1_PRIMARY_SHIFT)
  | Stage2 => mret (BRE_S2_FW_MASK, BRE_S2_FW_SHIFT)
  end.

Definition set_last_error (err : Z) : B unit :=
  z ← error_zone;
  let '(error_mask, shift) := z : Z * Z in
  fw_errno ← gets m_errno;
  when (Z.land fw_errno error_mask =? BRE_OK)
    (modify (set_errno (Z.lor fw_errno (Z.land (err <<₃₂ shift) error_mask)))).

End errors.

(** ** Frame: error reporting touches devices, [fw_errno] and the offline flag *)

Section frame.
Context `{Platform, Hardware}.

Definition only_err (m m' : machine) : Prop :=
  exists d e o, m' = set_dev d (set_errno e (set_offline o m)).

#[export] Instance only_err_refl : Reflexive only_err.
Proof. intros m. exists (m_dev m), (m_errno m), (m_offline m). by destruct m. Qed.
#[export] Instance only_err_trans : Transitive only_err.
Proof. intros m1 m2 m3 (d & e & o & ->) (d' & e' & o' & ->). exists d', e', o'. by destruct m1. Qed.

Lemma only_dev_err m m' : only_dev m m' -> only_err m m'.
Proof. intros [d ->]. exists d, (m_errno m), (m_offline m). by destruct m. Qed.

Lemma pres_dev_err {A} (m : B A) : pres only_dev m -> pres only_err m.
Proof. intros Hm s. apply only_dev_err, Hm. Qed.

Lemma pres_set_errno e : pres only_err (modify (set_errno e)).
Proof. intros m. exists (m_dev m), e, (m_offline m). by destruct m. Qed.
Lemma pres_set_offline o : pres only_err (modify (set_offline o)).
Proof. intros m. exists (m_dev m), (m_errno m), o. by destruct m. Qed.
End frame.
#[export] Hint Resolve pres_set_errno pres_set_offline : pres.
#[export] Hint Extern 5 (pres only_err _) => apply pres_dev_err; solve [eauto 2 with pres] : pres.

Section frame_ops.
Context `{Platform, Hardware}.

Lemma pres_merge bs : pres only_err (merge_errno_with_boot_status bs).
Proof. unfold merge_errno_with_boot_status, get_last_error. pres_auto. Qed.

Lemma pres_advertise_with halt bs :
  (forall b, pres only_err (halt b)) -> pres only_err (advertise_with halt bs).
Proof. intros Hh. unfold advertise_with. pres_auto. Qed.

Lemma pres_halt_at n : forall bs, pres only_err (halt_at n bs).
Proof.
  induction n as [|n IH]; intros bs; simpl; [pres_auto|].
  apply pres_bind; [typeclasses eauto| apply pres_merge |]. intros merged.
  apply pres_bind; [typeclasses eauto| by apply pres_advertise_with | pres_auto].
Qed.

Lemma pres_halt bs : pres only_err (halt_and_catch_fire bs).
Proof. apply pres_halt_at. Qed.
Lemma pres_advertise bs : pres only_err (chip_advertise_boot_status bs).
Proof. apply pres_advertise_with, pres_halt. Qed.

Lemma pres_get_boot_status : pres only_err chip_get_boot_status.
Proof.
  unfold chip_get_boot_status. pres_auto. apply pres_halt.
Qed.

Lemma pres_set_last_error err : pres only_err (set_last_error err).
Proof.
  unfold set_last_error. apply pres_bind; [typeclasses eauto| |].
  - unfold error_zone. destruct boot_stage; pres_auto. apply pres_get_boot_status.
  - intros [? ?]. pres_auto.
Qed.
End frame_ops.
#[export] Hint Resolve pres_merge pres_halt pres_advertise pres_get_boot_status
  pres_set_last_error : pres.

(** ** Properties *)

Section props.
Context `{Platform, Hardware}.

(** The zones a stage can report in. *)
Definition zone_of (st : stage) (mask shift : Z) : Prop :=
  match st with
  | Stage1 => (mask, shift) = (BRE_S1_PAIMARY_MASK, BRE_S1_PRIMARY_SHIFT) \/
              (mask, shift) = (BRE_S1_FALLBACK_MASK, BRE_S1_FALLBACK_SHIFT)
  | Stage2 => (mask, shift) = (BRE_S2_FW_MASK, BRE_S2_FW_SHIFT)
  end.

Lemma error_zone_cases m mask shift m1 :
  error_zone m = (Done (mask, shift), m1) -> zone_of boot_stage mask shift.
Proof.
  unfold error_zone, zone_of. destruct boot_stage; intros E; inv_done; auto.
Qed.

Lemma error_zone_keeps_errno m z m1 : error_zone m = (Done z, m1) -> m_errno m1 = m_errno m.
Proof.
  unfold error_zone, chip_get_boot_status. destruct boot_stage; intros E; inv_done; auto.
  all: destruct x0; inv_done; try done.
  all: match goal with
       | Ha : chip_unipro_attr_read _ _ _ _ = _ |- _ =>
           destruct (pres_run _ _ _ _ _ (pres_attr_read _ _ _) Ha) as [? ->]
       end; done.
Qed.

(** A code of eight bits fits its zone. *)
Lemma code_in_zone mask shift err :
  zone_of boot_stage mask shift -> is_u8 err ->
  Z.land (err <<₃₂ shift) mask = Z.shiftl err shift.
Proof.
  intros Hz He.
  assert (Hs : exists k, (k = 0 \/ k = 8 \/ k = 16) /\ shift = k /\ mask = Z.shiftl 0xff k).
  { unfold zone_of in Hz.
    destruct boot_stage; [destruct Hz as [[= -> ->]|[= -> ->]] | injection Hz as -> ->]; eauto 8. }
  destruct Hs as (k & Hk & -> & ->).
  rewrite u32_small.
  - rewrite <- Z.shiftl_land. f_equal. by apply u8_small.
  - unfold is_u8 in He. unfold is_u32. destruct Hk as [->|[->| ->]]; rewrite Z.shiftl_mul_pow2; lia.
Qed.

(** [C38] [set_last_error] records one error per reporting zone, and the first
    one sticks: in the zone of the running stage the field takes the new code
    if it was empty and keeps its old code otherwise; bits of the other zones
    never change. *)
Theorem set_last_error_first_sticks err m m' :
  is_u8 err -> set_last_error err m = (Done tt, m') ->
  exists mask shift, zone_of boot_stage mask shift /\
    Z.ldiff (m_errno m') mask = Z.ldiff (m_errno m) mask /\
    Z.land (m_errno m') mask =
      (if Z.land (m_errno m) mask =? 0 then Z.shiftl err shift else Z.land (m_errno m) mask).
Proof.
  intros He Hrun. unfold set_last_error in Hrun. inv_done.
  destruct x as [mask shift]. exists mask, shift.
  pose proof (error_zone_cases _ _ _ _ E) as Hz.
  pose proof (error_zone_keeps_errno _ _ _ E) as Hk.
  split; [done|]. inv_done; rewrite <- Hk; unfold BRE_OK in *.
  - rewrite C. rewrite (code_in_zone _ _ _ Hz He). apply Z.eqb_eq in C.
    pose proof (code_in_zone _ _ _ Hz He) as Hc. cbn [m_errno set_errno]. rewrite <- Hc. split.
    + bits_eq. rewrite !Z.ldiff_spec, Z.lor_spec, Z.land_spec.
      destruct (Z.testbit mask i); by rewrite ?andb_false_r, ?orb_false_r.
    + by rewrite Z.land_lor_distr_l, C, <- Z.land_assoc, Z.land_diag, Z.lor_0_l.
  - by rewrite C.
Qed.

(** The boot status that [halt_and_catch_fire] publishes. *)
Definition failed_status (bs e : Z) : Z :=
  Z.lor (Z.lor (Z.land bs (~₃₂ INIT_STATUS_ERROR_CODE_MASK))
               (Z.land e INIT_STATUS_ERROR_CODE_MASK)) INIT_STATUS_FAILED.

(** The recursion [halt_and_catch_fire] -> [chip_advertise_boot_status] ->
    [halt_and_catch_fire] goes one level deep at most: allowing any number of
    further nested calls changes nothing. *)
Theorem halt_depth_enough n bs m : halt_at (S (S n)) bs m = halt_and_catch_fire bs m.
Proof.
  unfold halt_and_catch_fire. cbn [halt_at].
  unfold merge_errno_with_boot_status, get_last_error, advertise_with.
  cbv [mbind boot_bind gets mret boot_ret].
  destruct (m_offline m) eqn:Ho; [done|].
  by destruct (chip_unipro_attr_write _ _ _ _ m) as [[rc| | | |] m1].
Qed.

(** [halt_and_catch_fire] never returns to its caller and never starts an
    image: the run ends in the endless loop, or hangs on a DME access the
    hardware does not complete. *)
Theorem halt_is_terminal bs m :
  fst (halt_and_catch_fire bs m) = Halted \/
  fst (chip_unipro_attr_write DME_ARA_INIT_STATUS (failed_status bs (m_errno m)) 0 ATTR_LOCAL m) = Spin.
Proof.
  unfold halt_and_catch_fire. cbn [halt_at].
  unfold merge_errno_with_boot_status, get_last_error, advertise_with.
  cbv [mbind boot_bind gets mret boot_ret].
  destruct (m_offline m) eqn:Ho; [by left|].
  unfold failed_status.
  destruct (chip_unipro_attr_write _ _ _ _ m) as [o m1] eqn:Ew.
  assert (Hw : (exists rc, o = Done rc) \/ o = Spin) by (eapply attr_write_outcome; eauto).
  destruct Hw as [[rc ->]| ->]; [|by right].
  left. by destruct (rc =? 0).
Qed.

(** Merging the error code into a boot status keeps the two halves of the
    word apart: bits 24-31 come from the status alone, bits 0-23 are exactly the
    recorded error codes. *)
Theorem merge_errno_fields bs m : exists st,
  merge_errno_with_boot_status bs m = (Done st, m) /\
  Z.land st INIT_STATUS_ERROR_CODE_MASK = Z.land (m_errno m) INIT_STATUS_ERROR_CODE_MASK /\
  Z.land st (Z.lor INIT_STATUS_STATUS_MASK INIT_STATUS_ERROR_MASK) =
    Z.land bs (Z.lor INIT_STATUS_STATUS_MASK INIT_STATUS_ERROR_MASK).
Proof.
  eexists. split; [reflexivity|].
  rewrite !Z.land_lor_distr_l, <- !Z.land_assoc.
  change (~₃₂ INIT_STATUS_ERROR_CODE_MASK) with 0xff000000.
  change (Z.lor INIT_STATUS_STATUS_MASK INIT_STATUS_ERROR_MASK) with 0xff000000.
  change (Z.land 0xff000000 INIT_STATUS_ERROR_CODE_MASK) with 0.
  change (Z.land INIT_STATUS_ERROR_CODE_MASK 0xff000000) with 0.
  by rewrite !Z.land_diag, !Z.land_0_r, Z.lor_0_r, Z.lor_0_l.
Qed.
End props.

(** A code recorded during primary SPI boot on the simulated chip; a second
    code does not replace it. *)
Lemma set_last_error_witness :
  let P := sim_platform Stage1 [] [] in
  let m1 := snd (@set_last_error P sim_hw BRE_TFTF_SENTINEL (sim_machine (sim_soc ∅ []))) in
  let m2 := snd (@set_last_error P sim_hw BRE_TFTF_COLLISION m1) in
  m_errno m1 = BRE_TFTF_SENTINEL /\ m_errno m2 = BRE_TFTF_SENTINEL /\
  exists mask shift, zone_of Stage1 mask shift /\
    Z.land (m_errno m2) mask =
      if Z.land (m_errno m1) mask =? 0 then Z.shiftl BRE_TFTF_COLLISION shift
      else Z.land (m_errno m1) mask.
Proof.
  intros P m1 m2. split; [vm_compute; reflexivity|]. split; [vm_compute; reflexivity|].
  destruct (@set_last_error_first_sticks P sim_hw BRE_TFTF_COLLISION m1 m2) as (mask & shift & Hz & _ & Hl).
  - vm_compute; split; [discriminate|reflexivity].
  - apply (run_done (@set_last_error P sim_hw BRE_TFTF_COLLISION) m1 tt). vm_compute. reflexivity.
  - exists mask, shift. split; [exact Hz|exact Hl].
Defined.
