(* ===== verification/Crypto.v ===== *)
(** * Crypto: hashing, key lookup and signature checks (common/src/crypto.c)

    The boot ROM calls its primitives through function pointers that
    [crypto_init] fetches from the communication area; in stage 2 they are the
    boot ROM's.  A call through a null or foreign pointer is a [Fault]. *)

From S2P Require Import Prelude Utils Sha256 Sha256Spec Rsa Machine Chip.

(** ** Signature block ([tftf_signature], common/shared_inc/tftf.h) *)
Definition TFTF_SIGNATURE_KEY_NAME_SIZE : Z := 96.
Definition TFTF_SIGNATURE_SIZE : Z := 256.
Definition sig_type (s : list Z) : Z := get32 s 4.
Definition sig_key_name (s : list Z) : list Z := sub s 8 TFTF_SIGNATURE_KEY_NAME_SIZE.
Definition sig_signature (s : list Z) : list Z := sub s 104 TFTF_SIGNATURE_SIZE.

(** [shared_function_index] of communication_area.h. *)
Definition SHARED_FUNCTION_SHA256_INIT : nat := 0.
Definition SHARED_FUNCTION_SHA256_PROCESS : nat := 1.
Definition SHARED_FUNCTION_SHA256_HASH : nat := 2.
Definition SHARED_FUNCTION_RSA2048_VERIFY : nat := 3.
Definition SHARED_FUNCTION_ENTER_STANDBY : nat := 4.
Definition NUMBER_OF_SHARED_FUNCTIONS : nat := 5.

Definition set_shctx (c : Sha256.ctx) (cs : crypto_state) : crypto_state :=
  {| c_shctx := c; c_sha256_init_func := c_sha256_init_func cs;
     c_sha256_process_func := c_sha256_process_func cs;
     c_sha256_hash_func := c_sha256_hash_func cs;
     c_rsa2048_verify_func := c_rsa2048_verify_func cs |}.

(** The context after hashing [bs]. *)
Definition absorb (bs : list Z) (cs : crypto_state) : crypto_state :=
  set_shctx (foldl Sha256.shs256_process (c_shctx cs) bs) cs.

Definition set_shared_functions (fs : list (option shared_fn)) (ca : communication_area) :=
  {| ca_keys := ca_keys ca; ca_shared_functions := fs;
     ca_endpoint_unique_id := ca_endpoint_unique_id ca;
     ca_stage_2_firmware_identity := ca_stage_2_firmware_identity ca;
     ca_stage_2_validation_key_name := ca_stage_2_validation_key_name ca;
     ca_build_timestamp := ca_build_timestamp ca;
     ca_firmware_package_name := ca_firmware_package_name ca |}.

Definition set_stage_2_identity (id name : list Z) (ca : communication_area) :=
  {| ca_keys := ca_keys ca; ca_shared_functions := ca_shared_functions ca;
     ca_endpoint_unique_id := ca_endpoint_unique_id ca;
     ca_stage_2_firmware_identity := id;
     ca_stage_2_validation_key_name := name;
     ca_build_timestamp := ca_build_timestamp ca;
     ca_firmware_package_name := ca_firmware_package_name ca |}.

Section crypto.
Context `{Platform, Hardware}.

Definition hash_start : B unit :=
  cs ← gets m_crypto;
  match c_sha256_init_func cs with
  | Some FN_shs256_init => modify (set_crypto (set_shctx (Sha256.shs256_init (c_shctx cs)) cs))
  | _ => fault
  end.

(** One indirect call per byte. *)
Fixpoint hash_update (data : list Z) : B unit :=
  match data with
  | [] => mret tt
  | b :: data =>
      cs ← gets m_crypto;
      match c_sha256_process_func cs with
      | Some FN_shs256_process =>
          modify (set_crypto (set_shctx (Sha256.shs256_process (c_shctx cs) b) cs)) ;;
          hash_update data
      | _ => fault
      end
  end.

(** The digest the caller's buffer receives. *)
Definition hash_final : B (list Z) :=
  cs ← gets m_crypto;
  match c_sha256_hash_func cs with
  | Some FN_shs256_hash =>
      let '(digest, c) := Sha256.shs256_hash (c_shctx cs) in
      modify (set_crypto (set_shctx c cs)) ;; mret digest
  | _ => fault
  end.

(** ** Key lookup *)

(** The loop over the ROM keys from index [k] on. *)
Fixpoint find_rom_key (keys : list crypto_public_key) (k : Z) (sig : list Z) : B (option (list Z)) :=
  match keys with
  | [] => mret None
  | key :: keys =>
      revoked ← chip_is_key_revoked k;
      if (revoked : bool) then find_rom_key keys (k + 1) sig
      else if negb (pk_type key =? sig_type sig) then find_rom_key keys (k + 1) sig
      else
        c ← the (strncmp (pk_key_name key) (sig_key_name sig) 96);
        if c =? 0 then mret (Some (pk_key key)) else find_rom_key keys (k + 1) sig
  end.

(** Key [k] of the configuration data; the buffer may end before it does. *)
Definition cfg_public_key (cfg : secondstage_cfgdata) (k : Z) : option crypto_public_key :=
  let b := cfg_public_keys_bytes cfg in
  if 356 * k + 356 <=? Z.of_nat (length b)
  then Some {| pk_type := get32 b (356 * k); pk_key_name := sub b (356 * k + 4) 96;
               pk_key := sub b (356 * k + 100) 256 |}
  else None.

Fixpoint find_cfg_key (cfg : secondstage_cfgdata) (n : nat) (k : Z) (sig : list Z) : B (option (list Z)) :=
  match n with
  | O => mret None
  | S n =>
      key ← the (cfg_public_key cfg k);
      if negb (pk_type key =? sig_type sig) then find_cfg_key cfg n (k + 1) sig
      else
        c ← the (strncmp (pk_key_name key) (sig_key_name sig) 96);
        if c =? 0 then mret (Some (pk_key key)) else find_cfg_key cfg n (k + 1) sig
  end.

(** [Some key] when the C function returns 0. *)
Definition find_public_key (sig : list Z) : B (option (list Z)) :=
  match boot_stage with
  | Stage1 => find_rom_key public_keys 0 sig
  | Stage2 =>
      match get_2ndstage_cfgdata with
      | Some cfg => find_cfg_key cfg (Z.to_nat (number_of_public_keys cfg)) 0 sig
      | None => mret None
      end
  end.

Definition verify_signature (digest sig : list Z) : B Z :=
  key ← find_public_key sig;
  match key with
  | None => mret (-1)
  | Some public_key =>
      cs ← gets m_crypto;
      match c_rsa2048_verify_func cs with
      | Some FN_rsa_verify =>
          v ← the (Rsa.rsa_verify digest public_key (sig_signature sig));
          if v =? 0 then mret (-1)
          else
            match boot_stage with
            | Stage1 =>
                ca ← gets m_comm;
                modify (set_comm (set_stage_2_identity (take 32 digest) (take 96 (sig_key_name sig)) ca)) ;;
                mret 0
            | Stage2 => mret 0
            end
      | _ => fault
      end
  end.

(** ** Shared functions *)

Definition get_shared_function (index : nat) : B (option shared_fn) :=
  if (NUMBER_OF_SHARED_FUNCTIONS <=? index)%nat then mret None
  else ca ← gets m_comm; mret (default None (ca_shared_functions ca !! index)).

Definition set_shared_function (index : nat) (func : option shared_fn) : B unit :=
  if (NUMBER_OF_SHARED_FUNCTIONS <=? index)%nat then mret tt
  else
    ca ← gets m_comm;
    modify (set_comm (set_shared_functions (<[index := func]> (ca_shared_functions ca)) ca)).

Definition crypto_init : B unit :=
  match boot_stage with
  | Stage1 =>
      set_shared_function SHARED_FUNCTION_SHA256_INIT (Some FN_shs256_init) ;;
      set_shared_function SHARED_FUNCTION_SHA256_PROCESS (Some FN_shs256_process) ;;
      set_shared_function SHARED_FUNCTION_SHA256_HASH (Some FN_shs256_hash) ;;
      set_shared_function SHARED_FUNCTION_RSA2048_VERIFY (Some FN_rsa_verify)
  | Stage2 => mret tt
  end ;;
  fi ← get_shared_function SHARED_FUNCTION_SHA256_INIT;
  fp ← get_shared_function SHARED_FUNCTION_SHA256_PROCESS;
  fh ← get_shared_function SHARED_FUNCTION_SHA256_HASH;
  fr ← get_shared_function SHARED_FUNCTION_RSA2048_VERIFY;
  modify (λ m, set_crypto {| c_shctx := c_shctx (m_crypto m);
     c_sha256_init_func := fi; c_sha256_process_func := fp;
     c_sha256_hash_func := fh; c_rsa2048_verify_func := fr |} m).

(** ** Facts about single operations *)

Lemma hash_update_done bs : forall m m',
  hash_update bs m = (Done tt, m') -> m' = set_crypto (absorb bs (m_crypto m)) m.
Proof.
  induction bs as [|b bs IH]; intros m m' E; cbn [hash_update] in E.
  - inv_done. destruct m' as [???????????? ? ?]. by destruct m_crypto.
  - inv_done. destruct (c_sha256_process_func (m_crypto s)) as [[]|] eqn:Ef; try done.
    inv_done. apply IH in E. subst m'. by destruct s as [???????????? ? ?].
Qed.

Lemma hash_start_done m m' :
  hash_start m = (Done tt, m') ->
  m' = set_crypto (set_shctx (Sha256.shs256_init (c_shctx (m_crypto m))) (m_crypto m)) m.
Proof.
  unfold hash_start. intros E. inv_done.
  destruct (c_sha256_init_func (m_crypto s)) as [[]|]; try done. by inv_done.
Qed.

Lemma hash_final_done m m' d :
  hash_final m = (Done d, m') ->
  d = fst (Sha256.shs256_hash (c_shctx (m_crypto m))) /\
  exists c, m' = set_crypto (set_shctx c (m_crypto m)) m.
Proof.
  unfold hash_final. intros E. inv_done.
  destruct (c_sha256_hash_func (m_crypto s)) as [[]|]; try done.
  destruct (Sha256.shs256_hash _) as [digest c]. inv_done. eauto.
Qed.

End crypto.

(** ** Frame *)

Section frame.
Context `{Platform, Hardware}.

Lemma pres_find_rom_key keys sig : forall k, pres only_dev (find_rom_key keys k sig).
Proof. induction keys; intros k; cbn [find_rom_key]; pres_auto. Qed.

Lemma pres_find_cfg_key cfg sig n : forall k, pres only_dev (find_cfg_key cfg n k sig).
Proof. induction n; intros k; cbn [find_cfg_key]; pres_auto. Qed.

Lemma pres_find_public_key sig : pres only_dev (find_public_key sig).
Proof.
  unfold find_public_key. destruct boot_stage; [apply pres_find_rom_key|].
  destruct get_2ndstage_cfgdata; [apply pres_find_cfg_key | pres_auto].
Qed.
End frame.

(** ** Which keys are trusted *)

Section trust.
Context `{Platform, Hardware, !PlatformOk, !Fuses}.

(** The fuses leave ROM key [k] valid. *)
Definition not_revoked (k : Z) : Prop := k < 4 /\ Z.testbit scr k = false.

(** The signature block [sig] names the key [pk]. *)
Definition names_key (sig : list Z) (pk : crypto_public_key) : Prop :=
  pk_type pk = sig_type sig /\ cstr 96 (pk_key_name pk) = cstr 96 (sig_key_name sig).

(** [pk] is a key of the running stage that [sig] may be checked against. *)
Definition trusted_key (sig : list Z) (pk : crypto_public_key) : Prop :=
  match boot_stage with
  | Stage1 => exists k, public_keys !! k = Some pk /\ not_revoked (Z.of_nat k)
  | Stage2 => exists cfg k, get_2ndstage_cfgdata = Some cfg /\
      0 <= k < number_of_public_keys cfg /\ cfg_public_key cfg k = Some pk
  end /\ names_key sig pk.

(** Keys are 256 bytes. *)
Lemma trusted_key_ok sig pk :
  trusted_key sig pk -> length (pk_key pk) = 256%nat /\ bytes_ok (pk_key pk).
Proof.
  intros [Hk _]. destruct boot_stage.
  - destruct Hk as (k & Hk & _). pose proof public_keys_ok as Hok. rewrite Forall_lookup in Hok.
    apply (Hok k pk Hk).
  - destruct Hk as (cfg & k & Hc & Hk & E). unfold get_2ndstage_cfgdata in Hc.
    unfold cfg_public_key in E. destruct (_ <=? _) eqn:Hb; [|done]. apply Z.leb_le in Hb.
    injection E as <-. cbn [pk_key]. split; [by rewrite length_sub by lia|]. apply bytes_ok_sub.
    case_match; [|done]. injection Hc as <-. cbn. apply Forall_drop, s2l_buf_ok.
Qed.

Lemma key_revoked_false k m m' :
  0 <= k < 32 -> chip_is_key_revoked k m = (Done false, m') -> not_revoked k.
Proof.
  intros Hk E. unfold chip_is_key_revoked in E. cbv zeta in E.
  rewrite u32_small in E by (unfold is_u32; rewrite Z.shiftl_1_l; split; [lia|]; apply Z.pow_lt_mono_r; lia).
  destruct (Z.eqb_spec (Z.land (Z.shiftl 1 k) TSB_ISAA_ROM_KEY_VALIDITY) 0) as [|Hv]; [inv_done; done|].
  destruct (isaa_read_scr m) as [d Es]. rewrite (bind_step _ _ _ _ _ Es) in E.
  split.
  - destruct (Z.lt_ge_cases k 4); [done|]. exfalso. apply Hv. bits_eq.
    rewrite Z.bits_0. change TSB_ISAA_ROM_KEY_VALIDITY with (Z.ones 4).
    destruct (Z.lt_ge_cases i 4); [|rewrite Z.ones_spec_high by lia; apply andb_false_r].
    rewrite Z.shiftl_spec by lia. by rewrite Z.testbit_neg_r by lia.
  - injection E as Hz _. apply negb_false_iff, Z.eqb_eq in Hz.
    assert (Hb : Z.testbit (Z.land scr (Z.shiftl 1 k)) k = false) by (by rewrite Hz, Z.bits_0).
    rewrite Z.land_spec, Z.shiftl_spec, Z.sub_diag, andb_true_r in Hb by lia. done.
Qed.

Lemma find_rom_key_done keys : forall k sig m m' key,
  Forall (λ k, length (pk_key_name k) = 96%nat /\ length (pk_key k) = 256%nat /\ bytes_ok (pk_key k)) keys ->
  0 <= k -> k + Z.of_nat (length keys) <= 32 -> length sig = 360%nat ->
  find_rom_key keys k sig m = (Done (Some key), m') ->
  only_dev m m' /\ exists i pk, keys !! i = Some pk /\ pk_key pk = key /\
    names_key sig pk /\ not_revoked (k + Z.of_nat i).
Proof.
  induction keys as [|pk keys IH]; intros k sig m m' key Hok Hk Hn Hs E; cbn [find_rom_key] in E.
  { by inv_done. }
  cbn [length] in Hn. inversion Hok as [|? ? (Hname & _) Hok']; subst.
  apply bind_done in E. destruct E as (revoked & m1 & Erev & E).
  assert (Hd : only_dev m m1) by (by apply (pres_run _ _ _ _ _ (pres_key_revoked k) Erev)).
  assert (Hrec : find_rom_key keys (k + 1) sig m1 = (Done (Some key), m') -> only_dev m m' /\
    exists i pk0, (pk :: keys) !! i = Some pk0 /\ pk_key pk0 = key /\
    names_key sig pk0 /\ not_revoked (k + Z.of_nat i)).
  { intros E'. apply IH in E' as (Hd' & i & pk0 & Hi & Hkey & Hnm & Hrev); [|done|lia|lia|done].
    split; [by etrans|]. exists (S i), pk0.
    replace (k + Z.of_nat (S i)) with (k + 1 + Z.of_nat i) by lia.
    by split_and!. }
  destruct revoked; [by apply Hrec|].
  destruct (Z.eqb_spec (pk_type pk) (sig_type sig)) as [Hty|]; [|by apply Hrec]. cbn [negb] in E.
  apply bind_done in E. destruct E as (c & m2 & Ec & E). apply the_done in Ec as [Ec ->].
  destruct (Z.eqb_spec c 0) as [->|]; [|by apply Hrec].
  inv_done. split; [done|]. exists 0%nat, pk. rewrite Z.add_0_r. split_and!; [done|done| |].
  - split; [done|]. apply strncmp_zero in Ec; [done | lia |].
    unfold sig_key_name. rewrite length_sub; rewrite ?Hs; unfold TFTF_SIGNATURE_KEY_NAME_SIZE; lia.
  - by apply (key_revoked_false k m m'); [lia|].
Qed.

Lemma find_cfg_key_done cfg sig n : forall k m m' key,
  0 <= k -> length sig = 360%nat ->
  find_cfg_key cfg n k sig m = (Done (Some key), m') ->
  m' = m /\ exists i pk, k <= i < k + Z.of_nat n /\ cfg_public_key cfg i = Some pk /\
    pk_key pk = key /\ names_key sig pk.
Proof.
  induction n as [|n IH]; intros k m m' key Hk Hs E; cbn [find_cfg_key] in E.
  { by inv_done. }
  apply bind_done in E. destruct E as (pk & m1 & Epk & E). apply the_done in Epk as [Epk ->].
  assert (Hrec : find_cfg_key cfg n (k + 1) sig m = (Done (Some key), m') ->
    m' = m /\ exists i pk, k <= i < k + Z.of_nat (S n) /\ cfg_public_key cfg i = Some pk /\
    pk_key pk = key /\ names_key sig pk).
  { intros E'. apply IH in E' as (-> & i & pk0 & Hi & Hrest); [|lia|done].
    split; [done|]. exists i, pk0. split; [lia|done]. }
  destruct (Z.eqb_spec (pk_type pk) (sig_type sig)) as [Hty|]; [|by apply Hrec]. cbn [negb] in E.
  apply bind_done in E. destruct E as (c & m2 & Ec & E). apply the_done in Ec as [Ec ->].
  destruct (Z.eqb_spec c 0) as [->|]; [|by apply Hrec].
  inv_done. split; [done|]. exists k, pk. split_and!; [lia|lia|done|done|].
  split; [done|]. unfold cfg_public_key in Epk. case_match eqn:Hb; [|done].
  apply Z.leb_le in Hb. injection Epk as <-. cbn [pk_key_name] in *.
  apply strncmp_zero in Ec; [done| |].
  - rewrite length_sub by lia. lia.
  - unfold sig_key_name. rewrite length_sub; rewrite ?Hs; unfold TFTF_SIGNATURE_KEY_NAME_SIZE; lia.
Qed.

Lemma find_public_key_done sig m m' key :
  length sig = 360%nat -> find_public_key sig m = (Done (Some key), m') ->
  only_dev m m' /\ exists pk, trusted_key sig pk /\ pk_key pk = key.
Proof.
  intros Hs E. unfold find_public_key, trusted_key in *. destruct boot_stage.
  - apply find_rom_key_done in E as (Hd & i & pk & Hi & Hkey & Hn & Hrev);
      [|apply public_keys_ok|lia|pose proof public_keys_few; lia|done].
    split; [done|]. exists pk. split; [|done]. split; [|done]. by exists i.
  - destruct get_2ndstage_cfgdata as [cfg|]; [|by inv_done].
    apply find_cfg_key_done in E as (-> & i & pk & Hi & Hpk & Hkey & Hn); [|lia|done].
    split; [reflexivity|]. exists pk. split; [|done]. split; [|done]. exists cfg, i.
    split_and!; try done; lia.
Qed.

(** The signature block [sig] proves [digest] under a trusted key. *)
Definition proves (sig digest : list Z) : Prop :=
  length sig = 360%nat /\ bytes_ok sig /\
  exists pk, trusted_key sig pk /\ Rsa.rsa_verify digest (pk_key pk) (sig_signature sig) = Some 1.

(** What a signature check can change: devices, and in stage 1 the identity
    fields of the communication area. *)
Definition only_identity (m m' : machine) : Prop :=
  exists d id name, m' = set_dev d (set_comm (set_stage_2_identity id name (m_comm m)) m).

Lemma call_rsa {A} f (k : B A) m o m' :
  match f with Some FN_rsa_verify => k | _ => fault end m = (o, m') ->
  k m = (o, m') \/ (o = Fault /\ m' = m).
Proof. destruct f as [[]|]; auto; intros [= <- <-]; auto. Qed.

Lemma pres_call_rsa {A} R `{!Reflexive R} f (k : B A) :
  pres R k -> pres R match f with Some FN_rsa_verify => k | _ => fault end.
Proof. intros Hk. destruct f as [[]|]; try done; intros m; simpl; reflexivity. Qed.

Lemma verify_signature_ok digest sig m m' :
  length sig = 360%nat /\ bytes_ok sig ->
  verify_signature digest sig m = (Done 0, m') -> proves sig digest.
Proof.
  intros [Hs Hb] E. split; [exact Hs|]. split; [exact Hb|]. unfold verify_signature in E.
  apply bind_done in E. destruct E as (key & m1 & Ek & E). destruct key as [key|]; [|by inv_done].
  apply find_public_key_done in Ek as (_ & pk & Ht & <-); [|done].
  exists pk. split; [done|]. apply bind_done in E. destruct E as (cs & m2 & Ecs & E).
  apply call_rsa in E as [E|[? _]]; [|discriminate].
  apply bind_done in E. destruct E as (v & m3 & Ev & E). apply the_done in Ev as [Ev ->].
  rewrite Ev. f_equal. destruct (Rsa.rsa_verify_verdict _ _ _ _ Ev) as [->| ->]; [|done].
  clear Ev. by inv_done.
Qed.

#[export] Instance only_identity_refl : Reflexive only_identity.
Proof.
  intros m. exists (m_dev m), (ca_stage_2_firmware_identity (m_comm m)), (ca_stage_2_validation_key_name (m_comm m)).
  destruct m as [? ? ? ? ? ? ? ? ? ? ca ? ? ?]. by destruct ca.
Qed.
#[export] Instance only_identity_trans : Transitive only_identity.
Proof.
  intros m1 m2 m3 (d & i & n & ->) (d' & i' & n' & ->). exists d', i', n'. by destruct m1.
Qed.

Lemma only_dev_identity m m' : only_dev m m' -> only_identity m m'.
Proof.
  intros [d ->].
  exists d, (ca_stage_2_firmware_identity (m_comm m)), (ca_stage_2_validation_key_name (m_comm m)).
  destruct m as [? ? ? ? ? ? ? ? ? ? ca ? ? ?]. by destruct ca.
Qed.

(** In stage 1 the check copies the digest and key name out of the very state
    it runs in, so the write of the communication area is framed by hand. *)
Lemma pres_set_identity id name :
  pres only_identity (ca ← gets m_comm; modify (set_comm (set_stage_2_identity id name ca)) ;; mret 0).
Proof. intros m. exists (m_dev m), id, name. by destruct m. Qed.

Lemma pres_verify_signature digest sig : pres only_identity (verify_signature digest sig).
Proof.
  unfold verify_signature. apply pres_bind; [typeclasses eauto| |].
  { intros m. apply only_dev_identity, pres_find_public_key. }
  intros [key|]; [|pres_auto]. apply pres_bind; [typeclasses eauto|pres_auto|]. intros cs.
  apply pres_call_rsa; [typeclasses eauto|].
  apply pres_bind; [typeclasses eauto|apply pres_the; typeclasses eauto|]. intros v.
  apply pres_if; [pres_auto|]. destruct boot_stage; [apply pres_set_identity | pres_auto].
Qed.

End trust.
