(* ===== verification/Loading.v ===== *)
(** * Loading: what a storage driver promises the image loader

    The TFTF loader reads images through a [data_load_ops] table.  This file
    states the contract of its [load] member as a class: a successful call puts
    exactly [n] bytes at the destination, hashes them if asked to, and leaves
    everything else the loader looks at alone.  The SPI and Greybus files show
    that their tables satisfy it; the TFTF theorems are proved from the class
    alone. *)

From S2P Require Import Prelude Sha256 Machine Chip Errors Crypto.

(** ** RAM up to the value of its bytes *)

Definition ram_eq (r r' : gmap Z Z) : Prop := forall a, ram_get r a = ram_get r' a.

#[export] Instance ram_eq_equiv : Equivalence ram_eq.
Proof.
  split; [done | intros r r' Hr a; by rewrite Hr | intros r1 r2 r3 H1 H2 a; by rewrite H1, H2].
Qed.

#[export] Instance ram_get_proper : Proper (ram_eq ==> eq ==> eq) ram_get.
Proof. intros r r' Hr a ? <-. apply Hr. Qed.

#[export] Instance ram_write_proper : Proper (eq ==> eq ==> ram_eq ==> ram_eq) ram_write.
Proof.
  intros a ? <- bs ? <- r r' Hr x. unfold ram_get. rewrite !lookup_ram_write.
  case_decide; [done|]. apply Hr.
Qed.

#[export] Instance ram_read_proper : Proper (ram_eq ==> eq ==> eq ==> eq) ram_read.
Proof. intros r r' Hr a ? <- n ? <-. unfold ram_read. apply map_ext. intros x. apply Hr. Qed.

Lemma ram_write_app a bs1 bs2 r :
  ram_write a (bs1 ++ bs2) r = ram_write (a + Z.of_nat (length bs1)) bs2 (ram_write a bs1 r).
Proof.
  revert a r. induction bs1 as [|b bs1 IH]; intros a r; cbn [app ram_write length].
  - by rewrite Z.add_0_r.
  - rewrite IH. f_equal. lia.
Qed.

Lemma ram_get_write_bytes a bs r x :
  (forall y, is_u8 (ram_get r y)) -> bytes_ok bs -> is_u8 (ram_get (ram_write a bs r) x).
Proof.
  intros Hr Hbs. unfold ram_get. rewrite lookup_ram_write. case_decide; [|apply Hr].
  destruct (bs !! _) as [b|] eqn:Eb; [|done]. simpl.
  rewrite Forall_lookup in Hbs. by eapply Hbs.
Qed.

Section loading.
Context `{Platform, Hardware}.

(** ** Well-formed memory: object sizes, and bytes that are bytes *)
Record mem_ok (m : machine) : Prop := {
  ok_header : length (t_header (m_tftf m)) = 4096%nat /\ bytes_ok (t_header (m_tftf m));
  ok_signature : length (t_signature (m_tftf m)) = 360%nat /\ bytes_ok (t_signature (m_tftf m));
  ok_temp : length (m_temp m) = 2048%nat /\ bytes_ok (m_temp m);
  ok_ffff1 : length (f_header1 (m_ffff m)) = 4096%nat /\ bytes_ok (f_header1 (m_ffff m));
  ok_ffff2 : length (f_header2 (m_ffff m)) = 4096%nat /\ bytes_ok (f_header2 (m_ffff m));
  ok_ram : forall a, is_u8 (ram_get (m_ram m) a)
}.

(** Machines that agree on all but devices, error code and transport state. *)
Record image_eq (m m' : machine) : Prop := {
  ie_ram : ram_eq (m_ram m) (m_ram m');
  ie_temp : m_temp m = m_temp m';
  ie_vid : m_ara_vid m = m_ara_vid m';
  ie_pid : m_ara_pid m = m_ara_pid m';
  ie_tftf : m_tftf m = m_tftf m';
  ie_ffff : m_ffff m = m_ffff m';
  ie_crypto : m_crypto m = m_crypto m';
  ie_comm : m_comm m = m_comm m'
}.

#[export] Instance image_eq_equiv : Equivalence image_eq.
Proof.
  split.
  - intros m. by split.
  - intros m m' []. by split; symmetry.
  - intros m1 m2 m3 [] []. by split; etrans.
Qed.

Lemma mem_ok_image m m' : image_eq m m' -> mem_ok m -> mem_ok m'.
Proof.
  intros [Hr Ht _ _ Hf Hff _ _] [? ? ? ? ? Hram].
  split; rewrite <- ?Ht, <- ?Hf, <- ?Hff; try done. intros a. by rewrite <- Hr.
Qed.

Lemma only_dev_image m m' : only_dev m m' -> image_eq m m'.
Proof. intros [d ->]. by split. Qed.
Lemma only_err_image m m' : only_err m m' -> image_eq m m'.
Proof. intros (d & e & o & ->). by split. Qed.

(** What lies outside of the RAM left to images is as it was. *)
Definition ram_kept (m m' : machine) : Prop :=
  forall a, ~ (ram_lo <= a < ram_hi) -> ram_get (m_ram m') a = ram_get (m_ram m) a.

#[export] Instance ram_kept_preorder : PreOrder ram_kept.
Proof.
  split; [done|]. intros m1 m2 m3 H1 H2 a Ha. by rewrite H2, H1.
Qed.

Lemma image_eq_kept m m' : image_eq m m' -> ram_kept m m'.
Proof. intros [Hr _ _ _ _ _ _ _] a _. by rewrite Hr. Qed.

Lemma ram_kept_write p bs m : in_bounds p (Z.of_nat (length bs)) m = true -> ram_kept m (mem_write p bs m).
Proof.
  unfold in_bounds, mem_write. intros Hin a Ha. apply andb_true_iff in Hin as [_ Hin].
  destruct (p_blk p); try done. rewrite !andb_true_iff, !Z.leb_le in Hin. apply ram_get_write_out. lia.
Qed.

(** ** The contract *)
Definition hashed (h : bool) (bs : list Z) (m : machine) : machine :=
  if h then set_crypto (absorb bs (m_crypto m)) m else m.

Lemma hashed_kept h bs m : ram_kept m (hashed h bs m).
Proof. by destruct h. Qed.

Lemma hashed_nil h m : hashed h [] m = m.
Proof.
  destruct h; [|done]. destruct m as [? ? ? ? ? ? ? ? ? c ? ? ? ?]. unfold hashed, absorb, set_shctx. cbn.
  by destruct c.
Qed.

Record loaded (p : ptr) (n : Z) (h : bool) (bs : list Z) (m m' : machine) : Prop := {
  ld_length : Z.of_nat (length bs) = n;
  ld_bytes : bytes_ok bs;
  ld_bounds : bs = [] \/ p_blk p = BRam \/ in_bounds p n m = true;
  ld_kept : ram_kept m m';
  ld_state : image_eq m' (hashed h bs (mem_write p bs m))
}.

(** The destination: an object with room for [n] bytes, or RAM. *)
Definition roomy (p : ptr) (n : Z) (m : machine) : Prop := p_blk p = BRam \/ in_bounds p n m = true.

Class LoadOk (ops : data_load_ops) : Prop :=
  load_ok p n h m m' :
    mem_ok m -> is_u32 n -> roomy p n m -> ops_load ops p n h m = (Done 0, m') ->
    exists bs, loaded p n h bs m m'.

(** [n] bytes of storage from address [a]. *)
Definition flash_bytes (flash : Z -> Z) (a n : Z) : list Z := map flash (seqZ a n).

(** The contract of [read]: a successful call puts the storage contents at the
    destination, if the range does not wrap around the address space. *)
Class ReadOk (rd : ptr -> Z -> Z -> B Z) (flash : Z -> Z) : Prop := {
  flash_u8 a : is_u8 (flash a);
  read_ok p addr n m m' :
    mem_ok m -> is_u32 n -> 0 <= addr -> addr + n < 2 ^ 32 -> rd p addr n m = (Done 0, m') ->
    loaded p n false (flash_bytes flash addr n) m m'
}.

Lemma mem_ok_write p bs m :
  mem_ok m -> bytes_ok bs -> in_bounds p (Z.of_nat (length bs)) m = true ->
  mem_ok (mem_write p bs m).
Proof.
  intros [[] [] [] [] [] Hram] Hbs Hin. unfold in_bounds in Hin.
  apply andb_true_iff in Hin as [Hlo Hin]. apply Z.leb_le in Hlo.
  unfold mem_write. destruct p as [b o]; destruct b; cbn [p_blk p_ofs blk_get] in *;
    try (apply Z.leb_le in Hin); split; cbn;
    rewrite ?length_splice by lia; auto using bytes_ok_splice, ram_get_write_bytes.
Qed.

Lemma mem_ok_write_ram p bs m : p_blk p = BRam -> mem_ok m -> bytes_ok bs -> mem_ok (mem_write p bs m).
Proof.
  intros Hp [] Hbs. unfold mem_write. rewrite Hp. split; try done. cbn. auto using ram_get_write_bytes.
Qed.

Lemma mem_ok_hashed h bs m : mem_ok m -> mem_ok (hashed h bs m).
Proof. destruct h; [|done]. intros []. by split. Qed.

Lemma mem_write_nil p m : image_eq (mem_write p [] m) m.
Proof.
  unfold mem_write. destruct m as [? ? ? ? ? ? ? t f ? ? ? ? ?], p as [[] o];
    cbn [p_blk p_ofs blk_get blk_set ram_write]; rewrite ?splice_nil; split; try done;
    cbn; rewrite ?splice_nil; first [by destruct t | by destruct f].
Qed.

(** A write that stayed in its object, or was empty. *)
Lemma ram_kept_stored p n bs m :
  Z.of_nat (length bs) = n -> bs = [] \/ in_bounds p n m = true -> ram_kept m (mem_write p bs m).
Proof.
  intros <- [->|Hin]; [apply image_eq_kept; symmetry; apply mem_write_nil | by apply ram_kept_write].
Qed.

Lemma ram_kept_loaded p h bs m m' :
  ram_kept m (mem_write p bs m) -> image_eq m' (hashed h bs (mem_write p bs m)) -> ram_kept m m'.
Proof.
  intros Hk He. etrans; [exact Hk|]. transitivity (hashed h bs (mem_write p bs m)); [apply hashed_kept|].
  apply image_eq_kept. by symmetry.
Qed.

Lemma loaded_intro p n h bs m m' :
  Z.of_nat (length bs) = n -> bytes_ok bs -> bs = [] \/ in_bounds p n m = true ->
  image_eq m' (hashed h bs (mem_write p bs m)) -> loaded p n h bs m m'.
Proof.
  intros Hl Hb Hin He. split; [done|done| | |done].
  - destruct Hin; auto.
  - apply (ram_kept_loaded p h bs); [by apply (ram_kept_stored p n)|done].
Qed.

Lemma mem_ok_loaded p n h bs m m' : mem_ok m -> loaded p n h bs m m' -> mem_ok m'.
Proof.
  intros Hm [Hl Hb Hin _ Hs]. eapply mem_ok_image; [symmetry; exact Hs|]. apply mem_ok_hashed.
  destruct Hin as [->|[Hp|Hin]]; [|by apply mem_ok_write_ram|by apply mem_ok_write; [..|rewrite Hl]].
  eapply mem_ok_image; [symmetry; apply mem_write_nil|done].
Qed.

(** ** Writes in sequence, and reading back *)

Lemma image_eq_blk m m' b : image_eq m m' -> blk_get b m = blk_get b m'.
Proof. intros []. destruct b; cbn; congruence. Qed.

Lemma image_eq_bounds m m' p n : image_eq m m' -> in_bounds p n m = in_bounds p n m'.
Proof.
  intros He. unfold in_bounds. destruct p as [[] o]; cbn [p_blk p_ofs]; try done;
    by rewrite (image_eq_blk m m' _ He).
Qed.

#[export] Instance mem_write_proper p bs : Proper (image_eq ==> image_eq) (mem_write p bs).
Proof.
  intros m m' He. pose proof (image_eq_blk m m' (p_blk p) He) as Hb. unfold mem_write.
  destruct p as [[] o]; cbn [p_blk p_ofs] in *; destruct He; split; cbn; try done; try congruence.
  by rewrite ie_ram0.
Qed.

Lemma in_bounds_le p n m :
  0 <= p_ofs p -> match p_blk p with
                  | BRam => ram_lo <= p_ofs p /\ p_ofs p + n <= ram_hi /\ p_ofs p + n <= 2 ^ 32
                  | BNull => n = 0
                  | b => p_ofs p + n <= Z.of_nat (length (blk_get b m))
                  end -> in_bounds p n m = true.
Proof.
  intros Ho Hn. unfold in_bounds. apply andb_true_iff. split; [by apply Z.leb_le|].
  destruct (p_blk p); rewrite ?andb_true_iff, ?Z.leb_le, ?Z.eqb_eq; tauto || lia.
Qed.

Lemma in_bounds_prefix p n k m :
  in_bounds p n m = true -> 0 <= k <= n -> in_bounds p k m = true.
Proof.
  unfold in_bounds. destruct p as [[] o]; cbn [p_blk p_ofs]; rewrite !andb_true_iff, ?Z.leb_le, ?Z.eqb_eq; lia.
Qed.

(** The rest of an object behind a write. *)
Lemma in_bounds_behind p bs n m :
  in_bounds p n m = true -> 0 < Z.of_nat (length bs) <= n ->
  in_bounds (ptr_add p (Z.of_nat (length bs))) (n - Z.of_nat (length bs)) (mem_write p bs m) = true.
Proof.
  unfold in_bounds, mem_write, ptr_add. destruct p as [[] o]; cbn [p_blk p_ofs blk_get];
    rewrite !andb_true_iff, !Z.leb_le; intros [Ho Hin] Hn; rewrite ?Z.eqb_eq in *; cbn;
    rewrite ?length_splice by lia; lia.
Qed.

Lemma mem_write_dev p bs m : m_dev (mem_write p bs m) = m_dev m.
Proof. unfold mem_write. by destruct (p_blk p). Qed.

(** The write [p, n] followed by the write behind it. *)
Lemma in_bounds_app p bs n2 m :
  0 <= n2 -> in_bounds p (Z.of_nat (length bs)) m = true ->
  in_bounds (ptr_add p (Z.of_nat (length bs))) n2 (mem_write p bs m) = true ->
  in_bounds p (Z.of_nat (length bs) + n2) m = true.
Proof.
  unfold in_bounds, mem_write, ptr_add. intros Hn2.
  destruct p as [[] o]; cbn [p_blk p_ofs blk_get]; rewrite !andb_true_iff, !Z.leb_le;
    intros [H1' H2'] [H3' H4']; split; try done; cbn in H4' |- *;
    rewrite ?length_splice in H4' by lia; rewrite ?Z.eqb_eq in *; lia.
Qed.

Lemma mem_write_app p bs1 bs2 m :
  in_bounds p (Z.of_nat (length (bs1 ++ bs2))) m = true ->
  mem_write (ptr_add p (Z.of_nat (length bs1))) bs2 (mem_write p bs1 m) = mem_write p (bs1 ++ bs2) m.
Proof.
  unfold in_bounds, mem_write, ptr_add. destruct m as [? ? ? ? ? ? ? t f ? ? ? ? ?].
  destruct p as [[] o]; cbn [p_blk p_ofs blk_get blk_set]; rewrite andb_true_iff, Z.leb_le;
    intros [Ho Hin]; try rewrite Z.leb_le in Hin; cbn in *; rewrite ?splice_app by done; try done.
  by rewrite ram_write_app.
Qed.

Lemma mem_read_write p bs m :
  in_bounds p (Z.of_nat (length bs)) m = true ->
  mem_read p (Z.of_nat (length bs)) (mem_write p bs m) = bs.
Proof.
  unfold in_bounds, mem_write, mem_read.
  destruct p as [[] o]; cbn [p_blk p_ofs blk_get blk_set]; rewrite andb_true_iff, Z.leb_le;
    intros [Ho Hin]; try rewrite Z.leb_le in Hin; cbn in *; rewrite ?sub_splice_same by done; try done.
  - apply ram_read_write.
  - apply Z.eqb_eq in Hin. by destruct bs.
Qed.

#[export] Instance mem_read_proper p n : Proper (image_eq ==> eq) (mem_read p n).
Proof.
  intros m m' He. unfold mem_read. destruct p as [[] o]; cbn [p_blk p_ofs];
    rewrite ?(image_eq_blk m m' _ He); try done. by rewrite (ie_ram _ _ He).
Qed.

Lemma write_ptr_done p bs m m' :
  write_ptr p bs m = (Done tt, m') ->
  in_bounds p (Z.of_nat (length bs)) m = true /\ m' = mem_write p bs m.
Proof. unfold write_ptr. destruct (in_bounds _ _ _); [|done]. by intros [= <-]. Qed.

Lemma read_ptr_done p n m m' bs :
  read_ptr p n m = (Done bs, m') -> in_bounds p n m = true /\ bs = mem_read p n m /\ m' = m.
Proof. unfold read_ptr. destruct (in_bounds _ _ _); [|done]. by intros [= <- <-]. Qed.

(** ** Memory that is written back or piecewise *)

Lemma splice_sub (b : list Z) off n :
  0 <= off -> 0 <= n -> off + n <= Z.of_nat (length b) -> splice b off (sub b off n) = b.
Proof.
  intros Ho Hn Hl. unfold splice. rewrite length_sub by done. unfold sub.
  rewrite <- drop_drop, take_drop. apply take_drop.
Qed.

Lemma roomy_bounds p n m : roomy p n m -> p_blk p <> BRam -> in_bounds p n m = true.
Proof. by intros [?|?]. Qed.

Lemma roomy_image p n m m' : image_eq m m' -> roomy p n m -> roomy p n m'.
Proof. intros He [?|Hin]; [by left|right]. by rewrite <- (image_eq_bounds m m' _ _ He). Qed.

Lemma mem_read_bytes p n m : mem_ok m -> bytes_ok (mem_read p n m).
Proof.
  intros [[] [] [] [] [] Hram]. unfold mem_read. destruct p as [[] o]; cbn [p_blk p_ofs blk_get];
    try (by apply bytes_ok_sub); try (by apply bytes_ok_sub; constructor).
  apply Forall_forall. intros b Hb. apply list_elem_of_fmap in Hb as (x & -> & _). apply Hram.
Qed.

Lemma mem_read_length p n m : 0 <= n -> roomy p n m -> Z.of_nat (length (mem_read p n m)) = n.
Proof.
  intros Hn Hr. unfold mem_read. destruct p as [b o]. destruct (decide (b = BRam)) as [->|Hne].
  - cbn [p_blk p_ofs]. rewrite length_ram_read; lia.
  - apply roomy_bounds in Hr; [|done]. unfold in_bounds in Hr. apply andb_true_iff in Hr as [Ho Hr].
    apply Z.leb_le in Ho. destruct b; cbn [p_blk p_ofs blk_get] in *; try done;
      try (apply Z.leb_le in Hr; rewrite length_sub; lia).
    apply Z.eqb_eq in Hr. subst n. done.
Qed.

Lemma ram_write_read a n r : 0 <= n -> ram_eq (ram_write a (ram_read r a n) r) r.
Proof.
  intros Hn x. unfold ram_get at 1. rewrite lookup_ram_write, length_ram_read by done. case_decide as Hx; [|done].
  rewrite lookup_ram_read by done. rewrite decide_True by lia. cbn. f_equal. lia.
Qed.

Lemma mem_write_read p n m : 0 <= n -> roomy p n m -> image_eq (mem_write p (mem_read p n m) m) m.
Proof.
  intros Hn Hr. unfold mem_write, mem_read. destruct p as [b o]. destruct (decide (b = BRam)) as [->|Hne].
  - cbn [p_blk p_ofs]. split; try done. cbn. by apply ram_write_read.
  - apply roomy_bounds in Hr; [|done]. unfold in_bounds in Hr. apply andb_true_iff in Hr as [Ho Hr].
    apply Z.leb_le in Ho. destruct m as [? ? ? ? ? ? ? t f ? ? ? ? ?].
    destruct b; cbn [p_blk p_ofs blk_get blk_set] in *; try done; try apply Z.leb_le in Hr; cbn in Hr;
      split; try done; cbn; rewrite ?splice_sub by done; try done; first [by destruct t | by destruct f].
Qed.

Lemma mem_read_write_roomy p bs m :
  roomy p (Z.of_nat (length bs)) m -> mem_read p (Z.of_nat (length bs)) (mem_write p bs m) = bs.
Proof.
  intros [Hp|Hin]; [|by apply mem_read_write]. unfold mem_read, mem_write. rewrite Hp.
  cbn. apply ram_read_write.
Qed.

Lemma mem_write_app_roomy p bs1 bs2 m :
  roomy p (Z.of_nat (length (bs1 ++ bs2))) m ->
  mem_write (ptr_add p (Z.of_nat (length bs1))) bs2 (mem_write p bs1 m) = mem_write p (bs1 ++ bs2) m.
Proof.
  intros [Hp|Hin]; [|by apply mem_write_app]. unfold mem_write. cbn [ptr_add p_blk p_ofs]. rewrite Hp.
  cbn. by rewrite ram_write_app.
Qed.

Lemma mem_ok_write_roomy p bs m :
  mem_ok m -> bytes_ok bs -> roomy p (Z.of_nat (length bs)) m -> mem_ok (mem_write p bs m).
Proof. intros Hm Hb [Hp|Hin]; [by apply mem_ok_write_ram | by apply mem_ok_write]. Qed.

Lemma roomy_prefix p n k m : 0 <= k <= n -> roomy p n m -> roomy p k m \/ p_blk p = BNull.
Proof.
  intros Hk [Hp|Hin]; [left; by left|]. destruct (decide (p_blk p = BNull)) as [?|Hne]; [by right|].
  left. right. unfold in_bounds in *. apply andb_true_iff in Hin as [Ho Hin].
  apply andb_true_iff. split; [done|]. destruct (p_blk p); try done; rewrite ?andb_true_iff, ?Z.leb_le in *; lia.
Qed.

Lemma in_bounds_after p bs n m :
  in_bounds p (Z.of_nat (length bs)) m = true -> in_bounds p n (mem_write p bs m) = in_bounds p n m.
Proof.
  unfold in_bounds, mem_write. intros Hin. apply andb_true_iff in Hin as [Ho Hin]. apply Z.leb_le in Ho.
  destruct p as [[] o]; cbn [p_blk p_ofs blk_get blk_set] in *; try apply Z.leb_le in Hin; cbn in *;
    rewrite ?length_splice by done; done.
Qed.

Lemma roomy_split p bs n m :
  Z.of_nat (length bs) <= n -> roomy p n m ->
  roomy p (Z.of_nat (length bs)) m /\ roomy (ptr_add p (Z.of_nat (length bs))) (n - Z.of_nat (length bs)) (mem_write p bs m).
Proof.
  intros Hk Hr. assert (Hp : roomy p (Z.of_nat (length bs)) m).
  { destruct (roomy_prefix p n (Z.of_nat (length bs)) m ltac:(lia) Hr) as [?|Hnull]; [done|].
    apply roomy_bounds in Hr; [|congruence]. unfold in_bounds in Hr. apply andb_true_iff in Hr as [Ho Hr].
    rewrite Hnull in Hr. apply Z.eqb_eq in Hr. right. unfold in_bounds. rewrite Ho, Hnull. apply Z.eqb_eq. lia. }
  split; [done|]. destruct Hr as [Hb|Hin]; [by left|]. right.
  destruct Hp as [Hb|Hp].
  - unfold in_bounds in *. cbn [ptr_add p_blk p_ofs]. rewrite Hb in *. rewrite !andb_true_iff, !Z.leb_le in *. lia.
  - pose proof (in_bounds_after p bs n m Hp) as Ha. rewrite Hin in Ha. unfold in_bounds in Ha |- *.
    cbn [ptr_add p_blk p_ofs]. apply andb_true_iff in Ha as [Ho Ha]. apply Z.leb_le in Ho.
    apply andb_true_iff. split; [apply Z.leb_le; lia|].
    destruct (p_blk p); rewrite ?andb_true_iff, ?Z.leb_le, ?Z.eqb_eq in *; lia.
Qed.

End loading.

(** ** Contents of the storage *)

Lemma length_flash_bytes flash a n : 0 <= n -> length (flash_bytes flash a n) = Z.to_nat n.
Proof. intros. unfold flash_bytes. by rewrite length_map, length_seqZ. Qed.

Lemma take_flash_bytes flash a n k :
  0 <= n <= k -> take (Z.to_nat n) (flash_bytes flash a k) = flash_bytes flash a n.
Proof.
  intros Hn. unfold flash_bytes. rewrite firstn_map. f_equal.
  replace k with (n + (k - n)) by lia. rewrite seqZ_app by lia.
  apply take_app_length'. rewrite length_seqZ. done.
Qed.

Lemma flash_bytes_app flash a n k :
  0 <= n -> 0 <= k -> flash_bytes flash a n ++ flash_bytes flash (a + n) k = flash_bytes flash a (n + k).
Proof. intros. unfold flash_bytes. by rewrite seqZ_app, map_app by lia. Qed.
