(* ===== verification/Efuse.v ===== *)
(** * Efuse: fuse validation and derived identities
    (chips/es3tsb/src/es3_efuse.c, common/src/epuid.c, common/src/secret_keys.c)

    At boot the fused identifiers are checked by their Hamming weight and the
    endpoint id is derived from the master secret; the second stage derives its
    keys from it, with the big numbers of MclFF.v for the RSA modulus. *)

From S2P Require Import Prelude Utils Sha256 Sha256Spec MclBig MclFF Machine Chip Errors Crypto.

(** ** Counting bits *)

Definition MASK8_1S : Z := 0x55.
Definition MASK8_2S : Z := 0x33.
Definition MASK8_4S : Z := 0x0f.
Definition MASK32_1S : Z := 0x55555555.
Definition MASK32_2S : Z := 0x33333333.
Definition MASK32_4S : Z := 0x0f0f0f0f.
Definition MASK32_8S : Z := 0x00ff00ff.
Definition MASK32_16S : Z := 0x0000ffff.
Definition IMS_MEANINGFUL_LENGTH : Z := 32.

(** The bits of a word, as the first loop adds them up. *)
Definition count32 (x : Z) : Z :=
  let x := u32 (Z.land x MASK32_1S + Z.land (Z.shiftr x 1) MASK32_1S) in
  let x := u32 (Z.land x MASK32_2S + Z.land (Z.shiftr x 2) MASK32_2S) in
  let x := u32 (Z.land x MASK32_4S + Z.land (Z.shiftr x 4) MASK32_4S) in
  let x := u32 (Z.land x MASK32_8S + Z.land (Z.shiftr x 8) MASK32_8S) in
  Z.land (x +₃₂ Z.shiftr x 16) MASK32_16S.

(** The bits of a byte, as the second loop adds them up. *)
Definition count8 (x : Z) : Z :=
  let x := u8 (x - Z.land (Z.shiftr x 1) MASK8_1S) in
  let x := u8 (Z.land x MASK8_2S + Z.land (Z.shiftr x 2) MASK8_2S) in
  Z.land (u8 (x + Z.shiftr x 4)) MASK8_4S.

(** Both loops; each iteration consumes at least one of the [len] bytes. *)
Fixpoint count_ones_loop (fuel : nat) (buf : list Z) (len count : Z) : option Z :=
  if 0 <? len then
    match fuel with
    | O => None
    | S fuel =>
        if 4 <=? len then
          if decide (4 <= length buf)%nat
          then count_ones_loop fuel (drop 4 buf) (len - 4) (count + count32 (get32 buf 0)) else None
        else
          match buf with
          | [] => None
          | x :: buf => count_ones_loop fuel buf (len - 1) (count + count8 x)
          end
    end
  else Some count.

Definition count_ones (buf : list Z) (len : Z) : option Z := count_ones_loop (Z.to_nat len) buf len 0.

(** The verdict and [*all_zero]. *)
Definition valid_hamming_weight (buf : list Z) (len : Z) : option (bool * bool) :=
  count ← count_ones buf len;
  mret ((count =? 0) || (count =? Z.quot (len * 8) 2), count =? 0).

(** ** Deriving secrets *)

Definition SHA256_HASH_DIGEST_SIZE : nat := 32.

Section derive.
Context `{Platform, Hardware}.

(** [hash_update] of a word at a time, [temp = pims[i] ^ mask]; [size] bytes of
    each word are absorbed. *)
Fixpoint hash_masked (n : nat) (i : Z) (ims : list Z) (mask : Z) (size : nat) : B unit :=
  match n with
  | O => mret tt
  | S n =>
      let temp := Z.lxor (get32 ims (4 * i)) mask in
      hash_update (take size (le_split 4 temp)) ;;
      hash_masked n (i + 1) ims mask size
  end.

(** [hash_update(&val, size)] [n] times. *)
Fixpoint hash_repeat (n : nat) (bs : list Z) : B unit :=
  match n with
  | O => mret tt
  | S n => hash_update bs ;; hash_repeat n bs
  end.

Definition sha256_concat (input : list Z) (val_to_concat num_to_concat : Z) : B (list Z) :=
  hash_start ;;
  hash_update (take SHA256_HASH_DIGEST_SIZE input) ;;
  hash_repeat (Z.to_nat num_to_concat) [val_to_concat] ;;
  hash_final.

Definition calculate_epuid (ims : list Z) : B (list Z) :=
  hash_start ;;
  hash_masked 4 0 ims 0x3d3d3d3d 4 ;;
  y1 ← hash_final;
  z0 ← sha256_concat y1 0x01 32;
  hash_start ;;
  hash_update z0 ;;
  t ← hash_final;
  mret (take 8 t).

(** The derivation of the ES3 mask ROM: one byte of each word. *)
Definition calculate_es3_epuid (ims : list Z) : B (list Z) :=
  hash_start ;;
  hash_masked 4 0 ims 0x3d3d3d3d 1 ;;
  y1 ← hash_final;
  hash_start ;;
  hash_update y1 ;;
  hash_repeat 8 (take 1 (le_split 4 0x01010101)) ;;
  z0 ← hash_final;
  hash_start ;;
  hash_update z0 ;;
  ep_uid ← hash_final;
  mret (take 8 ep_uid).

Definition calculate_y2 (ims : list Z) : B (list Z) :=
  hash_start ;;
  hash_masked 8 0 ims 0x5a5a5a5a 4 ;;
  hash_final.

(** The 56 bytes stored at [epsk]. *)
Definition calculate_epsk (y2 : list Z) : B (list Z) :=
  z1 ← sha256_concat y2 0x01 32;
  lo ← sha256_concat z1 0x01 32;
  t ← sha256_concat z1 0x02 32;
  mret (lo ++ take 24 t).

Definition calculate_essk (y2 : list Z) : B (list Z) :=
  z2 ← sha256_concat y2 0x02 32; sha256_concat z2 0x01 32.

Definition calculate_epck (y2 : list Z) : B (list Z) :=
  z4 ← sha256_concat y2 0x04 32; sha256_concat z4 0x01 32.

Definition calculate_ergs (y2 : list Z) : B (list Z) :=
  z5 ← sha256_concat y2 0x05 32; sha256_concat z5 0x01 32.
End derive.

(** ** The RSA modulus of the endpoint *)

(** The second stage links the MIRACL library for the 448-bit curve; an RSA
    number of [MCL_FFLEN1] rows. *)
#[local] Existing Instance C448.
Definition MCL_MODBYTES1 : nat := Z.to_nat MCL_MODBYTES.
Definition MCL_FFLEN1 : nat := 8.

Section errk.
Context `{Platform, Hardware}.

Definition RSA2048_PUBLIC_KEY_SIZE : nat := 256.
Definition ERRK_ALIAS_MOD_BITS : Z := 3.
Definition ERRK_ALIAS_MOD_SHIFT : Z := 2.

(** The buffer is filled from its end, so its big-endian value is the
    little-endian value of [buf]. *)
Definition bytes_to_MCL_FF (buf : list Z) (n : nat) : list (list Z) :=
  MCL_FF_fromOctet (replicate n MCL_BIG_zero) 0
    (replicate (n * MCL_MODBYTES1 - length buf) 0 ++ reverse buf) n.

Definition MCL_FF_to_bytes (ff : list (list Z)) (n len : nat) : list Z :=
  take len (reverse (MCL_FF_toOctet ff 0 n)).

(** [p[0] |= ERRK_ALIAS_MOD_BITS] for the concatenation of four hashes. *)
Fixpoint errk_hashes (z3 : list Z) (vals : list Z) : B (list Z) :=
  match vals with
  | [] => mret []
  | v :: vals => h ← sha256_concat z3 v 32; rest ← errk_hashes z3 vals; mret (h ++ rest)
  end.

Definition errk_prime (z3 : list Z) (vals : list Z) : B (list (list Z)) :=
  p ← errk_hashes z3 vals;
  mret (bytes_to_MCL_FF (<[0%nat := Z.lor (get8 p 0) ERRK_ALIAS_MOD_BITS]> p) (MCL_FFLEN1 / 2)).

(** [pub.n]: the modulus of the adjusted factors [p] and [q]. *)
Definition errk_modulus (p q : list (list Z)) (alias_ims : Z) : option (list (list Z)) :=
  let p := MCL_FF_inc p 0 (Z.shiftr alias_ims 12 <<₃₂ ERRK_ALIAS_MOD_SHIFT) (MCL_FFLEN1 / 2) in
  let q := MCL_FF_inc q 0 (Z.land alias_ims 0xFFF <<₃₂ ERRK_ALIAS_MOD_SHIFT) (MCL_FFLEN1 / 2) in
  MCL_FF_mul p q (MCL_FFLEN1 / 2).

(** The word at [ims[32]] is masked to its low three bytes; the fourth is
    behind the end of the 35-byte secret. *)
Definition calculate_errk (y2 ims : list Z) : B (list Z) :=
  z3 ← sha256_concat y2 0x03 32;
  p ← errk_prime z3 [1; 2; 3; 4];
  q ← errk_prime z3 [5; 6; 7; 8];
  let alias_ims := le_combine (sub ims 32 3) in
  n ← the (errk_modulus p q alias_ims);
  mret (MCL_FF_to_bytes n MCL_FFLEN1 RSA2048_PUBLIC_KEY_SIZE).

Definition modify_keys (f : secret_keys_comm_area -> secret_keys_comm_area) : B unit :=
  modify (λ m, set_comm {| ca_keys := f (ca_keys (m_comm m));
     ca_shared_functions := ca_shared_functions (m_comm m);
     ca_endpoint_unique_id := ca_endpoint_unique_id (m_comm m);
     ca_stage_2_firmware_identity := ca_stage_2_firmware_identity (m_comm m);
     ca_stage_2_validation_key_name := ca_stage_2_validation_key_name (m_comm m);
     ca_build_timestamp := ca_build_timestamp (m_comm m);
     ca_firmware_package_name := ca_firmware_package_name (m_comm m) |} m).

Definition key_generation (ims : list Z) : B unit :=
  y2 ← calculate_y2 ims;
  epsk ← calculate_epsk y2;
  modify_keys (λ k, {| k_epsk := epsk; k_essk := k_essk k; k_ergs := k_ergs k; k_errk_n := k_errk_n k |}) ;;
  ergs ← calculate_ergs y2;
  modify_keys (λ k, {| k_epsk := k_epsk k; k_essk := k_essk k; k_ergs := ergs; k_errk_n := k_errk_n k |}) ;;
  essk ← calculate_essk y2;
  modify_keys (λ k, {| k_epsk := k_epsk k; k_essk := essk; k_ergs := k_ergs k; k_errk_n := k_errk_n k |}) ;;
  calculate_epck y2 ;;
  errk_n ← calculate_errk y2 ims;
  modify_keys (λ k, {| k_epsk := k_epsk k; k_essk := k_essk k; k_ergs := k_ergs k; k_errk_n := errk_n |}).
End errk.

(** ** Initialisation *)

Definition TSB_ECCERROR_ECC_ERROR : Z := 1.
Definition DME_ARA_ENDPOINTID_H : Z := 0x6102.
Definition DME_ARA_ENDPOINTID_L : Z := 0x6103.

Section init.
Context `{Platform, Hardware}.

(** [ims0]: what the stack buffer holds before the secret is read. *)
Definition efuse_init (ims0 : list Z) : B Z :=
  register_val ← tsb_get_eccerror;
  if negb (Z.land register_val TSB_ECCERROR_ECC_ERROR =? 0) then
    set_last_error BRE_EFUSE_ECC ;; mret (-1)
  else
    vid ← tsb_get_ara_vid;
    modify (set_ara_vid vid) ;;
    v ← the (valid_hamming_weight (le_split 4 vid) 4);
    if negb (fst v) then set_last_error BRE_EFUSE_BAD_ARA_VID ;; mret (-1)
    else
      pid ← tsb_get_ara_pid;
      modify (set_ara_pid pid) ;;
      v ← the (valid_hamming_weight (le_split 4 pid) 4);
      if negb (fst v) then set_last_error BRE_EFUSE_BAD_ARA_PID ;; mret (-1)
      else
        ims_value ← tsb_get_ims ims0 IMS_MEANINGFUL_LENGTH;
        v ← the (valid_hamming_weight ims_value IMS_MEANINGFUL_LENGTH);
        if negb (fst v) then set_last_error BRE_EFUSE_BAD_IMS ;; mret (-1)
        else if negb (snd v) then
          endpoint_id ← calculate_es3_epuid ims_value;
          urc ← chip_unipro_attr_write DME_ARA_ENDPOINTID_L (get32 endpoint_id 0) 0 ATTR_LOCAL;
          if negb (urc =? 0) then set_last_error BRE_EFUSE_ENDPOINT_ID_WRITE ;; mret (-1)
          else
            urc ← chip_unipro_attr_write DME_ARA_ENDPOINTID_H (get32 endpoint_id 4) 0 ATTR_LOCAL;
            if negb (urc =? 0) then set_last_error BRE_EFUSE_ENDPOINT_ID_WRITE ;; mret (-1)
            else mret 0
        else mret 0.

Definition efuse_rig_for_untrusted : B unit := tsb_disable_ims_access ;; tsb_disable_cms_access.
End init.
