(* ===== verification/EfuseSpec.v ===== *)
(** * EfuseSpec: bit counts and key derivation

    [count_ones] adds up bits in parallel inside a word; it equals the plain
    count.  The endpoint id and the keys are nested hashes of the secret. *)

From S2P Require Import Prelude Utils Sha256 StreamHash Sha256Spec MclBig MclBigSpec MclFF MclFFSpec MclOctet Machine Chip Sim Errors Crypto Efuse.

(** ** Sums of bit fields *)

(** The sum of the [n] fields of [w] bits of [x]. *)
Fixpoint fields (w : Z) (n : nat) (x : Z) : Z :=
  match n with
  | O => 0
  | S n => x mod 2 ^ w + fields w n (x / 2 ^ w)
  end.

(** The number of one bits among the low [n]. *)
Definition popcount (n : nat) (x : Z) : Z := fields 1 n x.

Definition popcount_bytes (bs : list Z) : Z := foldr (λ b acc, popcount 8 b + acc) 0 bs.

(** The low [w] bits of each of [n] fields of [2 w] bits. *)
Fixpoint field_mask (w : Z) (n : nat) : Z :=
  match n with
  | O => 0
  | S n => (2 ^ w - 1) + 2 ^ (2 * w) * field_mask w n
  end.

(** One round: neighbouring fields of [w] bits are added. *)
Definition add_fields (w : Z) (n : nat) (x : Z) : Z :=
  Z.land x (field_mask w n) + Z.land (x / 2 ^ w) (field_mask w n).

Lemma land_split k x a b :
  0 <= k -> 0 <= a < 2 ^ k -> Z.land x (a + 2 ^ k * b) = Z.land (x mod 2 ^ k) a + 2 ^ k * Z.land (x / 2 ^ k) b.
Proof.
  intros Hk Ha.
  assert (Hl : 0 <= Z.land (x mod 2 ^ k) a < 2 ^ k).
  { pose proof (Z.mod_pos_bound x (2 ^ k) ltac:(lia)) as Hm. split; [apply Z.land_nonneg; lia|].
    rewrite <- (Z.mod_small a (2 ^ k)), <- !Z.land_ones, Z.land_assoc by lia.
    rewrite Z.land_ones by lia. apply Z.mod_pos_bound. lia. }
  assert (Hsum : forall u v, 0 <= u < 2 ^ k -> u + 2 ^ k * v = Z.lor u (Z.shiftl v k)).
  { intros u v Hu. rewrite Z.shiftl_mul_pow2, Z.mul_comm by lia.
    rewrite <- Z.add_nocarry_lor; [lia|]. rewrite <- Z.shiftl_mul_pow2 by lia.
    apply Z.bits_inj'. intros i Hi. rewrite Z.land_spec, Z.bits_0.
    destruct (Z.lt_ge_cases i k).
    - rewrite Z.shiftl_spec_low by done. apply andb_false_r.
    - rewrite <- (Z.mod_small u (2 ^ k)), Z.mod_pow2_bits_high by lia. done. }
  rewrite !Hsum by done. bits_eq.
  destruct (Z.lt_ge_cases i k).
  - rewrite !Z.shiftl_spec_low, !orb_false_r by done. by rewrite Z.mod_pow2_bits_low.
  - rewrite !Z.shiftl_spec, Z.land_spec by lia.
    rewrite <- (Z.mod_small a (2 ^ k)), !Z.mod_pow2_bits_high, andb_false_r by lia. cbn [orb].
    rewrite Z.div_pow2_bits by lia. by replace (i - k + k) with i by lia.
Qed.

Lemma add_fields_S w n x :
  1 <= w ->
  add_fields w (S n) x =
    (x mod 2 ^ w + (x / 2 ^ w) mod 2 ^ w) + 2 ^ (2 * w) * add_fields w n (x / 2 ^ (2 * w)).
Proof.
  intros Hw. unfold add_fields. cbn [field_mask].
  assert (Hp : 2 ^ (2 * w) = 2 ^ w * 2 ^ w) by (rewrite <- Z.pow_add_r by lia; f_equal; lia).
  assert (0 < 2 ^ w) by lia.
  rewrite !land_split by nia.
  replace (2 ^ w - 1) with (Z.ones w) by (rewrite Z.ones_equiv; lia).
  rewrite !Z.land_ones by lia.
  assert (Hmm : forall y, (y mod 2 ^ (2 * w)) mod 2 ^ w = y mod 2 ^ w).
  { intros y. rewrite Hp. rewrite Z.rem_mul_r by lia.
    rewrite Z.mul_comm, Z_mod_plus_full. apply Z.mod_mod. lia. }
  rewrite !Hmm. rewrite !Z.div_div by lia. rewrite (Z.mul_comm (2 ^ w) (2 ^ (2 * w))). lia.
Qed.

Lemma add_fields_bound w : 1 <= w -> forall n x, 0 <= x -> 0 <= add_fields w n x < 2 ^ (2 * w * Z.of_nat n).
Proof.
  intros Hw. assert (Hp : 2 ^ (2 * w) = 2 ^ w * 2 ^ w) by (rewrite <- Z.pow_add_r by lia; f_equal; lia).
  assert (2 <= 2 ^ w) by (replace 2 with (2 ^ 1) at 1 by done; apply Z.pow_le_mono_r; lia).
  induction n as [|n IH]; intros x Hx.
  - unfold add_fields. cbn [field_mask]. rewrite !Z.land_0_r, Z.mul_0_r. done.
  - rewrite add_fields_S by done. specialize (IH (x / 2 ^ (2 * w)) ltac:(apply Z.div_pos; nia)).
    pose proof (Z.mod_pos_bound x (2 ^ w)). pose proof (Z.mod_pos_bound (x / 2 ^ w) (2 ^ w)).
    replace (2 * w * Z.of_nat (S n)) with (2 * w + 2 * w * Z.of_nat n) by lia.
    rewrite Z.pow_add_r by lia. nia.
Qed.

(** A round keeps the sum. *)
Lemma fields_add w : 1 <= w -> forall n x, 0 <= x -> fields (2 * w) n (add_fields w n x) = fields w (2 * n) x.
Proof.
  intros Hw. assert (Hp : 2 ^ (2 * w) = 2 ^ w * 2 ^ w) by (rewrite <- Z.pow_add_r by lia; f_equal; lia).
  assert (2 <= 2 ^ w) by (replace 2 with (2 ^ 1) at 1 by done; apply Z.pow_le_mono_r; lia).
  induction n as [|n IH]; intros x Hx; [done|].
  replace (2 * S n)%nat with (S (S (2 * n))) by lia. rewrite add_fields_S by done. cbn [fields].
  pose proof (Z.mod_pos_bound x (2 ^ w)). pose proof (Z.mod_pos_bound (x / 2 ^ w) (2 ^ w)).
  assert (0 < 2 ^ (2 * w)) by nia.
  assert (Ht : 0 <= x mod 2 ^ w + (x / 2 ^ w) mod 2 ^ w < 2 ^ (2 * w)) by nia.
  rewrite (Z.mul_comm (2 ^ (2 * w))), Z_mod_plus_full, Z.div_add by lia.
  rewrite (Z.mod_small _ _ Ht), (Z.div_small _ _ Ht), Z.add_0_l.
  rewrite IH by (apply Z.div_pos; lia). rewrite Z.div_div, <- Hp by lia. lia.
Qed.

Lemma fields_bound w : 0 <= w -> forall n x, 0 <= x -> 0 <= fields w n x <= Z.of_nat n * (2 ^ w - 1).
Proof.
  intros Hw. induction n as [|n IH]; intros x Hx; cbn [fields]; [lia|].
  specialize (IH (x / 2 ^ w) ltac:(apply Z.div_pos; lia)). pose proof (Z.mod_pos_bound x (2 ^ w)). nia.
Qed.

Lemma count32_popcount x : is_u32 x -> count32 x = popcount 32 x.
Proof.
  intros [Hx Hx2]. unfold count32, popcount. cbv zeta.
  rewrite !Z.shiftr_div_pow2 by lia.
  change MASK32_1S with (field_mask 1 16). fold (add_fields 1 16 x).
  pose proof (add_fields_bound 1 ltac:(lia) 16 x Hx) as B1.
  pose proof (fields_add 1 ltac:(lia) 16 x Hx) as F1.
  set (x1 := add_fields 1 16 x) in *. rewrite (u32_small x1) by exact B1.
  change MASK32_2S with (field_mask 2 8). fold (add_fields 2 8 x1).
  pose proof (add_fields_bound 2 ltac:(lia) 8 x1 ltac:(lia)) as B2.
  pose proof (fields_add 2 ltac:(lia) 8 x1 ltac:(lia)) as F2.
  set (x2 := add_fields 2 8 x1) in *. rewrite (u32_small x2) by exact B2.
  change MASK32_4S with (field_mask 4 4). fold (add_fields 4 4 x2).
  pose proof (add_fields_bound 4 ltac:(lia) 4 x2 ltac:(lia)) as B3.
  pose proof (fields_add 4 ltac:(lia) 4 x2 ltac:(lia)) as F3.
  set (x3 := add_fields 4 4 x2) in *. rewrite (u32_small x3) by exact B3.
  change MASK32_8S with (field_mask 8 2). fold (add_fields 8 2 x3).
  pose proof (add_fields_bound 8 ltac:(lia) 2 x3 ltac:(lia)) as B4.
  pose proof (fields_add 8 ltac:(lia) 2 x3 ltac:(lia)) as F4.
  set (x4 := add_fields 8 2 x3) in *. rewrite (u32_small x4) by exact B4.
  pose proof (fields_bound 1 ltac:(lia) 32 x Hx) as Bx.
  assert (F : fields 16 2 x4 = fields 1 32 x).
  { change 16 with (2 * 8) at 1. rewrite F4. change (2 * 2)%nat with 4%nat. change 8 with (2 * 4) at 1.
    rewrite F3. change (2 * 4)%nat with 8%nat. change 4 with (2 * 2) at 1. rewrite F2.
    change (2 * 8)%nat with 16%nat. change 2 with (2 * 1) at 1. rewrite F1. done. }
  rewrite <- F in *. clearbody x4. clear F F1 F2 F3 F4 B1 B2 B3.
  cbn [fields] in *. change (2 ^ 16) with 65536 in *. change (2 * 8 * Z.of_nat 2) with 32 in B4.
  change MASK32_16S with (Z.ones 16). rewrite Z.land_ones by lia. rewrite u32_mod.
  change (2 ^ 16) with 65536. change (2 ^ 32) with 4294967296 in *.
  assert (Hh : x4 / 65536 < 65536) by (apply Z.div_lt_upper_bound; lia).
  assert (0 <= x4 / 65536) by (apply Z.div_pos; lia).
  rewrite (Z.mod_small (x4 / 65536)) in * by lia. rewrite !(Z.add_0_r) in *.
  pose proof (Z.div_mod x4 65536 ltac:(lia)). Z.div_mod_to_equations. lia.
Qed.

Lemma count8_popcount x : is_u8 x -> count8 x = popcount 8 x.
Proof.
  intros [Hx Hx2].
  assert (Hall : forallb (λ y, count8 y =? popcount 8 y) (map Z.of_nat (seq 0 256)) = true)
    by (vm_compute; reflexivity).
  rewrite forallb_forall in Hall. apply Z.eqb_eq, Hall. apply in_map_iff.
  exists (Z.to_nat x). split; [lia|]. apply in_seq. lia.
Qed.

(** ** Bytes *)

Lemma fields_cons n : forall b y,
  0 <= b < 2 ^ Z.of_nat n -> forall m, fields 1 (n + m) (b + 2 ^ Z.of_nat n * y) = fields 1 n b + fields 1 m y.
Proof.
  induction n as [|n IH]; intros b y Hb m.
  - change (2 ^ Z.of_nat 0) with 1 in *. cbn [fields Nat.add]. rewrite Z.add_0_l. f_equal. lia.
  - cbn [fields Nat.add]. rewrite Nat2Z.inj_succ, Z.pow_succ_r in * by lia. change (2 ^ 1) with 2.
    replace (b + 2 * 2 ^ Z.of_nat n * y) with (b + (2 ^ Z.of_nat n * y) * 2) by lia.
    rewrite Z_mod_plus_full, Z.div_add by lia. rewrite IH; [lia|].
    split; [apply Z.div_pos; lia | apply Z.div_lt_upper_bound; lia].
Qed.

Lemma popcount_le_combine bs :
  bytes_ok bs -> popcount (8 * length bs) (le_combine bs) = popcount_bytes bs.
Proof.
  induction 1 as [|b bs Hb _ IH]; [done|]. cbn [length le_combine popcount_bytes foldr].
  replace (8 * S (length bs))%nat with (8 + 8 * length bs)%nat by lia.
  unfold popcount in *. change (2 ^ 8) with (2 ^ Z.of_nat 8). rewrite fields_cons by apply Hb.
  rewrite IH. done.
Qed.

Lemma popcount_bytes_app a b : popcount_bytes (a ++ b) = popcount_bytes a + popcount_bytes b.
Proof. induction a as [|x a IH]; cbn [app popcount_bytes foldr]; [done|]. fold (popcount_bytes (a ++ b)). rewrite IH. unfold popcount_bytes. lia. Qed.

Lemma count_ones_loop_eq : forall fuel buf len count,
  bytes_ok buf -> 0 <= len <= Z.of_nat (length buf) -> (Z.to_nat len <= fuel)%nat ->
  count_ones_loop fuel buf len count = Some (count + popcount_bytes (take (Z.to_nat len) buf)).
Proof.
  induction fuel as [|fuel IH]; intros buf len count Hb Hl Hf; cbn [count_ones_loop].
  - replace len with 0 by lia. change (popcount_bytes _) with 0. by rewrite Z.add_0_r.
  - destruct (Z.ltb_spec 0 len).
    2: { replace len with 0 by lia. change (popcount_bytes _) with 0. by rewrite Z.add_0_r. }
    destruct (Z.leb_spec 4 len).
    + rewrite decide_True by lia. rewrite IH; [|by apply Forall_drop|rewrite length_drop; lia|lia].
      f_equal. rewrite <- Z.add_assoc. f_equal.
      assert (Hl4 : length (take 4 buf) = 4%nat) by (rewrite length_take; lia).
      assert (Hg : get32 buf 0 = le_combine (take 4 buf)) by (unfold get32, sub; by rewrite drop_0).
      rewrite count32_popcount by (apply get32_range; done). rewrite Hg.
      pose proof (popcount_le_combine (take 4 buf) ltac:(by apply Forall_take)) as Hp.
      rewrite Hl4 in Hp. change (8 * 4)%nat with 32%nat in Hp. rewrite Hp, <- popcount_bytes_app.
      f_equal. rewrite <- (take_drop 4 (take (Z.to_nat len) buf)), take_take, skipn_firstn_comm.
      f_equal; f_equal; lia.
    + destruct buf as [|x buf]; [cbn in Hl; lia|]. inversion Hb; subst. cbn [length] in Hl.
      rewrite IH by (done || lia). rewrite count8_popcount by done.
      replace (Z.to_nat len) with (S (Z.to_nat (len - 1))) by lia.
      cbn [take popcount_bytes foldr]. f_equal. unfold popcount_bytes. lia.
Qed.

(** [C37] [count_ones] returns the number of one bits of the first [len] bytes of
    its buffer: the parallel additions inside words and bytes lose nothing. *)
Theorem count_ones_popcount buf len :
  bytes_ok buf -> 0 <= len <= Z.of_nat (length buf) ->
  count_ones buf len = Some (popcount_bytes (take (Z.to_nat len) buf)).
Proof. intros Hb Hl. unfold count_ones. by rewrite count_ones_loop_eq by (done || lia). Qed.

(** Eight of 72 bits, in a buffer whose length is no multiple of four. *)
Lemma count_ones_popcount_witness :
  popcount_bytes [0x0f; 0; 0; 0x80; 0; 0; 1; 0; 0x11] = 8 /\
  count_ones [0x0f; 0; 0; 0x80; 0; 0; 1; 0; 0x11] 9 = Some 8.
Proof.
  split; [vm_compute; reflexivity|].
  assert (Hb : bytes_ok [0x0f; 0; 0; 0x80; 0; 0; 1; 0; 0x11]).
  { repeat constructor; vm_compute; (reflexivity || discriminate). }
  rewrite (count_ones_popcount [0x0f; 0; 0; 0x80; 0; 0; 1; 0; 0x11] 9 Hb).
  - vm_compute. reflexivity.
  - vm_compute. split; discriminate.
Defined.

(** ** Hash runs *)

Lemma length_w_transform c : length (Sha256.w (Sha256.shs_transform c)) = length (Sha256.w c).
Proof.
  unfold Sha256.shs_transform. cbn [Sha256.w]. generalize (seq 16 48). intros l. generalize (Sha256.w c).
  induction l as [|j l IH]; intros w; cbn [foldl]; [done|].
  rewrite IH. unfold Sha256.schedule_step. apply length_insert.
Qed.

Lemma length_w_process c b : length (Sha256.w (Sha256.shs256_process c b)) = length (Sha256.w c).
Proof.
  unfold Sha256.shs256_process. cbv zeta. destruct (_ =? 0); rewrite ?length_w_transform; cbn [Sha256.w];
    apply length_insert.
Qed.

Lemma length_w_pad fuel : forall c, length (Sha256.w (Sha256.pad_zeros fuel c)) = length (Sha256.w c).
Proof.
  induction fuel as [|n IH]; intros c; cbn [Sha256.pad_zeros]; [done|].
  destruct (_ =? _); [done|]. by rewrite IH, length_w_process.
Qed.

Lemma length_w_hash c : length (Sha256.w c) = 80%nat -> length (Sha256.w (snd (Sha256.shs256_hash c))) = 80%nat.
Proof.
  intros Hw. unfold Sha256.shs256_hash. cbv zeta. cbn [snd].
  unfold Sha256.shs256_init. cbn [Sha256.w].
  rewrite length_app, length_replicate, length_drop, length_w_transform. cbn [Sha256.w].
  rewrite !length_insert, length_w_pad, length_w_process, Hw. done.
Qed.

Section runs.
Context `{Platform, Hardware}.

(** The hash functions are installed and the context is whole. *)
Record crypto_ready (m : machine) : Prop := {
  ready_init : c_sha256_init_func (m_crypto m) = Some FN_shs256_init;
  ready_process : c_sha256_process_func (m_crypto m) = Some FN_shs256_process;
  ready_hash : c_sha256_hash_func (m_crypto m) = Some FN_shs256_hash;
  ready_w : length (Sha256.w (c_shctx (m_crypto m))) = 80%nat
}.

Definition with_ctx (c : Sha256.ctx) (m : machine) : machine := set_crypto (set_shctx c (m_crypto m)) m.

(** From a ready machine [c] returns [a] and changes the hash context only. *)
Definition computes {A} (c : B A) (a : A) : Prop :=
  forall m, crypto_ready m -> exists ctx, length (Sha256.w ctx) = 80%nat /\ c m = (Done a, with_ctx ctx m).

Lemma ready_with_ctx ctx m : crypto_ready m -> length (Sha256.w ctx) = 80%nat -> crypto_ready (with_ctx ctx m).
Proof. intros []. by split. Qed.

Lemma computes_ret {A} (a : A) : computes (mret a) a.
Proof. intros m Hm. exists (c_shctx (m_crypto m)). split; [apply Hm|]. destruct m, m_crypto. done. Qed.

Lemma computes_bind {A C} (c : B A) (f : A -> B C) a b :
  computes c a -> computes (f a) b -> computes (c ≫= f) b.
Proof.
  intros Hc Hf m Hm. destruct (Hc m Hm) as (x & Hx & E). destruct (Hf (with_ctx x m)) as (y & Hy & E').
  { by apply ready_with_ctx. }
  exists y. split; [done|]. by rewrite (bind_step _ _ _ _ _ E), E'.
Qed.

(** A hash in progress: [msg] has been absorbed since [m]. *)
Definition hashing (msg : list Z) (c : B unit) : Prop :=
  forall m, crypto_ready m -> exists ctx, length (Sha256.w ctx) = 80%nat /\ repr msg ctx /\
    c m = (Done tt, with_ctx ctx m).

Lemma hashing_start : hashing [] hash_start.
Proof.
  intros m Hm. exists (Sha256.shs256_init (c_shctx (m_crypto m))).
  pose proof (ready_w m Hm) as Hw. split; [|split].
  - unfold Sha256.shs256_init. cbn [Sha256.w]. rewrite length_app, length_replicate, length_drop. lia.
  - by apply repr_init.
  - unfold hash_start. rewrite (bind_step (gets m_crypto) _ m (m_crypto m) m eq_refl).
    by rewrite (ready_init m Hm).
Qed.

Lemma hash_update_run bs : forall m, crypto_ready m ->
  hash_update bs m = (Done tt, with_ctx (foldl Sha256.shs256_process (c_shctx (m_crypto m)) bs) m).
Proof.
  induction bs as [|b bs IH]; intros m Hm; cbn [hash_update foldl].
  - destruct m, m_crypto. done.
  - rewrite (bind_step (gets m_crypto) _ m (m_crypto m) m eq_refl), (ready_process m Hm).
    erewrite bind_step; [|reflexivity].
    etrans; [apply (IH (with_ctx (Sha256.shs256_process (c_shctx (m_crypto m)) b) m))|done].
    apply ready_with_ctx; [done|]. rewrite length_w_process. apply Hm.
Qed.

Lemma hashing_update msg c bs : bytes_ok bs -> hashing msg c -> hashing (msg ++ bs) (c ;; hash_update bs).
Proof.
  intros Hb Hc m Hm. destruct (Hc m Hm) as (x & Hx & Hr & E).
  exists (foldl Sha256.shs256_process x bs). split; [|split].
  - revert x Hx Hr E. induction bs as [|b bs IH]; intros x Hx Hr E; [done|]. cbn [foldl].
    clear -Hx. revert x Hx b. induction bs as [|b' bs IH]; intros x Hx b; cbn [foldl].
    + by rewrite length_w_process.
    + apply IH. by rewrite length_w_process.
  - by apply repr_absorb.
  - rewrite (bind_step _ _ _ _ _ E). rewrite hash_update_run by (by apply ready_with_ctx). done.
Qed.

Lemma computes_final msg c : hashing msg c -> computes (c ;; hash_final) (Sha256.sha256 msg).
Proof.
  intros Hc m Hm. destruct (Hc m Hm) as (x & Hx & Hr & E).
  exists (snd (Sha256.shs256_hash x)). split; [by apply length_w_hash|].
  rewrite (bind_step _ _ _ _ _ E). unfold hash_final.
  rewrite (bind_step (gets m_crypto) _ _ (m_crypto (with_ctx x m)) (with_ctx x m) eq_refl).
  cbn [with_ctx m_crypto set_crypto set_shctx c_sha256_hash_func c_shctx].
  rewrite (ready_hash m Hm). pose proof (finish_repr msg x Hr) as Hd.
  destruct (Sha256.shs256_hash x) as [d c']. cbn [fst snd] in *. by subst d.
Qed.
End runs.

(** ** Derivations are nested hashes *)

Section derive.
Context `{Platform, Hardware}.

(** [c] absorbs [bs]. *)
Definition absorbs (c : B unit) (bs : list Z) : Prop := forall m, c m = hash_update bs m.

Lemma hash_update_app a b m : (hash_update a ;; hash_update b) m = hash_update (a ++ b) m.
Proof.
  revert m. induction a as [|x a IH]; intros m; cbn [hash_update app]; [done|].
  rewrite bind_assoc. unfold mbind, boot_bind, gets. cbn.
  destruct (c_sha256_process_func (m_crypto m)) as [[]|]; try done. cbn. apply IH.
Qed.

Lemma absorbs_seq c1 c2 a b : absorbs c1 a -> absorbs c2 b -> absorbs (c1 ;; c2) (a ++ b).
Proof.
  intros Ha Hb m. rewrite <- hash_update_app. unfold mbind, boot_bind. rewrite Ha.
  destruct (hash_update a m) as [[] ?]; done.
Qed.

Lemma absorbs_repeat n bs : absorbs (hash_repeat n bs) (concat (replicate n bs)).
Proof. induction n as [|n IH]; [done|]. cbn [hash_repeat replicate concat]. by apply absorbs_seq. Qed.

(** The words of the secret, masked, [size] bytes of each. *)
Definition masked_words (ims : list Z) (mask : Z) (size : nat) (idx : list Z) : list Z :=
  concat (map (λ i, take size (le_split 4 (Z.lxor (get32 ims (4 * i)) mask))) idx).

Lemma absorbs_masked ims mask size n : forall i,
  absorbs (hash_masked n i ims mask size) (masked_words ims mask size (seqZ i (Z.of_nat n))).
Proof.
  induction n as [|n IH]; intros i; [done|]. cbn [hash_masked].
  rewrite Nat2Z.inj_succ, seqZ_cons by lia. rewrite Z.pred_succ. cbn [masked_words map concat].
  apply absorbs_seq; [done|]. apply (IH (i + 1)).
Qed.

Lemma masked_words_bytes ims mask size idx : bytes_ok (masked_words ims mask size idx).
Proof.
  unfold masked_words. apply Forall_concat, Forall_forall. intros l Hl.
  apply list_elem_of_fmap in Hl as (i & -> & _). apply Forall_take, le_split_bytes.
Qed.

(** One whole hash computation, and the continuation behind it. *)
Lemma computes_hash c bs : bytes_ok bs -> absorbs c bs ->
  computes (hash_start ;; c ;; hash_final) (Sha256.sha256 bs).
Proof.
  intros Hb Hc m Hm.
  destruct (computes_final bs (hash_start ;; hash_update bs)
              (hashing_update [] hash_start bs Hb hashing_start) m Hm) as (x & Hx & E).
  exists x. split; [done|]. rewrite <- E, bind_assoc. unfold mbind, boot_bind.
  destruct (hash_start m) as [[] m1]; try done. by rewrite Hc.
Qed.

Lemma bind_assoc3 {A C} (c1 c2 : B unit) (c3 : B A) (k : A -> B C) m :
  (c1 ;; c2 ;; c3 ≫= k) m = ((c1 ;; c2 ;; c3) ≫= k) m.
Proof. unfold mbind, boot_bind. destruct (c1 m) as [[] m1]; try done. by destruct (c2 m1) as [[] m2]. Qed.

Lemma computes_hash_then {A} c bs (k : list Z -> B A) a :
  bytes_ok bs -> absorbs c bs -> computes (k (Sha256.sha256 bs)) a ->
  computes (hash_start ;; c ;; hash_final ≫= k) a.
Proof.
  intros Hb Hc Hk m Hm.
  destruct (computes_bind _ k _ a (computes_hash c bs Hb Hc) Hk m Hm) as (x & Hx & E).
  exists x. split; [done|]. by rewrite bind_assoc3.
Qed.

(** The same with two updates. *)
Lemma computes_hash2_then {A} c1 c2 b1 b2 (k : list Z -> B A) a :
  bytes_ok b1 -> bytes_ok b2 -> absorbs c1 b1 -> absorbs c2 b2 ->
  computes (k (Sha256.sha256 (b1 ++ b2))) a ->
  computes (hash_start ;; c1 ;; c2 ;; hash_final ≫= k) a.
Proof.
  intros Hb1 Hb2 Hc1 Hc2 Hk m Hm.
  destruct (computes_hash_then (c1 ;; c2) (b1 ++ b2) k a) with m as (x & Hx & E);
    [by apply bytes_ok_app|by apply absorbs_seq|done|done|].
  exists x. split; [done|]. rewrite <- E. unfold mbind, boot_bind.
  destruct (hash_start m) as [[] m1]; try done. by destruct (c1 m1) as [[] m2].
Qed.

(** [sha256_concat input v n]: the hash of [input] followed by [n] bytes [v]. *)
Definition H_concat (input : list Z) (v : Z) (n : nat) : list Z := Sha256.sha256 (input ++ replicate n v).

Lemma concat_replicate_one n (v : Z) : concat (replicate n [v]) = replicate n v.
Proof. induction n as [|n IH]; cbn; [done|]. by rewrite IH. Qed.

Lemma computes_concat input v n :
  bytes_ok input -> length input = 32%nat -> is_u8 v ->
  computes (sha256_concat input v n) (H_concat input v (Z.to_nat n)).
Proof.
  intros Hb Hl Hv m Hm. unfold sha256_concat, H_concat, SHA256_HASH_DIGEST_SIZE. rewrite take_ge by lia.
  destruct (computes_hash (hash_update input ;; hash_repeat (Z.to_nat n) [v])
              (input ++ replicate (Z.to_nat n) v)) with m as (x & Hx & E); [| |done|].
  - apply bytes_ok_app. split; [done|]. by apply Forall_replicate.
  - apply absorbs_seq; [done|]. rewrite <- concat_replicate_one. apply absorbs_repeat.
  - exists x. split; [done|]. rewrite <- E. unfold mbind, boot_bind.
    destruct (hash_start m) as [[] m1]; try done. by destruct (hash_update input m1) as [[] m2].
Qed.

Lemma H_concat_ok input v n : bytes_ok (H_concat input v n) /\ length (H_concat input v n) = 32%nat.
Proof. split; [apply sha256_bytes | apply length_sha256]. Qed.

(** The endpoint id as the ES3 mask ROM derives it. *)
Definition es3_epuid (ims : list Z) : list Z :=
  take 8 (Sha256.sha256 (Sha256.sha256
    (Sha256.sha256 (masked_words ims 0x3d3d3d3d 1 [0; 1; 2; 3]) ++ replicate 8 1))).

Lemma computes_es3_epuid ims : computes (calculate_es3_epuid ims) (es3_epuid ims).
Proof.
  unfold calculate_es3_epuid, es3_epuid.
  eapply computes_hash_then; [apply masked_words_bytes | apply absorbs_masked |].
  eapply computes_hash2_then; [apply sha256_bytes | |done|apply absorbs_repeat|].
  { repeat constructor; done. }
  eapply computes_hash_then; [apply sha256_bytes|done|]. apply computes_ret.
Qed.

Lemma land_lxor_distr a b c : Z.land (Z.lxor a b) c = Z.lxor (Z.land a c) (Z.land b c).
Proof. bits_eq. by destruct (Z.testbit a i), (Z.testbit b i), (Z.testbit c i). Qed.

(** The first byte of a masked word. *)
Lemma masked_low ims i mask mask' :
  bytes_ok ims -> Z.land mask 0xff = mask' ->
  take 1 (le_split 4 (Z.lxor (get32 ims (4 * i)) mask)) = [Z.lxor (get8 ims (4 * i)) mask'].
Proof.
  intros Hb <-. cbn [le_split take]. f_equal. unfold u8.
  rewrite land_lxor_distr. f_equal. unfold get32, get8, sub.
  destruct (drop (Z.to_nat (4 * i)) ims) as [|b rest] eqn:Ed.
  - destruct (ims !! Z.to_nat (4 * i)) as [b|] eqn:E; [|done].
    apply lookup_lt_Some in E. apply (f_equal length) in Ed. rewrite length_drop in Ed. cbn in Ed. lia.
  - assert (E : ims !! Z.to_nat (4 * i) = Some b) by (rewrite <- (Nat.add_0_r (Z.to_nat _)), <- lookup_drop, Ed; done).
    rewrite E. change (Z.to_nat 4) with 4%nat. cbn [take le_combine default from_option id].
    change (Z.land ?x 255) with (u8 x). rewrite u8_mod, (Z.mul_comm (2 ^ 8)), Z_mod_plus_full.
    apply Z.mod_small. rewrite Forall_lookup in Hb. apply (Hb _ _ E).
Qed.

(** The ES3 endpoint id depends on four bytes of the secret only: bytes 0,
    4, 8 and 12.  It is the chain of hashes over these four bytes, and
    secrets that agree on them get the same id. *)
Theorem es3_epuid_four_bytes ims ims' m :
  bytes_ok ims -> bytes_ok ims' -> crypto_ready m ->
  (forall i, In i [0; 1; 2; 3] -> get8 ims (4 * i) = get8 ims' (4 * i)) ->
  fst (calculate_es3_epuid ims m) = Done (es3_epuid ims) /\
  fst (calculate_es3_epuid ims' m) = Done (es3_epuid ims).
Proof.
  intros Hb Hb' Hm Hag.
  assert (He : es3_epuid ims' = es3_epuid ims).
  { unfold es3_epuid. do 4 f_equal. unfold masked_words. f_equal. f_equal. apply map_ext_in. intros i Hi.
    rewrite !(masked_low _ _ _ 0x3d) by done. by rewrite Hag. }
  destruct (computes_es3_epuid ims m Hm) as (x & _ & ->).
  destruct (computes_es3_epuid ims' m Hm) as (y & _ & ->). by rewrite He.
Qed.
End derive.

(** ** Key generation *)

(** *** The RSA modulus *)

#[local] Existing Instance C448.
#[local] Opaque MCL_FF_fromOctet MCL_FF_toOctet MCL_FF_inc MCL_FF_mul.

Lemma be_zeros n : Sha256.be (replicate n 0) = 0.
Proof. induction n as [|n IH]; [done|]. rewrite replicate_S_end, be_snoc, IH. done. Qed.

Lemma bytes_to_FF_ok buf n :
  (1 <= n)%nat -> bytes_ok buf -> (length buf <= n * MCL_MODBYTES1)%nat ->
  let x := bytes_to_MCL_FF buf n in
  length x = n /\ canon 0 x 0 n /\ ffval x 0 n = le_combine buf.
Proof.
  intros Hn Hb Hl. unfold bytes_to_MCL_FF.
  destruct (fromOctet_ok (replicate n MCL_BIG_zero) 0
    (replicate (n * MCL_MODBYTES1 - length buf) 0 ++ reverse buf) n) as (L & C & V & _).
  - done.
  - by rewrite length_replicate.
  - rewrite length_app, length_replicate, length_reverse. unfold MCL_MODBYTES1 in *. lia.
  - apply bytes_ok_app. split; [by apply Forall_replicate|by apply Forall_reverse].
  - split; [by rewrite L, length_replicate|]. split; [done|].
    rewrite V, be_app, be_zeros, be_reverse. lia.
Qed.

Lemma alias_high a : 0 <= a < 2 ^ 24 -> Z.shiftr a 12 <<₃₂ ERRK_ALIAS_MOD_SHIFT = 4 * (a / 4096).
Proof.
  intros Ha. rewrite Z.shiftr_div_pow2, Z.shiftl_mul_pow2 by (unfold ERRK_ALIAS_MOD_SHIFT; lia).
  change (2 ^ 12) with 4096. change (2 ^ ERRK_ALIAS_MOD_SHIFT) with 4.
  assert (0 <= a / 4096 < 4096) by (split; [apply Z.div_pos|apply Z.div_lt_upper_bound]; lia).
  rewrite u32_small by (unfold is_u32; lia). lia.
Qed.

Lemma alias_low a : Z.land a 0xFFF <<₃₂ ERRK_ALIAS_MOD_SHIFT = 4 * (a mod 4096).
Proof.
  change 0xFFF with (Z.ones 12). rewrite Z.land_ones, Z.shiftl_mul_pow2 by (unfold ERRK_ALIAS_MOD_SHIFT; lia).
  change (2 ^ 12) with 4096. change (2 ^ ERRK_ALIAS_MOD_SHIFT) with 4.
  pose proof (Z.mod_pos_bound a 4096 ltac:(lia)). rewrite u32_small by (unfold is_u32; lia). lia.
Qed.

(** The modulus is the product of the adjusted factors; the key is its low 2048
    bits. *)
Lemma errk_modulus_ok p q a :
  bytes_ok p -> bytes_ok q -> length p = 128%nat -> length q = 128%nat -> 0 <= a < 2 ^ 24 ->
  exists n, errk_modulus (bytes_to_MCL_FF p 4) (bytes_to_MCL_FF q 4) a = Some n /\
    MCL_FF_to_bytes n 8 256 =
      le_split 256 ((le_combine p + 4 * (a / 4096)) * (le_combine q + 4 * (a mod 4096))).
Proof.
  intros Hp Hq Lp Lq Ha.
  assert (MCL_MODBYTES1 = 56%nat) as EM by reflexivity.
  destruct (bytes_to_FF_ok p 4) as (Lx & Cx & Vx); [lia|done|lia|].
  destruct (bytes_to_FF_ok q 4) as (Ly & Cy & Vy); [lia|done|lia|].
  set (x := bytes_to_MCL_FF p 4) in *. set (y := bytes_to_MCL_FF q 4) in *. clearbody x y.
  unfold errk_modulus. rewrite alias_high, alias_low by done. change (MCL_FFLEN1 / 2)%nat with 4%nat.
  assert (0 <= a / 4096 < 4096) by (split; [apply Z.div_pos|apply Z.div_lt_upper_bound]; lia).
  pose proof (Z.mod_pos_bound a 4096 ltac:(lia)).
  destruct (inc_ok x 0 (4 * (a / 4096)) 4) as (Lx' & Cx' & Vx' & _);
    [lia|lia|change (2 ^ MCL_BASEBITS) with (2 ^ 27); lia|vm_compute; discriminate|done|].
  destruct (inc_ok y 0 (4 * (a mod 4096)) 4) as (Ly' & Cy' & Vy' & _);
    [lia|lia|change (2 ^ MCL_BASEBITS) with (2 ^ 27); lia|vm_compute; discriminate|done|].
  rewrite Vx in Vx'. rewrite Vy in Vy'.
  set (x' := MCL_FF_inc x _ _ _) in *. set (y' := MCL_FF_inc y _ _ _) in *. clearbody x' y'.
  destruct (mul_ok 1 2 x' y') as (z & Ez & Cz & Vz);
    [lia|vm_compute; discriminate|change (2 ^ 2)%nat with 4%nat; lia|change (2 ^ 2)%nat with 4%nat; lia|done|done|].
  change (2 ^ 2)%nat with 4%nat in *. change (2 * 4)%nat with 8%nat in *. change (2 * 1) with 2 in *.
  rewrite Vx', Vy' in Vz. exists z. split; [done|]. unfold MCL_FF_to_bytes.
  rewrite toOctet_ok, reverse_involutive, Vz.
  - replace (8 * Z.to_nat MCL_MODBYTES)%nat with (256 + 192)%nat by reflexivity.
    rewrite le_split_add. apply take_app_length'. symmetry. apply length_le_split.
  - intros i Hi. by apply Cz.
  - by apply (canon_rows 2).
Qed.

Section keys.
Context `{Platform, Hardware}.

(** Secrets derived from the master secret. *)
Definition Y2 (ims : list Z) : list Z := Sha256.sha256 (masked_words ims 0x5a5a5a5a 4 (seqZ 0 8)).
Definition Z_ (ims : list Z) (k : Z) : list Z := H_concat (Y2 ims) k 32.

Lemma Y2_ok ims : bytes_ok (Y2 ims) /\ length (Y2 ims) = 32%nat.
Proof. split; [apply sha256_bytes | apply length_sha256]. Qed.

Lemma computes_concat32 input v :
  bytes_ok input /\ length input = 32%nat -> is_u8 v -> computes (sha256_concat input v 32) (H_concat input v 32).
Proof. intros [Hb Hl] Hv. by apply (computes_concat input v 32). Qed.

Lemma computes_y2 ims : computes (calculate_y2 ims) (Y2 ims).
Proof. apply computes_hash; [apply masked_words_bytes | apply absorbs_masked]. Qed.

(** Two hashes, the second over the first. *)
Lemma computes_nested y2 a b :
  bytes_ok y2 /\ length y2 = 32%nat -> is_u8 a -> is_u8 b ->
  computes (z ← sha256_concat y2 a 32; sha256_concat z b 32) (H_concat (H_concat y2 a 32) b 32).
Proof.
  intros Hy Ha Hb. eapply computes_bind; [by apply computes_concat32|].
  apply computes_concat32; [apply H_concat_ok|done].
Qed.

Lemma computes_epsk y2 :
  bytes_ok y2 /\ length y2 = 32%nat ->
  computes (calculate_epsk y2)
    (H_concat (H_concat y2 1 32) 1 32 ++ take 24 (H_concat (H_concat y2 1 32) 2 32)).
Proof.
  intros Hy. unfold calculate_epsk.
  repeat (eapply computes_bind; [apply computes_concat32; [first [done|apply H_concat_ok]|done]|]).
  apply computes_ret.
Qed.

Lemma computes_errk_hashes z3 vals :
  bytes_ok z3 /\ length z3 = 32%nat -> Forall is_u8 vals ->
  computes (errk_hashes z3 vals) (concat (map (λ v, H_concat z3 v 32) vals)).
Proof.
  intros Hz. induction 1 as [|v vals Hv _ IH]; cbn [errk_hashes map concat]; [apply computes_ret|].
  eapply computes_bind; [by apply computes_concat32|]. eapply computes_bind; [exact IH|]. apply computes_ret.
Qed.

(** A factor of the modulus: four hashes of [Z3], with the two lowest bits set,
    adjusted by a part of the alias. *)
Definition errk_hash (z3 vals : list Z) : list Z :=
  let p := concat (map (λ v, H_concat z3 v 32) vals) in <[0%nat := Z.lor (get8 p 0) 3]> p.
Definition errk_factor (z3 vals : list Z) (alias : Z) : Z := le_combine (errk_hash z3 vals) + 4 * alias.

Lemma lor3_u8 x : is_u8 x -> is_u8 (Z.lor x 3).
Proof.
  intros Hx. unfold is_u8 in *. split; [apply Z.lor_nonneg; lia|].
  destruct (Z.eq_dec (Z.lor x 3) 0) as [->|]; [lia|].
  assert (0 <= Z.lor x 3) by (apply Z.lor_nonneg; lia).
  apply Z.log2_lt_pow2; [lia|]. rewrite Z.log2_lor by lia. apply Z.max_lub_lt; [|by vm_compute].
  destruct (Z.eq_dec x 0) as [->|]; [by vm_compute|]. apply Z.log2_lt_pow2; lia.
Qed.

Lemma errk_hash_ok z3 vals :
  length vals = 4%nat -> bytes_ok (errk_hash z3 vals) /\ length (errk_hash z3 vals) = 128%nat.
Proof.
  intros Hl. unfold errk_hash.
  assert (forall l, bytes_ok (concat (map (λ v, H_concat z3 v 32) l)) /\
    length (concat (map (λ v, H_concat z3 v 32) l)) = (length l * 32)%nat) as Hc.
  { induction l as [|v l [IHb IHl]]; [done|]. cbn [map concat length].
    destruct (H_concat_ok z3 v 32) as [Hb Hh]. rewrite length_app, Hh, IHl.
    split; [by apply bytes_ok_app|lia]. }
  destruct (Hc vals) as [Hb Hn]. rewrite Hl in Hn. set (p := concat _) in *.
  split; [|by rewrite length_insert]. apply Forall_insert; [done|]. apply lor3_u8.
  unfold get8. destruct (p !! Z.to_nat 0) as [x|] eqn:E; [|done]. by apply (Forall_lookup_1 _ _ _ _ Hb E).
Qed.

Lemma computes_errk_prime z3 vals :
  bytes_ok z3 /\ length z3 = 32%nat -> Forall is_u8 vals ->
  computes (errk_prime z3 vals) (bytes_to_MCL_FF (errk_hash z3 vals) 4).
Proof.
  intros Hz Hv. eapply computes_bind; [by apply computes_errk_hashes|]. apply computes_ret.
Qed.

Definition alias_ims (ims : list Z) : Z := le_combine (sub ims 32 3).

Lemma alias_range ims : bytes_ok ims -> 0 <= alias_ims ims < 2 ^ 24.
Proof.
  intros Hi. unfold alias_ims. pose proof (le_combine_bound _ (bytes_ok_sub ims 32 3 Hi)) as B.
  assert (2 ^ (8 * Z.of_nat (length (sub ims 32 3))) <= 2 ^ 24); [|lia].
  apply Z.pow_le_mono_r; [lia|]. unfold sub. rewrite length_take. lia.
Qed.

Definition errk_public (y2 ims : list Z) : list Z :=
  let z3 := H_concat y2 3 32 in
  le_split 256 (errk_factor z3 [1; 2; 3; 4] (alias_ims ims / 4096) *
                errk_factor z3 [5; 6; 7; 8] (alias_ims ims mod 4096)).

Lemma computes_errk y2 ims :
  bytes_ok y2 /\ length y2 = 32%nat -> bytes_ok ims -> computes (calculate_errk y2 ims) (errk_public y2 ims).
Proof.
  intros Hy Hi. pose proof (H_concat_ok y2 3 32) as Hz.
  destruct (errk_hash_ok (H_concat y2 3 32) [1; 2; 3; 4] eq_refl) as [Bp Lp].
  destruct (errk_hash_ok (H_concat y2 3 32) [5; 6; 7; 8] eq_refl) as [Bq Lq].
  unfold calculate_errk.
  eapply computes_bind; [by apply computes_concat32|].
  eapply computes_bind; [apply computes_errk_prime; [done|by repeat constructor]|].
  eapply computes_bind; [apply computes_errk_prime; [done|by repeat constructor]|].
  destruct (errk_modulus_ok _ _ _ Bp Bq Lp Lq (alias_range ims Hi)) as (n & En & Ek).
  cbv zeta. fold (alias_ims ims). rewrite En. change (the (Some n)) with (mret (M := B) n).
  eapply computes_bind; [apply computes_ret|]. unfold errk_public, errk_factor. cbv zeta.
  rewrite <- Ek. apply computes_ret.
Qed.

(** [m] with hash context [x] and keys [k]. *)
Definition with_keys (x : Sha256.ctx) (k : secret_keys_comm_area) (m : machine) : machine :=
  snd (modify_keys (λ _, k) (with_ctx x m)).

Definition same_keys (m : machine) : machine := with_keys (c_shctx (m_crypto m)) (ca_keys (m_comm m)) m.

Lemma same_keys_eq m : same_keys m = m.
Proof. destruct m as [? ? ? ? ? ? ? ? ? c ca ? ? ?]. by destruct c, ca. Qed.

Lemma ready_with_keys x k m : crypto_ready m -> length (Sha256.w x) = 80%nat -> crypto_ready (with_keys x k m).
Proof. intros []. by split. Qed.

(** Compute a secret and store it. *)
Lemma keys_step {A} (c : B A) a (f : A -> B unit) m x k :
  crypto_ready m -> length (Sha256.w x) = 80%nat -> computes c a ->
  exists y, length (Sha256.w y) = 80%nat /\ (c ≫= f) (with_keys x k m) = f a (with_keys y k m).
Proof.
  intros Hm Hx Hc. destruct (Hc (with_keys x k m)) as (y & Hy & E); [by apply ready_with_keys|].
  exists y. split; [done|]. by rewrite (bind_step _ _ _ _ _ E).
Qed.

Lemma modify_keys_step (g : secret_keys_comm_area -> secret_keys_comm_area) x k m :
  modify_keys g (with_keys x k m) = (Done tt, with_keys x (g k) m).
Proof. done. Qed.

(** [C35] Key generation in a machine with the hash functions installed returns,
    and leaves in the communication area the secrets derived from IMS: with
    [Y2 = H(IMS xor 5a..)] and [Zk = H(Y2 || k^32)], EPSK is [H(Z1 || 1^32)]
    followed by 24 bytes of [H(Z1 || 2^32)] (the comment in the source says 20), ESSK is [H(Z2 || 1^32)], ERGS is
    [H(Z5 || 1^32)], and ERRK is the low 2048 bits, least significant byte
    first, of the product of two factors, each made of four hashes of [Z3] with
    the low bits set and an alias added: the Karatsuba multiplication on 27-bit
    words computes exactly that product. *)
Theorem key_generation_derives ims m :
  crypto_ready m -> bytes_ok ims ->
  exists x, key_generation ims m =
    (Done tt, with_keys x
       {| k_epsk := H_concat (Z_ ims 1) 1 32 ++ take 24 (H_concat (Z_ ims 1) 2 32);
          k_essk := H_concat (Z_ ims 2) 1 32;
          k_ergs := H_concat (Z_ ims 5) 1 32;
          k_errk_n := le_split 256
            (errk_factor (Z_ ims 3) [1; 2; 3; 4] (alias_ims ims / 4096) *
             errk_factor (Z_ ims 3) [5; 6; 7; 8] (alias_ims ims mod 4096)) |} m).
Proof.
  intros Hm Hi. pose proof (computes_errk (Y2 ims) ims (Y2_ok ims) Hi) as Herrk.
  assert (Hstart : key_generation ims m = key_generation ims (same_keys m)) by (by rewrite same_keys_eq).
  rewrite Hstart. unfold same_keys. pose proof (ready_w m Hm) as Hw. unfold key_generation.
  edestruct (keys_step (calculate_y2 ims)) as (x1 & H1x & ->); [exact Hm|exact Hw|apply computes_y2|].
  edestruct (keys_step (calculate_epsk (Y2 ims))) as (x2 & H2x & ->);
    [exact Hm|exact H1x|apply computes_epsk, Y2_ok|].
  rewrite (bind_step _ _ _ _ _ (modify_keys_step _ _ _ _)).
  edestruct (keys_step (calculate_ergs (Y2 ims))) as (x3 & H3x & ->);
    [exact Hm|exact H2x|apply computes_nested; [apply Y2_ok|done|done]|].
  rewrite (bind_step _ _ _ _ _ (modify_keys_step _ _ _ _)).
  edestruct (keys_step (calculate_essk (Y2 ims))) as (x4 & H4x & ->);
    [exact Hm|exact H3x|apply computes_nested; [apply Y2_ok|done|done]|].
  rewrite (bind_step _ _ _ _ _ (modify_keys_step _ _ _ _)).
  edestruct (keys_step (calculate_epck (Y2 ims))) as (x5 & H5x & ->);
    [exact Hm|exact H4x|apply computes_nested; [apply Y2_ok|done|done]|].
  edestruct (keys_step (calculate_errk (Y2 ims) ims)) as (x6 & H6x & ->); [exact Hm|exact H5x|exact Herrk|].
  exists x6. rewrite modify_keys_step. reflexivity.
Qed.
End keys.

(** ** Accepted fuses *)

(** The two Hamming weights the design allows: unset, or as many ones as
    zeros. *)
Definition balanced (bs : list Z) : Prop :=
  popcount_bytes bs = 0 \/ popcount_bytes bs = 4 * Z.of_nat (length bs).

Lemma valid_hamming_spec buf len v :
  bytes_ok buf -> 0 <= len <= Z.of_nat (length buf) -> valid_hamming_weight buf len = Some v ->
  (fst v = true <-> balanced (take (Z.to_nat len) buf)) /\
  (snd v = true <-> popcount_bytes (take (Z.to_nat len) buf) = 0).
Proof.
  intros Hb Hl E. unfold valid_hamming_weight in E. unfold count_ones in E.
  rewrite count_ones_loop_eq in E by (done || lia).
  injection E as <-. cbn [fst snd]. unfold balanced. rewrite length_take, Z.add_0_l.
  rewrite orb_true_iff, !Z.eqb_eq. rewrite Z.quot_div_nonneg by lia.
  replace (len * 8) with (len * 4 * 2) by lia. rewrite Z.div_mul by lia.
  replace (4 * Z.of_nat (Nat.min (Z.to_nat len) (length buf))) with (len * 4) by lia. done.
Qed.

Section init.
Context `{Platform, Hardware}.

Definition keeps_id (m m' : machine) : Prop := m_ara_vid m' = m_ara_vid m /\ m_ara_pid m' = m_ara_pid m.

#[export] Instance keeps_id_refl : Reflexive keeps_id.
Proof. by split. Qed.
#[export] Instance keeps_id_trans : Transitive keeps_id.
Proof. intros m1 m2 m3 [] []. by split; etrans. Qed.

Lemma only_dev_keeps {A} (c : B A) : pres only_dev c -> pres keeps_id c.
Proof. intros Hc m. destruct (Hc m) as [d ->]. done. Qed.

Lemma pres_set_crypto v : pres keeps_id (modify (set_crypto v)).
Proof. intros m. done. Qed.
#[local] Hint Resolve pres_set_crypto : pres.

Lemma pres_hash_start : pres keeps_id hash_start.
Proof.
  unfold hash_start. apply pres_bind; [typeclasses eauto|pres_auto|]. intros cs.
  destruct (c_sha256_init_func cs) as [[]|]; pres_auto.
Qed.
Lemma pres_hash_update bs : pres keeps_id (hash_update bs).
Proof.
  induction bs as [|b bs IH]; cbn [hash_update]; [pres_auto|].
  apply pres_bind; [typeclasses eauto|pres_auto|]. intros cs.
  destruct (c_sha256_process_func cs) as [[]|]; pres_auto.
Qed.
Lemma pres_hash_final : pres keeps_id hash_final.
Proof.
  unfold hash_final. apply pres_bind; [typeclasses eauto|pres_auto|]. intros cs.
  generalize (Sha256.shs256_hash (c_shctx cs)). intros [d c].
  destruct (c_sha256_hash_func cs) as [[]|]; pres_auto.
Qed.
End init.
#[export] Hint Resolve pres_hash_start pres_hash_update pres_hash_final : pres.
#[export] Hint Extern 5 (pres keeps_id _) => apply only_dev_keeps; solve [eauto 2 with pres] : pres.

Section init_props.
Context `{Platform, Hardware}.

Lemma pres_hash_masked n : forall i ims mask size, pres keeps_id (hash_masked n i ims mask size).
Proof. induction n as [|n IH]; intros; cbn [hash_masked]; pres_auto. Qed.
Lemma pres_hash_repeat n bs : pres keeps_id (hash_repeat n bs).
Proof. induction n as [|n IH]; cbn [hash_repeat]; pres_auto. Qed.

Lemma pres_es3_epuid ims : pres keeps_id (calculate_es3_epuid ims).
Proof.
  unfold calculate_es3_epuid. generalize 4%nat, 8%nat, 1%nat. intros a b c.
  repeat (apply pres_bind; [typeclasses eauto|
    first [apply pres_hash_masked|apply pres_hash_repeat|solve [eauto with pres]]|intros ?]).
  apply pres_ret. typeclasses eauto.
Qed.

Lemma pres_isaa_words fuel : forall off size, pres only_dev (isaa_read_words fuel off size).
Proof. induction fuel as [|n IH]; intros off size; cbn [isaa_read_words]; pres_auto; apply IH. Qed.

Lemma pres_get_ims buf size : pres keeps_id (tsb_get_ims buf size).
Proof.
  apply only_dev_keeps. unfold tsb_get_ims, isaa_read_n. destruct boot_stage, get_2ndstage_cfgdata;
    pres_auto; apply pres_isaa_words.
Qed.

Lemma pres_get_pid : pres keeps_id tsb_get_ara_pid.
Proof. apply only_dev_keeps. unfold tsb_get_ara_pid. destruct boot_stage, get_2ndstage_cfgdata; pres_auto. Qed.

Lemma hamming_word v w :
  valid_hamming_weight (le_split 4 w) 4 = Some v -> fst v = true -> balanced (le_split 4 w).
Proof.
  intros E Hv. apply valid_hamming_spec in E; [|apply le_split_bytes|done]. by apply E.
Qed.

(** The part of [efuse_init] behind the checks keeps the ids. *)
Lemma publish_epuid_keeps ims m m' :
  (endpoint_id ← calculate_es3_epuid ims;
   urc ← chip_unipro_attr_write DME_ARA_ENDPOINTID_L (get32 endpoint_id 0) 0 ATTR_LOCAL;
   if negb (urc =? 0) then set_last_error BRE_EFUSE_ENDPOINT_ID_WRITE ;; mret (-1)
   else
     urc ← chip_unipro_attr_write DME_ARA_ENDPOINTID_H (get32 endpoint_id 4) 0 ATTR_LOCAL;
     if negb (urc =? 0) then set_last_error BRE_EFUSE_ENDPOINT_ID_WRITE ;; mret (-1)
     else mret 0) m = (Done 0, m') -> keeps_id m m'.
Proof.
  intros E. apply bind_done in E. destruct E as (id & m1 & E1 & E).
  apply (pres_run _ _ _ _ _ (pres_es3_epuid ims)) in E1. etrans; [exact E1|].
  apply bind_done in E. destruct E as (u & m2 & E2 & E).
  apply (pres_run _ _ _ _ _ (only_dev_keeps _ (pres_attr_write _ _ _ _))) in E2. etrans; [exact E2|].
  destruct (u =? 0); [|by inv_done]. cbn [negb] in E.
  apply bind_done in E. destruct E as (u' & m3 & E3 & E).
  apply (pres_run _ _ _ _ _ (only_dev_keeps _ (pres_attr_write _ _ _ _))) in E3. etrans; [exact E3|].
  destruct (u' =? 0); [|by inv_done]. by injection E as <-.
Qed.

(** What [tsb_get_ims] leaves in a buffer of bytes is bytes. *)
Lemma isaa_words_ok fuel : forall off size m bs m', 0 <= size ->
  isaa_read_words fuel off size m = (Done bs, m') -> bytes_ok bs /\ Z.of_nat (length bs) <= size.
Proof.
  induction fuel as [|n IH]; intros off size m bs m' Hs E; cbn [isaa_read_words] in E.
  { injection E as <- _. split; [constructor|done]. }
  destruct (Z.ltb_spec 4 size) as [H4|H4].
  - apply bind_done in E. destruct E as (v & m1 & _ & E). apply bind_done in E. destruct E as (rest & m2 & E2 & E).
    assert (bs = le_split 4 v ++ rest) as -> by (unfold mret, boot_ret in E; congruence).
    apply IH in E2 as [Hb Hl]; [|lia]. split.
    + apply bytes_ok_app. split; [apply le_split_bytes|done].
    + rewrite length_app, length_le_split. lia.
  - destruct (Z.ltb_spec 0 size) as [H0'|H0'].
    + apply bind_done in E. destruct E as (v & m1 & _ & E). injection E as <- _.
      split; [apply le_split_bytes|]. rewrite length_le_split. lia.
    + injection E as <- _. split; [constructor|done].
Qed.

Lemma get_ims_ok `{!PlatformOk} buf m ims m' :
  bytes_ok buf -> (32 <= length buf)%nat -> tsb_get_ims buf IMS_MEANINGFUL_LENGTH m = (Done ims, m') ->
  bytes_ok ims /\ length ims = length buf.
Proof.
  intros Hb Hl E.
  assert (Hsplice : forall bs, bytes_ok bs -> Z.of_nat (length bs) <= 32 ->
    bytes_ok (splice buf 0 bs) /\ length (splice buf 0 bs) = length buf).
  { intros bs Hbs Hlb. split; [by apply bytes_ok_splice|]. apply length_splice; lia. }
  assert (Hfuse : (bs ← isaa_read_n TSB_ISAA_IMS0 32; mret (splice buf 0 bs)) m = (Done ims, m') ->
    bytes_ok ims /\ length ims = length buf).
  { intros E'. apply bind_done in E'. destruct E' as (bs & m1 & E1 & [= <- _]).
    apply isaa_words_ok in E1 as [Hbs Hlb]; [|done]. by apply Hsplice. }
  unfold tsb_get_ims in E. destruct boot_stage; [by apply Hfuse|].
  destruct get_2ndstage_cfgdata as [cfg|] eqn:Ec; [|by apply Hfuse].
  injection E as <- _. destruct (use_fake_ims cfg =? 0); [done|]. apply Hsplice.
  - unfold get_2ndstage_cfgdata in Ec. case_decide; [|done]. injection Ec as <-.
    cbn [fake_ims cfgdata_of]. apply bytes_ok_sub, bytes_ok_sub, s2l_buf_ok.
  - unfold FAKE_IMS_SIZE, IMS_MEANINGFUL_LENGTH. change (35 <? 32) with false. cbv iota.
    unfold sub. rewrite length_take. lia.
Qed.

(** [C36] Fuses are accepted only with the Hamming weights the design allows.  A
    run of [efuse_init] that succeeds read the error register first, without the
    ECC error, then the vendor id, the product id and the master secret: each of
    the three is unset or has as many ones as zeros, the ids are the ones it
    recorded, and with an unset secret nothing was published. *)
Theorem efuse_init_sound `{!PlatformOk} ims0 m m' :
  bytes_ok ims0 -> (32 <= length ims0)%nat -> efuse_init ims0 m = (Done 0, m') ->
  exists ecc m1 vid m2 pid m3 ims m4,
    tsb_get_eccerror m = (Done ecc, m1) /\ Z.land ecc TSB_ECCERROR_ECC_ERROR = 0 /\
    tsb_get_ara_vid m1 = (Done vid, m2) /\ tsb_get_ara_pid (set_ara_vid vid m2) = (Done pid, m3) /\
    tsb_get_ims ims0 IMS_MEANINGFUL_LENGTH (set_ara_pid pid m3) = (Done ims, m4) /\
    balanced (le_split 4 vid) /\ balanced (le_split 4 pid) /\ balanced (take 32 ims) /\
    m_ara_vid m' = vid /\ m_ara_pid m' = pid /\ (popcount_bytes (take 32 ims) = 0 -> m' = m4).
Proof.
  intros Hb0 Hl0 E. unfold efuse_init in E.
  apply bind_done in E. destruct E as (ecc & m1 & E1 & E).
  destruct (Z.eqb_spec (Z.land ecc TSB_ECCERROR_ECC_ERROR) 0) as [Hecc|]; [|by inv_done]. cbn [negb] in E.
  apply bind_done in E. destruct E as (vid & m2 & E2 & E).
  apply bind_done in E. destruct E as ([] & m3 & [= <-] & E).
  apply bind_done in E. destruct E as (v & m3 & Ev & E). apply the_done in Ev as [Ev ->].
  destruct (fst v) eqn:Efv; [|by inv_done]. cbn [negb] in E. apply hamming_word in Ev; [|done].
  apply bind_done in E. destruct E as (pid & m4 & E4 & E).
  pose proof (pres_run _ _ _ _ _ pres_get_pid E4) as [Hv4 _].
  apply bind_done in E. destruct E as ([] & m5 & [= <-] & E).
  apply bind_done in E. destruct E as (v2 & m5 & Ev2 & E). apply the_done in Ev2 as [Ev2 ->].
  destruct (fst v2) eqn:Efv2; [|by inv_done]. cbn [negb] in E. apply hamming_word in Ev2; [|done].
  apply bind_done in E. destruct E as (ims & m6 & E6 & E).
  pose proof (pres_run _ _ _ _ _ (pres_get_ims _ _) E6) as [Hv6 Hp6].
  apply bind_done in E. destruct E as (v3 & m7 & Ev3 & E). apply the_done in Ev3 as [Ev3 ->].
  destruct (fst v3) eqn:Efv3; [|by inv_done]. cbn [negb] in E.
  destruct (get_ims_ok _ _ _ _ Hb0 Hl0 E6) as [Hbi Hli].
  apply valid_hamming_spec in Ev3 as [Hw Hz]; [|done|unfold IMS_MEANINGFUL_LENGTH; lia].
  assert (Hid : keeps_id m6 m').
  { destruct (negb (snd v3)); [by eapply publish_epuid_keeps | by injection E as <-]. }
  destruct Hid as [Hv Hp]. exists ecc, m1, vid, m2, pid, m4, ims, m6.
  split_and!; try done; [by apply Hw|by rewrite Hv, Hv6; cbn; rewrite Hv4|by rewrite Hp, Hp6|].
  intros H0'. rewrite (proj2 Hz H0') in E. by injection E as <-.
Qed.
End init_props.

(** ** Runs on the simulated chip *)

(** A machine with the hash functions installed and a fused vendor id. *)
Definition fused_machine : @machine sim_hw :=
  snd (@crypto_init (sim_platform Stage1 [] []) sim_hw
    (sim_machine (sim_soc {[ 0x40000700 := 0x0f0f0f0f; 0x40000704 := 0x00ffff00 ]} []))).

Lemma fused_ready : crypto_ready fused_machine.
Proof. split; vm_compute; reflexivity. Qed.

Lemma efuse_init_sound_witness :
  let P := sim_platform Stage1 [] [] in
  let m' := snd (@efuse_init P sim_hw (replicate 35 0) fused_machine) in
  m_ara_vid m' = 0x0f0f0f0f /\
  exists vid pid m3 ims m4,
    @tsb_get_ims P sim_hw (replicate 35 0) IMS_MEANINGFUL_LENGTH (set_ara_pid pid m3) = (Done ims, m4) /\
    balanced (le_split 4 vid) /\ balanced (take 32 ims) /\ m_ara_vid m' = vid.
Proof.
  intros P m'. split; [vm_compute; reflexivity|].
  destruct (@efuse_init_sound P sim_hw (sim_platform_ok Stage1) (replicate 35 0) fused_machine m'
    ltac:(by apply Forall_replicate) ltac:(cbn; lia)
    (run_done (@efuse_init P sim_hw (replicate 35 0)) fused_machine 0 ltac:(vm_compute; reflexivity)))
    as (ecc & m1 & vid & m2 & pid & m3 & ims & m4 & _ & _ & _ & _ & E & B & _ & C & V & _).
  exists vid, pid, m3, ims, m4. exact (conj E (conj B (conj C V))).
Defined.

Lemma es3_epuid_four_bytes_witness :
  let P := sim_platform Stage1 [] [] in
  let a := replicate 32 7 in
  let b := [7;1;2;3;7;5;6;7;7;9;10;11;7;13;14;15] ++ replicate 16 99 in
  a <> b /\
  fst (@calculate_es3_epuid sim_hw a fused_machine) = Done (es3_epuid a) /\
  fst (@calculate_es3_epuid sim_hw b fused_machine) = Done (es3_epuid a).
Proof.
  intros P a b. split; [discriminate|].
  apply (@es3_epuid_four_bytes sim_hw a b fused_machine).
  - repeat constructor; vm_compute; (reflexivity || discriminate).
  - repeat constructor; vm_compute; (reflexivity || discriminate).
  - exact fused_ready.
  - intros i Hi. destruct Hi as [<-|[<-|[<-|[<-|[]]]]]; reflexivity.
Defined.

Lemma key_generation_derives_witness :
  let P := sim_platform Stage1 [] [] in
  let ims := replicate 35 0x0f in
  crypto_ready fused_machine /\ bytes_ok ims /\
  exists x, @key_generation sim_hw ims fused_machine =
    (Done tt, @with_keys sim_hw x
       {| k_epsk := H_concat (Z_ ims 1) 1 32 ++ take 24 (H_concat (Z_ ims 1) 2 32);
          k_essk := H_concat (Z_ ims 2) 1 32;
          k_ergs := H_concat (Z_ ims 5) 1 32;
          k_errk_n := le_split 256
            (errk_factor (Z_ ims 3) [1; 2; 3; 4] (alias_ims ims / 4096) *
             errk_factor (Z_ ims 3) [5; 6; 7; 8] (alias_ims ims mod 4096)) |} fused_machine).
Proof.
  intros P ims. assert (bytes_ok ims) as Hi by (by apply Forall_replicate).
  split; [exact fused_ready|]. split; [exact Hi|].
  apply (@key_generation_derives sim_hw ims fused_machine fused_ready Hi).
Defined.
