(* ===== verification/Unipro.v ===== *)
(** * Unipro: CPorts, messages and the mailbox
    (chips/tsb/src/tsb_unipro.c, chips/es3tsb/src/es3_unipro.c,
    common/src/ara_mailbox.c)

    Error numbers are the negated errno values of the C code. *)

From S2P Require Import Prelude Machine Chip.

Definition EIO : Z := 5.
Definition EINVAL : Z := 22.

Definition AHM_RX_EOM_INT_BEF_0 : Z := 0x33C.
Definition AHM_RX_EOT_INT_BEF_0 : Z := 0x348.
Definition CPB_RX_E2EFC_EN_0 : Z := 0x624.
Definition CPB_RX_E2EFC_EN_1 : Z := 0x628.
Definition AHM_ADDRESS_00 : Z := 0x800.
Definition CPB_TXQUEUEEMPTY_0 : Z := 0xF08.
Definition REG_RX_PAUSE_SIZE_00 : Z := 0x1200.
Definition RX_PAUSE_RESTART : Z := 0x80000000.
Definition CPB_RX_TRANSFERRED_DATA_SIZE_00 : Z := 0x1300.
Definition TX_SW_RESET_00 : Z := 0x1400.
Definition RX_SW_RESET_00 : Z := 0x1500.
Definition CPORT_SW_RESET_BITS : Z := 3.
Definition T_CONNECTIONSTATE : Z := 0x4020.
Definition T_LOCALBUFFERSPACE : Z := 0x4028.
Definition T_PEERBUFFERSPACE : Z := 0x4029.
Definition T_CREDITSTOSEND : Z := 0x402a.
Definition TSB_POWERSTATE : Z := 0xd083.
Definition POWERSTATE_LINKUP : Z := 2.
Definition ARA_MAILBOX : Z := 0xa000.
Definition ARA_INTERRUPTSTATUS : Z := 0xd081.
Definition ARA_INTERRUPTSTATUS_MAILBOX : Z := Z.shiftl 1 15.
Definition ARA_MBOX_ACK_ATTR : Z := 0x610f.
Definition ARA_MAIL_READY_OTHER : Z := 2.
Definition UINT16_MAX : Z := 0xFFFF.

(** ** CPort buffers ([struct cport], [cport_handle]) *)
Definition CPORT_BUF_SIZE : Z := 0x2000.
Definition CPORT_TX_BUF_SIZE : Z := 0x20000.
Definition CPORT_RX_BUF (cportid : Z) : Z := 0x20000000 + CPORT_BUF_SIZE * cportid.
Definition CPORT_TX_BUF (cportid : Z) : Z := 0x50000000 + CPORT_TX_BUF_SIZE * cportid.

Record cport := { tx_buf : Z; rx_buf : Z; cport_id : Z }.
Definition DECLARE_CPORT (id : Z) : cport :=
  {| tx_buf := CPORT_TX_BUF id; rx_buf := CPORT_RX_BUF id; cport_id := id |}.
Definition cporttable : list cport := map DECLARE_CPORT [0; 1; 2; 3].

Section unipro.
Context `{Platform, Hardware}.

(** The argument is narrowed to 16 bits; the compile-time check makes the
    table at least [CPORT_MAX] long. *)
Definition cport_handle (cportid : Z) : option cport :=
  if CPORT_MAX <=? u16 cportid then None else cporttable !! Z.to_nat (u16 cportid).

(** ** Resetting and starting CPorts *)

Fixpoint attr_writes (cportid : Z) (attrs : list Z) : B Z :=
  match attrs with
  | [] => mret 0
  | a :: attrs =>
      rc ← chip_unipro_attr_write a 0 cportid ATTR_LOCAL;
      if negb (rc =? 0) then mret (- EIO) else attr_writes cportid attrs
  end.

Definition tsb_unipro_reset_cport (cportid : Z) : B Z :=
  if CPORT_MAX <=? cportid then mret (- EINVAL)
  else
    let tx_queue_empty_offset := CPB_TXQUEUEEMPTY_0 + Z.shiftl (Z.shiftr cportid 5) 2 in
    let tx_queue_empty_bit := 1 <<₃₂ Z.land cportid 31 in
    poll poll_fuel
      (v ← getreg32 (AIO_UNIPRO_BASE +₃₂ tx_queue_empty_offset);
       mret (if Z.land v tx_queue_empty_bit =? 0 then None else Some tt)) ;;
    let tx_reset_offset := TX_SW_RESET_00 + Z.shiftl cportid 2 in
    let rx_reset_offset := RX_SW_RESET_00 + Z.shiftl cportid 2 in
    putreg32 CPORT_SW_RESET_BITS (AIO_UNIPRO_BASE +₃₂ tx_reset_offset) ;;
    rc ← attr_writes cportid [T_CONNECTIONSTATE; T_LOCALBUFFERSPACE; T_PEERBUFFERSPACE; T_CREDITSTOSEND];
    if negb (rc =? 0) then mret rc
    else
      putreg32 CPORT_SW_RESET_BITS (AIO_UNIPRO_BASE +₃₂ rx_reset_offset) ;;
      putreg32 0 (AIO_UNIPRO_BASE +₃₂ tx_reset_offset) ;;
      putreg32 0 (AIO_UNIPRO_BASE +₃₂ rx_reset_offset) ;;
      mret 0.

Fixpoint reset_cports (ids : list Z) : B Z :=
  match ids with
  | [] => mret 0
  | i :: ids =>
      rc ← tsb_unipro_reset_cport i;
      if negb (rc =? 0) then mret rc else reset_cports ids
  end.

Definition tsb_reset_all_cports : B Z := reset_cports (seqZ 0 CPORT_MAX).

Definition tsb_unipro_restart_rx (c : cport) : B unit :=
  tsb_unipro_write (AHM_ADDRESS_00 + Z.shiftl (cport_id c) 2) (rx_buf c) ;;
  tsb_unipro_write (REG_RX_PAUSE_SIZE_00 + Z.shiftl (cport_id c) 2)
                   (Z.lor RX_PAUSE_RESTART CPORT_BUF_SIZE).

Definition tsb_unipro_init_cport (cportid : Z) : B Z :=
  if CPORT_MAX <=? cportid then mret (- EINVAL)
  else
    match cport_handle cportid with
    | None => mret (- EINVAL)
    | Some c => tsb_unipro_restart_rx c ;; mret 0
    end.

Definition tsb_disable_all_e2efc : B unit :=
  tsb_unipro_write CPB_RX_E2EFC_EN_0 0 ;; tsb_unipro_write CPB_RX_E2EFC_EN_1 0.
Definition tsb_reset_before_ready : B unit := tsb_disable_all_e2efc.
Definition tsb_reset_before_jump : B unit := tsb_reset_all_cports ;; mret tt.

Definition chip_unipro_init : B unit := tsb_reset_all_cports ;; mret tt.
Definition chip_unipro_init_cport (cportid : Z) : B Z := tsb_unipro_init_cport cportid.
Definition chip_reset_before_ready : B unit := tsb_reset_before_ready.
Definition chip_reset_before_jump : B unit := tsb_reset_before_jump.

Definition chip_wait_for_link_up : B unit :=
  poll poll_fuel
    (r ← chip_unipro_attr_read TSB_POWERSTATE 0 ATTR_LOCAL;
     let '(rc, tempval) := r : Z * Z in
     mret (if (rc =? 0) && negb (tempval =? POWERSTATE_LINKUP) then None else Some tt)).

(** ** Messages *)

Fixpoint put_bytes (data : list Z) (a : Z) : B unit :=
  match data with
  | [] => mret tt
  | b :: data => putreg8 b a ;; put_bytes data (a + 1)
  end.

Definition chip_unipro_send (cportid : Z) (buf : list Z) : B Z :=
  if (CPORT_MAX <=? cportid) || (CPORT_BUF_SIZE <? Z.of_nat (length buf)) then mret (-1)
  else
    match cport_handle cportid with
    | None => mret (-1)
    | Some c =>
        put_bytes buf (tx_buf c) ;;
        putreg8 1 (tx_buf c + (CPORT_TX_BUF_SIZE - 1)) ;;
        mret 0
    end.

(** A receive handler: CPort, address of the data in BufRAM, byte count. *)
Definition unipro_rx_handler : Type := Z -> Z -> Z -> B Z.

(** One look at the receive interrupts; [None] when nothing has arrived. *)
Definition receive_once (cportid : Z) (c : cport) (handler : option unipro_rx_handler) : B (option Z) :=
  eom ← tsb_unipro_read AHM_RX_EOM_INT_BEF_0;
  eot ← tsb_unipro_read AHM_RX_EOT_INT_BEF_0;
  let eom_nom_bit := 1 <<₃₂ Z.shiftl cportid 1 in
  let eom_err_bit := 2 <<₃₂ Z.shiftl cportid 1 in
  let eot_bit := 1 <<₃₂ cportid in
  if negb (Z.land eom eom_err_bit =? 0) then mret (Some (-1))
  else if negb (Z.land eot eot_bit =? 0) then mret (Some (-1))
  else if negb (Z.land eom eom_nom_bit =? 0) then
    bytes_received ← tsb_unipro_read (CPB_RX_TRANSFERRED_DATA_SIZE_00 + Z.shiftl cportid 2);
    tsb_unipro_write AHM_RX_EOM_INT_BEF_0 eom_nom_bit ;;
    rc ← match handler with
         | Some handler => handler cportid (rx_buf c) bytes_received
         | None => mret 0
         end;
    tsb_unipro_restart_rx c ;;
    mret (Some rc)
  else mret None.

Definition chip_unipro_receive (cportid : Z) (handler : option unipro_rx_handler) (blocking : bool) : B Z :=
  match cport_handle cportid with
  | None => mret (-1)
  | Some c =>
      if blocking then poll poll_fuel (receive_once cportid c handler)
      else r ← receive_once cportid c handler; mret (default 0 r)
  end.

(** ** Mailbox (ara_mailbox.c) *)

Definition is_mailbox_irq_pending : B bool :=
  r ← chip_unipro_attr_read ARA_INTERRUPTSTATUS 0 ATTR_LOCAL;
  let '(rc, irq_status) := r : Z * Z in
  mret (if negb (rc =? 0) then false else negb (Z.land irq_status ARA_INTERRUPTSTATUS_MAILBOX =? 0)).

(** Return code, and the value read when it is 0. *)
Definition read_mailbox : B (Z * Z) :=
  rc ← poll poll_fuel
    (r ← chip_unipro_attr_read ARA_INTERRUPTSTATUS 0 ATTR_LOCAL;
     let '(rc, irq_status) := r : Z * Z in
     mret (if (rc =? 0) && (Z.land irq_status ARA_INTERRUPTSTATUS_MAILBOX =? 0) then None else Some rc));
  if negb (rc =? 0) then mret (rc, 0)
  else
    r ← chip_unipro_attr_read ARA_MAILBOX 0 ATTR_LOCAL;
    let '(rc, mbox) := r : Z * Z in
    if negb (rc =? 0) then mret (rc, 0)
    else if UINT16_MAX <=? mbox then mret (- EINVAL, 0)
    else mret (0, mbox).

Definition ack_mailbox (val : Z) : B Z := chip_unipro_attr_write ARA_MBOX_ACK_ATTR (u16 val) 0 ATTR_LOCAL.

Definition write_mailbox (val : Z) : B Z :=
  rc ← chip_unipro_attr_write ARA_MAILBOX val 0 ATTR_PEER;
  if negb (rc =? 0) then mret rc
  else
    poll poll_fuel
      (r ← chip_unipro_attr_read ARA_INTERRUPTSTATUS 0 ATTR_PEER;
       let '(rc, irq_status) := r : Z * Z in
       mret (if (rc =? 0) && negb (Z.land irq_status ARA_INTERRUPTSTATUS_MAILBOX =? 0)
             then None else Some rc)).

Definition advertise_ready : B Z :=
  chip_wait_for_link_up ;; chip_reset_before_ready ;; write_mailbox ARA_MAIL_READY_OTHER.

(** Return code and [*cportid]; on an early error [*cportid] is not written
    ([old]). *)
Definition tsb_unipro_recv_cport (old : Z) : B (Z * Z) :=
  r ← read_mailbox;
  let '(rc, v) := r : Z * Z in
  if negb (rc =? 0) then mret (rc, old)
  else
    let cport_recv := v -₃₂ 1 in
    if CPORT_MAX <=? cport_recv then mret (- EINVAL, cport_recv)
    else
      match cport_handle cport_recv with
      | None => mret (- EINVAL, cport_recv)
      | Some _ => rc ← ack_mailbox (cport_recv + 1); mret (rc, cport_recv)
      end.
Definition chip_unipro_recv_cport (old : Z) : B (Z * Z) := tsb_unipro_recv_cport old.

End unipro.

(** ** Frame *)

Section frame.
Context `{Platform, Hardware}.

Lemma pres_attr_writes c l : pres only_dev (attr_writes c l).
Proof. induction l; cbn [attr_writes]; pres_auto. Qed.

Lemma pres_reset_cport i : pres only_dev (tsb_unipro_reset_cport i).
Proof.
  unfold tsb_unipro_reset_cport. cbv zeta.
  apply pres_if; [pres_auto|]. apply pres_bind; [typeclasses eauto| |].
  { apply pres_poll; [typeclasses eauto..|]. pres_auto. }
  intros _. apply pres_bind; [typeclasses eauto|pres_auto|]. intros _.
  apply pres_bind; [typeclasses eauto|apply pres_attr_writes|]. pres_auto.
Qed.

Lemma pres_reset_cports l : pres only_dev (reset_cports l).
Proof.
  induction l as [|i l IH]; cbn [reset_cports]; [pres_auto|].
  apply pres_bind; [typeclasses eauto|apply pres_reset_cport|]. pres_auto.
Qed.

Lemma pres_reset_before_jump : pres only_dev chip_reset_before_jump.
Proof.
  unfold chip_reset_before_jump, tsb_reset_before_jump, tsb_reset_all_cports.
  apply pres_bind; [typeclasses eauto|apply pres_reset_cports|]. pres_auto.
Qed.
End frame.
#[export] Hint Resolve pres_reset_before_jump : pres.
