(* ===== verification/Dme.v ===== *)
(** * Dme: the attribute store behind the DME access registers

    UniPro attributes are read and written through a few registers of the
    controller (tsb_unipro.c, modelled in Chip.v).  With a controller that
    carries out the accesses, [chip_unipro_attr_write] and [chip_unipro_attr_read]
    are the update and the lookup of a store of attributes. *)

From S2P Require Import Prelude Machine Chip Sim.

(** An attribute: of the peer or the local end, selector (the CPort, for the
    attributes of a CPort), number. *)
Record attr_key := Attr { ak_peer : bool; ak_selector : Z; ak_attr : Z }.

Definition valid_attr (k : attr_key) : Prop := 0 <= ak_selector k < 2 ^ 11 /\ 0 <= ak_attr k < 2 ^ 16.

(** The number is compared first, so that a comparison with another attribute
    evaluates. *)
Definition attr_eqb (k k' : attr_key) : bool :=
  (ak_attr k =? ak_attr k') && (ak_selector k =? ak_selector k') && Bool.eqb (ak_peer k) (ak_peer k').

Lemma attr_eqb_spec k k' : reflect (k = k') (attr_eqb k k').
Proof.
  destruct k as [p s a], k' as [p' s' a']. unfold attr_eqb. cbn [ak_attr ak_selector ak_peer].
  destruct (Z.eqb_spec a a'), (Z.eqb_spec s s'), (Bool.eqb_spec p p'); cbn; constructor; congruence.
Qed.

Lemma attr_eqb_refl k : attr_eqb k k = true.
Proof. by destruct (attr_eqb_spec k k). Qed.

(** The control word of an access. *)
Definition access_word (k : attr_key) (write : bool) : Z :=
  Z.lor (Z.lor (Z.lor (REG_ATTRACS_CTRL_PEERENA (ak_peer k)) (REG_ATTRACS_CTRL_SELECT (ak_selector k)))
               (REG_ATTRACS_CTRL_WRITE write)) (ak_attr k).

Definition START_ACCESS : Z := Z.lor (REG_ATTRACS_CNT 1) REG_ATTRACS_UPD.

Definition DME (offset : Z) : Z := AIO_UNIPRO_BASE +₃₂ offset.

Definition store : Type := attr_key -> Z.
Definition store_set (k : attr_key) (v : Z) (st : store) : store := λ k', if attr_eqb k k' then v else st k'.

(** The controller: an access that was started ends after at most [dme_latency]
    reads of the interrupt register, its status is 0, a read delivers the value
    stored and a write stores the value.  [accessing d k o w]: the access to [k]
    ([o] is the value to write, if it is a write) ends after [w] reads;
    [accessed d k o]: it has ended. *)
Class DmeController `{Hardware} := {
  attrs : dev -> store;
  accessing : dev -> attr_key -> option Z -> nat -> Prop;
  accessed : dev -> attr_key -> option Z -> Prop;
  dme_latency : nat;
  dme_start_write d k v : valid_attr k -> is_u32 v ->
    let d' := reg_write (DME A2D_ATTRACS_MSTR_CTRL) START_ACCESS
                (reg_write (DME A2D_ATTRACS_DATA_CTRL_00) v
                  (reg_write (DME A2D_ATTRACS_CTRL_00) (access_word k true) d)) in
    exists w, (w <= dme_latency)%nat /\ accessing d' k (Some v) w /\ forall k', attrs d' k' = attrs d k';
  dme_start_read d k : valid_attr k ->
    let d' := reg_write (DME A2D_ATTRACS_MSTR_CTRL) START_ACCESS
                (reg_write (DME A2D_ATTRACS_CTRL_00) (access_word k false) d) in
    exists w, (w <= dme_latency)%nat /\ accessing d' k None w /\ forall k', attrs d' k' = attrs d k';
  dme_wait d k o w : accessing d k o (S w) ->
    let r := reg_read (DME A2D_ATTRACS_INT_BEF) d in
    fst r = 0 /\ accessing (snd r) k o w /\ forall k', attrs (snd r) k' = attrs d k';
  dme_end d k o : accessing d k o 0 ->
    let r := reg_read (DME A2D_ATTRACS_INT_BEF) d in
    fst r <> 0 /\ accessed (snd r) k o /\ forall k', attrs (snd r) k' = attrs d k';
  dme_write_done d k v : accessed d k (Some v) ->
    let r := reg_read (DME A2D_ATTRACS_STS_00) (reg_write (DME A2D_ATTRACS_INT_BEF) 1 d) in
    fst r = 0 /\ forall k', attrs (snd r) k' = store_set k v (attrs d) k';
  dme_read_done d k : accessed d k None ->
    let r := reg_read (DME A2D_ATTRACS_STS_00) (reg_write (DME A2D_ATTRACS_INT_BEF) 1 d) in
    let r' := reg_read (DME A2D_ATTRACS_DATA_STS_00) (snd r) in
    fst r = 0 /\ fst r' = attrs d k /\ forall k', attrs (snd r') k' = attrs d k'
}.

Section dme.
Context `{Platform, Hardware, !DmeController}.
Context (Hfuel : (dme_latency < poll_fuel)%nat).

Definition same_store (m m' : machine) : Prop := forall k, attrs (m_dev m') k = attrs (m_dev m) k.

Definition attr_poll : B unit :=
  poll poll_fuel (v ← tsb_unipro_read A2D_ATTRACS_INT_BEF; mret (if v =? 0 then None else Some tt)).

Lemma unipro_read_run o m :
  tsb_unipro_read o m =
    (Done (fst (reg_read (DME o) (m_dev m))), set_dev (snd (reg_read (DME o) (m_dev m))) m).
Proof. unfold tsb_unipro_read, getreg32, DME. by destruct (reg_read _ _). Qed.

Lemma unipro_write_run o v m :
  tsb_unipro_write o v m = (Done tt, set_dev (reg_write (DME o) v (m_dev m)) m).
Proof. done. Qed.

(** The wait for the end of an access. *)
Lemma attr_poll_run n : forall w m k o,
  accessing (m_dev m) k o w -> (w < n)%nat ->
  exists d, poll n (v ← tsb_unipro_read A2D_ATTRACS_INT_BEF; mret (if v =? 0 then None else Some tt)) m
              = (Done tt, set_dev d m) /\
    accessed d k o /\ forall k', attrs d k' = attrs (m_dev m) k'.
Proof.
  induction n as [|n IH]; intros w m k o Ha Hw; [lia|]. cbn [poll].
  rewrite bind_assoc, (bind_step _ _ _ _ _ (unipro_read_run _ _)), bind_ret. destruct w as [|w].
  - destruct (dme_end _ _ _ Ha) as (Hr & Hd & Hs). rewrite (proj2 (Z.eqb_neq _ _) Hr).
    eexists. split; [reflexivity|]. done.
  - destruct (dme_wait _ _ _ _ Ha) as (Hr & Hd & Hs). rewrite (proj2 (Z.eqb_eq _ _) Hr).
    set (m1 := set_dev _ m). destruct (IH w m1 k o) as (d & E & Hd' & Hs'); [done|lia|].
    exists d. split; [by rewrite E|]. split; [done|]. intros k'. by rewrite Hs'.
Qed.

Lemma attr_write_run k v m :
  valid_attr k -> is_u32 v ->
  exists d, chip_unipro_attr_write (ak_attr k) v (ak_selector k) (ak_peer k) m = (Done 0, set_dev d m) /\
    forall k', attrs d k' = store_set k v (attrs (m_dev m)) k'.
Proof.
  intros Hk Hv. unfold chip_unipro_attr_write, unipro_attr_access. cbv zeta.
  fold (access_word k true) START_ACCESS. rewrite bind_assoc, (bind_step _ _ _ _ _ (unipro_write_run _ _ _)).
  cbn [when]. rewrite bind_assoc, (bind_step _ _ _ _ _ (unipro_write_run _ _ _)).
  rewrite bind_assoc, (bind_step _ _ _ _ _ (unipro_write_run _ _ _)).
  destruct (dme_start_write (m_dev m) k v Hk Hv) as (w & Hw & Ha & Hs). cbv zeta in Ha, Hs.
  set (m1 := set_dev _ (set_dev _ (set_dev _ m))).
  destruct (attr_poll_run poll_fuel w m1 k (Some v)) as (d & E & Hd & Hs1); [done|lia|].
  rewrite bind_assoc, (bind_step _ _ _ _ _ E), bind_assoc, (bind_step _ _ _ _ _ (unipro_write_run _ _ _)).
  rewrite bind_assoc, (bind_step _ _ _ _ _ (unipro_read_run _ _)), bind_ret.
  destruct (dme_write_done _ _ _ Hd) as (Hr & Hs2). cbv zeta in Hr, Hs2. cbn [fst].
  eexists. split; [cbn; rewrite Hr; reflexivity|]. intros k'. cbn. rewrite Hs2.
  unfold store_set. destruct (attr_eqb k k'); [done|]. by rewrite Hs1, Hs.
Qed.

Lemma attr_read_run k m :
  valid_attr k ->
  exists d, chip_unipro_attr_read (ak_attr k) (ak_selector k) (ak_peer k) m
              = (Done (0, attrs (m_dev m) k), set_dev d m) /\
    forall k', attrs d k' = attrs (m_dev m) k'.
Proof.
  intros Hk. unfold chip_unipro_attr_read, unipro_attr_access. cbv zeta.
  fold (access_word k false) START_ACCESS. rewrite (bind_step _ _ _ _ _ (unipro_write_run _ _ _)).
  cbn [when]. rewrite bind_ret, (bind_step _ _ _ _ _ (unipro_write_run _ _ _)).
  destruct (dme_start_read (m_dev m) k Hk) as (w & Hw & Ha & Hs). cbv zeta in Ha, Hs.
  set (m1 := set_dev _ (set_dev _ m)).
  destruct (attr_poll_run poll_fuel w m1 k None) as (d & E & Hd & Hs1); [done|lia|].
  rewrite (bind_step _ _ _ _ _ E), (bind_step _ _ _ _ _ (unipro_write_run _ _ _)).
  rewrite (bind_step _ _ _ _ _ (unipro_read_run _ _)), (bind_step _ _ _ _ _ (unipro_read_run _ _)).
  destruct (dme_read_done _ _ Hd) as (Hr & Hv & Hs2). cbv zeta in Hr, Hv, Hs2.
  eexists. split; [unfold mret, boot_ret; cbn; rewrite Hr, Hv, Hs1, Hs; reflexivity|].
  intros k'. by rewrite Hs2, Hs1, Hs.
Qed.

(** [C34] Writing an attribute and reading it back gives the value written, both
    calls returning 0; reading another attribute gives what it was before. *)
Theorem dme_roundtrip k k' v m :
  valid_attr k -> valid_attr k' -> is_u32 v ->
  exists d,
    (chip_unipro_attr_write (ak_attr k) v (ak_selector k) (ak_peer k) ;;
     chip_unipro_attr_read (ak_attr k') (ak_selector k') (ak_peer k')) m
      = (Done (0, if attr_eqb k k' then v else attrs (m_dev m) k'), set_dev d m) /\
    forall j, attrs d j = store_set k v (attrs (m_dev m)) j.
Proof.
  intros Hk Hk' Hv. destruct (attr_write_run k v m Hk Hv) as (d1 & E1 & S1).
  destruct (attr_read_run k' (set_dev d1 m) Hk') as (d2 & E2 & S2).
  exists d2. rewrite (bind_step _ _ _ _ _ E1), E2. cbn [m_dev set_dev]. rewrite S1. split; [done|].
  intros j. by rewrite S2.
Qed.
End dme.

(** ** A controller *)

(** The store, the control and data words of the access in progress, and the
    reads until it ends. *)
Record dme_chip := DmeChip { ch_store : store; ch_ctrl : Z; ch_data : Z; ch_wait : nat }.

Definition word_attr (ctrl : Z) : attr_key :=
  Attr (Z.testbit ctrl 29) (Z.land (Z.shiftr ctrl 16) 0x7FF) (Z.land ctrl 0xFFFF).

Definition chip_commit (d : dme_chip) : dme_chip :=
  if Z.testbit (ch_ctrl d) 28
  then DmeChip (store_set (word_attr (ch_ctrl d)) (ch_data d) (ch_store d)) (ch_ctrl d) (ch_data d) (ch_wait d)
  else d.

Definition dme_chip_read (a : Z) (d : dme_chip) : Z * dme_chip :=
  if a =? DME A2D_ATTRACS_INT_BEF then
    match ch_wait d with
    | S w => (0, DmeChip (ch_store d) (ch_ctrl d) (ch_data d) w)
    | O => (1, d)
    end
  else if a =? DME A2D_ATTRACS_STS_00 then (0, chip_commit d)
  else if a =? DME A2D_ATTRACS_DATA_STS_00 then (ch_store d (word_attr (ch_ctrl d)), d)
  else (0, d).

Definition dme_chip_write (a v : Z) (d : dme_chip) : dme_chip :=
  if a =? DME A2D_ATTRACS_CTRL_00 then DmeChip (ch_store d) v (ch_data d) (ch_wait d)
  else if a =? DME A2D_ATTRACS_DATA_CTRL_00 then DmeChip (ch_store d) (ch_ctrl d) v (ch_wait d)
  else if a =? DME A2D_ATTRACS_MSTR_CTRL then DmeChip (ch_store d) (ch_ctrl d) (ch_data d) 1
  else d.

#[export] Instance dme_hw : Hardware :=
  {| dev := dme_chip; reg_read := dme_chip_read; reg_write := dme_chip_write;
     reg_write8 := λ _ _ d, d; buf_read8 := λ _ _, 0 |}.

Lemma chip_read_status d : dme_chip_read (DME A2D_ATTRACS_STS_00) d = (0, chip_commit d).
Proof. reflexivity. Qed.
Lemma chip_read_data d : dme_chip_read (DME A2D_ATTRACS_DATA_STS_00) d = (ch_store d (word_attr (ch_ctrl d)), d).
Proof. reflexivity. Qed.

(** The control word, and its fields back. *)
Section access_word.
Context (k : attr_key) (w : bool) (Hk : valid_attr k).

Lemma access_selector_small : Z.land (ak_selector k) 0x7FF = ak_selector k.
Proof. destruct Hk as [Hs _]. change 0x7FF with (Z.ones 11). rewrite Z.land_ones by lia. by apply Z.mod_small. Qed.

Lemma access_attr_bit i : 16 <= i -> Z.testbit (ak_attr k) i = false.
Proof.
  destruct Hk as [_ Ha]. intros Hi. rewrite <- (Z.mod_small _ _ Ha). by apply Z.mod_pow2_bits_high.
Qed.

Lemma access_selector_bit i : 11 <= i -> Z.testbit (ak_selector k) i = false.
Proof.
  destruct Hk as [Hs _]. intros Hi. rewrite <- (Z.mod_small _ _ Hs). by apply Z.mod_pow2_bits_high.
Qed.

Lemma access_word_bit i : 27 <= i ->
  Z.testbit (access_word k w) i = Z.testbit (Z.b2z (ak_peer k)) (i - 29) || Z.testbit (Z.b2z w) (i - 28).
Proof.
  intros Hi. unfold access_word, REG_ATTRACS_CTRL_PEERENA, REG_ATTRACS_CTRL_SELECT, REG_ATTRACS_CTRL_WRITE.
  rewrite access_selector_small, !Z.lor_spec, !Z.shiftl_spec, access_attr_bit, access_selector_bit by lia.
  by rewrite !orb_false_r.
Qed.

Lemma access_word_write : Z.testbit (access_word k w) 28 = w.
Proof. rewrite access_word_bit by lia. by destruct (ak_peer k), w. Qed.

Lemma access_word_attr : word_attr (access_word k w) = k.
Proof.
  transitivity (Attr (ak_peer k) (ak_selector k) (ak_attr k)); [|by destruct k]. unfold word_attr. f_equal.
  - rewrite access_word_bit by lia. by destruct (ak_peer k), w.
  - unfold access_word, REG_ATTRACS_CTRL_PEERENA, REG_ATTRACS_CTRL_SELECT, REG_ATTRACS_CTRL_WRITE.
    rewrite !Z.shiftr_lor, !Z.land_lor_distr_l, (Z.shiftr_shiftl_l (Z.land (ak_selector k) 0x7FF) 16 16), Z.shiftl_0_r by lia.
    rewrite !access_selector_small. destruct Hk as [_ Ha].
    rewrite (Z.shiftr_div_pow2 (ak_attr k)), Z.div_small, Z.land_0_l, Z.lor_0_r by lia.
    by destruct (ak_peer k), w; cbn; rewrite ?Z.lor_0_r.
  - unfold access_word, REG_ATTRACS_CTRL_PEERENA, REG_ATTRACS_CTRL_SELECT, REG_ATTRACS_CTRL_WRITE.
    change 0xFFFF with (Z.ones 16). rewrite !Z.land_lor_distr_l, !Z.land_ones, !Z.shiftl_mul_pow2 by lia.
    destruct Hk as [_ Ha]. rewrite Z.mod_mul, (Z.mod_small (ak_attr k)) by lia.
    by destruct (ak_peer k), w.
Qed.
End access_word.

#[export] Instance dme_chip_controller : DmeController.
Proof.
  refine {| attrs := ch_store : @dev dme_hw -> store;
            accessing := λ (d : @dev dme_hw) k o w,
              ch_wait d = w /\ valid_attr k /\ ch_ctrl d = access_word k (bool_decide (is_Some o)) /\
              (forall v, o = Some v -> ch_data d = v);
            accessed := λ (d : @dev dme_hw) k o,
              valid_attr k /\ ch_ctrl d = access_word k (bool_decide (is_Some o)) /\
              (forall v, o = Some v -> ch_data d = v);
            dme_latency := 1 |}.
  - intros d k v Hk Hv. cbv zeta. exists 1%nat. split; [lia|]. cbn. split; [|done].
    split; [done|]. split; [done|]. split; [done|]. by intros ? [= <-].
  - intros d k Hk. cbv zeta. exists 1%nat. split; [lia|]. done.
  - intros d k o w (Hw & Hk). cbn. unfold dme_chip_read. rewrite Z.eqb_refl, Hw. done.
  - intros d k o (Hw & Hk). cbn. unfold dme_chip_read. rewrite Z.eqb_refl, Hw. done.
  - intros d k v (Hk & Hc & Hd). cbv zeta. change (reg_read _ _) with (dme_chip_read (DME A2D_ATTRACS_STS_00) d).
    rewrite chip_read_status. unfold chip_commit. rewrite Hc, (Hd v eq_refl), access_word_write by done.
    cbn [bool_decide fst snd ch_store]. by rewrite access_word_attr.
  - intros d k (Hk & Hc & Hd). cbv zeta. change (reg_read (DME A2D_ATTRACS_STS_00) _) with (dme_chip_read (DME A2D_ATTRACS_STS_00) d).
    rewrite chip_read_status. unfold chip_commit. rewrite Hc, access_word_write by done.
    cbn [fst snd]. change (reg_read _ _) with (dme_chip_read (DME A2D_ATTRACS_DATA_STS_00) d).
    rewrite chip_read_data, Hc. by rewrite access_word_attr.
Defined.

(** Writing the peer's flow control attribute of CPort 3, and reading it and
    another attribute back. *)
Lemma dme_roundtrip_witness :
  let m := @sim_machine_at dme_hw (DmeChip (λ _, 7) 0 0 0) in
  let P := sim_platform Stage1 [] [] in
  exists d,
    (@chip_unipro_attr_write P dme_hw 0x4025 0x30 3 true ;; @chip_unipro_attr_read P dme_hw 0x4025 3 true) m
      = (Done (0, 0x30), @set_dev dme_hw d m) /\
    forall j, ch_store d j = store_set (Attr true 3 0x4025) 0x30 (λ _, 7) j.
Proof.
  apply (@dme_roundtrip (sim_platform Stage1 [] []) dme_hw dme_chip_controller
           ltac:(by apply Nat.ltb_lt) (Attr true 3 0x4025) (Attr true 3 0x4025) 0x30).
  - by split.
  - by split.
  - by split.
Defined.
