(* ===== verification/FakeSvc.v ===== *)
(** * FakeSvc: the switch functions of the download server
    (apps/gbboot_server/src/fake_svc.c)

    The server plays the switch of a module network: it sets device identifiers
    and connects CPorts by writing DME attributes of both ends. *)

From S2P Require Import Prelude Machine Chip Sim Unipro Dme.

Definition SWITCH_UNIPORT_MAX : Z := 14.
Definition SWITCH_PORT_ID : Z := SWITCH_UNIPORT_MAX.
Definition CPORT_DEFAULT_TOKENVALUE : Z := 32.
Definition CPORT_DEFAULT_T_PROTOCOLID : Z := 0.
Definition CPORT_DEFAULT_TSB_MAXSEGMENTCONFIG : Z := 0x118.
Definition CPORT_FLAGS_E2EFC : Z := 1.
Definition CPORT_FLAGS_CSD_N : Z := 2.
Definition CPORT_MODE_APPLICATION : Z := 1.
Definition UNIPRO_SELINDEX_NULL : Z := 0.
Definition ARA_MAIL_RESET : Z := 0.
Definition N_DEVICEID : Z := 0x3000.
Definition N_DEVICEID_VALID : Z := 0x3001.
Definition T_PEERDEVICEID : Z := 0x4021.
Definition T_PEERCPORTID : Z := 0x4022.
Definition T_TRAFFICCLASS : Z := 0x4023.
Definition T_PROTOCOLID : Z := 0x4024.
Definition T_CPORTFLAGS : Z := 0x4025.
Definition T_TXTOKENVALUE : Z := 0x4026.
Definition T_RXTOKENVALUE : Z := 0x4027.
Definition T_CPORTMODE : Z := 0x402b.
Definition TSB_MAXSEGMENTCONFIG : Z := 0xd089.
Definition PA_ACTIVETXDATALANES : Z := 0x1560.
Definition PA_TXGEAR : Z := 0x1568.
Definition PA_TXTERMINATION : Z := 0x1569.
Definition PA_HSSERIES : Z := 0x156a.
Definition PA_PWRMODE : Z := 0x1571.
Definition PA_ACTIVERXDATALANES : Z := 0x1580.
Definition PA_RXGEAR : Z := 0x1583.
Definition PA_RXTERMINATION : Z := 0x1584.
Definition PA_PWRMODEUSERDATA0 : Z := 0x15b0.
Definition PA_PWRMODEUSERDATA1 : Z := 0x15b1.
Definition PA_PWRMODEUSERDATA2 : Z := 0x15b2.
Definition PA_PWRMODEUSERDATA3 : Z := 0x15b3.
Definition PA_PWRMODEUSERDATA4 : Z := 0x15b4.
Definition PA_PWRMODEUSERDATA5 : Z := 0x15b5.
Definition DME_FC0PROTECTIONTIMEOUTVAL : Z := 0xd041.
Definition DME_TC0REPLAYTIMEOUTVAL : Z := 0xd042.
Definition DME_AFC0REQTIMEOUTVAL : Z := 0xd043.
Definition DME_FC1PROTECTIONTIMEOUTVAL : Z := 0xd044.
Definition DME_TC1REPLAYTIMEOUTVAL : Z := 0xd045.
Definition DME_AFC1REQTIMEOUTVAL : Z := 0xd046.
Definition DME_POWERMODEIND : Z := 0xd040.
Definition TSB_DME_POWERMODEIND_NONE : Z := 0.
Definition TSB_DME_POWERMODEIND_LOCAL : Z := 2.
Definition TSB_DME_POWERMODEIND_REMOTE : Z := 4.
Definition POWERMODE_RX_SHIFT : Z := 4.

Record unipro_connection := {
  port_id0 : Z; device_id0 : Z; cport_id0 : Z;
  port_id1 : Z; device_id1 : Z; cport_id1 : Z;
  tc : Z; flags : Z
}.

Section fake_svc.
Context `{Platform, Hardware}.

(** [rc = c; if (rc) return rc;] before [k]. *)
Definition on_success (c k : B Z) : B Z := rc ← c; if negb (rc =? 0) then mret rc else k.

Definition svc_wait_for_peer_ready : B Z :=
  poll poll_fuel
    (r ← read_mailbox;
     let '(rc, val) := r : Z * Z in
     if negb (rc =? 0) then mret (Some (-1))
     else if negb (val =? ARA_MAIL_RESET) then ack_mailbox val ;; mret (Some 0)
     else mret None).

(** ** Attributes of the two ends *)

Definition switch_dme_set (portid attrid select_index attr_value : Z) : B Z :=
  chip_unipro_attr_write attrid attr_value select_index ATTR_LOCAL.

Definition switch_dme_get (portid attrid select_index : Z) : B (Z * Z) :=
  chip_unipro_attr_read attrid select_index ATTR_LOCAL.

Definition switch_dme_peer_set (portid attrid select_index attr_value : Z) : B Z :=
  chip_unipro_attr_write attrid attr_value select_index ATTR_PEER.

(** Reads the local attribute, as the code does. *)
Definition switch_dme_peer_get (portid attrid select_index : Z) : B (Z * Z) :=
  chip_unipro_attr_read attrid select_index ATTR_LOCAL.

Definition switch_set_port_l4attr (portid attrid selector val : Z) : B Z :=
  if portid =? SWITCH_PORT_ID then switch_dme_set portid attrid selector val
  else switch_dme_peer_set portid attrid selector val.

Definition switch_get_port_l4attr (portid attrid selector : Z) : B (Z * Z) :=
  if portid =? SWITCH_PORT_ID then switch_dme_get portid attrid selector
  else switch_dme_peer_get portid attrid selector.

Definition switch_set_pair_attr (c : unipro_connection) (attrid val0 val1 : Z) : B Z :=
  on_success (switch_set_port_l4attr (port_id0 c) attrid (cport_id0 c) val0)
    (on_success (switch_set_port_l4attr (port_id1 c) attrid (cport_id1 c) val1) (mret 0)).

(** ** Connections *)

Definition e2efc_enabled (c : unipro_connection) : bool := negb (Z.land (flags c) CPORT_FLAGS_E2EFC =? 0).
Definition csd_enabled (c : unipro_connection) : bool := Z.land (flags c) CPORT_FLAGS_CSD_N =? 0.

(** The buffer space of each end, written to the other end. *)
Definition exchange_buffer_space (c : unipro_connection) : B Z :=
  r0 ← switch_get_port_l4attr (port_id0 c) T_LOCALBUFFERSPACE (cport_id0 c);
  let '(rc, cport0_local) := r0 : Z * Z in
  if negb (rc =? 0) then mret rc
  else
    r1 ← switch_get_port_l4attr (port_id1 c) T_LOCALBUFFERSPACE (cport_id1 c);
    let '(rc, cport1_local) := r1 : Z * Z in
    if negb (rc =? 0) then mret rc
    else switch_set_pair_attr c T_LOCALBUFFERSPACE cport0_local cport1_local.

Definition switch_cport_connect (c : unipro_connection) : B Z :=
  on_success (switch_set_pair_attr c T_CONNECTIONSTATE 0 0)
  (on_success (switch_set_pair_attr c T_PEERDEVICEID (device_id1 c) (device_id0 c))
  (on_success (switch_set_pair_attr c T_PEERCPORTID (cport_id1 c) (cport_id0 c))
  (on_success (switch_set_pair_attr c T_TRAFFICCLASS (tc c) (tc c))
  (on_success (switch_set_pair_attr c T_PROTOCOLID CPORT_DEFAULT_T_PROTOCOLID CPORT_DEFAULT_T_PROTOCOLID)
  (on_success (switch_set_pair_attr c T_TXTOKENVALUE CPORT_DEFAULT_TOKENVALUE CPORT_DEFAULT_TOKENVALUE)
  (on_success (switch_set_pair_attr c T_RXTOKENVALUE CPORT_DEFAULT_TOKENVALUE CPORT_DEFAULT_TOKENVALUE)
  (on_success (switch_set_pair_attr c T_CPORTFLAGS (flags c) (flags c))
  (on_success (if e2efc_enabled c || (negb (e2efc_enabled c) && csd_enabled c)
               then exchange_buffer_space c else mret 0)
  (on_success (switch_set_pair_attr c T_CPORTMODE CPORT_MODE_APPLICATION CPORT_MODE_APPLICATION)
  (on_success (switch_set_pair_attr c T_CREDITSTOSEND 0 0)
  (on_success (switch_set_pair_attr c TSB_MAXSEGMENTCONFIG CPORT_DEFAULT_TSB_MAXSEGMENTCONFIG
                 CPORT_DEFAULT_TSB_MAXSEGMENTCONFIG)
  (on_success (switch_set_pair_attr c T_CONNECTIONSTATE 1 1) (mret 0))))))))))))).

Definition switch_cport_disconnect (port_id0 cport_id0 port_id1 cport_id1 : Z) : B Z :=
  rc0 ← switch_dme_peer_set port_id0 T_CONNECTIONSTATE cport_id0 0;
  rc1 ← switch_dme_peer_set port_id1 T_CONNECTIONSTATE cport_id1 0;
  mret (Z.b2z (negb (rc0 =? 0) || negb (rc1 =? 0))).

(** ** Device identifiers *)

Definition switch_if_dev_id_set (port_id dev_id : Z) : B Z :=
  if SWITCH_UNIPORT_MAX <=? port_id then mret (-1)
  else
    on_success (switch_dme_peer_set port_id N_DEVICEID UNIPRO_SELINDEX_NULL dev_id)
    (on_success (switch_dme_peer_set port_id N_DEVICEID_VALID UNIPRO_SELINDEX_NULL 1) (mret 0)).

Definition switch_set_local_dev_id (port_id dev_id : Z) : B Z :=
  if SWITCH_UNIPORT_MAX <=? port_id then mret (-1)
  else
    on_success (switch_dme_set port_id N_DEVICEID UNIPRO_SELINDEX_NULL dev_id)
    (on_success (switch_dme_set port_id N_DEVICEID_VALID UNIPRO_SELINDEX_NULL 1) (mret 0)).

(** ** Gear changes *)

Fixpoint set_local_attrs (l : list (Z * Z)) : B unit :=
  match l with
  | [] => mret tt
  | (attr, val) :: l => chip_unipro_attr_write attr val UNIPRO_SELINDEX_NULL ATTR_LOCAL ;; set_local_attrs l
  end.

Definition switch_gear_change (gear termination hsseries num_of_lanes powermode : Z) : B unit :=
  set_local_attrs
    [(PA_TXGEAR, gear); (PA_TXTERMINATION, termination); (PA_HSSERIES, hsseries);
     (PA_ACTIVETXDATALANES, num_of_lanes); (PA_RXGEAR, gear); (PA_RXTERMINATION, termination);
     (PA_ACTIVERXDATALANES, num_of_lanes);
     (DME_FC0PROTECTIONTIMEOUTVAL, 0x1FFF); (DME_TC0REPLAYTIMEOUTVAL, 0xFFFF); (DME_AFC0REQTIMEOUTVAL, 0x7FFF);
     (DME_FC1PROTECTIONTIMEOUTVAL, 0x1FFF); (DME_TC1REPLAYTIMEOUTVAL, 0xFFFF); (DME_AFC1REQTIMEOUTVAL, 0x7FFF);
     (PA_PWRMODEUSERDATA0, 0x1FFF); (PA_PWRMODEUSERDATA1, 0xFFFF); (PA_PWRMODEUSERDATA2, 0x7FFF);
     (PA_PWRMODEUSERDATA3, 0x1FFF); (PA_PWRMODEUSERDATA4, 0xFFFF); (PA_PWRMODEUSERDATA5, 0x7FFF);
     (PA_PWRMODE, Z.lor powermode (powermode <<₃₂ POWERMODE_RX_SHIFT))] ;;
  done ← poll poll_fuel
    (r ← chip_unipro_attr_read DME_POWERMODEIND UNIPRO_SELINDEX_NULL ATTR_LOCAL;
     let '(rc, val) := r : Z * Z in
     mret (if val =? TSB_DME_POWERMODEIND_LOCAL then Some true
           else if (val =? TSB_DME_POWERMODEIND_NONE) || (val =? TSB_DME_POWERMODEIND_REMOTE)
           then if rc =? 0 then None else Some false
           else Some false));
  if done : bool then mret tt else spin.

End fake_svc.

(** ** What a connection sets *)

(** The attribute [a] of one end of a connection. *)
Definition end_attr (c : unipro_connection) (first : bool) (a : Z) : attr_key :=
  if first then Attr (negb (port_id0 c =? SWITCH_PORT_ID)) (cport_id0 c) a
  else Attr (negb (port_id1 c =? SWITCH_PORT_ID)) (cport_id1 c) a.

Record linked (c : unipro_connection) (first : bool) (st : store) : Prop := {
  ln_state : st (end_attr c first T_CONNECTIONSTATE) = 1;
  ln_device : st (end_attr c first T_PEERDEVICEID) = if first then device_id1 c else device_id0 c;
  ln_cport : st (end_attr c first T_PEERCPORTID) = if first then cport_id1 c else cport_id0 c;
  ln_class : st (end_attr c first T_TRAFFICCLASS) = tc c;
  ln_protocol : st (end_attr c first T_PROTOCOLID) = 0;
  ln_tx_tokens : st (end_attr c first T_TXTOKENVALUE) = CPORT_DEFAULT_TOKENVALUE;
  ln_rx_tokens : st (end_attr c first T_RXTOKENVALUE) = CPORT_DEFAULT_TOKENVALUE;
  ln_flags : st (end_attr c first T_CPORTFLAGS) = flags c;
  ln_mode : st (end_attr c first T_CPORTMODE) = CPORT_MODE_APPLICATION;
  ln_credits : st (end_attr c first T_CREDITSTOSEND) = 0;
  ln_segment : st (end_attr c first TSB_MAXSEGMENTCONFIG) = CPORT_DEFAULT_TSB_MAXSEGMENTCONFIG
}.

(** The attributes that belong to a connection. *)
Definition connection_attributes : list Z :=
  [T_CONNECTIONSTATE; T_PEERDEVICEID; T_PEERCPORTID; T_TRAFFICCLASS; T_PROTOCOLID; T_TXTOKENVALUE;
   T_RXTOKENVALUE; T_CPORTFLAGS; T_CPORTMODE; T_CREDITSTOSEND; TSB_MAXSEGMENTCONFIG].

(** The widths of the fields, and two different ends. *)
Record wf_connection (c : unipro_connection) : Prop := {
  wc_cport0 : 0 <= cport_id0 c < 2 ^ 11;
  wc_cport1 : 0 <= cport_id1 c < 2 ^ 11;
  wc_device0 : is_u8 (device_id0 c);
  wc_device1 : is_u8 (device_id1 c);
  wc_tc : is_u8 (tc c);
  wc_flags : is_u8 (flags c);
  wc_ends : (port_id0 c =? SWITCH_PORT_ID) <> (port_id1 c =? SWITCH_PORT_ID) \/ cport_id0 c <> cport_id1 c
}.

Section connect.
Context `{Platform, Hardware, !DmeController}.
Context (Hfuel : (dme_latency < poll_fuel)%nat).

(** Values for the two ends. *)
Record pair_setting := Pair { ps_attr : Z; ps_first : Z; ps_second : Z }.

Definition pair_set (c : unipro_connection) (st : store) (s : pair_setting) : store :=
  store_set (end_attr c false (ps_attr s)) (ps_second s)
    (store_set (end_attr c true (ps_attr s)) (ps_first s) st).

Fixpoint set_pairs (c : unipro_connection) (l : list pair_setting) : B Z :=
  match l with
  | [] => mret 0
  | s :: l => on_success (switch_set_pair_attr c (ps_attr s) (ps_first s) (ps_second s)) (set_pairs c l)
  end.

Definition connect_script (c : unipro_connection) : list pair_setting :=
  [Pair T_CONNECTIONSTATE 0 0; Pair T_PEERDEVICEID (device_id1 c) (device_id0 c);
   Pair T_PEERCPORTID (cport_id1 c) (cport_id0 c); Pair T_TRAFFICCLASS (tc c) (tc c);
   Pair T_PROTOCOLID CPORT_DEFAULT_T_PROTOCOLID CPORT_DEFAULT_T_PROTOCOLID;
   Pair T_TXTOKENVALUE CPORT_DEFAULT_TOKENVALUE CPORT_DEFAULT_TOKENVALUE;
   Pair T_RXTOKENVALUE CPORT_DEFAULT_TOKENVALUE CPORT_DEFAULT_TOKENVALUE;
   Pair T_CPORTFLAGS (flags c) (flags c);
   Pair T_CPORTMODE CPORT_MODE_APPLICATION CPORT_MODE_APPLICATION; Pair T_CREDITSTOSEND 0 0;
   Pair TSB_MAXSEGMENTCONFIG CPORT_DEFAULT_TSB_MAXSEGMENTCONFIG CPORT_DEFAULT_TSB_MAXSEGMENTCONFIG;
   Pair T_CONNECTIONSTATE 1 1].

Lemma on_success_step (c k : B Z) (m m1 : machine) : c m = (Done 0, m1) -> on_success c k m = k m1.
Proof. intros E. unfold on_success. by rewrite (bind_step _ _ _ _ _ E). Qed.

Lemma on_success_ret (k : B Z) (m : machine) : on_success (mret 0) k m = k m.
Proof. by apply on_success_step. Qed.

Lemma on_success_ext (c k k' : B Z) (m : machine) :
  (forall m1 : machine, k m1 = k' m1) -> on_success c k m = on_success c k' m.
Proof. intros E. unfold on_success, mbind, boot_bind. destruct (c m) as [[] m1]; [|done..]. by destruct (negb _). Qed.

Lemma connect_is_script c m :
  e2efc_enabled c = false -> csd_enabled c = false ->
  switch_cport_connect c m = set_pairs c (connect_script c) m.
Proof.
  intros He Hc. unfold switch_cport_connect, connect_script. rewrite He, Hc. cbn [set_pairs ps_attr ps_first ps_second orb andb negb].
  do 8 (apply on_success_ext; intros ?). apply on_success_ret.
Qed.

Lemma connect_script_attr c s : s ∈ connect_script c -> ps_attr s ∈ connection_attributes.
Proof.
  revert s. apply Forall_forall. unfold connect_script.
  repeat apply Forall_cons_2; try apply Forall_nil_2; by apply (bool_decide_unpack _).
Qed.

Lemma port_attr_run c (first : bool) a v m :
  wf_connection c -> 0 <= a < 2 ^ 16 -> is_u32 v ->
  exists d, switch_set_port_l4attr (if first then port_id0 c else port_id1 c) a
              (if first then cport_id0 c else cport_id1 c) v m = (Done 0, set_dev d m) /\
    forall k, attrs d k = store_set (end_attr c first a) v (attrs (m_dev m)) k.
Proof.
  intros [] Ha Hv. assert (valid_attr (end_attr c first a)) as Hk by (destruct first; by split).
  destruct (attr_write_run Hfuel (end_attr c first a) v m Hk Hv) as (d & E & Hs).
  exists d. split; [|done]. rewrite <- E. unfold switch_set_port_l4attr, switch_dme_set, switch_dme_peer_set, end_attr.
  by destruct first; [destruct (port_id0 c =? SWITCH_PORT_ID)|destruct (port_id1 c =? SWITCH_PORT_ID)].
Qed.

Lemma store_set_ext k v st st' k' : st k' = st' k' -> store_set k v st k' = store_set k v st' k'.
Proof. unfold store_set. by destruct (attr_eqb k k'). Qed.

Definition wf_setting (s : pair_setting) : Prop :=
  0 <= ps_attr s < 2 ^ 16 /\ is_u32 (ps_first s) /\ is_u32 (ps_second s).

Lemma pair_run c s m :
  wf_connection c -> wf_setting s ->
  exists d, switch_set_pair_attr c (ps_attr s) (ps_first s) (ps_second s) m = (Done 0, set_dev d m) /\
    forall k, attrs d k = pair_set c (attrs (m_dev m)) s k.
Proof.
  intros Hc (Ha & Hv1 & Hv2).
  destruct (port_attr_run c true _ _ m Hc Ha Hv1) as (d1 & E1 & S1).
  destruct (port_attr_run c false _ _ (set_dev d1 m) Hc Ha Hv2) as (d2 & E2 & S2).
  exists d2. unfold switch_set_pair_attr. rewrite (on_success_step _ _ _ _ E1), (on_success_step _ _ _ _ E2).
  split; [done|]. intros k. rewrite S2. by apply store_set_ext.
Qed.

Lemma pair_set_ext c s st st' k : st k = st' k -> pair_set c st s k = pair_set c st' s k.
Proof. intros E. by apply store_set_ext, store_set_ext. Qed.

Lemma pairs_ext c l k : forall st st', st k = st' k ->
  foldl (pair_set c) st l k = foldl (pair_set c) st' l k.
Proof. induction l as [|s l IH]; [done|]. intros st st' E. cbn [foldl]. by apply IH, pair_set_ext. Qed.

Lemma set_pairs_run c l : forall m,
  wf_connection c -> Forall wf_setting l ->
  exists d, set_pairs c l m = (Done 0, set_dev d m) /\
    forall k, attrs d k = foldl (pair_set c) (attrs (m_dev m)) l k.
Proof.
  induction l as [|s l IH]; intros m Hc Hl; cbn [set_pairs foldl].
  { exists (m_dev m). split; [by destruct m|done]. }
  apply Forall_cons in Hl as [Hs Hl]. destruct (pair_run c s m Hc Hs) as (d1 & E1 & S1).
  rewrite (on_success_step _ _ _ _ E1). destruct (IH (set_dev d1 m) Hc Hl) as (d & E & S).
  exists d. split; [by rewrite E|]. intros k. rewrite S. by apply pairs_ext.
Qed.

(** A later setting of the same attribute wins, and other attributes stay. *)
Lemma pair_set_other c st s k : ak_attr k <> ps_attr s -> pair_set c st s k = st k.
Proof.
  intros Hne. unfold pair_set, store_set.
  destruct (attr_eqb_spec (end_attr c false (ps_attr s)) k) as [<-|_]; [done|].
  by destruct (attr_eqb_spec (end_attr c true (ps_attr s)) k) as [<-|_].
Qed.

Lemma ends_differ c a : wf_connection c -> end_attr c true a <> end_attr c false a.
Proof.
  intros [] [= Hp Hs]. destruct wc_ends0 as [Hne|Hne]; [|done].
  by destruct (port_id0 c =? SWITCH_PORT_ID), (port_id1 c =? SWITCH_PORT_ID).
Qed.

Lemma pair_set_same c st s (first : bool) :
  wf_connection c -> pair_set c st s (end_attr c first (ps_attr s)) = if first then ps_first s else ps_second s.
Proof.
  intros Hc. unfold pair_set, store_set. destruct first.
  - destruct (attr_eqb_spec (end_attr c false (ps_attr s)) (end_attr c true (ps_attr s))) as [E|_].
    + by destruct (ends_differ c (ps_attr s) Hc).
    + by rewrite attr_eqb_refl.
  - by rewrite attr_eqb_refl.
Qed.

Lemma end_attr_attr c first a : ak_attr (end_attr c first a) = a.
Proof. by destruct first. Qed.

(** The value of an attribute after the settings: the last one for it. *)
Fixpoint last_setting (a : Z) (l : list pair_setting) : option pair_setting :=
  match l with
  | [] => None
  | s :: l => match last_setting a l with
              | Some s' => Some s'
              | None => if ps_attr s =? a then Some s else None
              end
  end.

Lemma pairs_lookup c (first : bool) a l : forall st, wf_connection c ->
  foldl (pair_set c) st l (end_attr c first a) =
    match last_setting a l with
    | Some s => if first then ps_first s else ps_second s
    | None => st (end_attr c first a)
    end.
Proof.
  induction l as [|s l IH]; intros st Hc; cbn [foldl last_setting]; [done|]. rewrite IH by done.
  destruct (last_setting a l); [done|]. destruct (Z.eqb_spec (ps_attr s) a) as [<-|Hne].
  - by apply pair_set_same.
  - apply pair_set_other. rewrite end_attr_attr. congruence.
Qed.

Lemma pairs_frame c k l : forall st,
  Forall (λ s, forall first, k <> end_attr c first (ps_attr s)) l ->
  foldl (pair_set c) st l k = st k.
Proof.
  induction l as [|s l IH]; intros st Hl; [done|]. apply Forall_cons in Hl as [Hs Hl]. cbn [foldl].
  rewrite IH by done. unfold pair_set, store_set.
  destruct (attr_eqb_spec (end_attr c false (ps_attr s)) k) as [E|_]; [by destruct (Hs false)|].
  by destruct (attr_eqb_spec (end_attr c true (ps_attr s)) k) as [E|_]; [destruct (Hs true)|].
Qed.

Lemma connect_script_wf c : wf_connection c -> Forall wf_setting (connect_script c).
Proof.
  intros []. unfold connect_script, is_u8 in *.
  repeat apply Forall_cons_2; try apply Forall_nil_2;
    (split; [split; [discriminate|reflexivity]|]; split; cbn [ps_first ps_second]; unfold is_u32;
     first [lia|split; [discriminate|reflexivity]]).
Qed.

(** [C33] With a controller that carries out the accesses, [switch_cport_connect]
    of a connection without end-to-end flow control and with dropping disabled
    (the flags of the server's connections) returns 0 and leaves both ends up and
    pointing at each other: device and CPort of the other end, equal traffic
    class, protocol and flags, equal token values, application mode, no credits
    to send.  No other attribute of either end has changed. *)
Theorem cport_connect_links c m :
  wf_connection c -> e2efc_enabled c = false -> csd_enabled c = false ->
  exists d, switch_cport_connect c m = (Done 0, set_dev d m) /\
    (forall first, linked c first (attrs d)) /\
    (forall k, (forall first a, a ∈ connection_attributes -> k <> end_attr c first a) ->
       attrs d k = attrs (m_dev m) k).
Proof.
  intros Hc He Hcsd. rewrite connect_is_script by done.
  destruct (set_pairs_run c (connect_script c) m Hc) as (d & E & S); [by apply connect_script_wf|].
  exists d. split; [done|]. split.
  - intros first. split; rewrite S, pairs_lookup by done; by destruct first.
  - intros k Hk. rewrite S. apply pairs_frame. apply Forall_forall. intros s Hs first. apply Hk.
    by apply (connect_script_attr c).
Qed.
End connect.

(** ** Where the switch functions do less than they mean to *)

Section gaps.
Context `{Platform, Hardware}.

(** Setting the local device identifier the way [server_loop] asks for it
    is refused for every identifier: the range check of port numbers excludes
    the switch port itself, so nothing is written and the call returns -1, which
    the caller ignores. *)
Lemma local_dev_id_never_set dev_id (m : machine) :
  switch_set_local_dev_id SWITCH_PORT_ID dev_id m = (Done (-1), m).
Proof. reflexivity. Qed.
End gaps.

(** ** Runs on a simulated controller *)

(** The connections of the server ([conn]). *)
Definition conn (cport : Z) : unipro_connection :=
  {| port_id0 := SWITCH_PORT_ID; device_id0 := 0xA; cport_id0 := cport;
     port_id1 := 1; device_id1 := 0xB; cport_id1 := cport; tc := 0; flags := 6 |}.

Lemma conn_wf cport : 0 <= cport < 2 ^ 11 -> wf_connection (conn cport).
Proof. intros Hc. split; [exact Hc|exact Hc|split; [discriminate|reflexivity]..|by left]. Qed.

#[local] Instance dme_platform : Platform := sim_platform Stage1 [] [].

Definition dme_machine (st : store) : @machine dme_hw := @sim_machine_at dme_hw (DmeChip st 0 0 0).

Lemma cport_connect_links_witness :
  exists d, switch_cport_connect (conn 1) (dme_machine (λ _, 7)) = (Done 0, set_dev d (dme_machine (λ _, 7))) /\
    (forall first, linked (conn 1) first (attrs d)) /\
    (forall k, (forall first a, a ∈ connection_attributes -> k <> end_attr (conn 1) first a) -> attrs d k = 7).
Proof.
  apply (@cport_connect_links dme_platform dme_hw dme_chip_controller).
  - apply Nat.ltb_lt. reflexivity.
  - apply conn_wf. split; [discriminate|reflexivity].
  - reflexivity.
  - reflexivity.
Defined.

(** A connection with end-to-end flow control, and buffer spaces of 0x100 on
    the local and 0x200 on the peer's CPort 1. *)
Definition e2efc_conn : unipro_connection :=
  {| port_id0 := SWITCH_PORT_ID; device_id0 := 0xA; cport_id0 := 1;
     port_id1 := 1; device_id1 := 0xB; cport_id1 := 1; tc := 0; flags := 1 |}.

Definition spaces : store :=
  store_set (Attr false 1 T_LOCALBUFFERSPACE) 0x100 (store_set (Attr true 1 T_LOCALBUFFERSPACE) 0x200 (λ _, 0)).

(** With end-to-end flow control the peer buffer spaces are not set: the
    server reads its own buffer space for the peer's and stores it as the
    peer's local one. *)
Theorem buffer_spaces_not_exchanged :
  let r := switch_cport_connect e2efc_conn (dme_machine spaces) in
  fst r = Done 0 /\
  attrs (m_dev (snd r)) (Attr false 1 T_PEERBUFFERSPACE) = 0 /\
  attrs (m_dev (snd r)) (Attr true 1 T_PEERBUFFERSPACE) = 0 /\
  attrs (m_dev (snd r)) (Attr true 1 T_LOCALBUFFERSPACE) = 0x100.
Proof. vm_compute. repeat split. Qed.
