(* ===== verification/Tftf.v ===== *)
(** * Tftf: the TFTF header and the image loader
    (common/src/tftf.c, common/shared_inc/tftf.h)

    The header is the static buffer [tftf.header]; a section descriptor is
    named by its byte offset in it.  Pointer comparisons are made on 32-bit
    addresses, from the address of the static.  A descriptor access outside the
    buffer is a [Fault], so the section loops need no fuel of their own: the
    buffer has room for [TABLE_SLOTS] descriptors. *)

From S2P Require Import Prelude Utils Sha256 Machine Chip Errors Crypto Unipro.

Definition TFTF_SENTINEL_SIZE : Z := 4.
Definition tftf_sentinel : list Z := [0x54; 0x46; 0x54; 0x46].
Definition TFTF_SECTION_END : Z := 0xFE.
Definition TFTF_SECTION_RAW_CODE : Z := 1.
Definition TFTF_SECTION_RAW_DATA : Z := 2.
Definition TFTF_SECTION_COMPRESSED_CODE : Z := 3.
Definition TFTF_SECTION_COMPRESSED_DATA : Z := 4.
Definition TFTF_SECTION_MANIFEST : Z := 5.
Definition TFTF_SECTION_SIGNATURE : Z := 0x80.
Definition TFTF_SECTION_CERTIFICATE : Z := 0x81.
Definition DATA_ADDRESS_TO_BE_IGNORED : Z := 0xFFFFFFFF.

(** ** Header fields *)
Definition header_size (h : list Z) : Z := get32 h 4.
Definition build_timestamp (h : list Z) : list Z := sub h 8 16.
Definition firmware_package_name (h : list Z) : list Z := sub h 24 48.
Definition start_location (h : list Z) : Z := get32 h 76.
Definition hdr_unipro_mid (h : list Z) : Z := get32 h 80.
Definition hdr_unipro_pid (h : list Z) : Z := get32 h 84.
Definition hdr_ara_vid (h : list Z) : Z := get32 h 88.
Definition hdr_ara_pid (h : list Z) : Z := get32 h 92.
Definition SECTIONS_OFFSET : Z := 112.

(** ** Section descriptors *)
Definition SECTION_SIZE : Z := 20.
Definition TABLE_SLOTS : nat := 200.

Record tftf_section_descriptor := {
  section_type : Z;
  section_class : Z;
  section_id : Z;
  section_length : Z;
  section_load_address : Z;
  section_expanded_length : Z
}.

Definition section_at (h : list Z) (off : Z) : option tftf_section_descriptor :=
  if off + SECTION_SIZE <=? Z.of_nat (length h)
  then Some {| section_type := get8 h off; section_class := Z.shiftr (get32 h off) 8;
               section_id := get32 h (off + 4); section_length := get32 h (off + 8);
               section_load_address := get32 h (off + 12);
               section_expanded_length := get32 h (off + 16) |}
  else None.

Definition is_section_hashed (s : tftf_section_descriptor) : bool :=
  Z.land (section_type s) (Z.shiftl 1 7) =? 0.

(** [tftf_processing_state] updates. *)
Definition set_t_header_end (e : Z) (t : tftf_processing_state) :=
  {| t_header := t_header t; t_header_end := e; t_crypto_state := t_crypto_state t;
     t_hash := t_hash t; t_signature := t_signature t;
     t_contain_signature := t_contain_signature t |}.
Definition set_t_crypto_state (c : crypto_processing_state) (t : tftf_processing_state) :=
  {| t_header := t_header t; t_header_end := t_header_end t; t_crypto_state := c;
     t_hash := t_hash t; t_signature := t_signature t;
     t_contain_signature := t_contain_signature t |}.
Definition set_t_hash (d : list Z) (t : tftf_processing_state) :=
  {| t_header := t_header t; t_header_end := t_header_end t; t_crypto_state := t_crypto_state t;
     t_hash := d; t_signature := t_signature t;
     t_contain_signature := t_contain_signature t |}.
Definition set_t_contain_signature (b : bool) (t : tftf_processing_state) :=
  {| t_header := t_header t; t_header_end := t_header_end t; t_crypto_state := t_crypto_state t;
     t_hash := t_hash t; t_signature := t_signature t;
     t_contain_signature := b |}.

Definition set_image_info (ts name : list Z) (ca : communication_area) :=
  {| ca_keys := ca_keys ca; ca_shared_functions := ca_shared_functions ca;
     ca_endpoint_unique_id := ca_endpoint_unique_id ca;
     ca_stage_2_firmware_identity := ca_stage_2_firmware_identity ca;
     ca_stage_2_validation_key_name := ca_stage_2_validation_key_name ca;
     ca_build_timestamp := ts; ca_firmware_package_name := name |}.

Definition known_tftf_type (ty : Z) : bool :=
  ((TFTF_SECTION_RAW_CODE <=? ty) && (ty <=? TFTF_SECTION_MANIFEST))
  || (ty =? TFTF_SECTION_SIGNATURE) || (ty =? TFTF_SECTION_CERTIFICATE)
  || (ty =? TFTF_SECTION_END).

Section tftf.
Context `{Platform, Hardware}.

Definition modify_tftf (f : tftf_processing_state -> tftf_processing_state) : B unit :=
  modify (λ m, set_tftf (f (m_tftf m)) m).

(** Pointer comparison, at the width of a pointer. *)
Definition is_section_out_of_range (h : list Z) (off : Z) : bool :=
  u32 (tftf_addr + header_size h - SECTION_SIZE) <=? (tftf_addr +₃₂ off).

(** ** Header validation *)

(** Two address ranges as [valid_tftf_section] compares them; each end is
    computed modulo [2^32]. *)
Definition sections_overlap (s o : tftf_section_descriptor) : bool :=
  let section_start := section_load_address s in
  let section_end := section_start +₃₂ section_expanded_length s in
  let other_start := section_load_address o in
  let other_end := other_start +₃₂ section_expanded_length o in
  negb (section_type o =? TFTF_SECTION_END)
  && negb ((other_end <=? section_start) || (section_end <=? other_start)).

(** The collision scan from [off] on; [true] is a collision. *)
Fixpoint collision_scan (slots : nat) (h : list Z) (s : tftf_section_descriptor) (off : Z) : B bool :=
  if is_section_out_of_range h off then mret false
  else
    match slots with
    | O => fault
    | S slots =>
        o ← the (section_at h off);
        if (section_type o =? TFTF_SECTION_END)
           || (section_load_address o =? DATA_ADDRESS_TO_BE_IGNORED) then mret false
        else if sections_overlap s o then mret true
        else collision_scan slots h s (off + SECTION_SIZE)
    end.

(** The flags [section_contains_start] and [end_of_sections]. *)
Record scan_flags := { contains_start : bool; end_of_sections : bool }.

(** [None] is the C result [false]; otherwise the new flags. *)
Definition valid_tftf_section (slots : nat) (h : list Z) (s : tftf_section_descriptor) (off : Z)
    (fl : scan_flags) : B (option scan_flags) :=
  if negb (known_tftf_type (section_type s)) then
    set_last_error BRE_TFTF_HEADER_TYPE ;; mret None
  else if section_type s =? TFTF_SECTION_END then
    mret (Some {| contains_start := contains_start fl; end_of_sections := true |})
  else
    let section_start := section_load_address s in
    let section_end := section_start +₃₂ section_expanded_length s in
    if section_start =? DATA_ADDRESS_TO_BE_IGNORED then mret (Some fl)
    else if section_expanded_length s <? section_length s then
      set_last_error BRE_TFTF_COMPRESSION_BAD ;; mret None
    else if negb (chip_validate_data_load_location section_start (section_expanded_length s) =? 0) then
      set_last_error BRE_TFTF_MEMORY_RANGE ;; mret None
    else
      let fl' :=
        if (section_start <=? start_location h) && (start_location h <? section_end)
           && (section_type s =? TFTF_SECTION_RAW_CODE)
        then {| contains_start := true; end_of_sections := end_of_sections fl |} else fl in
      collides ← collision_scan slots h s (off + SECTION_SIZE);
      if (collides : bool) then set_last_error BRE_TFTF_COLLISION ;; mret None
      else mret (Some fl').

(** The loop of [valid_tftf_header]. *)
Fixpoint valid_sections (slots : nat) (h : list Z) (off : Z) (fl : scan_flags) : B (option scan_flags) :=
  if is_section_out_of_range h off || end_of_sections fl then mret (Some fl)
  else
    match slots with
    | O => fault
    | S slots =>
        s ← the (section_at h off);
        r ← valid_tftf_section slots h s off fl;
        match r with
        | None => mret None
        | Some fl => valid_sections slots h (off + SECTION_SIZE) fl
        end
    end.

Definition valid_tftf_header (h : list Z) : B bool :=
  r ← valid_sections TABLE_SLOTS h SECTIONS_OFFSET
        {| contains_start := false; end_of_sections := false |};
  match r with
  | None => mret false
  | Some fl =>
      if negb (end_of_sections fl) then set_last_error BRE_TFTF_NO_TABLE_END ;; mret false
      else if negb (start_location h =? 0) && negb (contains_start fl) then
        set_last_error BRE_TFTF_START_NOT_IN_CODE ;; mret false
      else mret true
  end.

(** ** Loading the header *)

Definition DME_DDBL1_MANUFACTURERID : Z := 0x5003.
Definition DME_DDBL1_PRODUCTID : Z := 0x5004.

(** A zero field of the image is a wild card. *)
Definition id_mismatch (image chip : Z) : bool := negb (image =? 0) && negb (image =? chip).

(** The loop over the sections at the end of [load_tftf_header]. *)
Fixpoint scan_sections (slots : nat) (h : list Z) (off : Z) : B Z :=
  if is_section_out_of_range h off then set_last_error BRE_TFTF_NO_TABLE_END ;; mret (-1)
  else
    match slots with
    | O => fault
    | S slots =>
        s ← the (section_at h off);
        let ty := section_type s in
        if ty =? TFTF_SECTION_END then mret 0
        else if (ty =? TFTF_SECTION_SIGNATURE) || (ty =? TFTF_SECTION_CERTIFICATE) then
          when (ty =? TFTF_SECTION_SIGNATURE) (modify_tftf (set_t_contain_signature true)) ;;
          t ← gets m_tftf;
          when (bool_decide (t_crypto_state t = CRYPTO_STATE_INIT))
            (hash_start ;;
             modify_tftf (set_t_crypto_state CRYPTO_STATE_HASHING) ;;
             hash_update (take (Z.to_nat off) h)) ;;
          scan_sections slots h (off + SECTION_SIZE)
        else if (ty =? TFTF_SECTION_COMPRESSED_CODE) || (ty =? TFTF_SECTION_COMPRESSED_DATA) then
          set_last_error BRE_TFTF_COMPRESSION_UNSUPPORTED ;; mret (-1)
        else
          t ← gets m_tftf;
          if bool_decide (t_crypto_state t = CRYPTO_STATE_HASHING) then
            set_last_error BRE_TFTF_HASHED_SECTION_AFTER_UNHASHED ;; mret (-1)
          else scan_sections slots h (off + SECTION_SIZE)
    end.

(** The part of [load_tftf_header] after the whole header is in memory. *)
Definition check_tftf_header : B Z :=
  h ← gets (λ m, t_header (m_tftf m));
  modify_tftf (set_t_header_end (tftf_addr +₃₂ header_size h)) ;;
  valid ← valid_tftf_header h;
  if negb valid then mret (-1)
  else
    r ← chip_unipro_attr_read DME_DDBL1_MANUFACTURERID 0 ATTR_LOCAL;
    let '(rc, unipro_mid) := r : Z * Z in
    if negb (rc =? 0) then set_last_error BRE_EFUSE_UNIPRO_VID_READ ;; mret (-1)
    else
      r ← chip_unipro_attr_read DME_DDBL1_PRODUCTID 0 ATTR_LOCAL;
      let '(rc, unipro_pid) := r : Z * Z in
      if negb (rc =? 0) then set_last_error BRE_EFUSE_UNIPRO_PID_READ ;; mret (-1)
      else
        ara_vid ← gets m_ara_vid;
        ara_pid ← gets m_ara_pid;
        if id_mismatch (hdr_unipro_mid h) unipro_mid || id_mismatch (hdr_unipro_pid h) unipro_pid
           || id_mismatch (hdr_ara_vid h) ara_vid || id_mismatch (hdr_ara_pid h) ara_pid
        then set_last_error BRE_TFTF_VIDPID_MISMATCH ;; mret (-1)
        else scan_sections TABLE_SLOTS h SECTIONS_OFFSET.

Definition load_tftf_header (ops : data_load_ops) : B Z :=
  modify_tftf (λ t, set_t_contain_signature false (set_t_crypto_state CRYPTO_STATE_INIT t)) ;;
  rc ← ops_load ops (Ptr BTftfHeader 0) TFTF_HEADER_SIZE_MIN false;
  if negb (rc =? 0) then set_last_error BRE_TFTF_LOAD_HEADER ;; mret (-1)
  else
    h ← gets (λ m, t_header (m_tftf m));
    c ← the (memcmp (sub h 0 TFTF_SENTINEL_SIZE) tftf_sentinel (Z.to_nat TFTF_SENTINEL_SIZE));
    if negb (c =? 0) then
      (* return false: the caller sees 0 *)
      set_last_error BRE_TFTF_SENTINEL ;; mret 0
    else if (header_size h <? TFTF_HEADER_SIZE_MIN) || (MAX_TFTF_HEADER_SIZE_SUPPORTED <? header_size h) then
      set_last_error BRE_TFTF_HEADER_SIZE ;; mret 0
    else if header_size h =? TFTF_HEADER_SIZE_MIN then check_tftf_header
    else
      rc ← ops_load ops (Ptr BTftfHeader TFTF_HEADER_SIZE_MIN)
             (header_size h - TFTF_HEADER_SIZE_MIN) false;
      if negb (rc =? 0) then set_last_error BRE_TFTF_LOAD_HEADER ;; mret (-1)
      else check_tftf_header.

(** ** Loading the sections *)

Definition TEMP_BUFFER_SIZE : Z := 2048.

(** [blocks] bounds the iterations: one more than the full blocks in [len]. *)
Fixpoint discard_loop (ops : data_load_ops) (blocks : nat) (len : Z) (hash : bool) : B Z :=
  if len =? 0 then mret 0
  else
    match blocks with
    | O => spin
    | S blocks =>
        let blk_len := if TEMP_BUFFER_SIZE <? len then TEMP_BUFFER_SIZE else len in
        rc ← ops_load ops (Ptr BTemp 0) blk_len hash;
        if negb (rc =? 0) then mret (-1)
        else discard_loop ops blocks (len - blk_len) hash
    end.

Definition discard_section (ops : data_load_ops) (s : tftf_section_descriptor) (hash : bool) : B Z :=
  discard_loop ops (S (Z.to_nat (section_length s / TEMP_BUFFER_SIZE))) (section_length s) hash.

Definition process_tftf_section (ops : data_load_ops) (s : tftf_section_descriptor) : B Z :=
  t ← gets m_tftf;
  when (negb (is_section_hashed s) && bool_decide (t_crypto_state t = CRYPTO_STATE_HASHING))
    (d ← hash_final;
     modify_tftf (λ t, set_t_crypto_state CRYPTO_STATE_HASHED (set_t_hash d t))) ;;
  if section_type s =? TFTF_SECTION_SIGNATURE then
    rc ← ops_load ops (Ptr BTftfSignature 0) TFTF_SIGNATURE_STRUCT_SIZE false;
    if negb (rc =? 0) then set_last_error BRE_TFTF_LOAD_SIGNATURE ;; mret (-1)
    else
      t ← gets m_tftf;
      when (bool_decide (t_crypto_state t = CRYPTO_STATE_HASHED))
        (v ← verify_signature (t_hash t) (t_signature t);
         when (v =? 0) (modify_tftf (set_t_crypto_state CRYPTO_STATE_VERIFIED))) ;;
      mret 0
  else
    t ← gets m_tftf;
    let hash_loaded_data := bool_decide (t_crypto_state t = CRYPTO_STATE_HASHING) in
    let dest := section_load_address s in
    if dest =? DATA_ADDRESS_TO_BE_IGNORED then
      rc ← discard_section ops s hash_loaded_data;
      if negb (rc =? 0) then set_last_error BRE_TFTF_LOAD_DATA ;; mret (-1) else mret 0
    else
      rc ← ops_load ops (Ptr BRam dest) (section_length s) hash_loaded_data;
      if negb (rc =? 0) then set_last_error BRE_TFTF_LOAD_DATA ;; mret (-1) else mret 0.

(** The section loop of [load_tftf_image]. *)
Fixpoint load_sections (ops : data_load_ops) (slots : nat) (off : Z) : B Z :=
  h ← gets (λ m, t_header (m_tftf m));
  if is_section_out_of_range h off then mret 0
  else
    match slots with
    | O => fault
    | S slots =>
        s ← the (section_at h off);
        if section_type s =? TFTF_SECTION_END then mret 0
        else
          rc ← process_tftf_section ops s;
          if negb (rc =? 0) then mret (-1) else load_sections ops slots (off + SECTION_SIZE)
    end.

(** Return code and [*is_secure_image]. *)
Definition load_tftf_image (ops : data_load_ops) : B (Z * Z) :=
  rc ← load_tftf_header ops;
  if negb (rc =? 0) then mret (-1, 0)
  else
    rc ← load_sections ops TABLE_SLOTS SECTIONS_OFFSET;
    if negb (rc =? 0) then mret (-1, 0)
    else
      t ← gets m_tftf;
      let verified := bool_decide (t_crypto_state t = CRYPTO_STATE_VERIFIED) in
      let is_secure_image := if verified then 1 else 0 in
      modify (λ m, set_comm (set_image_info (build_timestamp (t_header t))
                                            (firmware_package_name (t_header t)) (m_comm m)) m) ;;
      if negb verified && t_contain_signature t then
        set_last_error BRE_TFTF_IMAGE_CORRUPTED ;; mret (-1, 0)
      else if negb (t_contain_signature t) then
        allowed ← chip_is_untrusted_image_allowed;
        if negb allowed then
          set_last_error BRE_TFTF_UNTRUSTED_NOT_ALLOWED ;; mret (-1, is_secure_image)
        else mret (0, is_secure_image)
      else mret (0, is_secure_image).

Definition jump_to_image : B unit :=
  chip_reset_before_jump ;;
  start ← gets (λ m, start_location (t_header (m_tftf m)));
  jumped start.

End tftf.
