(* ===== verification/TftfValid.v ===== *)
(** * TftfValid: what a valid TFTF header is

    [wf_header] says in plain terms what [valid_tftf_header] checks, over the
    list of section descriptors in front of the end marker; the first theorem
    shows that the code decides exactly that.  The others say what a valid
    header guarantees about the address ranges it will load, and where the
    check falls short. *)

From S2P Require Import Prelude Utils Machine Chip Sim Errors Crypto Unipro Tftf.

Section spec.
Context `{Platform}.

(** ** The section table, read off the header bytes *)

(** The descriptors from [off] to the end marker or the end of the header, and
    whether there is an end marker. *)
Fixpoint table_scan (slots : nat) (h : list Z) (off : Z) : list tftf_section_descriptor * bool :=
  if header_size h - SECTION_SIZE <=? off then ([], false)
  else
    match slots, section_at h off with
    | S slots, Some s =>
        if section_type s =? TFTF_SECTION_END then ([], true)
        else (s :: fst (table_scan slots h (off + SECTION_SIZE)),
              snd (table_scan slots h (off + SECTION_SIZE)))
    | _, _ => ([], false)
    end.

Definition section_table (h : list Z) : list tftf_section_descriptor * bool :=
  table_scan TABLE_SLOTS h SECTIONS_OFFSET.

Lemma section_table_eq h : section_table h = table_scan TABLE_SLOTS h SECTIONS_OFFSET.
Proof. reflexivity. Qed.

Definition ignored (s : tftf_section_descriptor) : bool :=
  section_load_address s =? DATA_ADDRESS_TO_BE_IGNORED.

(** The descriptors in front of the first ignored one. *)
Fixpoint until_ignored (ss : list tftf_section_descriptor) : list tftf_section_descriptor :=
  match ss with
  | [] => []
  | s :: ss => if ignored s then [] else s :: until_ignored ss
  end.

(** ** Well-formed headers *)

(** [s] with the descriptors [rest] behind it. *)
Definition wf_section (s : tftf_section_descriptor) (rest : list tftf_section_descriptor) : Prop :=
  known_tftf_type (section_type s) = true /\
  (ignored s = false ->
     section_length s <= section_expanded_length s /\
     chip_validate_data_load_location (section_load_address s) (section_expanded_length s) = 0 /\
     Forall (λ o, sections_overlap s o = false) (until_ignored rest)).

(** The entry point lies in [s]. *)
Definition holds_start (h : list Z) (s : tftf_section_descriptor) : bool :=
  negb (ignored s) && (section_load_address s <=? start_location h)
  && (start_location h <? section_load_address s +₃₂ section_expanded_length s)
  && (section_type s =? TFTF_SECTION_RAW_CODE).

Record wf_header (h : list Z) : Prop := {
  wf_end : snd (section_table h) = true;
  wf_sections : forall i s, fst (section_table h) !! i = Some s ->
                  wf_section s (drop (S i) (fst (section_table h)));
  wf_start : start_location h = 0 \/ exists s, s ∈ fst (section_table h) /\ holds_start h s = true
}.

(** What [load_tftf_header] has checked before it validates the table. *)
Definition sized (h : list Z) : Prop :=
  length h = 4096%nat /\ bytes_ok h /\
  TFTF_HEADER_SIZE_MIN <= header_size h <= MAX_TFTF_HEADER_SIZE_SUPPORTED.

(** The same, as a program. *)
Definition section_okb (s : tftf_section_descriptor) (rest : list tftf_section_descriptor) : bool :=
  known_tftf_type (section_type s) &&
  (ignored s ||
   (negb (section_expanded_length s <? section_length s)
    && (chip_validate_data_load_location (section_load_address s) (section_expanded_length s) =? 0)
    && negb (existsb (sections_overlap s) (until_ignored rest)))).

Fixpoint sections_okb (ss : list tftf_section_descriptor) : bool :=
  match ss with
  | [] => true
  | s :: ss => section_okb s ss && sections_okb ss
  end.

Lemma existsb_false_Forall {A} (f : A -> bool) l :
  existsb f l = false <-> Forall (λ x, f x = false) l.
Proof.
  induction l as [|a l IH]; simpl; [by split|].
  by rewrite orb_false_iff, IH, Forall_cons.
Qed.

Lemma section_okb_spec s rest : section_okb s rest = true <-> wf_section s rest.
Proof.
  unfold section_okb, wf_section.
  rewrite andb_true_iff, orb_true_iff, !andb_true_iff, !negb_true_iff, Z.eqb_eq, Z.ltb_ge,
    existsb_false_Forall.
  destruct (ignored s); split.
  - intros [? _]. split; [done|discriminate].
  - intros [? _]. auto.
  - intros [? [?|[[? ?] ?]]]; [discriminate|]. auto.
  - intros [? Hs]. destruct (Hs eq_refl) as (? & ? & ?). auto 6.
Qed.

Lemma sections_okb_spec ss :
  sections_okb ss = true <-> forall i s, ss !! i = Some s -> wf_section s (drop (S i) ss).
Proof.
  induction ss as [|s ss IH]; simpl; [by split|].
  rewrite andb_true_iff, section_okb_spec, IH. split.
  - intros [Hs Hss] [|i] s' Hi; simpl in *; [by simplify_eq | by apply Hss].
  - intros Hall. split; [apply (Hall 0%nat s eq_refl)|]. intros i s' Hi. apply (Hall (S i) s' Hi).
Qed.
End spec.

(** ** The loops of the code compute the specification *)

Section refine.
Context `{Platform, Hardware, !PlatformOk}.
Implicit Types (h : list Z) (m : machine).

Lemma out_of_range_spec h off :
  sized h -> 0 <= off <= 4112 ->
  is_section_out_of_range h off = (header_size h - SECTION_SIZE <=? off).
Proof.
  intros (_ & _ & Hs) Hoff. pose proof tftf_addr_ok as [Ha Hb].
  unfold TFTF_HEADER_SIZE_MIN, MAX_TFTF_HEADER_SIZE_SUPPORTED, is_section_out_of_range, SECTION_SIZE in *.
  rewrite !u32_small by (unfold is_u32; lia).
  destruct (Z.leb_spec (header_size h - 20) off); [rewrite Z.leb_le | rewrite Z.leb_gt]; lia.
Qed.

Lemma section_at_in_range h off :
  sized h -> off < header_size h - SECTION_SIZE -> exists s, section_at h off = Some s.
Proof.
  intros (Hl & _ & Hs) Hoff. unfold section_at, SECTION_SIZE, MAX_TFTF_HEADER_SIZE_SUPPORTED in *.
  rewrite Hl. destruct (Z.leb_spec (off + 20) (Z.of_nat 4096)); [eauto|lia].
Qed.

(** [slots] descriptors still fit the buffer behind [off]. *)
Definition fits (slots : nat) (off : Z) : Prop := 0 <= off /\ off + SECTION_SIZE * Z.of_nat slots = 4112.

Lemma fits_start : fits TABLE_SLOTS SECTIONS_OFFSET.
Proof. done. Qed.
Lemma fits_next slots off : fits (S slots) off -> fits slots (off + SECTION_SIZE).
Proof. unfold fits, SECTION_SIZE. lia. Qed.

(** One step of a section loop: out of range, or a descriptor and more slots. *)
Lemma scan_cases h slots off :
  sized h -> fits slots off ->
  (is_section_out_of_range h off = true /\ table_scan slots h off = ([], false)) \/
  (exists n s, slots = S n /\ fits n (off + SECTION_SIZE) /\
     is_section_out_of_range h off = false /\ section_at h off = Some s /\
     (header_size h - SECTION_SIZE <=? off) = false).
Proof.
  intros Hh [Hlo Hend]. pose proof Hh as (Hl & _ & Hsz).
  unfold TFTF_HEADER_SIZE_MIN, MAX_TFTF_HEADER_SIZE_SUPPORTED, SECTION_SIZE in *.
  rewrite out_of_range_spec by (done || lia).
  destruct (header_size h - SECTION_SIZE <=? off) eqn:Er.
  - left. split; [done|]. destruct slots; cbn [table_scan]; by rewrite Er.
  - right. apply Z.leb_gt in Er as Er'. destruct (section_at_in_range h off Hh Er') as [s Es].
    unfold SECTION_SIZE in Er'. destruct slots as [|n]; [lia|].
    exists n, s. destruct (fits_next n off (conj Hlo Hend)). by split_and!.
Qed.

Lemma collision_scan_eq h s m : sized h -> forall slots off, fits slots off ->
  collision_scan slots h s off m =
    (Done (existsb (sections_overlap s) (until_ignored (fst (table_scan slots h off)))), m).
Proof.
  intros Hh slots off Hf. revert off Hf. induction slots as [|n IH]; intros off Hf.
  { destruct (scan_cases h 0 off Hh Hf) as [[Ho Ht]|(? & ? & ? & _)]; [|done].
    cbn [collision_scan]. by rewrite Ho, Ht. }
  destruct (scan_cases h (S n) off Hh Hf) as [[Ho Ht]|(n' & o & [= <-] & Hf' & Ho & Eo & Er)].
  { cbn [collision_scan]. by rewrite Ho, Ht. }
  cbn [collision_scan table_scan]. rewrite Ho, Er, Eo. cbn [the]. rewrite bind_ret.
  destruct (section_type o =? TFTF_SECTION_END) eqn:Ee; [done|]. cbn [orb fst].
  cbn [until_ignored]. unfold ignored. destruct (section_load_address o =? _); [done|].
  cbn [existsb]. destruct (sections_overlap s o); [done|]. by rewrite IH.
Qed.

Lemma valid_section_ok h m slots s off fl :
  sized h -> fits slots (off + SECTION_SIZE) -> (section_type s =? TFTF_SECTION_END) = false ->
  section_okb s (fst (table_scan slots h (off + SECTION_SIZE))) = true ->
  valid_tftf_section slots h s off fl m =
    (Done (Some {| contains_start := contains_start fl || holds_start h s;
                   end_of_sections := end_of_sections fl |}), m).
Proof.
  intros Hh Hf He Hok. unfold section_okb in Hok. apply andb_true_iff in Hok as [Hk Hok].
  unfold valid_tftf_section, holds_start. cbv zeta. unfold ignored in *. rewrite Hk, He. cbn [negb].
  destruct (section_load_address s =? DATA_ADDRESS_TO_BE_IGNORED).
  { cbn. rewrite orb_false_r. by destruct fl. }
  cbn [orb] in Hok. apply andb_true_iff in Hok as [Hok Hc]. apply andb_true_iff in Hok as [Hl Hv].
  apply negb_true_iff in Hl. rewrite Hl, Hv. cbn [negb andb].
  unfold mbind, boot_bind. rewrite collision_scan_eq by done.
  apply negb_true_iff in Hc. rewrite Hc.
  destruct fl as [c e]. cbn [contains_start end_of_sections].
  destruct (_ && _ && _); cbn; by rewrite ?orb_true_r, ?orb_false_r.
Qed.

Lemma valid_section_bad h m slots s off fl fl' m' :
  sized h -> fits slots (off + SECTION_SIZE) -> (section_type s =? TFTF_SECTION_END) = false ->
  section_okb s (fst (table_scan slots h (off + SECTION_SIZE))) = false ->
  valid_tftf_section slots h s off fl m <> (Done (Some fl'), m').
Proof.
  intros Hh Hf He Hbad E. unfold section_okb, valid_tftf_section, ignored in *. cbv zeta in E.
  rewrite He in E.
  destruct (known_tftf_type (section_type s)); [|by inv_done]. cbn [negb andb] in *.
  destruct (section_load_address s =? DATA_ADDRESS_TO_BE_IGNORED); [done|]. cbn [orb] in Hbad.
  destruct (section_expanded_length s <? section_length s); [by inv_done|].
  destruct (chip_validate_data_load_location _ _ =? 0); [|by inv_done]. cbn [negb andb] in *.
  apply bind_done in E. destruct E as (c & m1 & Ec & E).
  rewrite collision_scan_eq in Ec by done. injection Ec as <- <-.
  destruct (existsb _ _); [by inv_done | done].
Qed.

Lemma valid_sections_ok h m : sized h -> forall slots off fl, fits slots off ->
  end_of_sections fl = false -> sections_okb (fst (table_scan slots h off)) = true ->
  valid_sections slots h off fl m =
    (Done (Some {| contains_start := contains_start fl ||
                                     existsb (holds_start h) (fst (table_scan slots h off));
                   end_of_sections := snd (table_scan slots h off) |}), m).
Proof.
  intros Hh slots. induction slots as [|n IH]; intros off fl Hf Hfl Hok.
  { destruct (scan_cases h 0 off Hh Hf) as [[Ho Ht]|(? & ? & ? & _)]; [|done].
    cbn [valid_sections]. rewrite Ho, Ht. cbn. rewrite orb_false_r, <- Hfl. by destruct fl. }
  destruct (scan_cases h (S n) off Hh Hf) as [[Ho Ht]|(n' & s & [= <-] & Hf' & Ho & Es & Er)].
  { cbn [valid_sections]. rewrite Ho, Ht. cbn. rewrite orb_false_r, <- Hfl. by destruct fl. }
  cbn [valid_sections table_scan] in *. rewrite Er, Es in Hok. rewrite Ho, Hfl, Er, Es.
  cbn [orb the]. rewrite bind_ret.
  destruct (section_type s =? TFTF_SECTION_END) eqn:Ee.
  - unfold mbind, boot_bind.
    unfold valid_tftf_section. rewrite Ee. unfold known_tftf_type. rewrite Ee, orb_true_r. cbn [negb].
    cbn [mret boot_ret fst snd existsb]. rewrite orb_false_r. cbn.
    destruct n as [|n]; cbn [valid_sections]; cbn; by rewrite orb_true_r.
  - cbn [fst snd sections_okb existsb] in *. apply andb_true_iff in Hok as [Hs Hrest].
    rewrite (bind_step _ _ _ _ _ (valid_section_ok h m n s off fl Hh Hf' Ee Hs)).
    rewrite IH by done. cbn [contains_start end_of_sections]. by rewrite orb_assoc.
Qed.

Lemma valid_sections_bad h : sized h -> forall slots off fl m fl' m', fits slots off ->
  end_of_sections fl = false -> sections_okb (fst (table_scan slots h off)) = false ->
  valid_sections slots h off fl m <> (Done (Some fl'), m').
Proof.
  intros Hh slots. induction slots as [|n IH]; intros off fl m fl' m' Hf Hfl Hbad E.
  { destruct (scan_cases h 0 off Hh Hf) as [[Ho Ht]|(? & ? & ? & _)]; [|done]. by rewrite Ht in Hbad. }
  destruct (scan_cases h (S n) off Hh Hf) as [[Ho Ht]|(n' & s & [= <-] & Hf' & Ho & Es & Er)].
  { by rewrite Ht in Hbad. }
  cbn [valid_sections table_scan] in *. rewrite Er, Es in Hbad. rewrite Ho, Hfl, Es in E. cbn [orb] in E.
  destruct (section_type s =? TFTF_SECTION_END) eqn:Ee; [done|]. cbn [fst sections_okb] in Hbad.
  apply bind_done in E. destruct E as (s' & m1 & Es' & E). apply the_done in Es' as [[= <-] ->].
  apply bind_done in E. destruct E as (r & m1 & Ev & E).
  destruct r as [fl1|]; [|by inv_done].
  destruct (section_okb s (fst (table_scan n h (off + SECTION_SIZE)))) eqn:Ek.
  - rewrite (valid_section_ok h m n s off fl) in Ev by done. injection Ev as <- <-.
    by eapply IH in E.
  - by apply (valid_section_bad h m n s off fl) in Ev.
Qed.

Lemma holds_start_exists h ss :
  existsb (holds_start h) ss = true <-> exists s, s ∈ ss /\ holds_start h s = true.
Proof.
  rewrite existsb_exists. split; intros (s & Hs & Hh); exists s; split; try done;
    by apply list_elem_of_In.
Qed.

Lemma wf_header_okb h :
  wf_header h <-> snd (section_table h) = true /\ sections_okb (fst (section_table h)) = true /\
    (start_location h = 0 \/ existsb (holds_start h) (fst (section_table h)) = true).
Proof.
  rewrite holds_start_exists, sections_okb_spec. split; [by intros [] | by intros (? & ? & ?)].
Qed.

Lemma valid_tftf_header_ok h m m' :
  sized h -> valid_tftf_header h m = (Done true, m') <-> m' = m /\ wf_header h.
Proof.
  intros Hh. rewrite wf_header_okb. unfold valid_tftf_header. set (fl0 := {| contains_start := _ |}).
  pose proof (valid_sections_ok h m Hh TABLE_SLOTS SECTIONS_OFFSET fl0 fits_start eq_refl) as Hgood.
  pose proof (λ m fl' m', valid_sections_bad h Hh TABLE_SLOTS SECTIONS_OFFSET fl0 m fl' m' fits_start eq_refl) as Hbad.
  rewrite <- section_table_eq in Hgood, Hbad. generalize dependent (section_table h).
  intros [ss e]. cbn [fst snd]. intros Hgood Hbad.
  destruct (sections_okb ss) eqn:Hok.
  - rewrite (bind_step _ _ _ _ _ (Hgood eq_refl)). clear Hgood Hbad. cbn [contains_start end_of_sections fl0 orb].
    destruct e; cbn [negb]; [|split; [intros E; by inv_done | naive_solver]].
    destruct (Z.eqb_spec (start_location h) 0) as [Hz|Hz]; cbn [negb andb].
    { split; [intros [= <-]; auto | by intros [-> _]]. }
    destruct (existsb (holds_start h) ss); cbn [negb].
    + split; [intros [= <-]; auto | by intros [-> _]].
    + split; [intros E; by inv_done | naive_solver].
  - split; [clear Hgood | intros (_ & _ & ? & _); discriminate].
    intros E. apply bind_done in E. destruct E as ([fl|] & m1 & Ev & E); [|by inv_done].
    by apply Hbad in Ev.
Qed.
End refine.

(** ** What the checks guarantee *)

Section window.
Context `{Platform}.

Lemma load_location_spec base length :
  is_u32 base -> 0 <= length -> base + length < 2 ^ 32 ->
  chip_validate_data_load_location base length = 0 <->
    workram_start <= base /\ base + length < image_area_end.
Proof.
  intros Hb Hl Hs. unfold chip_validate_data_load_location, image_area_end. cbv zeta.
  rewrite u32_small by (unfold is_u32 in *; lia).
  destruct (Z.ltb_spec base workram_start); [split; [discriminate|lia]|].
  destruct boot_stage; case_match eqn:E; rewrite ?Z.leb_le, ?Z.leb_gt in E; split; (done || lia).
Qed.

End window.

(** The sum [base + length] is taken modulo [2^32]: a range that starts in
    the boot ROM's own data and wraps around the address space is accepted. *)
Theorem load_location_wraps :
  let P := sim_platform Stage1 [] [] in
  exists base length, is_u32 base /\ is_u32 length /\
    image_area_end <= base /\ chip_validate_data_load_location base length = 0.
Proof.
  intros P. exists 0x1002F100, 0xF0000000. vm_compute. intuition discriminate.
Qed.

Section guarantees.
Context `{Platform, Hardware, !PlatformOk}.

(** The bytes a section occupies once expanded. *)
Definition section_range (s : tftf_section_descriptor) : Z * Z :=
  (section_load_address s, section_load_address s + section_expanded_length s).
Definition ranges_disjoint (r q : Z * Z) : Prop := snd r <= fst q \/ snd q <= fst r.
Definition no_wrap (s : tftf_section_descriptor) : Prop :=
  0 <= section_expanded_length s /\ is_u32 (section_load_address s) /\
  section_load_address s + section_expanded_length s < 2 ^ 32.

Lemma until_ignored_lookup ss : forall j o,
  ss !! j = Some o -> (forall k t, (k <= j)%nat -> ss !! k = Some t -> ignored t = false) ->
  until_ignored ss !! j = Some o.
Proof.
  induction ss as [|s ss IH]; intros j o Hj Hall; [done|]. cbn [until_ignored].
  rewrite (Hall 0%nat s) by (done || lia). destruct j as [|j]; [done|]. simpl in *.
  apply IH; [done|]. intros k t Hk Ht. apply (Hall (S k) t); [lia|done].
Qed.

Lemma not_overlap_disjoint s o :
  no_wrap s -> no_wrap o -> (section_type o =? TFTF_SECTION_END) = false ->
  sections_overlap s o = false -> ranges_disjoint (section_range s) (section_range o).
Proof.
  intros (? & ? & ?) (? & ? & ?) He Ho. unfold sections_overlap in Ho. cbv zeta in Ho.
  rewrite He in Ho. cbn [negb andb] in Ho. apply negb_false_iff, orb_true_iff in Ho.
  rewrite !u32_small in Ho by (unfold is_u32 in *; lia). rewrite !Z.leb_le in Ho.
  unfold ranges_disjoint, section_range. simpl. lia.
Qed.

Lemma table_scan_no_end h : forall slots off s,
  s ∈ fst (table_scan slots h off) -> (section_type s =? TFTF_SECTION_END) = false.
Proof.
  induction slots as [|n IH]; intros off s Hs; cbn [table_scan] in Hs;
    destruct (header_size h - SECTION_SIZE <=? off); try (by apply not_elem_of_nil in Hs).
  destruct (section_at h off) as [s0|]; [|by apply not_elem_of_nil in Hs].
  destruct (section_type s0 =? TFTF_SECTION_END) eqn:E; [by apply not_elem_of_nil in Hs|].
  cbn [fst] in Hs. apply elem_of_cons in Hs as [->|Hs]; [done | by eapply IH].
Qed.

Lemma wf_disjoint h i j s o :
  wf_header h -> (i < j)%nat ->
  fst (section_table h) !! i = Some s -> fst (section_table h) !! j = Some o ->
  (forall k t, (i <= k <= j)%nat -> fst (section_table h) !! k = Some t -> ignored t = false) ->
  no_wrap s -> no_wrap o ->
  ranges_disjoint (section_range s) (section_range o).
Proof.
  intros Hw Hij Hs Ho Hign Hns Hno.
  destruct (wf_sections h Hw i s Hs) as [_ Hwf]. destruct Hwf as (_ & _ & Hf); [eapply (Hign i); [lia|done]|].
  apply not_overlap_disjoint; [done|done| |].
  - eapply (table_scan_no_end h TABLE_SLOTS SECTIONS_OFFSET). rewrite <- section_table_eq.
    by eapply list_elem_of_lookup_2.
  - rewrite Forall_lookup in Hf. apply (Hf (j - S i)%nat). apply until_ignored_lookup.
    + rewrite lookup_drop. by replace (S i + (j - S i))%nat with j by lia.
    + intros k t Hk Ht. rewrite lookup_drop in Ht. eapply Hign; [|done]. lia.
Qed.

(** [C9] [valid_tftf_header] accepts a header, leaving the machine as it was,
    exactly when the header is well formed: an end marker inside the header,
    known section types, for every section that is loaded a sane length, an
    allowed load range and no overlap with the sections behind it up to the
    first ignored one, and the entry point inside a raw code section. *)
Theorem valid_tftf_header_decides h m m' :
  sized h -> valid_tftf_header h m = (Done true, m') <-> m' = m /\ wf_header h.
Proof. apply valid_tftf_header_ok. Qed.

(** [C20] In an accepted header two sections that are not ignored, with no
    ignored section between them, and whose expanded ranges do not wrap around
    the address space ([no_wrap]), occupy disjoint memory. *)
Theorem valid_header_disjoint h m m' i j s o :
  sized h -> valid_tftf_header h m = (Done true, m') -> (i < j)%nat ->
  fst (section_table h) !! i = Some s -> fst (section_table h) !! j = Some o ->
  (forall k t, (i <= k <= j)%nat -> fst (section_table h) !! k = Some t -> ignored t = false) ->
  no_wrap s -> no_wrap o ->
  ranges_disjoint (section_range s) (section_range o).
Proof. intros Hh Hv. apply valid_tftf_header_ok in Hv as [_ Hw]; [|done]. by apply wf_disjoint. Qed.

(** [C21] The sections of an accepted header stay in the RAM left to images.  A
    section that is loaded, and whose range does not wrap, lies from its first
    to its last expanded byte between the start of work RAM and the stage's own
    memory, apart from the static header buffers; it is no longer than its
    expanded form, so the bytes its load stores are accesses inside that RAM. *)
Theorem valid_sections_in_ram h m m' s :
  sized h -> valid_tftf_header h m = (Done true, m') ->
  s ∈ fst (section_table h) -> ignored s = false -> no_wrap s ->
  section_length s <= section_expanded_length s /\
  workram_start <= section_load_address s /\
  section_load_address s + section_expanded_length s < image_area_end /\
  in_bounds (Ptr BRam (section_load_address s)) (section_length s) m = true /\
  Forall (λ a, ranges_disjoint (section_range s) (a, a + 4096)) [tftf_addr; ffff_header1_addr; ffff_header2_addr].
Proof.
  intros Hh Hv Hs Hi (Hl & Hb & Hw). apply valid_tftf_header_ok in Hv as [_ Hwf]; [|done].
  apply list_elem_of_lookup in Hs as [i Hs]. destruct (wf_sections h Hwf i s Hs) as [_ Hsec].
  destruct (Hsec Hi) as (Hle & Hloc & _). apply load_location_spec in Hloc as [Hlo Hhi]; [|done..].
  destruct load_area_ok as ([Hlo0 Hr] & [_ Ha] & Ht). split_and!; [done..| |].
  - unfold in_bounds. cbn [p_blk p_ofs]. rewrite !andb_true_iff, !Z.leb_le. lia.
  - destruct statics_apart as (Hs1 & Hs2 & Hs3). unfold apart_from_ram, ranges_disjoint, section_range in *.
    repeat (apply Forall_cons; split; [cbn; lia|]). constructor.
Qed.
End guarantees.

(** ** Concrete headers *)

(** Code and data, then a signature. *)
Definition good_header : list Z :=
  sim_header 0x10000001 [(1, 64, 0x10000000, 64); (2, 32, 0x10001000, 32);
                         (0x80, 360, 0xFFFFFFFF, 0)] ++ replicate 3584 0.

(** Code, an ignored signature, then a certificate loaded over the code. *)
Definition overlap_header : list Z :=
  sim_header 0x10000001 [(1, 64, 0x10000000, 64); (0x80, 360, 0xFFFFFFFF, 0);
                         (0x81, 64, 0x10000000, 64)] ++ replicate 3584 0.

Definition bytes_okb (l : list Z) : bool := forallb (λ b, (0 <=? b) && (b <? 256)) l.
Lemma bytes_okb_ok l : bytes_okb l = true -> bytes_ok l.
Proof.
  unfold bytes_okb. rewrite forallb_forall. intros Hb. apply Forall_forall. intros b Hin.
  apply list_elem_of_In, Hb, andb_true_iff in Hin as [? ?]. unfold is_u8. change (2 ^ 8) with 256. lia.
Qed.

Lemma sized_good : sized good_header.
Proof. split; [by vm_compute|]. split; [by apply bytes_okb_ok; vm_compute|by vm_compute]. Qed.
Lemma sized_overlap : sized overlap_header.
Proof. split; [by vm_compute|]. split; [by apply bytes_okb_ok; vm_compute|by vm_compute]. Qed.

Lemma valid_tftf_header_decides_witness :
  let P := sim_platform Stage1 [] [] in
  @wf_header P good_header.
Proof.
  intros P. pose proof (sim_platform_ok Stage1 : @PlatformOk P).
  apply (@valid_tftf_header_decides P sim_hw _ good_header (sim_machine (sim_soc ∅ []))
           (snd (@valid_tftf_header P sim_hw good_header (sim_machine (sim_soc ∅ []))))).
  - exact sized_good.
  - apply (run_done (@valid_tftf_header P sim_hw good_header) (sim_machine (sim_soc ∅ [])) true).
    vm_compute. reflexivity.
Defined.

Lemma valid_header_disjoint_witness :
  let P := sim_platform Stage1 [] [] in
  exists s o, fst (@section_table good_header) !! 0%nat = Some s /\
    fst (@section_table good_header) !! 1%nat = Some o /\
    ranges_disjoint (section_range s) (section_range o).
Proof.
  intros P. pose proof (sim_platform_ok Stage1 : @PlatformOk P).
  set (t := fst (section_table good_header)).
  destruct (t !! 0%nat) as [s|] eqn:Es; [|vm_compute in Es; discriminate].
  destruct (t !! 1%nat) as [o|] eqn:Eo; [|vm_compute in Eo; discriminate].
  exists s, o. split; [reflexivity|]. split; [reflexivity|].
  refine (@valid_header_disjoint P sim_hw _ good_header (sim_machine (sim_soc ∅ []))
           (snd (@valid_tftf_header P sim_hw good_header (sim_machine (sim_soc ∅ []))))
           0 1 s o sized_good _ _ Es Eo _ _ _).
  - apply (run_done (@valid_tftf_header P sim_hw good_header) (sim_machine (sim_soc ∅ [])) true).
    vm_compute. reflexivity.
  - lia.
  - intros [|[|k]] u Hk Hu; [| |lia]; vm_compute in Hu; injection Hu as <-; vm_compute; reflexivity.
  - vm_compute in Es. injection Es as <-. vm_compute. intuition discriminate.
  - vm_compute in Eo. injection Eo as <-. vm_compute. intuition discriminate.
Defined.

Lemma valid_sections_in_ram_witness :
  let P := sim_platform Stage1 [] [] in
  exists s, fst (section_table good_header) !! 1%nat = Some s /\
    0x10000000 <= section_load_address s /\ section_load_address s + section_expanded_length s < 0x1002F000 /\
    @in_bounds P sim_hw (Ptr BRam (section_load_address s)) (section_length s) (sim_machine (sim_soc ∅ [])) = true.
Proof.
  intros P. pose proof (sim_platform_ok Stage1 : @PlatformOk P).
  destruct (fst (section_table good_header) !! 1%nat) as [s|] eqn:Es; [|vm_compute in Es; discriminate].
  exists s. split; [reflexivity|].
  refine (match @valid_sections_in_ram P sim_hw _ good_header (sim_machine (sim_soc ∅ []))
           (snd (@valid_tftf_header P sim_hw good_header (sim_machine (sim_soc ∅ [])))) s sized_good _ _ _ _
          with conj _ (conj a (conj b (conj c _))) => conj a (conj b c) end).
  - apply (run_done (@valid_tftf_header P sim_hw good_header) (sim_machine (sim_soc ∅ [])) true).
    vm_compute. reflexivity.
  - by eapply list_elem_of_lookup_2.
  - vm_compute in Es. injection Es as <-. reflexivity.
  - vm_compute in Es. injection Es as <-. vm_compute. intuition discriminate.
Defined.

(** The collision scan stops at the first ignored section, so a valid
    header can load a section behind it over an earlier one: here a certificate
    over the code that holds the entry point. *)
Theorem collision_scan_stops_at_ignored :
  let P := sim_platform Stage1 [] [] in
  @wf_header P overlap_header /\
  exists s o, fst (section_table overlap_header) !! 0%nat = Some s /\
    fst (section_table overlap_header) !! 2%nat = Some o /\
    section_type s = TFTF_SECTION_RAW_CODE /\ section_type o = TFTF_SECTION_CERTIFICATE /\
    section_range o = section_range s.
Proof.
  intros P. split.
  - apply wf_header_okb. vm_compute. intuition.
  - eexists _, _. split; [vm_compute; reflexivity|]. split; [vm_compute; reflexivity|].
    vm_compute. intuition.
Qed.
