(* ===== verification/TftfLoad.v ===== *)
(** * TftfLoad: what a loaded TFTF image guarantees

    From the contract of the storage driver alone ([LoadOk]), a run of
    [load_tftf_image] that reports a secure image has checked an RSA signature
    under a trusted key over the SHA-256 digest of the signed part of the header
    followed by every byte of every signed section; and these bytes are in RAM
    at their load addresses unless a later section was loaded over them. *)

From S2P Require Import Prelude Utils Sha256 Sha256Spec Rsa Machine Chip Errors Crypto Loading Unipro Tftf TftfValid.

Section load.
Context `{Platform, Hardware, !PlatformOk, !Fuses} (ops : data_load_ops) `{!LoadOk ops}.
Implicit Types (m : machine) (h bs msg : list Z) (s : tftf_section_descriptor).

Abbreviation cstate m := (t_crypto_state (m_tftf m)).
Abbreviation header m := (t_header (m_tftf m)).

Lemma absorb_app a b c : absorb (a ++ b) c = absorb b (absorb a c).
Proof. unfold absorb, set_shctx. cbn. by rewrite foldl_app. Qed.

Lemma section_fields h off s :
  bytes_ok h -> section_at h off = Some s -> is_u32 (section_length s).
Proof.
  intros Hh E. unfold section_at in E. case_match; [|done]. injection E as <-. cbn. auto with words.
Qed.

(** ** One load, by destination *)

(** What a step that hashes [bs] when [hash] is set keeps and changes. *)
Record step_ok (hash : bool) (bs : list Z) (m m' : machine) : Prop := {
  so_mem : mem_ok m';
  so_tftf : m_tftf m' = m_tftf m;
  so_crypto : m_crypto m' = if hash then absorb bs (m_crypto m) else m_crypto m;
  so_kept : ram_kept m m'
}.

Lemma step_ok_app hash a b m m1 m' :
  step_ok hash a m m1 -> step_ok hash b m1 m' -> step_ok hash (a ++ b) m m'.
Proof.
  intros [_ T1 C1 K1] [M2 T2 C2 K2]. split; [done|congruence| |by etrans].
  rewrite C2, C1. destruct hash; [by rewrite absorb_app | done].
Qed.

Lemma hashed_fields (hash : bool) bs m :
  m_tftf (hashed hash bs m) = m_tftf m /\ m_ram (hashed hash bs m) = m_ram m /\
  m_crypto (hashed hash bs m) = if hash then absorb bs (m_crypto m) else m_crypto m.
Proof. by destruct hash. Qed.

Lemma load_temp n hash m m' :
  mem_ok m -> is_u32 n -> n <= TEMP_BUFFER_SIZE -> ops_load ops (Ptr BTemp 0) n hash m = (Done 0, m') ->
  exists bs, Z.of_nat (length bs) = n /\ bytes_ok bs /\ step_ok hash bs m m' /\
    ram_eq (m_ram m') (m_ram m).
Proof.
  intros Hm Hn Hmax E. assert (Hroom : roomy (Ptr BTemp 0) n m).
  { right. apply in_bounds_le; [done|]. cbn. rewrite (proj1 (ok_temp m Hm)). unfold TEMP_BUFFER_SIZE in Hmax. lia. }
  destruct (load_ok _ _ _ _ _ Hm Hn Hroom E) as [bs L]. exists bs.
  pose proof (mem_ok_loaded _ _ _ _ _ _ Hm L) as Hm'.
  destruct L as [Hl Hb _ Hk [Hr _ _ _ Ht _ Hc _]].
  destruct (hashed_fields hash bs (mem_write (Ptr BTemp 0) bs m)) as (E1 & E2 & E3).
  rewrite E1 in Ht. rewrite E2 in Hr. rewrite E3 in Hc.
  split_and!; [done|done| by split | done].
Qed.

Lemma load_ram a n hash m m' :
  mem_ok m -> is_u32 n -> ops_load ops (Ptr BRam a) n hash m = (Done 0, m') ->
  exists bs, Z.of_nat (length bs) = n /\ bytes_ok bs /\ step_ok hash bs m m' /\
    ram_eq (m_ram m') (ram_write a bs (m_ram m)).
Proof.
  intros Hm Hn E. assert (Hroom : roomy (Ptr BRam a) n m) by (by left).
  destruct (load_ok _ _ _ _ _ Hm Hn Hroom E) as [bs L]. exists bs.
  pose proof (mem_ok_loaded _ _ _ _ _ _ Hm L) as Hm'.
  destruct L as [Hl Hb _ Hk [Hr _ _ _ Ht _ Hc _]].
  destruct (hashed_fields hash bs (mem_write (Ptr BRam a) bs m)) as (E1 & E2 & E3).
  rewrite E1 in Ht. rewrite E2 in Hr. rewrite E3 in Hc.
  split_and!; [done|done| by split | done].
Qed.

Lemma load_signature m m' :
  mem_ok m -> ops_load ops (Ptr BTftfSignature 0) TFTF_SIGNATURE_STRUCT_SIZE false m = (Done 0, m') ->
  mem_ok m' /\ m_crypto m' = m_crypto m /\ ram_eq (m_ram m') (m_ram m) /\
  exists sig, length sig = 360%nat /\ bytes_ok sig /\ m_tftf m' = set_t_signature sig (m_tftf m).
Proof.
  intros Hm E. destruct (ok_signature m Hm) as [Hls _].
  assert (Hroom : roomy (Ptr BTftfSignature 0) 360 m).
  { right. apply in_bounds_le; [done|]. cbn. rewrite Hls. lia. }
  destruct (load_ok _ 360 _ _ _ Hm ltac:(done) Hroom E) as [bs L].
  pose proof (mem_ok_loaded _ _ _ _ _ _ Hm L) as Hm'.
  destruct L as [Hl Hb _ _ [Hr _ _ _ Ht _ Hc _]]. split_and!; [done|done|done|].
  exists bs. split_and!; [lia|done|]. rewrite Ht. cbn. f_equal. apply splice_all. change (Z.of_nat (length bs) = 360) in Hl. lia.
Qed.

Lemma header_room o n m : mem_ok m -> 0 <= o -> o + n <= 4096 -> roomy (Ptr BTftfHeader o) n m.
Proof.
  intros Hm Ho Hmax. right. apply in_bounds_le; [done|]. cbn. rewrite (proj1 (ok_header m Hm)). lia.
Qed.

Lemma load_header o n m m' :
  mem_ok m -> is_u32 n -> 0 <= o -> o + n <= 4096 -> ops_load ops (Ptr BTftfHeader o) n false m = (Done 0, m') ->
  mem_ok m' /\ m_crypto m' = m_crypto m /\ ram_eq (m_ram m') (m_ram m) /\
  exists h, m_tftf m' = set_t_header h (m_tftf m).
Proof.
  intros Hm Hn Ho Hmax E. destruct (load_ok _ _ _ _ _ Hm Hn (header_room o n m Hm Ho Hmax) E) as [bs L].
  pose proof (mem_ok_loaded _ _ _ _ _ _ Hm L) as Hm'.
  destruct L as [_ _ _ _ [Hr _ _ _ Ht _ Hc _]]. split_and!; [done|done|done|]. eexists. exact Ht.
Qed.

(** ** Sections *)

Lemma discard_done hash : forall blocks len m m',
  mem_ok m -> is_u32 len -> discard_loop ops blocks len hash m = (Done 0, m') ->
  exists bs, Z.of_nat (length bs) = len /\ bytes_ok bs /\ step_ok hash bs m m' /\
    ram_eq (m_ram m') (m_ram m).
Proof.
  assert (Hnil : forall m, mem_ok m -> step_ok hash [] m m).
  { intros m Hm. split; [done|done| |done]. destruct hash; [|done]. unfold absorb, set_shctx. cbn.
    by destruct (m_crypto m). }
  assert (Hz : forall len, len =? 0 = true -> forall m m', mem_ok m -> (Done 0, m) = (Done 0, m') ->
    exists bs, Z.of_nat (length bs) = len /\ bytes_ok bs /\ step_ok hash bs m m' /\ ram_eq (m_ram m') (m_ram m)).
  { intros len ->%Z.eqb_eq m m' Hm [= <-]. exists []. split_and!; [done|constructor|auto|done]. }
  induction blocks as [|n IH]; intros len m m' Hm Hlen E; cbn [discard_loop] in E;
    destruct (len =? 0) eqn:E0; try (by eapply Hz; eauto); try done.
  cbv zeta in E. set (blk := if TEMP_BUFFER_SIZE <? len then TEMP_BUFFER_SIZE else len) in *.
  assert (Hblk : 0 <= blk <= len /\ blk <= TEMP_BUFFER_SIZE).
  { unfold blk, TEMP_BUFFER_SIZE, is_u32 in *. destruct (Z.ltb_spec 2048 len); lia. }
  apply bind_done in E. destruct E as (rc & m1 & El & E).
  destruct (Z.eqb_spec rc 0) as [->|]; [|by inv_done]. cbn [negb] in E.
  apply load_temp in El as (b1 & L1 & B1 & S1 & R1); [|done|unfold is_u32 in *; lia|apply Hblk].
  apply IH in E as (b2 & L2 & B2 & S2 & R2); [|by destruct S1|unfold is_u32 in *; lia].
  exists (b1 ++ b2). split_and!.
  - rewrite length_app. lia.
  - by apply bytes_ok_app.
  - by eapply step_ok_app.
  - by rewrite R2.
Qed.

Definition is_signature s : bool := section_type s =? TFTF_SECTION_SIGNATURE.

(** [s] is copied to RAM. *)
Definition placed s : bool := negb (is_signature s || ignored s).

(** Where a section's bytes go. *)
Definition place s bs (r : gmap Z Z) : gmap Z Z :=
  if placed s then ram_write (section_load_address s) bs r else r.

(** The part of [process_tftf_section] that loads code or data. *)
Lemma data_done s hash m m' :
  mem_ok m -> is_u32 (section_length s) -> is_signature s = false ->
  (if section_load_address s =? DATA_ADDRESS_TO_BE_IGNORED then
     rc ← discard_section ops s hash;
     if negb (rc =? 0) then set_last_error BRE_TFTF_LOAD_DATA ;; mret (-1) else mret 0
   else
     rc ← ops_load ops (Ptr BRam (section_load_address s)) (section_length s) hash;
     if negb (rc =? 0) then set_last_error BRE_TFTF_LOAD_DATA ;; mret (-1) else mret 0) m = (Done 0, m') ->
  exists bs, Z.of_nat (length bs) = section_length s /\ bytes_ok bs /\ step_ok hash bs m m' /\
    ram_eq (m_ram m') (place s bs (m_ram m)).
Proof.
  intros Hm Hl Hty E. unfold place, placed, ignored. rewrite Hty. cbn [orb].
  destruct (section_load_address s =? DATA_ADDRESS_TO_BE_IGNORED); cbn [negb];
    apply bind_done in E; destruct E as (rc & m1 & E1 & E);
    (destruct (Z.eqb_spec rc 0) as [->|]; [|by inv_done]); cbn [negb] in E; inv_done.
  - by eapply discard_done.
  - by eapply load_ram.
Qed.

(** ** The authentication state *)

(** [sigs] are the signature blocks and [msg] the signed bytes loaded so far. *)
Definition auth (sigs : list (list Z)) msg m : Prop :=
  match cstate m with
  | CRYPTO_STATE_INIT => True
  | CRYPTO_STATE_HASHING => Sha256Spec.repr msg (c_shctx (m_crypto m))
  | CRYPTO_STATE_HASHED => t_hash (m_tftf m) = Sha256.sha256 msg
  | CRYPTO_STATE_VERIFIED => exists sig, sig ∈ sigs /\ proves sig (Sha256.sha256 msg)
  end.

(** The first step of [process_tftf_section]: an unsigned section ends the
    hashing. *)
Definition end_hashing s m : B unit :=
  when (negb (is_section_hashed s) && bool_decide (t_crypto_state (m_tftf m) = CRYPTO_STATE_HASHING))
    (d ← hash_final;
     modify_tftf (λ t, set_t_crypto_state CRYPTO_STATE_HASHED (set_t_hash d t))).

Lemma end_hashing_done s sigs msg m m' :
  mem_ok m -> auth sigs msg m -> end_hashing s m m = (Done tt, m') ->
  mem_ok m' /\ auth sigs msg m' /\ m_ram m' = m_ram m /\ header m' = header m /\
  (if negb (is_section_hashed s) && bool_decide (cstate m = CRYPTO_STATE_HASHING)
   then cstate m' = CRYPTO_STATE_HASHED else m' = m).
Proof.
  intros Hm Ha E. unfold end_hashing in E.
  destruct (negb (is_section_hashed s) && bool_decide (cstate m = CRYPTO_STATE_HASHING)) eqn:C;
    cbn [when] in E; [|by inv_done].
  apply andb_true_iff in C as [_ C]. apply bool_decide_eq_true in C.
  apply bind_done in E. destruct E as (d & m1 & Eh & E).
  apply hash_final_done in Eh as (Hd & c & ->). unfold auth in *. rewrite C in Ha.
  rewrite (Sha256Spec.finish_repr _ _ Ha) in Hd. injection E as <-.
  split_and!; [by destruct Hm; split | exact Hd | done | done | done].
Qed.

(** How a section moves the crypto state. *)
Definition crypto_step s (c c' : crypto_processing_state) : Prop :=
  match c with
  | CRYPTO_STATE_INIT => c' = CRYPTO_STATE_INIT
  | CRYPTO_STATE_HASHING =>
      if is_section_hashed s then c' = CRYPTO_STATE_HASHING
      else c' = CRYPTO_STATE_HASHED \/ c' = CRYPTO_STATE_VERIFIED
  | CRYPTO_STATE_HASHED => c' = CRYPTO_STATE_HASHED \/ c' = CRYPTO_STATE_VERIFIED
  | CRYPTO_STATE_VERIFIED => c' = CRYPTO_STATE_VERIFIED
  end.

Lemma signature_not_hashed s :
  (section_type s =? TFTF_SECTION_SIGNATURE) = true -> is_section_hashed s = false.
Proof. unfold is_section_hashed. intros ->%Z.eqb_eq. done. Qed.

Lemma only_identity_fields m m' :
  only_identity m m' -> mem_ok m -> mem_ok m' /\ m_tftf m' = m_tftf m /\ m_ram m' = m_ram m /\
    m_crypto m' = m_crypto m.
Proof. intros (d & i & n & ->) []. by split_and!. Qed.

(** The check of a loaded signature block. *)
Lemma check_signature_done sigs msg m m' :
  mem_ok m -> auth sigs msg m -> t_signature (m_tftf m) ∈ sigs ->
  (t ← gets m_tftf;
   when (bool_decide (t_crypto_state t = CRYPTO_STATE_HASHED))
     (v ← verify_signature (t_hash t) (t_signature t);
      when (v =? 0) (modify_tftf (set_t_crypto_state CRYPTO_STATE_VERIFIED))) ;;
   mret 0) m = (Done 0, m') ->
  mem_ok m' /\ auth sigs msg m' /\ m_ram m' = m_ram m /\ header m' = header m /\
  t_signature (m_tftf m') = t_signature (m_tftf m) /\
  (if bool_decide (cstate m = CRYPTO_STATE_HASHED)
   then cstate m' = CRYPTO_STATE_HASHED \/ cstate m' = CRYPTO_STATE_VERIFIED
   else cstate m' = cstate m).
Proof.
  intros Hm Ha Hsig E. apply bind_done in E. destruct E as (t & m0 & [= <- <-] & E).
  apply bind_done in E. destruct E as ([] & m1 & E & [= <-]).
  case_bool_decide as C; cbn [when] in E; [|injection E as <-; by split_and!].
  apply bind_done in E. destruct E as (v & m2 & Ev & E).
  destruct (only_identity_fields m m2) as (Hm2 & Ht & Hr & Hc);
    [by apply (pres_run _ _ _ _ _ (pres_verify_signature _ _) Ev) | done |].
  destruct (Z.eqb_spec v 0) as [->|]; cbn [when] in E; injection E as <-.
  - apply verify_signature_ok in Ev; [|apply (ok_signature m Hm)].
    unfold auth in *. rewrite C in Ha. rewrite Ha in Ev. cbn. rewrite Ht, Hr.
    split_and!; [by destruct Hm, Hm2; split | by eexists | done | done | done | auto].
  - unfold auth in *. rewrite Ht, C, Hr. rewrite C in Ha. split_and!; auto.
Qed.

Lemma process_unfold s m :
  process_tftf_section ops s m =
  (end_hashing s m ;;
   if section_type s =? TFTF_SECTION_SIGNATURE then
     rc ← ops_load ops (Ptr BTftfSignature 0) TFTF_SIGNATURE_STRUCT_SIZE false;
     if negb (rc =? 0) then set_last_error BRE_TFTF_LOAD_SIGNATURE ;; mret (-1)
     else
       t ← gets m_tftf;
       when (bool_decide (t_crypto_state t = CRYPTO_STATE_HASHED))
         (v ← verify_signature (t_hash t) (t_signature t);
          when (v =? 0) (modify_tftf (set_t_crypto_state CRYPTO_STATE_VERIFIED))) ;;
       mret 0
   else
     t ← gets m_tftf;
     if section_load_address s =? DATA_ADDRESS_TO_BE_IGNORED then
       rc ← discard_section ops s (bool_decide (t_crypto_state t = CRYPTO_STATE_HASHING));
       if negb (rc =? 0) then set_last_error BRE_TFTF_LOAD_DATA ;; mret (-1) else mret 0
     else
       rc ← ops_load ops (Ptr BRam (section_load_address s)) (section_length s)
              (bool_decide (t_crypto_state t = CRYPTO_STATE_HASHING));
       if negb (rc =? 0) then set_last_error BRE_TFTF_LOAD_DATA ;; mret (-1) else mret 0) m.
Proof. reflexivity. Qed.

(** What a successful pass of [process_tftf_section] over [s] did: [bs] are the
    bytes that were loaded, the whole signature block for a signature section. *)
Record delivered s bs m m' : Prop := {
  dl_bytes : bytes_ok bs;
  dl_length : Z.of_nat (length bs) = if is_signature s then TFTF_SIGNATURE_STRUCT_SIZE else section_length s;
  dl_signature : is_signature s = true -> t_signature (m_tftf m') = bs;
  dl_hashed : is_section_hashed s = true -> cstate m = CRYPTO_STATE_HASHING ->
              m_crypto m' = absorb bs (m_crypto m);
  dl_ram : ram_eq (m_ram m') (place s bs (m_ram m));
  dl_kept : ram_kept m m'
}.

(** The message and the signature blocks after the bytes [bs] of [s]. *)
Definition next_msg s (c : crypto_processing_state) msg bs : list Z :=
  if is_section_hashed s && bool_decide (c = CRYPTO_STATE_HASHING) then msg ++ bs else msg.
Definition next_sigs s (sigs : list (list Z)) bs : list (list Z) :=
  if is_signature s then sigs ++ [bs] else sigs.

Lemma auth_more sigs sigs' msg m : (forall x, x ∈ sigs -> x ∈ sigs') -> auth sigs msg m -> auth sigs' msg m.
Proof. unfold auth. destruct (cstate m); naive_solver. Qed.

Lemma process_signature_done s sigs msg m m1 m' :
  mem_ok m1 -> auth sigs msg m1 -> is_signature s = true -> m_ram m1 = m_ram m ->
  (rc ← ops_load ops (Ptr BTftfSignature 0) TFTF_SIGNATURE_STRUCT_SIZE false;
   if negb (rc =? 0) then set_last_error BRE_TFTF_LOAD_SIGNATURE ;; mret (-1)
   else
     t ← gets m_tftf;
     when (bool_decide (t_crypto_state t = CRYPTO_STATE_HASHED))
       (v ← verify_signature (t_hash t) (t_signature t);
        when (v =? 0) (modify_tftf (set_t_crypto_state CRYPTO_STATE_VERIFIED))) ;;
     mret 0) m1 = (Done 0, m') ->
  mem_ok m' /\ header m' = header m1 /\
  (if bool_decide (cstate m1 = CRYPTO_STATE_HASHED)
   then cstate m' = CRYPTO_STATE_HASHED \/ cstate m' = CRYPTO_STATE_VERIFIED
   else cstate m' = cstate m1) /\
  exists bs, delivered s bs m m' /\ auth (sigs ++ [bs]) msg m'.
Proof.
  intros Hm1 Ha1 Es Hr1 E. apply bind_done in E. destruct E as (rc & m2 & El & E).
  destruct (Z.eqb_spec rc 0) as [->|]; [|by inv_done]. cbn [negb] in E.
  apply load_signature in El as (Hm2 & Hc2 & Hr2 & sig & Hls & Hbs & Ht2); [|done].
  assert (Ha2 : auth (sigs ++ [sig]) msg m2).
  { apply (auth_more sigs); [set_solver|]. unfold auth in *. by rewrite Ht2, Hc2. }
  apply (check_signature_done (sigs ++ [sig]) msg) in E as (Hm3 & Ha3 & Hr3 & Hh3 & Hs3 & Hc3);
    [|done|done|rewrite Ht2; cbn; set_solver].
  rewrite Ht2 in Hc3, Hh3, Hs3. cbn in Hc3, Hh3, Hs3. split_and!; [done|done|done|].
  assert (Hram : ram_eq (m_ram m') (m_ram m)) by (by rewrite Hr3, Hr2, Hr1).
  exists sig. split; [split|done]; rewrite ?Es; unfold place, placed; rewrite ?Es; try done.
  - by rewrite Hls.
  - intros Hh. unfold is_signature in Es. apply signature_not_hashed in Es. congruence.
  - intros a _. apply Hram.
Qed.

Lemma process_data_done s hash m m' :
  hash = bool_decide (cstate m = CRYPTO_STATE_HASHING) ->
  mem_ok m -> is_u32 (section_length s) -> is_signature s = false ->
  (if section_load_address s =? DATA_ADDRESS_TO_BE_IGNORED then
     rc ← discard_section ops s hash;
     if negb (rc =? 0) then set_last_error BRE_TFTF_LOAD_DATA ;; mret (-1) else mret 0
   else
     rc ← ops_load ops (Ptr BRam (section_load_address s)) (section_length s) hash;
     if negb (rc =? 0) then set_last_error BRE_TFTF_LOAD_DATA ;; mret (-1) else mret 0) m = (Done 0, m') ->
  mem_ok m' /\ m_tftf m' = m_tftf m /\ exists bs, delivered s bs m m' /\
    m_crypto m' = if hash then absorb bs (m_crypto m) else m_crypto m.
Proof.
  intros Hhash Hm Hl Hty E. apply data_done in E as (bs & Hlb & Hb & [Hm2 Ht2 Hc2 Hk2] & Hr2); [|done..].
  split_and!; [done|done|]. exists bs. split; [|done].
  split; rewrite ?Hty; try done. intros _ Hc. by rewrite Hc2, Hhash, bool_decide_true.
Qed.

Lemma process_done s sigs msg m m' :
  mem_ok m -> is_u32 (section_length s) -> auth sigs msg m ->
  process_tftf_section ops s m = (Done 0, m') ->
  mem_ok m' /\ header m' = header m /\ crypto_step s (cstate m) (cstate m') /\
  exists bs, delivered s bs m m' /\ auth (next_sigs s sigs bs) (next_msg s (cstate m) msg bs) m'.
Proof.
  intros Hm Hl Ha E. rewrite process_unfold in E.
  apply bind_done in E. destruct E as ([] & m1 & E1 & E).
  apply (end_hashing_done s sigs msg) in E1 as (Hm1 & Ha1 & Hr1 & Hh1 & Hc1); [|done|done].
  unfold next_sigs, next_msg. fold (is_signature s) in E. destruct (is_signature s) eqn:Ety.
  - pose proof (signature_not_hashed s Ety) as Hns. rewrite Hns in *. cbn [negb andb] in *.
    apply (process_signature_done s sigs msg m) in E as (Hm3 & Hh3 & Hc3 & bs & D & Ha3); [|done..].
    split_and!; [done|congruence| |by exists bs].
    unfold crypto_step. rewrite Hns.
    destruct (cstate m) eqn:C; repeat case_bool_decide; try subst m1; intuition congruence.
  - apply bind_done in E. destruct E as (t & m2 & [= <- <-] & E).
    apply process_data_done in E as (Hm2 & Ht2 & bs & D & Hc2); [|done..].
    split_and!; [done|by rewrite Ht2| |].
    { unfold crypto_step. rewrite Ht2. destruct (is_section_hashed s); cbn [negb andb] in Hc1.
      { subst m1. destruct (cstate m); auto. }
      destruct (cstate m) eqn:C; case_bool_decide; try subst m1; rewrite ?C; intuition congruence. }
    exists bs. destruct (is_section_hashed s) eqn:Hs; cbn [negb andb] in *.
    { subst m1. split; [done|]. unfold auth in *. rewrite Ht2, Hc2.
      destruct (cstate m) eqn:C; [exact I| | |].
      - rewrite bool_decide_true by reflexivity. apply Sha256Spec.repr_absorb; [done|apply D].
      - rewrite bool_decide_false by discriminate. exact Ha1.
      - rewrite bool_decide_false by discriminate. exact Ha1. }
    split.
    { destruct D as [D1 D2 D3 D4 D5 D6]. rewrite Hr1 in D5. split; try done; [congruence|].
      intros a Hna. rewrite D6 by done. by rewrite Hr1. }
    unfold auth in *. rewrite Ht2, Hc2.
    destruct (bool_decide (cstate m = CRYPTO_STATE_HASHING)) eqn:C.
    { rewrite Hc1 in Ha1 |- *. exact Ha1. }
    subst m1. rewrite C. apply bool_decide_eq_false in C.
    destruct (cstate m); [exact I | by destruct C | exact Ha1 | exact Ha1].
Qed.

(** ** All sections *)

(** The sections in front of the first unsigned one. *)
Fixpoint signed_prefix (ss : list tftf_section_descriptor) : list tftf_section_descriptor :=
  match ss with
  | [] => []
  | s :: ss => if is_section_hashed s then s :: signed_prefix ss else []
  end.

(** [loads ss bss m m']: the passes over the sections [ss] in order take the
    machine from [m] to [m'] and deliver the bytes [bss]. *)
Inductive loads : list tftf_section_descriptor -> list (list Z) -> machine -> machine -> Prop :=
| loads_nil m : loads [] [] m m
| loads_cons s ss bs bss m m1 m' :
    process_tftf_section ops s m = (Done 0, m1) -> delivered s bs m m1 ->
    loads ss bss m1 m' -> loads (s :: ss) (bs :: bss) m m'.

(** The entries of [bss] that belong to the signature sections of [ss]. *)
Fixpoint signature_blocks (ss : list tftf_section_descriptor) (bss : list (list Z)) : list (list Z) :=
  match ss, bss with
  | s :: ss, bs :: bss =>
      if is_signature s then bs :: signature_blocks ss bss else signature_blocks ss bss
  | _, _ => []
  end.

(** How many of the sections [ss] are hashed from crypto state [c] on. *)
Definition hashed_count (c : crypto_processing_state) (ss : list tftf_section_descriptor) : nat :=
  if bool_decide (c = CRYPTO_STATE_HASHING) then length (signed_prefix ss) else 0.

Lemma hashed_count_step s ss c c1 bs bss msg :
  crypto_step s c c1 ->
  next_msg s c msg bs ++ concat (take (hashed_count c1 ss) bss) =
  msg ++ concat (take (hashed_count c (s :: ss)) (bs :: bss)).
Proof.
  unfold crypto_step, hashed_count, next_msg. cbn [signed_prefix].
  destruct c; destruct (is_section_hashed s) eqn:Es; intros Hs; try (destruct Hs as [-> | ->]); subst;
    repeat case_bool_decide; try congruence; cbn [andb length take concat]; try done.
  by rewrite <- app_assoc.
Qed.

Lemma next_sigs_step s ss bs bss sigs :
  next_sigs s sigs bs ++ signature_blocks ss bss = sigs ++ signature_blocks (s :: ss) (bs :: bss).
Proof. unfold next_sigs. cbn [signature_blocks]. destruct (is_signature s); [by rewrite <- app_assoc | done]. Qed.

(** One iteration of the loop, given that it went through. *)
Lemma load_sections_step slots off m m' :
  load_sections ops slots off m = (Done 0, m') ->
  (is_section_out_of_range (header m) off = true /\ m' = m) \/
  (is_section_out_of_range (header m) off = false /\
   exists n s, slots = S n /\ section_at (header m) off = Some s /\
    (if section_type s =? TFTF_SECTION_END then m' = m
     else exists m1, process_tftf_section ops s m = (Done 0, m1) /\
            load_sections ops n (off + SECTION_SIZE) m1 = (Done 0, m'))).
Proof.
  intros E. destruct slots as [|n]; cbn [load_sections] in E;
    apply bind_done in E; destruct E as (h & m0 & [= <- <-] & E);
    (destruct (is_section_out_of_range (header m) off); [left; by injection E as <-|right; split; [done|]]);
    [done|].
  apply bind_done in E. destruct E as (s & m0 & Es & E). apply the_done in Es as [Es ->].
  exists n, s. split; [done|]. split; [done|].
  destruct (section_type s =? TFTF_SECTION_END); [by injection E as <-|].
  apply bind_done in E. destruct E as (rc & m1 & Ep & E).
  destruct (Z.eqb_spec rc 0) as [->|]; [by exists m1 | by inv_done].
Qed.

Lemma load_sections_init : forall slots off m m',
  mem_ok m -> cstate m = CRYPTO_STATE_INIT -> load_sections ops slots off m = (Done 0, m') ->
  cstate m' = CRYPTO_STATE_INIT.
Proof.
  induction slots as [|n IH]; intros off m m' Hm Hc E;
    destruct (load_sections_step _ _ _ _ E) as [[_ ->]|(_ & n' & s & [= <-] & Es & Hrest)]; try done.
  destruct (section_type s =? TFTF_SECTION_END); [by subst|]. destruct Hrest as (m1 & Ep & E').
  apply (process_done s [] []) in Ep as (Hm1 & _ & Hst & _); [|done| |].
  - eapply IH; [exact Hm1| |exact E']. rewrite Hc in Hst. exact Hst.
  - eapply section_fields; [|exact Es]. apply (ok_header m Hm).
  - unfold auth. by rewrite Hc.
Qed.

Lemma load_sections_done h : sized h -> forall slots off sigs msg m m',
  fits slots off -> mem_ok m -> header m = h -> auth sigs msg m ->
  load_sections ops slots off m = (Done 0, m') ->
  mem_ok m' /\ header m' = h /\ exists bss,
    loads (fst (table_scan slots h off)) bss m m' /\
    auth (sigs ++ signature_blocks (fst (table_scan slots h off)) bss) (msg ++ concat (take (hashed_count (cstate m) (fst (table_scan slots h off))) bss)) m'.
Proof.
  intros Hh slots. induction slots as [|n IH]; intros off sigs msg m m' Hf Hm Hmh Ha E;
    destruct (scan_cases h _ off Hh Hf) as [[Ho Ht]|(n' & s & Hn & Hf' & Ho & Es & Er)]; try done;
    apply load_sections_step in E; rewrite Hmh in E;
    destruct E as [[Ho' ->]|(Ho' & n1 & s' & [= <-] & Es' & Hrest)]; rewrite Ho in Ho'; try done.
  1,2: rewrite Ht; split_and!; [done|done|]; exists []; split; [by constructor|];
       rewrite take_nil, !app_nil_r; exact Ha.
  injection Hn as <-. rewrite Es in Es'. injection Es' as <-.
  cbn [table_scan]. rewrite Er, Es. destruct (section_type s =? TFTF_SECTION_END).
  { subst m'. split_and!; [done|done|]. exists []. split; [by constructor|].
    cbn [fst signature_blocks]. rewrite take_nil, !app_nil_r. exact Ha. }
  destruct Hrest as (m1 & Ep & E). cbn [fst].
  destruct (process_done s sigs msg m m1) as (Hm1 & Hh1 & Hst & bs & D & Ha1); [done| |done|exact Ep|].
  { eapply section_fields; [|exact Es]. apply Hh. }
  eapply IH in E as (Hm' & Hh' & bss & Hloads & Ha'); [|exact Hf'|exact Hm1|congruence|exact Ha1].
  split_and!; [done|done|]. exists (bs :: bss). split; [by econstructor|].
  rewrite (hashed_count_step s _ _ _ bs bss msg Hst), next_sigs_step in Ha'. exact Ha'.
Qed.

(** ** The header *)

(** What the section scan keeps and sets. *)
Record scan_post (ss : list tftf_section_descriptor) (m m' : machine) : Prop := {
  sp_mem : mem_ok m';
  sp_header : header m' = header m;
  sp_ram : m_ram m' = m_ram m;
  sp_sig : t_contain_signature (m_tftf m') = t_contain_signature (m_tftf m) || existsb is_signature ss
}.

Lemma known_hashed s :
  known_tftf_type (section_type s) = true -> (section_type s =? TFTF_SECTION_END) = false ->
  (section_type s =? TFTF_SECTION_SIGNATURE) || (section_type s =? TFTF_SECTION_CERTIFICATE)
    = negb (is_section_hashed s).
Proof.
  unfold known_tftf_type, is_section_hashed. intros Hk He. rewrite He in Hk. clear He.
  destruct (Z.eqb_spec (section_type s) TFTF_SECTION_SIGNATURE) as [->|]; [done|].
  destruct (Z.eqb_spec (section_type s) TFTF_SECTION_CERTIFICATE) as [->|]; [done|].
  rewrite !orb_false_r, andb_true_iff, !Z.leb_le in Hk.
  unfold TFTF_SECTION_RAW_CODE, TFTF_SECTION_MANIFEST in Hk.
  assert (Hty : section_type s = 1 \/ section_type s = 2 \/ section_type s = 3 \/ section_type s = 4 \/
                section_type s = 5) by lia.
  by destruct Hty as [->|[->|[->|[->| ->]]]].
Qed.

(** One iteration of the scan, given that it went through. *)
Lemma scan_step slots h off m m' :
  scan_sections slots h off m = (Done 0, m') ->
  is_section_out_of_range h off = false /\
  exists n s, slots = S n /\ section_at h off = Some s /\
    (if section_type s =? TFTF_SECTION_END then m' = m
     else exists m1, scan_sections n h (off + SECTION_SIZE) m1 = (Done 0, m') /\
       if (section_type s =? TFTF_SECTION_SIGNATURE) || (section_type s =? TFTF_SECTION_CERTIFICATE)
       then exists m0, when (is_signature s) (modify_tftf (set_t_contain_signature true)) m = (Done tt, m0) /\
              when (bool_decide (cstate m0 = CRYPTO_STATE_INIT))
                (hash_start ;; modify_tftf (set_t_crypto_state CRYPTO_STATE_HASHING) ;;
                 hash_update (take (Z.to_nat off) h)) m0 = (Done tt, m1)
       else m1 = m /\ cstate m <> CRYPTO_STATE_HASHING).
Proof.
  intros E. destruct slots as [|n]; cbn [scan_sections] in E;
    (destruct (is_section_out_of_range h off); [by inv_done|]); [done|]. split; [done|].
  apply bind_done in E. destruct E as (s & m0 & Es & E). apply the_done in Es as [Es ->].
  exists n, s. split; [done|]. split; [done|]. cbv zeta in E.
  destruct (section_type s =? TFTF_SECTION_END); [by injection E as <-|].
  destruct (_ || _).
  - apply bind_done in E. destruct E as ([] & m0 & E0 & E).
    apply bind_done in E. destruct E as (t & m2 & [= <- <-] & E).
    apply bind_done in E. destruct E as ([] & m1 & E1 & E). exists m1. split; [done|]. by exists m0.
  - destruct (_ || _); [by inv_done|].
    apply bind_done in E. destruct E as (t & m2 & [= <- <-] & E).
    case_bool_decide as C; [by inv_done|]. by exists m.
Qed.

Lemma mark_signature_done s m m0 :
  when (is_signature s) (modify_tftf (set_t_contain_signature true)) m = (Done tt, m0) -> mem_ok m ->
  mem_ok m0 /\ header m0 = header m /\ m_ram m0 = m_ram m /\ m_crypto m0 = m_crypto m /\ cstate m0 = cstate m /\
  t_contain_signature (m_tftf m0) = t_contain_signature (m_tftf m) || is_signature s.
Proof.
  intros E Hm. destruct (is_signature s); cbn [when] in E; injection E as <-.
  - split_and!; try done; [by destruct Hm; split | by rewrite orb_true_r].
  - split_and!; try done. by rewrite orb_false_r.
Qed.

(** Behind the first unsigned section only unsigned ones may follow. *)
Lemma scan_hashing h : sized h -> forall slots off m m', fits slots off -> mem_ok m ->
  cstate m = CRYPTO_STATE_HASHING ->
  Forall (λ s, known_tftf_type (section_type s) = true) (fst (table_scan slots h off)) ->
  scan_sections slots h off m = (Done 0, m') ->
  cstate m' = CRYPTO_STATE_HASHING /\ m_crypto m' = m_crypto m /\
  scan_post (fst (table_scan slots h off)) m m' /\
  Forall (λ s, is_section_hashed s = false) (fst (table_scan slots h off)).
Proof.
  intros Hh slots. induction slots as [|n IH]; intros off m m' Hf Hm Hc Hk E;
    destruct (scan_step _ _ _ _ _ E) as (Ho & n1 & s & [= <-] & Es & Hrest);
    destruct (scan_cases h _ off Hh Hf) as [[Ho' _]|(n' & s' & [= <-] & Hf' & _ & Es' & Er)];
    try congruence.
  rewrite Es in Es'. injection Es' as <-. cbn [table_scan] in *. rewrite Er, Es in *.
  destruct (section_type s =? TFTF_SECTION_END) eqn:Ee.
  { subst m'. cbn [fst]. split_and!; try done. split; try done. by rewrite orb_false_r. }
  cbn [fst] in *. apply Forall_cons in Hk as [Hks Hk].
  destruct Hrest as (m1 & E1 & Hb). rewrite (known_hashed s Hks Ee) in Hb.
  destruct (is_section_hashed s) eqn:Ehs; cbn [negb] in Hb; [by destruct Hb as [_ Hb]|].
  destruct Hb as (m0 & E0 & E2).
  apply mark_signature_done in E0 as (Hm0 & Hh0 & Hr0 & Hc0 & Hs0 & Hsig); [|done].
  rewrite Hs0, Hc in E2. rewrite bool_decide_false in E2 by discriminate. injection E2 as <-.
  apply IH in E1 as (Hc' & Hcr & [P1 P2 P3 P4] & Hall); [|done|done|congruence|done].
  split_and!; [done|congruence| |by constructor].
  split; [done|congruence|congruence|]. cbn [existsb]. by rewrite P4, Hsig, orb_assoc.
Qed.

Lemma scan_init h : sized h -> forall slots off m m', fits slots off -> mem_ok m ->
  cstate m = CRYPTO_STATE_INIT -> length (Sha256.w (c_shctx (m_crypto m))) = 80%nat ->
  Forall (λ s, known_tftf_type (section_type s) = true) (fst (table_scan slots h off)) ->
  scan_sections slots h off m = (Done 0, m') ->
  let ss := fst (table_scan slots h off) in
  let signed := signed_prefix ss in
  scan_post ss m m' /\
  Forall (λ s, is_section_hashed s = false) (drop (length signed) ss) /\
  if bool_decide (length signed = length ss) then cstate m' = CRYPTO_STATE_INIT
  else cstate m' = CRYPTO_STATE_HASHING /\
       Sha256Spec.repr (take (Z.to_nat (off + SECTION_SIZE * Z.of_nat (length signed))) h)
                       (c_shctx (m_crypto m')).
Proof.
  intros Hh slots. induction slots as [|n IH]; intros off m m' Hf Hm Hc Hw Hk E ss signed; subst ss signed;
    destruct (scan_step _ _ _ _ _ E) as (Ho & n1 & s & [= <-] & Es & Hrest);
    destruct (scan_cases h _ off Hh Hf) as [[Ho' _]|(n' & s' & [= <-] & Hf' & _ & Es' & Er)];
    try congruence.
  rewrite Es in Es'. injection Es' as <-. cbn [table_scan] in *. rewrite Er, Es in *.
  destruct (section_type s =? TFTF_SECTION_END) eqn:Ee.
  { subst m'. cbn [fst signed_prefix length]. split_and!; [|constructor|done].
    split; try done. by rewrite orb_false_r. }
  cbn [fst] in *. apply Forall_cons in Hk as [Hks Hk]. cbn [signed_prefix].
  destruct Hrest as (m1 & E1 & Hb). rewrite (known_hashed s Hks Ee) in Hb.
  destruct (is_section_hashed s) eqn:Ehs; cbn [negb] in Hb.
  - destruct Hb as [-> _]. destruct (IH _ _ _ Hf' Hm Hc Hw Hk E1) as ([P1 P2 P3 P4] & Hall & Hst).
    cbn [length drop]. split_and!; [|done|].
    + split; [done..|]. cbn [existsb]. rewrite P4. f_equal. unfold is_signature.
      destruct (section_type s =? TFTF_SECTION_SIGNATURE) eqn:Esig; [|done].
      by rewrite (signature_not_hashed s Esig) in Ehs.
    + repeat case_bool_decide; try lia; try done.
      replace (off + SECTION_SIZE * Z.of_nat (S (length (signed_prefix (fst (table_scan n h (off + SECTION_SIZE)))))))
        with (off + SECTION_SIZE + SECTION_SIZE * Z.of_nat (length (signed_prefix (fst (table_scan n h (off + SECTION_SIZE))))))
        by lia.
      exact Hst.
  - destruct Hb as (m0 & E0 & E2). cbn [length drop]. rewrite bool_decide_false by done.
    apply mark_signature_done in E0 as (Hm0 & Hh0 & Hr0 & Hc0 & Hs0 & Hsig); [|done].
    rewrite Hs0, Hc in E2. rewrite bool_decide_true in E2 by done. cbn [when] in E2.
    apply bind_done in E2. destruct E2 as ([] & m2 & Est & E2). apply hash_start_done in Est.
    apply bind_done in E2. destruct E2 as ([] & m3 & [= <-] & Eup). apply hash_update_done in Eup.
    assert (Hm1 : mem_ok m1) by (subst m1 m2; destruct Hm0; by split).
    apply scan_hashing in E1 as (Hc' & Hcr & [P1 P2 P3 P4] & Hall); [|done|done|done|by subst m1 m2|done].
    split_and!.
    + split; [done|by rewrite P2; subst m1 m2|by rewrite P3; subst m1 m2|].
      cbn [existsb]. rewrite P4, orb_assoc, <- Hsig. by subst m1 m2.
    + by constructor.
    + done.
    + rewrite Hcr. replace (off + SECTION_SIZE * Z.of_nat 0) with off by lia.
      subst m1 m2. cbn. rewrite Hc0.
      apply (Sha256Spec.repr_absorb (take (Z.to_nat off) h) []); [by apply Sha256Spec.repr_init|].
      apply Forall_take. apply Hh.
Qed.

(** The state [load_tftf_header] leaves for the section loop: either nothing is
    being hashed, or the header is valid and its signed part has been hashed. *)
Definition header_phase m : Prop :=
  cstate m = CRYPTO_STATE_INIT \/
  let h := header m in
  let ss := fst (section_table h) in
  let signed := signed_prefix ss in
  sized h /\ sub h 0 TFTF_SENTINEL_SIZE = tftf_sentinel /\ wf_header h /\
  Forall (λ s, is_section_hashed s = false) (drop (length signed) ss) /\
  cstate m = CRYPTO_STATE_HASHING /\
  Sha256Spec.repr (take (Z.to_nat (SECTIONS_OFFSET + SECTION_SIZE * Z.of_nat (length signed))) h)
                  (c_shctx (m_crypto m)).

Lemma only_dev_fields m m' : only_dev m m' ->
  m_tftf m' = m_tftf m /\ m_crypto m' = m_crypto m /\ m_ram m' = m_ram m /\ (mem_ok m -> mem_ok m').
Proof. intros [d ->]. split_and!; try done. intros []. by split. Qed.

Lemma wf_known h : wf_header h ->
  Forall (λ s, known_tftf_type (section_type s) = true) (fst (section_table h)).
Proof. intros Hw. apply Forall_lookup. intros i s Hi. apply (wf_sections h Hw i s Hi). Qed.

Lemma check_header_done m m' :
  mem_ok m -> sized (header m) -> sub (header m) 0 TFTF_SENTINEL_SIZE = tftf_sentinel ->
  cstate m = CRYPTO_STATE_INIT -> length (Sha256.w (c_shctx (m_crypto m))) = 80%nat ->
  check_tftf_header m = (Done 0, m') ->
  mem_ok m' /\ m_ram m' = m_ram m /\ header_phase m'.
Proof.
  intros Hm Hh Hsent Hc Hw E. unfold check_tftf_header in E.
  apply bind_done in E. destruct E as (h & m0 & [= <- <-] & E).
  apply bind_done in E. destruct E as ([] & m1 & [= <-] & E).
  match type of E with _ ?x = _ => set (m1 := x) in E end.
  assert (Hm1 : mem_ok m1) by (destruct Hm; by split).
  apply bind_done in E. destruct E as (valid & m2 & Ev & E). destruct valid; [|by inv_done].
  apply valid_tftf_header_ok in Ev as [-> Hwf]; [|done]. cbn [negb] in E.
  apply bind_done in E. destruct E as ((rc & mid) & m2 & E2 & E).
  destruct (rc =? 0); [|by inv_done]. cbn [negb] in E.
  apply (pres_run _ _ _ _ _ (pres_attr_read _ _ _)), only_dev_fields in E2 as (T2 & C2 & R2 & M2).
  apply bind_done in E. destruct E as ((rc2 & pid) & m3 & E3 & E).
  destruct (rc2 =? 0); [|by inv_done]. cbn [negb] in E.
  apply (pres_run _ _ _ _ _ (pres_attr_read _ _ _)), only_dev_fields in E3 as (T3 & C3 & R3 & M3).
  apply bind_done in E. destruct E as (vid & m4 & [= <- <-] & E).
  apply bind_done in E. destruct E as (apid & m5 & [= <- <-] & E).
  destruct (_ || _); [by inv_done|].
  pose proof (wf_known _ Hwf) as Hk. rewrite section_table_eq in Hk.
  eapply scan_init in E as ([P1 P2 P3 P4] & Hall & Hst);
    [|done|apply fits_start|auto|by rewrite T3, T2|by rewrite C3, C2|done].
  assert (Hhd : header m' = header m) by (by rewrite P2, T3, T2).
  split_and!; [done|by rewrite P3, R3, R2|]. unfold header_phase. rewrite Hhd, section_table_eq.
  case_bool_decide; [by left|]. right. destruct Hst as [Hs Hrep]. by split_and!.
Qed.

Lemma sentinel_equal h :
  length h = 4096%nat ->
  memcmp (sub h 0 TFTF_SENTINEL_SIZE) tftf_sentinel (Z.to_nat TFTF_SENTINEL_SIZE) = Some 0 ->
  sub h 0 TFTF_SENTINEL_SIZE = tftf_sentinel.
Proof.
  intros Hl E. assert (Hs : length (sub h 0 TFTF_SENTINEL_SIZE) = 4%nat).
  { rewrite length_sub; unfold TFTF_SENTINEL_SIZE; lia. }
  apply memcmp_loop_zero in E; rewrite ?Hs; [|done..].
  rewrite !drop_0, !take_ge in E; [done| |]; rewrite ?Hs; done.
Qed.

Lemma load_tftf_header_done m m' :
  mem_ok m -> length (Sha256.w (c_shctx (m_crypto m))) = 80%nat ->
  load_tftf_header ops m = (Done 0, m') ->
  mem_ok m' /\ ram_eq (m_ram m') (m_ram m) /\ header_phase m'.
Proof.
  intros Hm Hw E. unfold load_tftf_header in E.
  apply bind_done in E. destruct E as ([] & m1 & [= <-] & E).
  match type of E with _ ?x = _ => set (m1 := x) in E end.
  assert (Hm1 : mem_ok m1) by (destruct Hm; by split).
  apply bind_done in E. destruct E as (rc & m2 & El & E).
  destruct (Z.eqb_spec rc 0) as [->|]; [|by inv_done]. cbn [negb] in E.
  apply load_header in El as (Hm2 & C2 & R2 & h2 & T2); [|done|done|done|done].
  assert (Hst2 : cstate m2 = CRYPTO_STATE_INIT) by (by rewrite T2).
  assert (Herr : forall e mx, (set_last_error e ;; mret 0) m2 = (Done 0, mx) ->
    mem_ok mx /\ ram_eq (m_ram mx) (m_ram m) /\ header_phase mx).
  { intros e mx Ex. apply bind_done in Ex. destruct Ex as ([] & my & Ey & [= <-]).
    apply (pres_run _ _ _ _ _ (pres_set_last_error e)), only_err_image in Ey.
    split_and!; [by eapply mem_ok_image| |left; by rewrite <- (ie_tftf _ _ Ey)].
    by rewrite <- (ie_ram _ _ Ey), R2. }
  apply bind_done in E. destruct E as (h & m3 & [= <- <-] & E).
  apply bind_done in E. destruct E as (c & m4 & Ec & E). apply the_done in Ec as [Ec ->].
  destruct (Z.eqb_spec c 0) as [->|]; cbn [negb] in E; [|exact (Herr _ _ E)].
  apply sentinel_equal in Ec; [|apply (ok_header m2 Hm2)].
  destruct ((_ <? _) || _) eqn:Esz; [exact (Herr _ _ E)|].
  apply orb_false_iff in Esz as [Hlo Hhi]. apply Z.ltb_ge in Hlo, Hhi.
  destruct (header_size (header m2) =? TFTF_HEADER_SIZE_MIN).
  - apply check_header_done in E as (Hm' & R' & Hp); [|done| |done|done|by rewrite C2].
    + split_and!; [done|by rewrite R'|done].
    + split; [apply (ok_header m2 Hm2)|]. split; [apply (ok_header m2 Hm2)|lia].
  - apply bind_done in E. destruct E as (rc & m5 & El & E).
    destruct (Z.eqb_spec rc 0) as [->|]; [|by inv_done]. cbn [negb] in E.
    pose proof (get32_range (header m2) 4 (proj2 (ok_header m2 Hm2))) as Hu.
    assert (Hn : is_u32 (header_size (header m2) - TFTF_HEADER_SIZE_MIN)).
    { unfold TFTF_HEADER_SIZE_MIN, is_u32, header_size in *. lia. }
    assert (Hmax : TFTF_HEADER_SIZE_MIN + (header_size (header m2) - TFTF_HEADER_SIZE_MIN) <= 4096).
    { unfold MAX_TFTF_HEADER_SIZE_SUPPORTED in Hhi. lia. }
    destruct (load_ok _ _ _ _ _ Hm2 Hn (header_room TFTF_HEADER_SIZE_MIN _ m2 Hm2 ltac:(done) Hmax) El) as [bs L].
    apply load_header in El as (Hm5 & C5 & R5 & h5 & T5); [|done|done|done|done].
    apply check_header_done in E as (Hm' & R' & Hp); [|done| | |by rewrite T5|by rewrite C5, C2].
    + split_and!; [done|by rewrite R', R5, R2|done].
    + split; [apply (ok_header m5 Hm5)|]. split; [apply (ok_header m5 Hm5)|].
      enough (header_size (header m5) = header_size (header m2)) as -> by lia.
      destruct L as [_ _ _ _ [_ _ _ _ Ht _ _ _]]. rewrite Ht.
      destruct (ok_header m2 Hm2) as [Hl2 _]. unfold header_size, get32.
      f_equal. apply sub_splice_before; unfold TFTF_HEADER_SIZE_MIN; cbn; lia.
    + rewrite <- Ec. destruct L as [_ _ _ _ [_ _ _ _ Ht _ _ _]]. rewrite Ht.
      destruct (ok_header m2 Hm2) as [Hl2 _]. apply sub_splice_before; cbn; unfold TFTF_SENTINEL_SIZE, TFTF_HEADER_SIZE_MIN; lia.
Qed.

(** ** The bytes in RAM *)

(** The bytes a section's load writes. *)
Definition load_range s : Z * Z :=
  (section_load_address s, section_load_address s + section_length s).

Lemma place_keep s bs r x :
  (placed s = true -> ~ (section_load_address s <= x < section_load_address s + Z.of_nat (length bs))) ->
  ram_get (place s bs r) x = ram_get r x.
Proof. unfold place. destruct (placed s); [|done]. intros Hx. apply ram_get_write_out. auto. Qed.

Lemma placed_length s bs m m' :
  delivered s bs m m' -> placed s = true -> Z.of_nat (length bs) = section_length s.
Proof. intros [_ Hl _ _ _ _]. unfold placed. by destruct (is_signature s). Qed.

Lemma loads_keep ss bss m m' x :
  loads ss bss m m' ->
  (forall o, o ∈ ss -> placed o = true ->
     ~ (section_load_address o <= x < section_load_address o + section_length o)) ->
  ram_get (m_ram m') x = ram_get (m_ram m) x.
Proof.
  induction 1 as [m|s ss bs bss m m1 m' _ D Hl IH]; intros Hout; [done|].
  rewrite IH by (intros o Ho; apply Hout; by constructor). rewrite (dl_ram _ _ _ _ D x). apply place_keep.
  intros Hs. rewrite (placed_length _ _ _ _ D Hs). apply Hout; [constructor|done].
Qed.

Lemma loads_kept ss bss m m' : loads ss bss m m' -> ram_kept m m'.
Proof. induction 1 as [m|s ss bs bss m m1 m' _ D _ IH]; [done|]. etrans; [apply D|exact IH]. Qed.

Lemma loads_length ss bss m m' : loads ss bss m m' -> length bss = length ss.
Proof. induction 1; cbn; congruence. Qed.

Lemma loads_in_ram ss : forall bss m m' i s bs,
  loads ss bss m m' -> ss !! i = Some s -> bss !! i = Some bs -> placed s = true ->
  (forall j o, (i < j)%nat -> ss !! j = Some o -> placed o = true ->
     ranges_disjoint (load_range s) (load_range o)) ->
  ram_read (m_ram m') (section_load_address s) (section_length s) = bs.
Proof.
  induction ss as [|s0 ss IH]; intros bss m m' i s bs Hl Hs Hb Hp Hd; [done|].
  inversion Hl as [|? ? bs0 bss0 ? m1 ? _ D Hl']; subst. destruct i as [|i]; simpl in Hs, Hb.
  - injection Hs as ->. injection Hb as ->. pose proof (placed_length _ _ _ _ D Hp) as Hlen.
    rewrite <- Hlen at 1.
    rewrite (ram_read_ext _ (ram_write (section_load_address s) bs (m_ram m))); [apply ram_read_write|lia|].
    intros x Hx. rewrite (loads_keep _ _ _ _ x Hl').
    + rewrite (dl_ram _ _ _ _ D x). unfold place. by rewrite Hp.
    + intros o Ho Hpo. apply list_elem_of_lookup in Ho as [j Hj].
      specialize (Hd (S j) o ltac:(lia) Hj Hpo).
      unfold ranges_disjoint, load_range in Hd. simpl in Hd. lia.
  - eapply IH; [exact Hl'|done|done|done|].
    intros j o Hj Ho. apply (Hd (S j) o); [lia|done].
Qed.

(** ** What a secure image is *)

(** The bytes [bss] of the sections of header [h] are signed: the block of one
    of its signature sections proves, under a trusted key, the digest of the
    header up to its first unsigned section, followed by the bytes of the
    sections in front of it. *)
Definition signed_image h (bss : list (list Z)) : Prop :=
  let signed := signed_prefix (fst (section_table h)) in
  exists sig, sig ∈ signature_blocks (fst (section_table h)) bss /\
    proves sig (Sha256.sha256
      (take (Z.to_nat (SECTIONS_OFFSET + SECTION_SIZE * Z.of_nat (length signed))) h
       ++ concat (take (length signed) bss))).

(** The run of [load_tftf_image] from [m] to [m'] loaded the header in [m'] and
    the bytes [bss] of its sections, and these are signed.  [sl_loads] is the run
    itself: the header was loaded, then the sections in order. *)
Record signed_load (bss : list (list Z)) m m' : Prop := {
  sl_sentinel : sub (header m') 0 TFTF_SENTINEL_SIZE = tftf_sentinel;
  sl_valid : wf_header (header m');
  sl_unsigned : Forall (λ s, is_section_hashed s = false)
    (drop (length (signed_prefix (fst (section_table (header m'))))) (fst (section_table (header m'))));
  sl_loads : exists m1 m2, load_tftf_header ops m = (Done 0, m1) /\ header m1 = header m' /\
    loads (fst (section_table (header m'))) bss m1 m2 /\ m_tftf m2 = m_tftf m' /\ m_ram m2 = m_ram m';
  sl_signed : signed_image (header m') bss;
  sl_kept : ram_kept m m'
}.

(** What follows the section loop on a secure image changes devices only. *)
Lemma load_tftf_image_secure m m' :
  mem_ok m -> length (Sha256.w (c_shctx (m_crypto m))) = 80%nat ->
  load_tftf_image ops m = (Done (0, 1), m') ->
  sized (header m') /\ exists bss, signed_load bss m m'.
Proof.
  intros Hm Hw E. unfold load_tftf_image in E.
  apply bind_done in E. destruct E as (rc & m1 & E1 & E).
  destruct (Z.eqb_spec rc 0) as [->|]; [|by inv_done]. cbn [negb] in E.
  pose proof E1 as Eload. apply load_tftf_header_done in E1 as (Hm1 & R1 & Hph); [|done|done].
  apply bind_done in E. destruct E as (rc & m2 & E2 & E).
  destruct (Z.eqb_spec rc 0) as [->|]; [|by inv_done]. cbn [negb] in E.
  apply bind_done in E. destruct E as (t & m3 & [= <- <-] & E). cbv zeta in E.
  case_bool_decide as Hv; [|exfalso; cbn [negb andb] in E; by inv_done].
  assert (Hfin : m_tftf m' = m_tftf m2 /\ m_ram m' = m_ram m2).
  { apply bind_done in E. destruct E as ([] & m3 & [= <-] & E). cbn [negb andb] in E.
    destruct (t_contain_signature (m_tftf m2)); cbn [negb] in E; [by inv_done|].
    apply bind_done in E. destruct E as (al & m4 & E4 & E).
    apply (pres_run _ _ _ _ _ pres_untrusted_allowed), only_dev_fields in E4 as (T4 & _ & R4 & _).
    destruct al; cbn [negb] in E; [|by inv_done]. injection E as <-. by split. }
  destruct Hfin as [Tf Rf]. clear E.
  destruct Hph as [Hi|(Hsz & Hsent & Hwf & Hun & Hc & Hrep)].
  { apply load_sections_init in E2; [congruence|done|done]. }
  assert (Ha1 : auth [] (take (Z.to_nat (SECTIONS_OFFSET + SECTION_SIZE *
            Z.of_nat (length (signed_prefix (fst (section_table (header m1))))))) (header m1)) m1).
  { unfold auth. rewrite Hc. exact Hrep. }
  destruct (load_sections_done _ Hsz _ _ _ _ _ _ fits_start Hm1 eq_refl Ha1 E2)
    as (Hm2 & Hh2 & bss & Hl & Ha).
  rewrite <- section_table_eq in Hl, Ha. rewrite app_nil_l in Ha.
  assert (Hh : header m' = header m1) by (by rewrite Tf, Hh2). split; [by rewrite Hh|]. exists bss.
  split; rewrite ?Hh; [done|done|done|by exists m1, m2| |].
  - unfold auth in Ha. rewrite Hv in Ha. unfold hashed_count in Ha. rewrite Hc in Ha.
    rewrite bool_decide_true in Ha by reflexivity. exact Ha.
  - intros a Hna. rewrite Rf, (loads_kept _ _ _ _ Hl a Hna). apply R1.
Qed.

(** [C4] Authenticity of secure images.  When [load_tftf_image] returns success
    and flags the image secure, the header in memory starts with the sentinel and is
    valid, only signature
    and certificate sections follow the signed ones, and the block of one of the
    image's own signature sections, as it was loaded, is an RSA signature by a
    trusted key of the header in front of the first unsigned section and the
    bytes that were loaded for the signed sections.  A section that is copied is
    in RAM as loaded unless a later section was loaded over it, and nothing
    outside of the RAM left to images has changed: a load that leaves it ends
    the run ([Fault]) and is not a success. *)
Theorem secure_image_authentic m m' :
  mem_ok m -> length (Sha256.w (c_shctx (m_crypto m))) = 80%nat ->
  load_tftf_image ops m = (Done (0, 1), m') ->
  let ss := fst (section_table (header m')) in
  exists bss, signed_load bss m m' /\ length bss = length ss /\
    forall i s bs, ss !! i = Some s -> bss !! i = Some bs -> placed s = true ->
      (forall j o, (i < j)%nat -> ss !! j = Some o -> placed o = true ->
         ranges_disjoint (load_range s) (load_range o)) ->
      ram_read (m_ram m') (section_load_address s) (section_length s) = bs.
Proof.
  intros Hm Hw E ss. destruct (load_tftf_image_secure m m' Hm Hw E) as (_ & bss & Hs).
  exists bss. split; [done|]. destruct (sl_loads _ _ _ Hs) as (m1 & m2 & _ & _ & Hl & _ & <-).
  split; [by eapply loads_length|]. intros i s bs Hi Hb Hp Hd. by eapply loads_in_ram.
Qed.

(** An image in the form the build tools produce: every signed section is
    loaded to RAM without wrapping, and no unsigned section is. *)
Definition plain_image h : Prop :=
  Forall (λ s, if is_section_hashed s then ignored s = false /\ no_wrap s else placed s = false)
         (fst (section_table h)).

Lemma signed_prefix_lookup ss : forall i s,
  signed_prefix ss !! i = Some s ->
  ss !! i = Some s /\ forall k t, (k <= i)%nat -> ss !! k = Some t -> is_section_hashed t = true.
Proof.
  induction ss as [|s0 ss IH]; intros i s Hi; [done|]. cbn [signed_prefix] in Hi.
  destruct (is_section_hashed s0) eqn:Eh; [|done]. destruct i as [|i].
  - split; [done|]. intros [|k] t Hk Ht; [by injection Ht as <- | lia].
  - destruct (IH i s Hi) as [Hs Hk]. split; [done|].
    intros [|k] t Hle Ht; [by injection Ht as <-|]. apply (Hk k); [lia|done].
Qed.

Lemma plain_disjoint h i j s o :
  sized h -> wf_header h -> plain_image h -> (i < j)%nat ->
  fst (section_table h) !! i = Some s -> fst (section_table h) !! j = Some o ->
  Forall (λ s, is_section_hashed s = false)
    (drop (length (signed_prefix (fst (section_table h)))) (fst (section_table h))) ->
  placed o = true -> is_section_hashed s = true -> ranges_disjoint (load_range s) (load_range o).
Proof.
  intros Hsz Hwf Hpl Hij Hs Ho Hun Hpo Hhs. unfold plain_image in Hpl. rewrite Forall_lookup in Hpl, Hun.
  pose proof (Hpl j o Ho) as Hjo. pose proof (Hpl i s Hs) as His. rewrite Hhs in His. cbv beta in Hjo.
  destruct (is_section_hashed o) eqn:Eo; [|congruence].
  destruct (Nat.le_gt_cases (length (signed_prefix (fst (section_table h)))) j) as [Hge|Hlt].
  { assert (Hf : is_section_hashed o = false); [|congruence].
    apply (Hun (j - length (signed_prefix (fst (section_table h))))%nat). rewrite lookup_drop.
    by replace (length (signed_prefix (fst (section_table h))) +
      (j - length (signed_prefix (fst (section_table h)))))%nat with j by lia. }
  destruct (lookup_lt_is_Some_2 _ _ Hlt) as [o' Ho'].
  destruct (signed_prefix_lookup _ _ _ Ho') as [Ho2 Hall].
  assert (Hd : ranges_disjoint (section_range s) (section_range o)).
  { eapply (wf_disjoint h i j s o Hwf Hij Hs Ho); [|apply His|apply Hjo].
    intros k t Hk Ht. pose proof (Hpl k t Ht) as Hkt. cbv beta in Hkt.
    rewrite (Hall k t) in Hkt by (done || lia). apply Hkt. }
  assert (Hlen : forall q k, fst (section_table h) !! k = Some q -> ignored q = false ->
            section_length q <= section_expanded_length q).
  { intros q k Hq Hg. by apply (wf_sections h Hwf k q Hq). }
  pose proof (Hlen s i Hs (proj1 His)). pose proof (Hlen o j Ho (proj1 Hjo)).
  unfold ranges_disjoint, section_range, load_range in *. simpl in *. lia.
Qed.

(** [C6] For an image in the form the build tools produce, success with the
    secure flag means that RAM holds, for every signed section, exactly the
    bytes that were loaded and that the loaded signature block signs. *)
Theorem secure_image_in_ram m m' :
  mem_ok m -> length (Sha256.w (c_shctx (m_crypto m))) = 80%nat ->
  load_tftf_image ops m = (Done (0, 1), m') -> plain_image (header m') ->
  exists bss, signed_load bss m m' /\
    forall i s, signed_prefix (fst (section_table (header m'))) !! i = Some s ->
      bss !! i = Some (ram_read (m_ram m') (section_load_address s) (section_length s)).
Proof.
  intros Hm Hw E Hpl.
  destruct (load_tftf_image_secure m m' Hm Hw E) as (Hsz & bss & Hs).
  exists bss. split; [done|]. intros i s Hi. destruct Hs as [_ Hwf Hun (m1 & m2 & _ & _ & Hl & _ & <-) _ _].
  destruct (signed_prefix_lookup _ _ _ Hi) as [Hi' Hall].
  destruct (lookup_lt_is_Some_2 bss i) as [bs Hb].
  { rewrite (loads_length _ _ _ _ Hl). by eapply lookup_lt_Some. }
  rewrite Hb. f_equal. symmetry.
  pose proof (Hall i s ltac:(lia) Hi') as Hhs.
  eapply loads_in_ram; [exact Hl|exact Hi'|exact Hb| |].
  - unfold plain_image in Hpl. rewrite Forall_lookup in Hpl. specialize (Hpl i s Hi'). cbv beta in Hpl.
    rewrite Hhs in Hpl. unfold placed. rewrite (proj1 Hpl), orb_false_r.
    unfold is_signature. destruct (section_type s =? TFTF_SECTION_SIGNATURE) eqn:Et; [|done].
    by rewrite (signature_not_hashed s Et) in Hhs.
  - intros j o Hj Ho Hpo. by eapply plain_disjoint.
Qed.

Lemma trusted_only_secure m m' secure :
  Z.testbit scr 4 = true -> load_tftf_image ops m = (Done (0, secure), m') -> secure = 1.
Proof.
  intros Hf E. unfold load_tftf_image in E.
  apply bind_done in E. destruct E as (rc & m1 & E1 & E).
  destruct (rc =? 0); [|by inv_done]. cbn [negb] in E.
  apply bind_done in E. destruct E as (rc2 & m2 & E2 & E).
  destruct (rc2 =? 0); [|by inv_done]. cbn [negb] in E.
  apply bind_done in E. destruct E as (t & m3 & [= <- <-] & E). cbv zeta in E.
  apply bind_done in E. destruct E as ([] & m3 & _ & E).
  destruct (t_contain_signature (m_tftf m2)).
  - case_bool_decide; cbn [negb andb] in E; [by injection E as -> _ | by inv_done].
  - rewrite andb_false_r in E. cbn [negb] in E. exfalso. unfold chip_is_untrusted_image_allowed in E.
    apply bind_done in E. destruct E as (al & m4 & E4 & E).
    destruct (isaa_read_scr m3) as [d Es]. rewrite (bind_step _ _ _ _ _ Es) in E4. injection E4 as <- <-.
    assert (Hb : (Z.land scr TSB_ISAA_TRUSTED_ONLY =? 0) = false).
    { apply Z.eqb_neq. intros Hz. assert (Hc : Z.testbit (Z.land scr TSB_ISAA_TRUSTED_ONLY) 4 = false)
        by (by rewrite Hz). by rewrite Z.land_spec, Hf in Hc. }
    rewrite Hb in E. by inv_done.
Qed.

(** [C7] With the fuse that allows trusted images only, no image is accepted
    unless it was flagged secure: corrupt and unsigned images are refused. *)
Theorem trusted_only_enforced m m' secure :
  Z.testbit scr 4 = true -> load_tftf_image ops m = (Done (0, secure), m') -> secure = 1.
Proof. apply trusted_only_secure. Qed.

End load.
