(* ===== verification/TftfRsa.v ===== *)
(** * TftfRsa: secure images in terms of RSA and SHA-256

    TftfLoad.v shows that a secure image was accepted by [rsa_verify] on the
    streamed digest.  Here this is the textbook statement: for full-size keys,
    the signature raised to 65537 modulo a trusted key is the padded SHA-256
    digest of the signed bytes. *)

From S2P Require Import Prelude Utils Sha256 Sha256Spec Rsa RsaSpec Machine Chip Errors Crypto Loading Unipro Tftf TftfValid TftfLoad.

(** [sig] is an RSASSA-PKCS1-v1_5 signature of [msg] under the key [pk]. *)
Definition rsa_signature (sig msg pk : list Z) : Prop :=
  RsaSpec.be sig ^ 65537 mod RsaSpec.be pk = RsaSpec.be (RsaSpec.emsa (Sha256.sha256 msg)).

(** The bytes a secure image signs: the header up to its first unsigned
    section, and the sections in front of that. *)
Definition signed_bytes (h : list Z) (bss : list (list Z)) : list Z :=
  let signed := signed_prefix (fst (section_table h)) in
  take (Z.to_nat (SECTIONS_OFFSET + SECTION_SIZE * Z.of_nat (length signed))) h
  ++ concat (take (length signed) bss).

Section rsa.
Context `{Platform, Hardware, !PlatformOk, !Fuses} (ops : data_load_ops) `{!LoadOk ops}.
Implicit Types m : machine.

(** Every trusted key has a top digit other than zero. *)
Definition full_size_keys : Prop :=
  forall sig pk, trusted_key sig pk -> (2 ^ 32) ^ 63 <= RsaSpec.be (pk_key pk).

Lemma proves_rsa sig msg :
  full_size_keys -> proves sig (Sha256.sha256 msg) ->
  exists pk, trusted_key sig pk /\ rsa_signature (sig_signature sig) msg (pk_key pk).
Proof.
  intros Hfull (Hl & Hb & pk & Ht & Hv). exists pk. split; [exact Ht|].
  destruct (trusted_key_ok sig pk Ht) as [Hkl Hkb].
  assert (Hs : length (sig_signature sig) = Rsa.RSABYTES).
  { unfold sig_signature. rewrite length_sub; rewrite ?Hl; unfold TFTF_SIGNATURE_SIZE; done || lia. }
  assert (Hsb : bytes_ok (sig_signature sig)) by (by apply bytes_ok_sub).
  exact (RsaSpec.rsa_verify_accepts _ _ _ (sha256_bytes msg) (length_sha256 msg) Hkb Hkl Hsb Hs
           (Hfull sig pk Ht) Hv).
Qed.

(** [C2] What the secure flag means, cryptographically.  If every trusted key
    has full size and [load_tftf_image] reports success and a secure image, then
    the block [sig] that was loaded for one of the image's signature sections
    names a trusted key [pk] of the running stage and its signature satisfies
    [signature^65537 mod pk = EMSA-PKCS1-v1_5(SHA-256(bytes))], where the bytes
    are the signed header and the sections as this run loaded them. *)
Theorem secure_image_rsa m m' :
  full_size_keys ->
  mem_ok m -> length (Sha256.w (c_shctx (m_crypto m))) = 80%nat ->
  load_tftf_image ops m = (Done (0, 1), m') ->
  let h := t_header (m_tftf m') in
  exists (bss : list (list Z)) (sig : list Z) pk, signed_load ops bss m m' /\
    sig ∈ signature_blocks (fst (section_table h)) bss /\
    trusted_key sig pk /\ rsa_signature (sig_signature sig) (signed_bytes h bss) (pk_key pk).
Proof.
  intros Hfull Hm Hw E h.
  destruct (load_tftf_image_secure ops m m' Hm Hw E) as (_ & bss & Hs).
  destruct (sl_signed _ _ _ _ Hs) as (sig & Hin & Hp).
  destruct (proves_rsa sig _ Hfull Hp) as (pk & Ht & Hr). by exists bss, sig, pk.
Qed.

End rsa.
