(* ===== verification/Spi.v ===== *)
(** * Spi: loading from SPI flash (chips/es3tsb/src/es3_spi.c)

    The driver reads 32-bit frames from the controller's FIFO and stores them
    most significant byte first.  [spi_load_ok] shows that it keeps the storage
    contract whatever the controller does; SpiFlash.v adds what a load returns
    when the controller streams the contents of a flash chip. *)

From S2P Require Import Prelude Sha256 Machine Chip Sim Errors Crypto Loading.

Definition SPI_BASE : Z := 0x40018000.
Definition SPIM_CTRLR0 : Z := SPI_BASE.
Definition SPIM_CTRLR1 : Z := SPI_BASE + 0x04.
Definition SPIM_SSIENR : Z := SPI_BASE + 0x08.
Definition SPIM_SER : Z := SPI_BASE + 0x10.
Definition SPIM_BAUDR : Z := SPI_BASE + 0x14.
Definition SPIM_SR : Z := SPI_BASE + 0x28.
Definition SPIM_DR0 : Z := SPI_BASE + 0x60.
Definition SPIM_CTRLR0_VALUE : Z := 0x001F0300.
Definition SPIM_SR_RFNE : Z := 0x08.
Definition SPIM_SR_BUSY : Z := 0x01.
Definition SPIM_SCKDV : Z := 2.
Definition SPIM_SSI_ENABLE : Z := 1.
Definition SPIM_SSI_DISABLE : Z := 0.
Definition SPIM_SLAVE_SELECT : Z := 1.
Definition SPI_FLASH_READ_CMD : Z := 0x03.

(** [pdr[3], pdr[2], pdr[1], pdr[0]]: the first [n] bytes of a frame. *)
Definition frame_bytes (n : nat) (dr : Z) : list Z := take n (reverse (le_split 4 dr)).

Section spi.
Context `{Platform, Hardware}.

Definition set_current_addr (a : Z) : B unit :=
  modify (λ m, set_spi {| current_addr := a;
                          spi_clk_usage_count := spi_clk_usage_count (m_spi m);
                          initialized := initialized (m_spi m) |} m).
Definition add_clk_usage (k : Z) : B unit :=
  modify (λ m, set_spi {| current_addr := current_addr (m_spi m);
                          spi_clk_usage_count := spi_clk_usage_count (m_spi m) + k;
                          initialized := initialized (m_spi m) |} m).

Definition data_load_spi_init : B Z :=
  set_current_addr 0 ;;
  tsb_clk_enable TSB_CLK_SPIP ;;
  tsb_clk_enable TSB_CLK_SPIS ;;
  add_clk_usage 1 ;;
  putreg32 SPIM_SSI_DISABLE SPIM_SSIENR ;;
  putreg32 SPIM_CTRLR0_VALUE SPIM_CTRLR0 ;;
  putreg32 SPIM_SCKDV SPIM_BAUDR ;;
  putreg32 SPIM_SLAVE_SELECT SPIM_SER ;;
  mret 0.

(** The main read loop: [c] frames have been stored. *)
Fixpoint spi_frames (fuel : nat) (c : Z) (pdest : ptr) : B Z :=
  match fuel with
  | O => spin
  | S fuel =>
      sr ← getreg32 SPIM_SR;
      if negb (c =? 0) && (Z.land sr (Z.lor SPIM_SR_BUSY SPIM_SR_RFNE) =? 0) then mret c
      else if negb (Z.land sr SPIM_SR_RFNE =? 0) then
        dr ← getreg32 SPIM_DR0;
        write_ptr pdest (frame_bytes 4 dr) ;;
        spi_frames fuel (c +₃₂ 1) (ptr_add pdest 4)
      else spi_frames fuel c pdest
  end.

Definition spi_start (frames addr : Z) : B unit :=
  putreg32 (frames -₃₂ 1) SPIM_CTRLR1 ;;
  putreg32 SPIM_SSI_ENABLE SPIM_SSIENR ;;
  putreg32 (Z.lor (Z.shiftl SPI_FLASH_READ_CMD 24) addr) SPIM_DR0.

(** The trailing [count] bytes, 1 to 3 of one more frame. *)
Definition spi_trailing (count : Z) (pdest : ptr) : B unit :=
  addr ← gets (λ m, current_addr (m_spi m));
  spi_start 1 addr ;;
  poll poll_fuel
    (sr ← getreg32 SPIM_SR;
     if negb (Z.land sr SPIM_SR_RFNE =? 0) then
       dr ← getreg32 SPIM_DR0;
       write_ptr pdest (frame_bytes (Z.to_nat count) dr) ;;
       mret (Some tt)
     else mret None) ;;
  putreg32 SPIM_SSI_DISABLE SPIM_SSIENR ;;
  set_current_addr (addr +₃₂ count).

Definition data_load_spi_load (dest : ptr) (length : Z) (hash : bool) : B Z :=
  let count := Z.shiftr length 2 in
  if length =? 0 then mret 0
  else
    addr ← gets (λ m, current_addr (m_spi m));
    let addr := Z.land addr 0x00FFFFFF in
    set_current_addr addr ;;
    if 0xFFFF <? count then mret (-1)
    else
      spi_start count addr ;;
      c ← spi_frames poll_fuel 0 dest;
      putreg32 SPIM_SSI_DISABLE SPIM_SSIENR ;;
      if negb (c =? count) then mret (-1)
      else
        let trailing := Z.land length 3 in
        set_current_addr (Z.land (addr +₃₂ Z.land length (~₃₂ 3)) 0x00FFFFFF) ;;
        when (negb (trailing =? 0)) (spi_trailing trailing (ptr_add dest (4 * count))) ;;
        when hash (bs ← read_ptr dest length; hash_update bs) ;;
        mret 0.

Definition data_load_spi_read (dest : ptr) (addr length : Z) : B Z :=
  set_current_addr addr ;;
  if length =? 0 then mret 0 else data_load_spi_load dest length false.

Definition data_load_spi_finish (valid is_secure_image : bool) : B Z :=
  add_clk_usage (-1) ;;
  n ← gets (λ m, spi_clk_usage_count (m_spi m));
  when (n =? 0) (tsb_clk_disable TSB_CLK_SPIP ;; tsb_clk_disable TSB_CLK_SPIS) ;;
  mret 0.

Definition spi_ops : data_load_ops :=
  {| ops_init := data_load_spi_init; ops_read := Some data_load_spi_read;
     ops_load := data_load_spi_load; ops_finish := data_load_spi_finish |}.

(** ** The driver keeps the storage contract *)

Lemma frame_bytes_ok n dr : bytes_ok (frame_bytes n dr).
Proof. apply Forall_take, Forall_reverse, le_split_bytes. Qed.
Lemma length_frame_bytes n dr : (n <= 4)%nat -> length (frame_bytes n dr) = n.
Proof. intros. unfold frame_bytes. rewrite length_take, length_reverse, length_le_split. lia. Qed.

Lemma image_eq_getreg a m v m' : getreg32 a m = (Done v, m') -> image_eq m' m.
Proof. intros E. symmetry. apply only_dev_image. apply (pres_run _ _ _ _ _ (pres_getreg32 a) E). Qed.

Lemma in_bounds_max p n m : in_bounds p n m = true -> p_blk p = BRam -> n <= 2 ^ 32.
Proof.
  unfold in_bounds. intros Hin E. rewrite E in Hin. rewrite !andb_true_iff, !Z.leb_le in Hin. lia.
Qed.

(** Every object is small enough for the frame counter. *)
Lemma in_bounds_u32 p n m : mem_ok m -> in_bounds p n m = true -> n <= 2 ^ 32.
Proof.
  intros Hm Hin. destruct (decide (p_blk p = BRam)) as [E|Hne]; [by eapply in_bounds_max|].
  destruct Hm as [[L1 _] [L2 _] [L3 _] [L4 _] [L5 _] _].
  unfold in_bounds in Hin. apply andb_true_iff in Hin as [Ho Hn]. apply Z.leb_le in Ho.
  destruct p as [[] o]; cbn [p_blk p_ofs blk_get] in *; try done;
    rewrite ?Z.leb_le, ?Z.eqb_eq in Hn; lia.
Qed.

Lemma spi_frames_done : forall fuel c p m m' c',
  spi_frames fuel c p m = (Done c', m') ->
  exists bs k, length bs = (4 * k)%nat /\ bytes_ok bs /\ c' = Nat.iter k (λ c, c +₃₂ 1) c /\
    c' <> 0 /\ (bs = [] \/ in_bounds p (Z.of_nat (length bs)) m = true) /\
    image_eq m' (mem_write p bs m).
Proof.
  induction fuel as [|n IH]; intros c p m m' c' E; cbn [spi_frames] in E; [done|].
  apply bind_done in E. destruct E as (sr & m1 & E1 & E). apply image_eq_getreg in E1.
  destruct (negb (c =? 0) && _) eqn:Ec.
  { apply andb_true_iff in Ec as [Ec _]. apply negb_true_iff, Z.eqb_neq in Ec.
    injection E as <- <-. exists [], 0%nat. split_and!; auto. by rewrite E1, mem_write_nil. }
  destruct (negb (Z.land sr SPIM_SR_RFNE =? 0)).
  - apply bind_done in E. destruct E as (dr & m2 & E2 & E). apply image_eq_getreg in E2.
    apply bind_done in E. destruct E as ([] & m3 & E3 & E).
    apply write_ptr_done in E3 as [Hin ->]. apply IH in E as (bs & k & Hl & Hb & Hc & Hnz & Hin2 & He).
    pose proof (length_frame_bytes 4 dr ltac:(lia)) as Hf. rewrite Hf in Hin.
    assert (Hm2 : image_eq m2 m) by (by rewrite E2).
    rewrite (image_eq_bounds m2 m _ _ Hm2) in Hin.
    exists (frame_bytes 4 dr ++ bs), (S k). rewrite length_app, Hf.
    assert (Hall : in_bounds p (Z.of_nat (4 + length bs)) m = true).
    { destruct Hin2 as [->|Hin2]; [done|]. rewrite Nat2Z.inj_add, <- Hf. apply in_bounds_app; [lia|by rewrite Hf|].
      rewrite Hf. rewrite <- Hin2. apply image_eq_bounds. by rewrite Hm2. }
    split_and!; [lia|by apply bytes_ok_app; auto using frame_bytes_ok| |done|by right|].
    + by rewrite Nat.iter_succ_r.
    + rewrite He, Hm2. change 4 with (Z.of_nat 4). rewrite <- Hf, mem_write_app; [done|].
      by rewrite length_app, Hf.
  - apply IH in E as (bs & k & Hl & Hb & Hc & Hnz & Hin & He). exists bs, k.
    split_and!; [done|done|done|done| |by rewrite He, E1].
    destruct Hin as [?|Hin]; [by left|right]. by rewrite <- (image_eq_bounds m1 m _ _ E1).
Qed.

Lemma poll_done {A} (body : B (option A)) : 
  (forall m m', body m = (Done None, m') -> image_eq m' m) ->
  forall n m m' a, poll n body m = (Done a, m') ->
  exists m1, image_eq m1 m /\ body m1 = (Done (Some a), m').
Proof.
  intros Hn. induction n as [|n IH]; intros m m' a E; cbn [poll] in E; [done|].
  apply bind_done in E. destruct E as ([b|] & m1 & E1 & E).
  - injection E as <- <-. by exists m.
  - apply IH in E as (m2 & He & E2). exists m2. split; [|done]. rewrite He. by apply Hn.
Qed.

Lemma only_dev_eq {A} (c : B A) m o m' : pres only_dev c -> c m = (o, m') -> image_eq m' m.
Proof. intros Hc E. symmetry. apply only_dev_image. by apply (pres_run _ _ _ _ _ Hc E). Qed.

Lemma set_current_addr_eq a m m' : set_current_addr a m = (Done tt, m') -> image_eq m' m.
Proof. intros [= <-]. by split. Qed.

Lemma pres_spi_start f a : pres only_dev (spi_start f a).
Proof. unfold spi_start. pres_auto. Qed.

Lemma spi_trailing_done count p m m' :
  0 < count <= 3 -> spi_trailing count p m = (Done tt, m') ->
  exists bs, Z.of_nat (length bs) = count /\ bytes_ok bs /\ in_bounds p count m = true /\
    image_eq m' (mem_write p bs m).
Proof.
  intros Hc E. unfold spi_trailing in E.
  apply bind_done in E. destruct E as (addr & m0 & [= <- <-] & E).
  apply bind_done in E. destruct E as ([] & m1 & E1 & E). apply (only_dev_eq _ _ _ _ (pres_spi_start _ _)) in E1.
  apply bind_done in E. destruct E as ([] & m2 & E2 & E).
  apply bind_done in E. destruct E as ([] & m3 & E3 & E). apply (only_dev_eq _ _ _ _ (pres_putreg32 _ _)) in E3.
  apply set_current_addr_eq in E.
  apply poll_done in E2 as (m4 & Hm4 & E2).
  - apply bind_done in E2. destruct E2 as (sr & m5 & E5 & E2). apply image_eq_getreg in E5.
    destruct (negb _); [|done].
    apply bind_done in E2. destruct E2 as (dr & m6 & E6 & E2). apply image_eq_getreg in E6.
    apply bind_done in E2. destruct E2 as ([] & m7 & E7 & [= <-]).
    apply write_ptr_done in E7 as [Hin ->].
    pose proof (length_frame_bytes (Z.to_nat count) dr ltac:(lia)) as Hl.
    rewrite Hl, Z2Nat.id in Hin by lia.
    assert (He : image_eq m6 m) by (by rewrite E6, E5, Hm4).
    exists (frame_bytes (Z.to_nat count) dr). split_and!.
    + rewrite Hl. lia.
    + apply frame_bytes_ok.
    + by rewrite <- (image_eq_bounds m6 m _ _ He).
    + by rewrite E, E3, He.
  - intros ma mb Eb. apply bind_done in Eb. destruct Eb as (sr & m5 & E5 & Eb). apply image_eq_getreg in E5.
    destruct (negb _); [by inv_done|]. by injection Eb as <-.
Qed.

Lemma iter_u32 k : Z.of_nat k < 2 ^ 32 -> Nat.iter k (λ c, c +₃₂ 1) 0 = Z.of_nat k.
Proof.
  induction k as [|k IH]; intros Hk; [done|]. rewrite Nat.iter_succ, IH by lia.
  rewrite u32_small by (unfold is_u32; lia). lia.
Qed.

Lemma shiftr_land_4 n : 0 <= n -> n = 4 * Z.shiftr n 2 + Z.land n 3.
Proof.
  intros. rewrite Z.shiftr_div_pow2 by lia. change 3 with (Z.ones 2).
  rewrite Z.land_ones by lia. change (2 ^ 2) with 4. apply Z.div_mod. lia.
Qed.

Lemma land_3_bound n : 0 <= Z.land n 3 <= 3.
Proof.
  change 3 with (Z.ones 2). rewrite Z.land_ones by lia. change (2 ^ 2) with 4.
  pose proof (Z.mod_pos_bound n 4). change (Z.ones 2) with 3. lia.
Qed.

(** The last step: hash what has just been stored. *)
Lemma hash_stored_done hash p bs m1 m m' n :
  Z.of_nat (length bs) = n -> in_bounds p n m = true -> image_eq m1 (mem_write p bs m) ->
  when hash (b ← read_ptr p n; hash_update b) m1 = (Done tt, m') ->
  image_eq m' (hashed hash bs (mem_write p bs m)).
Proof.
  intros Hl Hin He E. destruct hash; cbn [when] in E; [|by injection E as <-].
  apply bind_done in E. destruct E as (b & m2 & E2 & E).
  apply read_ptr_done in E2 as (_ & -> & ->). apply hash_update_done in E. subst m'.
  assert (Hrd : mem_read p n m1 = bs).
  { rewrite (mem_read_proper p n _ _ He), <- Hl. apply mem_read_write. by rewrite Hl. }
  rewrite Hrd. destruct He. split; cbn; try done. by rewrite ie_crypto.
Qed.

#[export] Instance spi_load_ok : LoadOk spi_ops.
Proof.
  intros p n hash m m' Hm Hn _ E. cbn in E. unfold data_load_spi_load in E. cbv zeta in E.
  destruct (Z.eqb_spec n 0) as [->|Hn0].
  { injection E as <-. exists []. apply loaded_intro; [done|constructor|by left|].
    rewrite hashed_nil. symmetry. apply mem_write_nil. }
  apply bind_done in E. destruct E as (addr & m0 & [= <- <-] & E).
  apply bind_done in E. destruct E as ([] & m1 & E1 & E). apply set_current_addr_eq in E1.
  destruct (0xFFFF <? Z.shiftr n 2) eqn:Ebig; [by inv_done|]. apply Z.ltb_ge in Ebig.
  apply bind_done in E. destruct E as ([] & m2 & E2 & E). apply (only_dev_eq _ _ _ _ (pres_spi_start _ _)) in E2.
  apply bind_done in E. destruct E as (c & m3 & E3 & E).
  apply bind_done in E. destruct E as ([] & m4 & E4 & E). apply (only_dev_eq _ _ _ _ (pres_putreg32 _ _)) in E4.
  destruct (Z.eqb_spec c (Z.shiftr n 2)) as [->|]; [|by inv_done]. cbn [negb] in E.
  apply bind_done in E. destruct E as ([] & m5 & E5 & E). apply set_current_addr_eq in E5.
  apply bind_done in E. destruct E as ([] & m6 & E6 & E).
  apply bind_done in E. destruct E as ([] & m7 & E7 & [= <-]).
  assert (Hm2 : image_eq m2 m) by (by rewrite E2).
  apply spi_frames_done in E3 as (bs & k & Hlb & Hb & Hc & Hnz & Hin & He3).
  assert (Hin' : bs = [] \/ in_bounds p (Z.of_nat (length bs)) m = true).
  { destruct Hin as [?|Hin]; [by left|right]. by rewrite <- (image_eq_bounds m2 m _ _ Hm2). }
  assert (Hk : Z.of_nat k < 2 ^ 32).
  { destruct Hin' as [->|Hin']; [cbn in Hlb; lia|]. apply in_bounds_u32 in Hin'; [lia|done]. }
  rewrite iter_u32 in Hc by done. pose proof (shiftr_land_4 n ltac:(unfold is_u32 in Hn; lia)) as Hn4.
  assert (He5 : image_eq m5 (mem_write p bs m)) by (by rewrite E5, E4, He3, Hm2).
  pose proof (land_3_bound n) as Hr.
  destruct (Z.eqb_spec (Z.land n 3) 0) as [Hr0|Hr0]; cbn [negb when] in E6.
  - injection E6 as <-. assert (Hln : Z.of_nat (length bs) = n) by lia.
    assert (Hinn : in_bounds p n m = true).
    { destruct Hin' as [->|Hin']; [cbn in *; lia|by rewrite <- Hln]. }
    exists bs. apply loaded_intro; [done|done|by right|]. by eapply hash_stored_done.
  - apply spi_trailing_done in E6 as (b2 & Hl2 & Hb2 & Hin2 & He6); [|lia].
    replace (4 * Z.shiftr n 2) with (Z.of_nat (length bs)) in * by lia.
    rewrite (image_eq_bounds _ _ _ _ He5) in Hin2.
    destruct k as [|k].
    { lia. }
    destruct Hin' as [->|Hin']; [done|].
    assert (Hinn : in_bounds p (Z.of_nat (length bs) + Z.land n 3) m = true).
    { apply in_bounds_app; [lia|done|done]. }
    replace (Z.of_nat (length bs) + Z.land n 3) with n in Hinn by lia.
    assert (Hln : Z.of_nat (length (bs ++ b2)) = n) by (rewrite length_app; lia).
    exists (bs ++ b2). apply loaded_intro; [done|by apply bytes_ok_app|by right|].
    eapply hash_stored_done; [done|done| |exact E7].
    rewrite He6, He5, mem_write_app; [done|by rewrite Hln].
Qed.


(** [C22] The SPI driver keeps the storage contract, whatever the controller
    does: when a load returns 0, exactly the requested number of bytes was
    stored at the destination, inside its object, nothing else the image loader
    uses changed, and with the hash flag these same bytes were hashed. *)
Theorem spi_load_contract p n hash m m' :
  mem_ok m -> is_u32 n -> roomy p n m -> data_load_spi_load p n hash m = (Done 0, m') ->
  exists bs, loaded p n hash bs m m'.
Proof. intros Hm Hn Hr E. exact (spi_load_ok p n hash m m' Hm Hn Hr E). Qed.

(** A load of one to three bytes never succeeds: the frame count is zero,
    but the read loop only ends after a frame has been stored. *)
Theorem spi_short_load_fails p n hash m m' :
  0 < n < 4 -> data_load_spi_load p n hash m <> (Done 0, m').
Proof.
  intros Hn E. unfold data_load_spi_load in E. cbv zeta in E.
  destruct (Z.eqb_spec n 0); [lia|].
  apply bind_done in E. destruct E as (addr & m0 & _ & E).
  apply bind_done in E. destruct E as ([] & m1 & _ & E).
  destruct (0xFFFF <? Z.shiftr n 2); [by inv_done|].
  apply bind_done in E. destruct E as ([] & m2 & _ & E).
  apply bind_done in E. destruct E as (c & m3 & E3 & E).
  apply spi_frames_done in E3 as (_ & _ & _ & _ & _ & Hnz & _).
  apply bind_done in E. destruct E as ([] & m4 & _ & E).
  replace (Z.shiftr n 2) with 0 in E.
  - destruct (Z.eqb_spec c 0); [done | by inv_done].
  - rewrite Z.shiftr_div_pow2 by lia. symmetry. apply Z.div_small. lia.
Qed.
End spi.
