(* ===== verification/Greybus.v ===== *)
(** * Greybus: the boot protocol over UniPro (common/src/gbcore.c, common/src/gbboot.c)

    The control protocol on CPort 0 and the firmware download protocol on the
    boot CPort.  A handler gets the BufRAM address of the message it serves and
    reads header and payload from there; a positive result ends the message
    loop. *)

From S2P Require Import Prelude Utils Machine Chip Errors Crypto Unipro.

Definition GREYBUS_MAJOR_VERSION : Z := 0.
Definition GREYBUS_MINOR_VERSION : Z := 1.
Definition GB_OPERATION_HEADER_SIZE : Z := 8.
Definition GB_TYPE_RESPONSE : Z := 0x80.
Definition GB_CTRL_OP_VERSION : Z := 0x01.
Definition GB_CTRL_OP_PROBE_AP : Z := 0x02.
Definition GB_CTRL_OP_GET_MANIFEST_SIZE : Z := 0x03.
Definition GB_CTRL_OP_GET_MANIFEST : Z := 0x04.
Definition GB_CTRL_OP_CONNECTED : Z := 0x05.
Definition GB_CTRL_OP_DISCONNECTED : Z := 0x06.
Definition GB_OP_SUCCESS : Z := 0x00.
Definition GB_OP_INVALID : Z := 0x06.
Definition GB_MAX_PAYLOAD_SIZE : Z := 0x7F0.
Definition CONTROL_CPORT : Z := 0.
Definition GBBOOT_CPORT : Z := 1.

Definition GB_FIRMWARE_VERSION_MAJOR : Z := 0x00.
Definition GB_FIRMWARE_VERSION_MINOR : Z := 0x01.
Definition GB_BOOT_OP_INVALID : Z := 0x00.
Definition GB_BOOT_OP_PROTOCOL_VERSION : Z := 0x01.
Definition GB_BOOT_OP_FIRMWARE_SIZE : Z := 0x02.
Definition GB_BOOT_OP_GET_FIRMWARE : Z := 0x03.
Definition GB_BOOT_OP_READY_TO_BOOT : Z := 0x04.
Definition GB_BOOT_OP_AP_READY : Z := 0x05.
Definition GB_BOOT_OP_GET_VID_PID : Z := 0x06.
Definition GB_BOOT_BOOT_STATUS_INVALID : Z := 0x00.
Definition GB_BOOT_BOOT_STATUS_INSECURE : Z := 0x01.
Definition GB_BOOT_BOOT_STATUS_SECURE : Z := 0x02.
Definition GB_BOOT_ERR_INVALID : Z := -1.
Definition ENODEV : Z := 19.
Definition WORKRAM_SIZE : Z := 0x30000.

(** Updates of the protocol state. *)
Definition set_handler_table (t : list (option gb_table)) (g : gb_state) : gb_state :=
  {| g_handler_table := t; g_manifest_fetched := g_manifest_fetched g; g_responded_op := g_responded_op g;
     g_firmware_size_response := g_firmware_size_response g; g_fw_buff := g_fw_buff g;
     g_fw_buff_size := g_fw_buff_size g; g_offset := g_offset g; g_firmware_size := g_firmware_size g |}.
Definition set_manifest_fetched (b : bool) (g : gb_state) : gb_state :=
  {| g_handler_table := g_handler_table g; g_manifest_fetched := b; g_responded_op := g_responded_op g;
     g_firmware_size_response := g_firmware_size_response g; g_fw_buff := g_fw_buff g;
     g_fw_buff_size := g_fw_buff_size g; g_offset := g_offset g; g_firmware_size := g_firmware_size g |}.
Definition set_responded_op (op : Z) (g : gb_state) : gb_state :=
  {| g_handler_table := g_handler_table g; g_manifest_fetched := g_manifest_fetched g; g_responded_op := op;
     g_firmware_size_response := g_firmware_size_response g; g_fw_buff := g_fw_buff g;
     g_fw_buff_size := g_fw_buff_size g; g_offset := g_offset g; g_firmware_size := g_firmware_size g |}.
Definition set_size_response (n : Z) (g : gb_state) : gb_state :=
  {| g_handler_table := g_handler_table g; g_manifest_fetched := g_manifest_fetched g;
     g_responded_op := g_responded_op g; g_firmware_size_response := n; g_fw_buff := g_fw_buff g;
     g_fw_buff_size := g_fw_buff_size g; g_offset := g_offset g; g_firmware_size := g_firmware_size g |}.
Definition set_fw_buff (p : ptr) (n : Z) (g : gb_state) : gb_state :=
  {| g_handler_table := g_handler_table g; g_manifest_fetched := g_manifest_fetched g;
     g_responded_op := g_responded_op g; g_firmware_size_response := g_firmware_size_response g;
     g_fw_buff := p; g_fw_buff_size := n; g_offset := g_offset g; g_firmware_size := g_firmware_size g |}.
Definition set_offset (n : Z) (g : gb_state) : gb_state :=
  {| g_handler_table := g_handler_table g; g_manifest_fetched := g_manifest_fetched g;
     g_responded_op := g_responded_op g; g_firmware_size_response := g_firmware_size_response g;
     g_fw_buff := g_fw_buff g; g_fw_buff_size := g_fw_buff_size g; g_offset := n;
     g_firmware_size := g_firmware_size g |}.
Definition set_firmware_size (n : Z) (g : gb_state) : gb_state :=
  {| g_handler_table := g_handler_table g; g_manifest_fetched := g_manifest_fetched g;
     g_responded_op := g_responded_op g; g_firmware_size_response := g_firmware_size_response g;
     g_fw_buff := g_fw_buff g; g_fw_buff_size := g_fw_buff_size g; g_offset := g_offset g;
     g_firmware_size := n |}.

Section greybus.
Context `{Platform, Hardware}.

Definition modify_gb (f : gb_state -> gb_state) : B unit := modify (λ m, set_gb (f (m_gb m)) m).

(** ** Messages in BufRAM *)

Definition rx_bytes (a n : Z) : B (list Z) :=
  gets (λ m, map (λ i, u8 (buf_read8 i (m_dev m))) (seqZ a n)).
Definition op_size (op : Z) : B Z := bs ← rx_bytes op 2; mret (le_combine bs).
Definition op_id (op : Z) : B Z := bs ← rx_bytes (op + 2) 2; mret (le_combine bs).
Definition op_type (op : Z) : B Z := bs ← rx_bytes (op + 4) 1; mret (le_combine bs).
Definition op_status (op : Z) : B Z := bs ← rx_bytes (op + 5) 1; mret (le_combine bs).

(** The length argument of the C function is 16 bits wide. *)
Definition greybus_send_message (cport id type status : Z) (payload_data : list Z) : B Z :=
  let payload_size := u16 (Z.of_nat (length payload_data)) in
  let msg := le_split 2 (GB_OPERATION_HEADER_SIZE + payload_size) ++ le_split 2 id
             ++ le_split 1 type ++ le_split 1 status ++ le_split 2 0
             ++ take (Z.to_nat payload_size) payload_data in
  chip_unipro_send cport msg.

Definition greybus_send_request (cport id type : Z) (payload_data : list Z) : B Z :=
  greybus_send_message cport id type 0 payload_data.

Definition greybus_op_response (cport op status : Z) (payload_data : list Z) : B Z :=
  id ← op_id op;
  type ← op_type op;
  greybus_send_message cport id (Z.lor type GB_TYPE_RESPONSE) status payload_data.

(** ** Control protocol *)

Definition gbctrl_get_version (cportid op : Z) : B Z :=
  greybus_op_response cportid op GB_OP_SUCCESS [GREYBUS_MAJOR_VERSION; GREYBUS_MINOR_VERSION].

Definition gbctrl_probe_ap (cportid op : Z) : B Z :=
  greybus_op_response cportid op GB_OP_SUCCESS (le_split 2 0).

Definition gbctrl_get_manifest_size (cportid op : Z) : B Z :=
  greybus_op_response cportid op GB_OP_SUCCESS (le_split 2 (Z.of_nat (length manifest_mnfb))).

Definition gbctrl_get_manifest (cportid op : Z) : B Z :=
  rc ← greybus_op_response cportid op GB_OP_SUCCESS manifest_mnfb;
  if negb (rc =? 0) then mret rc
  else modify_gb (set_manifest_fetched true) ;; mret 0.

Definition manifest_fetched_by_ap : B bool := gets (λ m, g_manifest_fetched (m_gb m)).

Definition gbctrl_connected (cportid op : Z) : B Z :=
  size ← op_size op;
  if negb (size =? GB_OPERATION_HEADER_SIZE + 2) then
    greybus_op_response cportid op GB_OP_INVALID [] ;; mret (-1)
  else
    payload ← rx_bytes (op + GB_OPERATION_HEADER_SIZE) 2;
    chip_unipro_init_cport (le_combine payload) ;;
    greybus_op_response cportid op GB_OP_SUCCESS [].

Definition gbctrl_disconnected (cportid op : Z) : B Z :=
  size ← op_size op;
  if negb (size =? GB_OPERATION_HEADER_SIZE + 2) then
    greybus_op_response cportid op GB_OP_INVALID [] ;; mret (-1)
  else greybus_op_response cportid op GB_OP_SUCCESS [].

(** ** Boot protocol handlers *)

Definition gbboot_get_version (cportid op : Z) : B Z :=
  greybus_op_response cportid op GB_OP_SUCCESS [GB_FIRMWARE_VERSION_MAJOR; GB_FIRMWARE_VERSION_MINOR].

Definition gbboot_get_vid_pid (cportid op : Z) : B Z :=
  m ← gets (λ m, (m_ara_vid m, m_ara_pid m));
  greybus_op_response cportid op GB_OP_SUCCESS (le_split 4 (fst m) ++ le_split 4 (snd m)).

Definition gbboot_ap_ready (cportid op : Z) : B Z :=
  rc ← greybus_op_response cportid op GB_OP_SUCCESS [];
  if negb (rc =? 0) then mret rc else mret 1.

Definition gbboot_firmware_size_response (op data len : Z) : B Z :=
  status ← op_status op;
  if negb (status =? 0) then mret (- status)
  else if len <? 4 then mret GB_BOOT_ERR_INVALID
  else
    bs ← rx_bytes data 4;
    modify_gb (set_size_response (le_combine bs)) ;;
    mret 1.

Definition gbboot_get_firmware_response (op data len : Z) : B Z :=
  status ← op_status op;
  if negb (status =? 0) then mret (- status)
  else
    size ← op_size op;
    g ← gets m_gb;
    if negb ((size -₃₂ GB_OPERATION_HEADER_SIZE) =? len) || negb (len =? g_fw_buff_size g) then
      mret GB_BOOT_ERR_INVALID
    else
      bs ← rx_bytes data (g_fw_buff_size g);
      write_ptr (g_fw_buff g) bs ;;
      mret 1.

Definition gbboot_ready_to_boot_response (op data len : Z) : B Z :=
  status ← op_status op;
  if negb (status =? 0) then mret (- status) else mret 1.

(** The three response handlers differ in the function they call. *)
Definition response_handler (f : Z -> Z -> Z -> B Z) (cportid op : Z) : B Z :=
  size ← op_size op;
  type ← op_type op;
  modify_gb (set_responded_op type) ;;
  f op (op + GB_OPERATION_HEADER_SIZE) (size -₃₂ GB_OPERATION_HEADER_SIZE).
Definition firmware_size_response_handler := response_handler gbboot_firmware_size_response.
Definition get_firmware_response_handler := response_handler gbboot_get_firmware_response.
Definition ready_to_boot_response_handler := response_handler gbboot_ready_to_boot_response.

(** ** Dispatch *)

Definition handlers (t : gb_table) : list (Z * (Z -> Z -> B Z)) :=
  match t with
  | control_cport_handlers =>
      [(GB_CTRL_OP_VERSION, gbctrl_get_version);
       (GB_CTRL_OP_PROBE_AP, gbctrl_probe_ap);
       (GB_CTRL_OP_GET_MANIFEST_SIZE, gbctrl_get_manifest_size);
       (GB_CTRL_OP_GET_MANIFEST, gbctrl_get_manifest);
       (GB_CTRL_OP_CONNECTED, gbctrl_connected);
       (GB_CTRL_OP_DISCONNECTED, gbctrl_disconnected)]
  | gbboot_cport_handlers =>
      [(GB_BOOT_OP_PROTOCOL_VERSION, gbboot_get_version);
       (Z.lor GB_BOOT_OP_FIRMWARE_SIZE GB_TYPE_RESPONSE, firmware_size_response_handler);
       (Z.lor GB_BOOT_OP_GET_FIRMWARE GB_TYPE_RESPONSE, get_firmware_response_handler);
       (Z.lor GB_BOOT_OP_READY_TO_BOOT GB_TYPE_RESPONSE, ready_to_boot_response_handler);
       (GB_BOOT_OP_AP_READY, gbboot_ap_ready);
       (GB_BOOT_OP_GET_VID_PID, gbboot_get_vid_pid)]
  end.

Fixpoint find_handler (hs : list (Z * (Z -> Z -> B Z))) (type : Z) : option (Z -> Z -> B Z) :=
  match hs with
  | [] => None
  | (t, h) :: hs => if t =? type then Some h else find_handler hs type
  end.

Definition common_cport_handler (cportid data len : Z) : B Z :=
  if len <? GB_OPERATION_HEADER_SIZE then mret (-1)
  else
    type ← op_type data;
    t ← gets (λ m, g_handler_table (m_gb m) !! Z.to_nat cportid);
    table ← the t;
    match (match table with Some t => find_handler (handlers t) type | None => None end) with
    | None => mret (-1)
    | Some handler => handler cportid data
    end.

Definition greybus_register_handlers (cportid : Z) (t : gb_table) : B unit :=
  tbl ← gets (λ m, g_handler_table (m_gb m));
  if decide (Z.to_nat cportid < length tbl)%nat
  then modify_gb (set_handler_table (<[Z.to_nat cportid := Some t]> tbl)) else fault.

Definition greybus_init : B Z :=
  modify_gb (set_handler_table (replicate (Z.to_nat CPORT_MAX) None)) ;;
  rc ← chip_unipro_init_cport CONTROL_CPORT;
  greybus_register_handlers CONTROL_CPORT control_cport_handlers ;;
  mret rc.

(** ** The message loop *)

(** One pass over the CPorts: [Some] result of the loop, or go on. *)
Fixpoint serve_cports (ids : list Z) : B (option Z) :=
  match ids with
  | [] => mret None
  | cportid :: ids =>
      t ← gets (λ m, g_handler_table (m_gb m) !! Z.to_nat cportid);
      table ← the t;
      match table with
      | None => serve_cports ids
      | Some _ =>
          rc ← chip_unipro_receive cportid (Some common_cport_handler) false;
          if rc <? 0 then mret (Some (-1))
          else if 0 <? rc then mret (Some 0)
          else serve_cports ids
      end
  end.

Definition greybus_loop : B Z :=
  poll poll_fuel
    (pending ← is_mailbox_irq_pending;
     when pending (chip_unipro_recv_cport 0 ;; mret tt) ;;
     serve_cports (seqZ 0 CPORT_MAX)).

(** ** Requests *)

Definition next_boot_stage : Z := match boot_stage with Stage1 => 2 | Stage2 => 3 end.

(** Return code and [*size] (0 when it is not written). *)
Definition gbboot_firmware_size (stage : Z) : B (Z * Z) :=
  rc ← greybus_send_request GBBOOT_CPORT 1 GB_BOOT_OP_FIRMWARE_SIZE (le_split 1 stage);
  if negb (rc =? 0) then mret (rc, 0)
  else
    rc ← greybus_loop;
    if negb (rc =? 0) then mret (rc, 0)
    else
      size ← gets (λ m, g_firmware_size_response (m_gb m));
      mret (0, size).

Definition gbboot_get_firmware (offset size : Z) (data prev : ptr) (prev_len : Z) : B Z :=
  rc ← greybus_send_request GBBOOT_CPORT 1 GB_BOOT_OP_GET_FIRMWARE (le_split 4 offset ++ le_split 4 size);
  if negb (rc =? 0) then mret rc
  else
    when (0 <? prev_len) (bs ← read_ptr prev prev_len; hash_update bs) ;;
    modify_gb (set_fw_buff data size) ;;
    rc ← greybus_loop;
    if negb (rc =? 0) then mret rc
    else
      op ← gets (λ m, g_responded_op (m_gb m));
      if negb (op =? Z.lor GB_BOOT_OP_GET_FIRMWARE GB_TYPE_RESPONSE) then mret (- ENODEV)
      else mret 0.

Definition gbboot_ready_to_boot (status : Z) : B Z :=
  rc ← greybus_send_request GBBOOT_CPORT 1 GB_BOOT_OP_READY_TO_BOOT (le_split 1 status);
  if negb (rc =? 0) then mret rc
  else
    rc ← greybus_loop;
    if negb (rc =? 0) then mret rc else mret 0.

(** ** The storage operations.  [offset] is kept modulo [2^32]. *)

Definition data_load_greybus_init : B Z :=
  modify_gb (set_offset 0) ;;
  greybus_register_handlers GBBOOT_CPORT gbboot_cport_handlers ;;
  rc ← greybus_loop;
  if negb (rc =? 0) then set_last_error BRE_BOU_GBBOOT_CPORT ;; mret rc
  else
    r ← gbboot_firmware_size next_boot_stage;
    let '(rc, size) := r : Z * Z in
    if negb (rc =? 0) then set_last_error BRE_BOU_GBBOOT_FW_SIZE ;; mret rc
    else
      modify_gb (set_firmware_size size) ;;
      if WORKRAM_SIZE <? size then set_last_error BRE_BOU_GBBOOT_FW_TOO_LARGE ;; mret (- EINVAL)
      else mret 0.

(** The block loop: an error, or the last block when hashing is on.  [blocks]
    bounds the iterations: one more than the full blocks in [length]. *)
Fixpoint greybus_blocks (blocks : nat) (dest : ptr) (length : Z) (hash : bool) (prev : ptr) (prev_len : Z)
    : B (Z + ptr * Z) :=
  if length =? 0 then mret (inr (prev, prev_len))
  else
    match blocks with
    | O => spin
    | S blocks =>
        let blk_len := if GB_MAX_PAYLOAD_SIZE <? length then GB_MAX_PAYLOAD_SIZE else length in
        offset ← gets (λ m, g_offset (m_gb m));
        rc ← gbboot_get_firmware offset blk_len dest prev prev_len;
        if negb (rc =? 0) then set_last_error BRE_BOU_GBBOOT_GET_FW ;; mret (inl rc)
        else
          modify_gb (λ g, set_offset (g_offset g +₃₂ blk_len) g) ;;
          greybus_blocks blocks (ptr_add dest blk_len) (length - blk_len) hash
            (if hash then dest else prev) (if hash then blk_len else prev_len)
    end.

Definition data_load_greybus_load (dest : ptr) (length : Z) (hash : bool) : B Z :=
  g ← gets m_gb;
  if g_firmware_size g <? (g_offset g +₃₂ length) then mret GB_BOOT_ERR_INVALID
  else
    r ← greybus_blocks (S (Z.to_nat (length / GB_MAX_PAYLOAD_SIZE))) dest length hash null 0;
    match r with
    | inl rc => mret rc
    | inr (prev, prev_len) =>
        when hash (bs ← read_ptr prev prev_len; hash_update bs) ;; mret 0
    end.

Definition data_load_greybus_finish (valid is_secure_image : bool) : B Z :=
  let status := if valid && is_secure_image then GB_BOOT_BOOT_STATUS_SECURE
                else if valid then GB_BOOT_BOOT_STATUS_INSECURE else GB_BOOT_BOOT_STATUS_INVALID in
  rc ← gbboot_ready_to_boot status;
  when (negb (rc =? 0)) (set_last_error BRE_BOU_GBBOOT_READY) ;;
  modify_gb (λ g, set_firmware_size 0xFFFFFFFF (set_offset 0xFFFFFFFF g)) ;;
  mret rc.

Definition greybus_ops : data_load_ops :=
  {| ops_init := data_load_greybus_init; ops_read := None;
     ops_load := data_load_greybus_load; ops_finish := data_load_greybus_finish |}.

End greybus.
