(* ===== verification/GreybusLoad.v ===== *)
(** * GreybusLoad: the Greybus driver keeps the storage contract

    While the message loop runs, the peer decides which messages arrive.  All a
    message can do to memory is to overwrite the block that was requested last
    ([gb_frame]).  From this the driver satisfies [LoadOk]: whatever arrives, the
    bytes that were hashed are the bytes that are in memory afterwards. *)

From S2P Require Import Prelude Utils Sha256 Machine Chip Sim Errors Crypto Loading Unipro Greybus.

(** ** Overwriting a block twice *)

Lemma splice_splice (b : list Z) off bs1 bs2 :
  0 <= off -> off + Z.of_nat (length bs1) <= Z.of_nat (length b) -> length bs1 = length bs2 ->
  splice (splice b off bs1) off bs2 = splice b off bs2.
Proof.
  intros Ho Hl He. unfold splice. rewrite take_app_length' by (rewrite length_take; lia). f_equal. f_equal.
  rewrite <- He. rewrite (app_assoc (take _ b)), drop_app_length'; [done|].
  rewrite length_app, length_take. lia.
Qed.

Lemma ram_write_twice a bs1 bs2 r :
  length bs1 = length bs2 -> ram_eq (ram_write a bs2 (ram_write a bs1 r)) (ram_write a bs2 r).
Proof.
  intros He x. unfold ram_get. rewrite !lookup_ram_write, He. by case_decide.
Qed.

Section twice.
Context `{Platform, Hardware}.

Lemma mem_write_twice p bs1 bs2 m :
  in_bounds p (Z.of_nat (length bs1)) m = true -> length bs1 = length bs2 ->
  image_eq (mem_write p bs2 (mem_write p bs1 m)) (mem_write p bs2 m).
Proof.
  unfold in_bounds, mem_write. intros Hin He. apply andb_true_iff in Hin as [Ho Hin]. apply Z.leb_le in Ho.
  destruct m as [? ? ? ? ? ? ? t f ? ? ? ? ?].
  destruct p as [[] o]; cbn [p_blk p_ofs blk_get blk_set] in *; try apply Z.leb_le in Hin; cbn in *;
    split; cbn; try done; rewrite ?splice_splice by done; try done.
  by apply ram_write_twice.
Qed.
End twice.

(** ** What messages can do *)

Section frame.
Context `{Platform, Hardware}.

Record gb_frame (m m' : machine) : Prop := {
  gf_buff : g_fw_buff (m_gb m') = g_fw_buff (m_gb m);
  gf_buff_size : g_fw_buff_size (m_gb m') = g_fw_buff_size (m_gb m);
  gf_offset : g_offset (m_gb m') = g_offset (m_gb m);
  gf_firmware_size : g_firmware_size (m_gb m') = g_firmware_size (m_gb m);
  gf_image : image_eq m' m \/
    exists bs, length bs = Z.to_nat (g_fw_buff_size (m_gb m)) /\ bytes_ok bs /\
      in_bounds (g_fw_buff (m_gb m)) (Z.of_nat (length bs)) m = true /\
      image_eq m' (mem_write (g_fw_buff (m_gb m)) bs m)
}.

#[export] Instance gb_frame_refl : Reflexive gb_frame.
Proof. intros m. split; try done. by left. Qed.

#[export] Instance gb_frame_trans : Transitive gb_frame.
Proof.
  intros m1 m2 m3 [B1 S1 O1 F1 I1] [B2 S2 O2 F2 I2]. split; try congruence.
  rewrite B1, S1 in I2. destruct I1 as [I1|(b1 & L1 & K1 & N1 & I1)], I2 as [I2|(b2 & L2 & K2 & N2 & I2)].
  - left. by rewrite I2.
  - right. exists b2. split_and!; [done|done| |by rewrite I2, I1].
    by rewrite <- (image_eq_bounds m2 m1 _ _ I1).
  - right. exists b1. split_and!; [done|done|done|by rewrite I2].
  - right. exists b2. assert (Hl : length b1 = length b2) by congruence. split_and!; [done|done|by rewrite <- Hl|].
    rewrite I2, I1. by apply mem_write_twice.
Qed.

Lemma only_dev_gb {A} (c : B A) : pres only_dev c -> pres gb_frame c.
Proof. intros Hc m. destruct (Hc m) as [d ->]. split; try done. left. by split. Qed.

Lemma pres_manifest_fetched b : pres gb_frame (modify_gb (set_manifest_fetched b)).
Proof. intros m. split; try done. left. by split. Qed.
Lemma pres_responded_op op : pres gb_frame (modify_gb (set_responded_op op)).
Proof. intros m. split; try done. left. by split. Qed.
Lemma pres_size_response n : pres gb_frame (modify_gb (set_size_response n)).
Proof. intros m. split; try done. left. by split. Qed.
Lemma pres_rx_bytes a n : pres only_dev (rx_bytes a n).
Proof. apply pres_gets. typeclasses eauto. Qed.
End frame.
#[export] Hint Resolve pres_manifest_fetched pres_responded_op pres_size_response pres_rx_bytes : pres.
#[export] Hint Extern 5 (pres gb_frame _) => apply only_dev_gb; solve [eauto 2 with pres] : pres.

Section handlers.
Context `{Platform, Hardware}.

Lemma pres_op_size op : pres only_dev (op_size op).
Proof. unfold op_size. pres_auto. Qed.
Lemma pres_op_id op : pres only_dev (op_id op).
Proof. unfold op_id. pres_auto. Qed.
Lemma pres_op_type op : pres only_dev (op_type op).
Proof. unfold op_type. pres_auto. Qed.
Lemma pres_op_status op : pres only_dev (op_status op).
Proof. unfold op_status. pres_auto. Qed.

Lemma pres_put_bytes bs : forall a, pres only_dev (put_bytes bs a).
Proof. induction bs; intros; cbn [put_bytes]; pres_auto. Qed.
Lemma pres_unipro_send c bs : pres only_dev (chip_unipro_send c bs).
Proof. unfold chip_unipro_send. pres_auto. apply pres_put_bytes. Qed.
Lemma pres_send_message c i t s p : pres only_dev (greybus_send_message c i t s p).
Proof. unfold greybus_send_message. cbv zeta. apply pres_unipro_send. Qed.
Lemma pres_send_request c i t p : pres only_dev (greybus_send_request c i t p).
Proof. apply pres_send_message. Qed.
End handlers.
#[export] Hint Resolve pres_op_size pres_op_id pres_op_type pres_op_status pres_send_message
  pres_send_request : pres.

Section handlers2.
Context `{Platform, Hardware}.

Lemma pres_op_response c op s p : pres only_dev (greybus_op_response c op s p).
Proof. unfold greybus_op_response. pres_auto. Qed.
#[local] Hint Resolve pres_op_response : pres.

Lemma pres_restart_rx c : pres only_dev (tsb_unipro_restart_rx c).
Proof. unfold tsb_unipro_restart_rx. pres_auto. Qed.
#[local] Hint Resolve pres_restart_rx : pres.

Lemma pres_init_cport c : pres only_dev (chip_unipro_init_cport c).
Proof. unfold chip_unipro_init_cport, tsb_unipro_init_cport. pres_auto. Qed.
#[local] Hint Resolve pres_init_cport : pres.

(** The one handler that writes to memory. *)
Lemma pres_get_firmware_response op data len : pres gb_frame (gbboot_get_firmware_response op data len).
Proof.
  unfold gbboot_get_firmware_response. apply pres_bind; [typeclasses eauto|pres_auto|]. intros st.
  apply pres_if; [pres_auto|]. apply pres_bind; [typeclasses eauto|pres_auto|]. intros sz m.
  rewrite (bind_step (gets m_gb) _ m (m_gb m) m eq_refl).
  destruct (_ || _); [cbn; reflexivity|].
  unfold rx_bytes. erewrite bind_step; [|reflexivity].
  set (bs := map _ _). unfold mbind, boot_bind, write_ptr.
  destruct (in_bounds (g_fw_buff (m_gb m)) (Z.of_nat (length bs)) m) eqn:Hin; [|cbn; reflexivity].
  cbn [snd mret boot_ret].
  assert (Hgb : m_gb (mem_write (g_fw_buff (m_gb m)) bs m) = m_gb m).
  { unfold mem_write. by destruct (p_blk (g_fw_buff (m_gb m))). }
  split; try (by rewrite Hgb). right. exists bs. split_and!; [|..|done|done].
  - unfold bs. by rewrite length_map, length_seqZ.
  - unfold bs. apply Forall_forall. intros b Hb. apply list_elem_of_fmap in Hb as (x & -> & _). apply u8_range.
Qed.

Lemma pres_response_handler f c op :
  (forall a b c, pres gb_frame (f a b c)) -> pres gb_frame (response_handler f c op).
Proof. intros Hf. unfold response_handler. pres_auto. Qed.

Lemma pres_size_response_fn op data len : pres gb_frame (gbboot_firmware_size_response op data len).
Proof. unfold gbboot_firmware_size_response. pres_auto. Qed.

Lemma pres_gbctrl_get_version c op : pres gb_frame (gbctrl_get_version c op).
Proof. unfold gbctrl_get_version. pres_auto. Qed.
Lemma pres_gbctrl_probe_ap c op : pres gb_frame (gbctrl_probe_ap c op).
Proof. unfold gbctrl_probe_ap. pres_auto. Qed.
Lemma pres_gbctrl_get_manifest_size c op : pres gb_frame (gbctrl_get_manifest_size c op).
Proof. unfold gbctrl_get_manifest_size. pres_auto. Qed.
Lemma pres_gbctrl_get_manifest c op : pres gb_frame (gbctrl_get_manifest c op).
Proof. unfold gbctrl_get_manifest. pres_auto. Qed.
Lemma pres_gbctrl_connected c op : pres gb_frame (gbctrl_connected c op).
Proof. unfold gbctrl_connected. pres_auto. Qed.
Lemma pres_gbctrl_disconnected c op : pres gb_frame (gbctrl_disconnected c op).
Proof. unfold gbctrl_disconnected. pres_auto. Qed.
Lemma pres_gbboot_get_version c op : pres gb_frame (gbboot_get_version c op).
Proof. unfold gbboot_get_version. pres_auto. Qed.
Lemma pres_gbboot_get_vid_pid c op : pres gb_frame (gbboot_get_vid_pid c op).
Proof. unfold gbboot_get_vid_pid. pres_auto. Qed.
Lemma pres_gbboot_ap_ready c op : pres gb_frame (gbboot_ap_ready c op).
Proof. unfold gbboot_ap_ready. pres_auto. Qed.
Lemma pres_size_handler c op : pres gb_frame (firmware_size_response_handler c op).
Proof. apply pres_response_handler. apply pres_size_response_fn. Qed.
Lemma pres_firmware_handler c op : pres gb_frame (get_firmware_response_handler c op).
Proof. apply pres_response_handler. apply pres_get_firmware_response. Qed.
Lemma pres_ready_handler c op : pres gb_frame (ready_to_boot_response_handler c op).
Proof. apply pres_response_handler. intros. unfold gbboot_ready_to_boot_response. pres_auto. Qed.

Lemma pres_handlers t type h c op :
  find_handler (handlers t) type = Some h -> pres gb_frame (h c op).
Proof.
  assert (Hall : Forall (λ th, forall c op, pres gb_frame (snd th c op)) (handlers t)).
  { destruct t; cbn [handlers].
    - repeat apply Forall_cons_2; [exact pres_gbctrl_get_version | exact pres_gbctrl_probe_ap
        | exact pres_gbctrl_get_manifest_size | exact pres_gbctrl_get_manifest | exact pres_gbctrl_connected
        | exact pres_gbctrl_disconnected | apply Forall_nil_2].
    - repeat apply Forall_cons_2; [exact pres_gbboot_get_version | exact pres_size_handler
        | exact pres_firmware_handler | exact pres_ready_handler | exact pres_gbboot_ap_ready
        | exact pres_gbboot_get_vid_pid | apply Forall_nil_2]. }
  induction Hall as [|[t' h'] hs Hh _ IH]; cbn [find_handler]; [done|].
  destruct (t' =? type); [|done]. intros [= <-]. apply Hh.
Qed.

Lemma pres_cport_handler c d l : pres gb_frame (common_cport_handler c d l).
Proof.
  unfold common_cport_handler. apply pres_if; [pres_auto|].
  apply pres_bind; [typeclasses eauto|pres_auto|]. intros type.
  apply pres_bind; [typeclasses eauto|pres_auto|]. intros t.
  apply pres_bind; [typeclasses eauto|pres_auto|]. intros [t'|]; [|pres_auto].
  destruct (find_handler (handlers t') type) as [h|] eqn:Eh; [by eapply pres_handlers|pres_auto].
Qed.
#[local] Hint Resolve pres_cport_handler : pres.

Lemma pres_receive c : pres gb_frame (chip_unipro_receive c (Some common_cport_handler) false).
Proof.
  unfold chip_unipro_receive, receive_once. cbv zeta. destruct (cport_handle c); pres_auto.
Qed.
#[local] Hint Resolve pres_receive : pres.

Lemma pres_serve ids : pres gb_frame (serve_cports ids).
Proof. induction ids as [|i ids IH]; cbn [serve_cports]; pres_auto. Qed.

Lemma pres_mailbox_pending : pres only_dev is_mailbox_irq_pending.
Proof. unfold is_mailbox_irq_pending. pres_auto. Qed.
Lemma pres_read_mailbox : pres only_dev read_mailbox.
Proof.
  unfold read_mailbox. apply pres_bind; [typeclasses eauto| |pres_auto].
  apply pres_poll; [typeclasses eauto..|]. pres_auto.
Qed.
#[local] Hint Resolve pres_mailbox_pending pres_read_mailbox : pres.
Lemma pres_recv_cport old : pres only_dev (chip_unipro_recv_cport old).
Proof. unfold chip_unipro_recv_cport, tsb_unipro_recv_cport, ack_mailbox. cbv zeta. pres_auto. Qed.
#[local] Hint Resolve pres_recv_cport pres_serve : pres.

Lemma pres_greybus_loop : pres gb_frame greybus_loop.
Proof. unfold greybus_loop. apply pres_poll; [typeclasses eauto..|]. pres_auto. Qed.
End handlers2.
#[export] Hint Resolve pres_greybus_loop : pres.

(** ** Writing and hashing *)

Section memory.
Context `{Platform, Hardware}.

Lemma hashed_bounds h bs p n m : in_bounds p n (hashed h bs m) = in_bounds p n m.
Proof. destruct h; [|done]. unfold in_bounds. by destruct p as [[] o]. Qed.

Lemma mem_write_hashed p bs h b m : mem_write p bs (hashed h b m) = hashed h b (mem_write p bs m).
Proof. destruct h; [|done]. unfold mem_write. destruct p as [[] o]; done. Qed.

#[export] Instance hashed_proper h bs : Proper (image_eq ==> image_eq) (hashed h bs).
Proof. intros m m' []. destruct h; split; cbn; try done. by rewrite ie_crypto. Qed.

Lemma hashed_app h a b m : image_eq (hashed h b (hashed h a m)) (hashed h (a ++ b) m).
Proof. destruct h; [|done]. split; try done. cbn. unfold absorb, set_shctx. cbn. by rewrite foldl_app. Qed.

Lemma mem_read_hashed p n h b m : mem_read p n (hashed h b m) = mem_read p n m.
Proof. destruct h; [|done]. unfold mem_read. by destruct p as [[] o]. Qed.
End memory.

(** ** Loading *)

Section load.
Context `{Platform, Hardware}.

(** The block whose hash is still due. *)
Definition pending (prev : ptr) (prev_len : Z) (m : machine) : list Z :=
  if 0 <? prev_len then mem_read prev prev_len m else [].

Lemma hash_pending_done prev prev_len m m' :
  when (0 <? prev_len) (bs ← read_ptr prev prev_len; hash_update bs) m = (Done tt, m') ->
  m' = hashed true (pending prev prev_len m) m.
Proof.
  unfold pending. destruct (0 <? prev_len); cbn [when]; intros E.
  - apply bind_done in E. destruct E as (bs & m1 & E1 & E).
    apply read_ptr_done in E1 as (_ & -> & ->). by apply hash_update_done in E.
  - injection E as <-. by rewrite hashed_nil.
Qed.

#[export] Instance pending_proper prev prev_len : Proper (image_eq ==> eq) (pending prev prev_len).
Proof. intros m m' He. unfold pending. destruct (0 <? prev_len); [|done]. by rewrite He. Qed.

(** A successful request: the pending block was hashed, the new block holds some
    bytes, nothing else changed. *)
Lemma get_firmware_done off size data prev prev_len m m' :
  mem_ok m -> 0 <= size -> roomy data size m ->
  gbboot_get_firmware off size data prev prev_len m = (Done 0, m') ->
  exists bs, Z.of_nat (length bs) = size /\ bytes_ok bs /\ ram_kept m m' /\
    image_eq m' (hashed true (pending prev prev_len m) (mem_write data bs m)).
Proof.
  intros Hm Hn Hr E. unfold gbboot_get_firmware in E.
  apply bind_done in E. destruct E as (rc & m1 & E1 & E).
  apply (pres_run _ _ _ _ _ (pres_send_request _ _ _ _)), only_dev_image in E1.
  destruct (Z.eqb_spec rc 0) as [->|]; [|by inv_done]. cbn [negb] in E.
  apply bind_done in E. destruct E as ([] & m2 & E2 & E). apply hash_pending_done in E2.
  apply bind_done in E. destruct E as ([] & m3 & [= <-] & E).
  apply bind_done in E. destruct E as (rc' & m4 & E4 & E).
  apply (pres_run _ _ _ _ _ pres_greybus_loop) in E4 as [_ _ _ _ I4]. cbn in I4.
  destruct (Z.eqb_spec rc' 0) as [->|]; [|by inv_done]. cbn [negb] in E.
  apply bind_done in E. destruct E as (op & m5 & [= <- <-] & E).
  destruct (negb _); [by inv_done|]. injection E as <-.
  set (m3 := set_gb _ m2) in I4.
  assert (H3 : image_eq m3 (hashed true (pending prev prev_len m) m)).
  { transitivity m2; [by split|]. rewrite E2, (pending_proper prev prev_len _ _ E1).
    apply hashed_proper. by symmetry. }
  assert (K3 : ram_kept m m3).
  { etrans; [apply (hashed_kept true (pending prev prev_len m))|apply image_eq_kept; by symmetry]. }
  destruct I4 as [I4|(bs & L4 & K4 & N4 & I4)].
  - exists (mem_read data size m). split; [by apply mem_read_length|]. split; [by apply mem_read_bytes|].
    split; [etrans; [exact K3|apply image_eq_kept; by symmetry]|]. rewrite I4, H3. by rewrite mem_write_read.
  - exists bs. split; [lia|]. split; [done|]. split; [|by rewrite I4, H3, mem_write_hashed].
    etrans; [exact K3|]. etrans; [by apply ram_kept_write|apply image_eq_kept; by symmetry].
Qed.

(** The block loop. *)
Lemma greybus_blocks_done hash : forall blocks dest len prev prev_len m prev' prev_len' m',
  mem_ok m -> 0 <= len -> roomy dest len m -> (hash = false -> prev_len = 0) ->
  greybus_blocks blocks dest len hash prev prev_len m = (Done (inr (prev', prev_len')), m') ->
  exists bs hp, Z.of_nat (length bs) = len /\ bytes_ok bs /\ ram_kept m m' /\
    image_eq m' (hashed hash hp (mem_write dest bs m)) /\
    (hash = true -> pending prev prev_len m ++ bs = hp ++ pending prev' prev_len' m').
Proof.
  induction blocks as [|n IH]; intros dest len prev prev_len m prev' prev_len' m' Hm Hl Hr Hp E;
    cbn [greybus_blocks] in E; (destruct (Z.eqb_spec len 0) as [->|Hne]; [|try done]).
  1,2: injection E as <- <- <-; exists [], []; split; [done|]; split; [constructor|]; split; [done|];
    rewrite hashed_nil, mem_write_nil, app_nil_r; done.
  cbv zeta in E. set (blk := if GB_MAX_PAYLOAD_SIZE <? len then GB_MAX_PAYLOAD_SIZE else len) in E.
  assert (Hb : 0 < blk <= len).
  { unfold blk, GB_MAX_PAYLOAD_SIZE. destruct (Z.ltb_spec 0x7F0 len); lia. }
  apply bind_done in E. destruct E as (off & m0 & [= <- <-] & E).
  apply bind_done in E. destruct E as (rc & m1 & E1 & E).
  destruct (Z.eqb_spec rc 0) as [->|]; [|by inv_done]. cbn [negb] in E.
  assert (Hrb : roomy dest blk m).
  { destruct (roomy_prefix dest len blk m ltac:(lia) Hr) as [?|Hnull]; [done|].
    exfalso. apply roomy_bounds in Hr; [|congruence]. unfold in_bounds in Hr. rewrite Hnull in Hr.
    apply andb_true_iff in Hr as [_ Hr]. apply Z.eqb_eq in Hr. lia. }
  apply get_firmware_done in E1 as (b1 & L1 & B1 & K1 & I1); [|done|lia|done].
  assert (Hpend : image_eq m1 (hashed hash (pending prev prev_len m) (mem_write dest b1 m))).
  { rewrite I1. destruct hash; [done|]. unfold pending. rewrite Hp by done. cbn [Z.ltb Z.compare].
    by rewrite hashed_nil. }
  apply bind_done in E. destruct E as ([] & m2 & [= <-] & E). set (m2 := set_gb _ m1) in E.
  assert (H2 : image_eq m2 (hashed hash (pending prev prev_len m) (mem_write dest b1 m))).
  { rewrite <- Hpend. by split. }
  destruct (roomy_split dest b1 len m ltac:(lia) Hr) as [_ Hr2].
  apply IH in E as (b2 & hp2 & L2 & B2 & K2 & I2 & P2).
  - exists (b1 ++ b2), (pending prev prev_len m ++ hp2). split; [rewrite length_app; lia|].
    split; [by apply bytes_ok_app|].
    split; [etrans; [exact K1|etrans; [apply image_eq_kept|exact K2]; by split]|]. split.
    + rewrite I2, H2, mem_write_hashed, hashed_app, <- L1, mem_write_app_roomy; [done|].
      rewrite length_app, Nat2Z.inj_add. by replace (Z.of_nat (length b1) + Z.of_nat (length b2)) with len by lia.
    + intros ->. rewrite <- app_assoc, <- P2 by done. f_equal. f_equal.
      unfold pending. destruct (Z.ltb_spec 0 blk); [|lia].
      rewrite (mem_read_proper dest blk _ _ H2), mem_read_hashed, <- L1. symmetry.
      apply mem_read_write_roomy. by rewrite L1.
  - eapply mem_ok_image; [symmetry; exact H2|]. apply mem_ok_hashed, mem_ok_write_roomy; [done|done|by rewrite L1].
  - lia.
  - eapply roomy_image; [symmetry; exact H2|]. rewrite <- L1.
    destruct Hr2 as [?|Hin]; [by left|right]. rewrite <- Hin. destruct hash; [|done].
    by destruct (ptr_add _ _) as [[] ?].
  - by intros ->; auto.
Qed.

Lemma greybus_blocks_err hash : forall blocks dest len prev prev_len m rc m',
  greybus_blocks blocks dest len hash prev prev_len m = (Done (inl rc), m') -> rc <> 0.
Proof.
  induction blocks as [|n IH]; intros dest len prev prev_len m rc m' E; cbn [greybus_blocks] in E;
    destruct (len =? 0); try done.
  cbv zeta in E. apply bind_done in E. destruct E as (off & m0 & _ & E).
  apply bind_done in E. destruct E as (rc' & m1 & _ & E).
  destruct (Z.eqb_spec rc' 0) as [->|Hne]; cbn [negb] in E.
  - apply bind_done in E. destruct E as ([] & m2 & _ & E). by apply IH in E.
  - apply bind_done in E. destruct E as ([] & m2 & _ & [= <- _]). done.
Qed.

#[export] Instance greybus_load_ok : LoadOk greybus_ops.
Proof.
  intros p n hash m m' Hm Hn Hr E. cbn in E. unfold data_load_greybus_load in E.
  apply bind_done in E. destruct E as (g & m0 & [= <- <-] & E).
  destruct (_ <? _); [by inv_done|].
  apply bind_done in E. destruct E as ([rc|[prev prev_len]] & m1 & E1 & E).
  { exfalso. injection E as -> _. by apply greybus_blocks_err in E1. }
  apply bind_done in E. destruct E as ([] & m2 & E2 & [= <-]).
  apply greybus_blocks_done in E1 as (bs & hp & L & B & K & I & P); [|done|apply Hn|done|done].
  exists bs. split; [done|done| | |].
  - right. destruct Hr as [?|Hin]; [by left|by right].
  - destruct hash; cbn [when] in E2; [|by injection E2 as <-].
    apply bind_done in E2. destruct E2 as (last & m3 & E3 & E2).
    apply read_ptr_done in E3 as (_ & -> & ->). apply hash_update_done in E2. by subst m2.
  - destruct hash; cbn [when] in E2; [|by injection E2 as <-].
    apply bind_done in E2. destruct E2 as (last & m3 & E3 & E2).
    apply read_ptr_done in E3 as (_ & -> & ->). apply hash_update_done in E2. subst m2.
    change (set_crypto (absorb ?x (m_crypto m1)) m1) with (hashed true x m1).
    assert (Hlast : pending prev prev_len m1 = mem_read prev prev_len m1).
    { unfold pending. destruct (Z.ltb_spec 0 prev_len); [done|].
      symmetry. apply nil_length_inv. unfold mem_read.
      destruct (p_blk prev); unfold sub, ram_read; rewrite ?length_take, ?length_map, ?length_seqZ; lia. }
    rewrite <- Hlast. specialize (P eq_refl). unfold pending at 1 in P. cbn [Z.ltb Z.compare app] in P.
    rewrite (hashed_proper true _ _ _ I), hashed_app. by rewrite P.
Qed.

(** [C23] The Greybus driver keeps the storage contract, whatever messages the
    peer sends while it waits: when a load returns 0, the destination holds
    exactly the requested number of bytes, nothing else the image loader uses
    changed, and with the hash flag these same bytes were hashed. *)
Theorem greybus_load_contract p n hash m m' :
  mem_ok m -> is_u32 n -> roomy p n m -> data_load_greybus_load p n hash m = (Done 0, m') ->
  exists bs, loaded p n hash bs m m'.
Proof. intros Hm Hn Hr E. exact (greybus_load_ok p n hash m m' Hm Hn Hr E). Qed.
End load.
