(* ===== verification/GreybusSim.v ===== *)
(** * GreybusSim: a peer that sends messages

    A UniPro receiver with a queue of incoming messages, on top of the simulated
    chip, and downloads over it.  Two runs show what the driver does not check. *)

From S2P Require Import Prelude Utils Sha256 Machine Chip Sim Errors Crypto Loading Unipro Greybus GreybusLoad TftfValid.

(** ** The device *)

Record link := Link {
  l_soc : soc;
  l_queue : list (Z * list Z);      (* messages to come: CPort and bytes *)
  l_cur : Z * list Z                (* the message in the receive buffer *)
}.

(** The interrupt bit of the message at the head of the queue. *)
Definition link_eom (l : link) : Z :=
  match l_queue l with [] => 0 | (c, _) :: _ => Z.shiftl 1 (2 * c) end.

Definition link_read (a : Z) (l : link) : Z * link :=
  if a =? AIO_UNIPRO_BASE + AHM_RX_EOM_INT_BEF_0 then (link_eom l, l)
  else if a =? AIO_UNIPRO_BASE + AHM_RX_EOT_INT_BEF_0 then (0, l)
  else if (AIO_UNIPRO_BASE + CPB_RX_TRANSFERRED_DATA_SIZE_00 <=? a)
          && (a <? AIO_UNIPRO_BASE + CPB_RX_TRANSFERRED_DATA_SIZE_00 + 16)
  then (match l_queue l with [] => 0 | (_, bs) :: _ => Z.of_nat (length bs) end, l)
  else let '(v, s) := soc_read 0 a (l_soc l) in (v, Link s (l_queue l) (l_cur l)).

(** Clearing the interrupt takes the message. *)
Definition link_write (a v : Z) (l : link) : link :=
  if a =? AIO_UNIPRO_BASE + AHM_RX_EOM_INT_BEF_0 then
    match l_queue l with [] => l | msg :: q => Link (l_soc l) q msg end
  else Link (soc_write a v (l_soc l)) (l_queue l) (l_cur l).

#[export] Instance link_hw : Hardware :=
  {| dev := link; reg_read := link_read; reg_write := link_write;
     reg_write8 := λ _ _ l, l;
     buf_read8 := λ a l, get8 (snd (l_cur l)) (a - CPORT_RX_BUF (fst (l_cur l))) |}.

(** ** Machines and messages *)

Definition gb_message (type status : Z) (payload : list Z) : Z * list Z :=
  (1, le_split 2 (8 + Z.of_nat (length payload)) ++ le_split 2 1 ++ [type; status; 0; 0] ++ payload).

Definition ap_ready : Z * list Z := gb_message GB_BOOT_OP_AP_READY 0 [].
Definition size_is (n : Z) : Z * list Z := gb_message 0x82 0 (le_split 4 n).
Definition firmware (bs : list Z) : Z * list Z := gb_message 0x83 0 bs.

#[export] Instance link_platform : Platform := sim_platform Stage1 [] [].

Definition link_machine (q : list (Z * list Z)) : @machine link_hw :=
  @sim_machine_at link_hw (Link (sim_soc ∅ []) q (0, [])).

Lemma link_machine_ok q : mem_ok (link_machine q).
Proof.
  split; cbn -[replicate]; try (split; [by rewrite length_replicate|by apply Forall_replicate]).
  intros a. unfold ram_get. by rewrite lookup_empty.
Qed.

(** ** Runs *)

(** Start the protocol, then load two blocks. *)
Definition download : B (Z * Z * Z) :=
  greybus_init ;;
  rc0 ← data_load_greybus_init;
  rc1 ← data_load_greybus_load (Ptr BRam 0x10000000) 4 false;
  rc2 ← data_load_greybus_load (Ptr BRam 0x10000004) 4 false;
  mret (rc0, rc1, rc2).

(** The answers of a regular peer. *)
Definition regular : list (Z * list Z) := [ap_ready; size_is 8; firmware [1; 2; 3; 4]; firmware [5; 6; 7; 8]].

Definition view (r : outcome (Z * Z * Z) * machine) : outcome (Z * Z * Z) * list Z :=
  (fst r, ram_read (m_ram (snd r)) 0x10000000 8).

Example download_regular : view (download (link_machine regular)) = (Done (0, 0, 0), [1; 2; 3; 4; 5; 6; 7; 8]).
Proof. vm_compute. reflexivity. Qed.

(** A request to end waiting counts as data: the second block's
    request is answered by another AP_READY, the response code of the first block
    is still recorded, and the load reports success although no byte arrived. *)
Example ap_ready_counts_as_data :
  view (download (link_machine [ap_ready; size_is 8; firmware [1; 2; 3; 4]; ap_ready])) =
    (Done (0, 0, 0), [1; 2; 3; 4; 0; 0; 0; 0]).
Proof. vm_compute. reflexivity. Qed.

(** After the download the last block can still be replaced: a late firmware
    message that arrives while the driver waits for the answer to
    READY_TO_BOOT is copied over the block loaded last, and [finish] succeeds. *)
Example finish_rewrites_last_block :
  view ((r ← download; rc ← data_load_greybus_finish true true; mret (fst r, rc))
          (link_machine (regular ++ [firmware [9; 9; 9; 9]]))) =
    (Done (0, 0, 0), [1; 2; 3; 4; 9; 9; 9; 9]).
Proof. vm_compute. reflexivity. Qed.

(** Machine after the start of the protocol, with one block to come. *)
Definition link_started : @machine link_hw :=
  snd ((greybus_init ;; data_load_greybus_init) (link_machine regular)).

Lemma link_started_ok : mem_ok link_started.
Proof.
  split; vm_compute; (intuition discriminate) || (split; [reflexivity | apply bytes_okb_ok; reflexivity]).
Qed.

Lemma greybus_load_contract_witness :
  let p := Ptr BRam 0x10000000 in
  exists bs, loaded p 4 false bs link_started (snd (data_load_greybus_load p 4 false link_started)).
Proof.
  intros p. apply (greybus_load_contract p 4 false link_started).
  - exact link_started_ok.
  - vm_compute. intuition discriminate.
  - left. reflexivity.
  - apply (run_done (data_load_greybus_load p 4 false) link_started 0). vm_compute. reflexivity.
Defined.
