(* ===== verification/SpiMaster.v ===== *)
(** * SpiMaster: the bridged SPI master
    (chips/es3tsb/src/es3_spi_master.c, common/include/device_spi.h,
    common/src/spi-gb.c)

    The second stage can lend its SPI controller to the AP: Greybus requests are
    turned into full-duplex exchanges with the flash.  The statics [spi_info] and
    [local_dev] are written by [chip_spi_master_init] only, which returns them
    here; every other operation takes them as arguments. *)

From S2P Require Import Prelude Machine Chip Unipro Spi Greybus.

(** ** Registers and modes *)
Definition CONFIG_SPI_MAX_CHIPS : Z := 1.
Definition CS0_GPIO_PINS_BIT : Z := Z.shiftl 1 7.
Definition CS0_GPIO : Z := 15.
Definition CONFIG_SPI_BPW_MASK : Z := Z.shiftl 1 7.
Definition CONFIG_SPI_MIN_FREQ : Z := 15000.
Definition CONFIG_SPI_MAX_FREQ : Z := 24000000.
Definition CONFIG_SPI_MAX_DIV : Z := 0xFFFF.
Definition DW_SPI_CTRLR0 : Z := 0x00.
Definition DW_SPI_SSIENR : Z := 0x08.
Definition DW_SPI_BAUDR : Z := 0x14.
Definition DW_SPI_SR : Z := 0x28.
Definition DW_SPI_DR : Z := 0x60.
Definition SPI_CTRLR0_SCPH : Z := Z.shiftl 1 6.
Definition SPI_CTRLR0_SCPOL : Z := Z.shiftl 1 7.
Definition SPI_CTRL0_TMOD_MASK : Z := Z.shiftl 3 8.
Definition SPI_CTRLR0_DFS32_OFFSET : Z := 16.
Definition SPI_CTRLR0_DFS32_MASK : Z := Z.shiftl 0x1f SPI_CTRLR0_DFS32_OFFSET.
Definition SPI_SR_TFNF_MASK : Z := Z.shiftl 1 1.
Definition SPI_SR_RFNE_MASK : Z := Z.shiftl 1 3.
Definition SPI_SR_RFF_MASK : Z := Z.shiftl 1 4.
Definition FSSI_CLK : Z := 48000000.
Definition SPI_MODE_CPHA : Z := 0x01.
Definition SPI_MODE_CPOL : Z := 0x02.
Definition SPI_XFER_READ : Z := 0x01.
Definition SPI_XFER_WRITE : Z := 0x02.
Definition GB_SPI_SPI_NOR : Z := 0x01.
Definition ENOSYS : Z := 88.

(** ** Data *)

Record master_spi_caps := {
  caps_bpw : Z; caps_min_speed_hz : Z; caps_max_speed_hz : Z;
  caps_modes : Z; caps_flags : Z; caps_csnum : Z
}.

Record device_spi_cfg := {
  cfg_mode : Z; cfg_bpw : Z; cfg_max_speed_hz : Z; cfg_device_type : Z;
  cfg_name : list Z             (* uint8_t name[32] *)
}.

Record tsb_spi_info := {
  reg_base : Z; si_caps : master_spi_caps; dev_cfg : list device_spi_cfg
}.

(** [txbuffer] is an address in BufRAM, [rxbuffer] an offset into the response. *)
Record device_spi_transfer := {
  txbuffer : option Z; rxbuffer : option Z; nwords : Z
}.

(** The name is "w25q16dw". *)
Definition chips_info : list device_spi_cfg :=
  [{| cfg_mode := 0; cfg_bpw := 8; cfg_max_speed_hz := CONFIG_SPI_MAX_FREQ;
      cfg_device_type := GB_SPI_SPI_NOR;
      cfg_name := [0x77; 0x32; 0x35; 0x71; 0x31; 0x36; 0x64; 0x77] ++ replicate 24 0 |}].

Section spi_master.
Context `{Platform, Hardware}.

Definition tsb_spi_read (base addr : Z) : B Z := getreg32 (base +₃₂ addr).
Definition tsb_spi_write (base addr val : Z) : B unit := putreg32 val (base +₃₂ addr).

(** ** Operations of the controller *)

Definition es3_spi_select (info : tsb_spi_info) (devid : Z) : B Z :=
  if caps_csnum (si_caps info) <=? devid then mret (- EINVAL)
  else tsb_set_pinshare CS0_GPIO_PINS_BIT ;; chip_gpio_direction_out CS0_GPIO 0 ;; mret 0.

Definition es3_spi_deselect (info : tsb_spi_info) (devid : Z) : B Z :=
  if caps_csnum (si_caps info) <=? devid then mret (- EINVAL)
  else chip_gpio_direction_out CS0_GPIO 1 ;; tsb_clr_pinshare CS0_GPIO_PINS_BIT ;; mret 0.

Definition es3_spi_setfrequency (info : tsb_spi_info) (cs freq : Z) : B Z :=
  if caps_csnum (si_caps info) <=? cs then mret (- EINVAL)
  else
    cfg ← the (dev_cfg info !! Z.to_nat cs);
    if (freq <? CONFIG_SPI_MIN_FREQ) || (cfg_max_speed_hz cfg <? freq) || (freq =? 0)
    then mret (- EINVAL)
    else
      let div := FSSI_CLK / freq in
      if CONFIG_SPI_MAX_DIV <? div then mret (- EINVAL)
      else tsb_spi_write (reg_base info) DW_SPI_BAUDR div ;; mret 0.

Definition set_bit_if (c : bool) (bit ctrl0 : Z) : Z :=
  if c then Z.lor ctrl0 bit else Z.land ctrl0 (~₃₂ bit).

Definition es3_spi_setmode (info : tsb_spi_info) (cs mode : Z) : B Z :=
  if caps_csnum (si_caps info) <=? cs then mret (- EINVAL)
  else
    cfg ← the (dev_cfg info !! Z.to_nat cs);
    if negb (Z.land (cfg_mode cfg) (Z.lnot mode) =? 0) then mret (- EINVAL)
    else
      ctrl0 ← tsb_spi_read (reg_base info) DW_SPI_CTRLR0;
      let ctrl0 := Z.land ctrl0 (~₃₂ SPI_CTRL0_TMOD_MASK) in
      let ctrl0 := set_bit_if (negb (Z.land mode SPI_MODE_CPHA =? 0)) SPI_CTRLR0_SCPH ctrl0 in
      let ctrl0 := set_bit_if (negb (Z.land mode SPI_MODE_CPOL =? 0)) SPI_CTRLR0_SCPOL ctrl0 in
      tsb_spi_write (reg_base info) DW_SPI_CTRLR0 ctrl0 ;; mret 0.

Definition es3_spi_setbits (info : tsb_spi_info) (cs nbits : Z) : B Z :=
  if caps_csnum (si_caps info) <=? cs then mret (- EINVAL)
  else
    cfg ← the (dev_cfg info !! Z.to_nat cs);
    if negb (cfg_bpw cfg =? nbits) then mret (- EINVAL)
    else
      ctrl0 ← tsb_spi_read (reg_base info) DW_SPI_CTRLR0;
      let ctrl0 := Z.land ctrl0 (~₃₂ SPI_CTRLR0_DFS32_MASK) in
      let ctrl0 := Z.lor ctrl0 ((nbits - 1) <<₃₂ SPI_CTRLR0_DFS32_OFFSET) in
      tsb_spi_write (reg_base info) DW_SPI_CTRLR0 ctrl0 ;; mret 0.

(** [(txbuf) ? *(txbuf++) : 0] in front of the [txcnt]-th word. *)
Definition tx_byte (txbuf : option Z) (txcnt : Z) : B Z :=
  match txbuf with
  | Some a => bs ← rx_bytes (a + txcnt) 1; mret (le_combine bs)
  | None => mret 0
  end.

(** The exchange loop; the bytes read come out in order. *)
Fixpoint exchange_loop (fuel : nat) (base : Z) (txbuf : option Z) (n txcnt rxcnt : Z) : B (list Z) :=
  if (txcnt <? n) || (rxcnt <? n) then
    match fuel with
    | O => spin
    | S fuel =>
        sr_reg ← tsb_spi_read base DW_SPI_SR;
        let send := (txcnt <? n) && negb (Z.land sr_reg SPI_SR_TFNF_MASK =? 0)
                    && (Z.land sr_reg SPI_SR_RFF_MASK =? 0) in
        when send (u8_dr ← tx_byte txbuf txcnt; tsb_spi_write base DW_SPI_DR u8_dr) ;;
        let txcnt := if send then txcnt + 1 else txcnt in
        if (rxcnt <? n) && negb (Z.land sr_reg SPI_SR_RFNE_MASK =? 0) then
          u32_dr ← tsb_spi_read base DW_SPI_DR;
          rest ← exchange_loop fuel base txbuf n txcnt (rxcnt + 1);
          mret (Z.land u32_dr 0xFF :: rest)
        else exchange_loop fuel base txbuf n txcnt rxcnt
    end
  else mret [].

(** Return code, and the bytes stored from [rxbuffer] on. *)
Definition es3_spi_exchange (info : tsb_spi_info) (transfer : device_spi_transfer) : B (Z * list Z) :=
  if bool_decide (txbuffer transfer = None) && bool_decide (rxbuffer transfer = None)
  then mret (- EINVAL, [])
  else
    tsb_spi_write (reg_base info) DW_SPI_SSIENR 1 ;;
    rx ← exchange_loop poll_fuel (reg_base info) (txbuffer transfer) (nwords transfer) 0 0;
    tsb_spi_write (reg_base info) DW_SPI_SSIENR 0 ;;
    mret (0, if rxbuffer transfer then rx else []).

Definition es3_get_master_caps (info : tsb_spi_info) : B (Z * master_spi_caps) := mret (0, si_caps info).

Definition es3_get_device_cfg (info : tsb_spi_info) (cs : Z) : B (Z * device_spi_cfg) :=
  cfg ← the (dev_cfg info !! Z.to_nat cs); mret (0, cfg).

(** ** The driver interface (device_spi.h) *)

Record device_spi_type_ops := {
  op_lock : option (B Z);
  op_unlock : option (B Z);
  op_select : option (Z -> B Z);
  op_deselect : option (Z -> B Z);
  op_setfrequency : option (Z -> Z -> B Z);
  op_setmode : option (Z -> Z -> B Z);
  op_setbits : option (Z -> Z -> B Z);
  op_exchange : option (device_spi_transfer -> B (Z * list Z));
  op_get_master_caps : option (B (Z * master_spi_caps));
  op_get_device_cfg : option (Z -> B (Z * device_spi_cfg))
}.

Definition es3_spi_ops (info : tsb_spi_info) : device_spi_type_ops :=
  {| op_lock := None; op_unlock := None;
     op_select := Some (es3_spi_select info); op_deselect := Some (es3_spi_deselect info);
     op_setfrequency := Some (es3_spi_setfrequency info);
     op_setmode := Some (es3_spi_setmode info); op_setbits := Some (es3_spi_setbits info);
     op_exchange := Some (es3_spi_exchange info);
     op_get_master_caps := Some (es3_get_master_caps info);
     op_get_device_cfg := Some (es3_get_device_cfg info) |}.

(** A device with no table answers [-ENODEV]; a table without the operation
    answers [-ENOSYS]. *)
Definition device (info : option device_spi_type_ops) {A} (f : device_spi_type_ops -> option (B A))
    (err : Z -> A) : B A :=
  match info with
  | None => mret (err (- ENODEV))
  | Some ops => match f ops with Some op => op | None => mret (err (- ENOSYS)) end
  end.

Definition device_spi_lock dev : B Z := device dev op_lock id.
Definition device_spi_unlock dev : B Z := device dev op_unlock id.
Definition device_spi_select dev devid : B Z := device dev (λ o, (.$ devid) <$> op_select o) id.
Definition device_spi_deselect dev devid : B Z := device dev (λ o, (.$ devid) <$> op_deselect o) id.
Definition device_spi_setfrequency dev cs f : B Z := device dev (λ o, (λ g, g cs f) <$> op_setfrequency o) id.
Definition device_spi_setmode dev cs mode : B Z := device dev (λ o, (λ g, g cs mode) <$> op_setmode o) id.
Definition device_spi_setbits dev cs nbits : B Z := device dev (λ o, (λ g, g cs nbits) <$> op_setbits o) id.
Definition device_spi_exchange dev transfer : B (Z * list Z) :=
  device dev (λ o, (.$ transfer) <$> op_exchange o) (λ rc, (rc, [])).

(** On an error the structure of the caller keeps its contents [old]. *)
Definition device_spi_get_master_caps dev (old : master_spi_caps) : B (Z * master_spi_caps) :=
  device dev op_get_master_caps (λ rc, (rc, old)).

(** The presence test looks at [get_master_caps]. *)
Definition device_spi_get_device_cfg (dev : option device_spi_type_ops) (cs : Z) (old : device_spi_cfg)
    : B (Z * device_spi_cfg) :=
  match dev with
  | None => mret (- ENODEV, old)
  | Some ops =>
      match op_get_master_caps ops with
      | None => mret (- ENOSYS, old)
      | Some _ => match op_get_device_cfg ops with Some op => op cs | None => fault end
      end
  end.

Definition spi_info : tsb_spi_info :=
  {| reg_base := SPI_BASE;
     si_caps := {| caps_bpw := CONFIG_SPI_BPW_MASK; caps_min_speed_hz := CONFIG_SPI_MIN_FREQ;
                   caps_max_speed_hz := CONFIG_SPI_MAX_FREQ;
                   caps_modes := Z.lor SPI_MODE_CPHA SPI_MODE_CPOL; caps_flags := 0;
                   caps_csnum := CONFIG_SPI_MAX_CHIPS |};
     dev_cfg := chips_info |}.

(** The result is the [ops] member of the registered device. *)
Definition chip_spi_master_init : B device_spi_type_ops :=
  tsb_clk_enable TSB_CLK_SPIP ;;
  tsb_clk_enable TSB_CLK_SPIS ;;
  add_clk_usage 1 ;;
  mret (es3_spi_ops spi_info).
End spi_master.
