(* ===== verification/SpiDuplex.v ===== *)
(** * SpiDuplex: the exchange loop against a controller with two FIFOs

    The controller of SpiMaster.v: bytes written to the data register queue in a
    transmit FIFO, are shifted out to the slave at any time, and what the slave
    answers queues in a receive FIFO.  Both FIFOs are finite and lose bytes: a
    write to a full transmit FIFO is ignored, and so is a byte that is shifted in
    when the receive FIFO is full.  The loop of [es3_spi_exchange] loses none. *)

From S2P Require Import Prelude Machine Chip Sim Unipro Spi Greybus SpiMaster.

Section duplex.
Context {S : Type} (step : S -> Z -> Z * S) (tx_depth rx_depth : nat).

(** [dx_sched]: how many bytes are shifted before each register access; when it
    is used up the bus is faster than the processor and shifts them all. *)
Record duplex := Duplex {
  dx_slave : S; dx_tx : list Z; dx_rx : list Z; dx_on : bool; dx_sched : list nat; dx_mem : Z -> Z
}.

(** [k] bytes cross the bus. *)
Fixpoint shift (k : nat) (d : duplex) : duplex :=
  match k, dx_tx d with
  | Datatypes.S k, b :: q =>
      let '(a, s) := step (dx_slave d) b in
      let rx := if (length (dx_rx d) <? rx_depth)%nat then dx_rx d ++ [u8 a] else dx_rx d in
      shift k (Duplex s q rx (dx_on d) (dx_sched d) (dx_mem d))
  | _, _ => d
  end.

(** The time up to the next register access. *)
Definition elapse (d : duplex) : duplex :=
  match dx_sched d with
  | [] => shift (length (dx_tx d)) d
  | k :: ks => shift k (Duplex (dx_slave d) (dx_tx d) (dx_rx d) (dx_on d) ks (dx_mem d))
  end.

Definition dx_status (d : duplex) : Z :=
  Z.lor (if (length (dx_tx d) <? tx_depth)%nat then SPI_SR_TFNF_MASK else 0)
    (Z.lor (if decide (dx_rx d = []) then 0 else SPI_SR_RFNE_MASK)
           (if decide (length (dx_rx d) = rx_depth) then SPI_SR_RFF_MASK else 0)).

Definition dx_read (a : Z) (d : duplex) : Z * duplex :=
  let d := elapse d in
  if a =? SPI_BASE + DW_SPI_SR then (dx_status d, d)
  else if a =? SPI_BASE + DW_SPI_DR then
    match dx_rx d with
    | [] => (0, d)
    | b :: q => (b, Duplex (dx_slave d) (dx_tx d) q (dx_on d) (dx_sched d) (dx_mem d))
    end
  else (0, d).

(** Disabling the controller empties its FIFOs; while it is off, writes to the
    data register are ignored. *)
Definition dx_write (a v : Z) (d : duplex) : duplex :=
  let d := elapse d in
  if a =? SPI_BASE + DW_SPI_DR then
    if dx_on d && (length (dx_tx d) <? tx_depth)%nat
    then Duplex (dx_slave d) (dx_tx d ++ [v]) (dx_rx d) (dx_on d) (dx_sched d) (dx_mem d) else d
  else if a =? SPI_BASE + DW_SPI_SSIENR then
    if v =? 0 then Duplex (dx_slave d) [] [] false (dx_sched d) (dx_mem d)
    else Duplex (dx_slave d) (dx_tx d) (dx_rx d) true (dx_sched d) (dx_mem d)
  else d.

#[local] Instance duplex_hw : Hardware :=
  {| dev := duplex; reg_read := dx_read; reg_write := dx_write;
     reg_write8 := λ _ _ d, d; buf_read8 := λ a d, dx_mem d a |}.

(** ** What the slave sees and answers *)

Fixpoint answers (s : S) (bs : list Z) : list Z :=
  match bs with
  | [] => []
  | b :: bs => let '(a, s) := step s b in u8 a :: answers s bs
  end.

Fixpoint slave_after (s : S) (bs : list Z) : S :=
  match bs with
  | [] => s
  | b :: bs => slave_after (snd (step s b)) bs
  end.

(** What is sent: the transmit buffer from word [i] on, or zeros. *)
Definition sent (txbuf : option Z) (mem : Z -> Z) (i n : Z) : list Z :=
  match txbuf with
  | Some a => map (λ x, u8 (mem x)) (seqZ (a + i) (n - i))
  | None => replicate (Z.to_nat (n - i)) 0
  end.

Lemma sent_cons txbuf mem i n :
  i < n -> sent txbuf mem i n =
    match txbuf with Some a => u8 (mem (a + i)) | None => 0 end :: sent txbuf mem (i + 1) n.
Proof.
  intros Hi. unfold sent. destruct txbuf as [a|].
  - rewrite (seqZ_cons (a + i)) by lia. cbn [map]. f_equal.
    by replace (Z.succ (a + i)) with (a + (i + 1)) by lia;
      replace (Z.pred (n - i)) with (n - (i + 1)) by lia.
  - by replace (Z.to_nat (n - i)) with (Datatypes.S (Z.to_nat (n - (i + 1)))) by lia.
Qed.

Lemma sent_nil txbuf mem n : sent txbuf mem n n = [].
Proof. unfold sent. rewrite Z.sub_diag. by destruct txbuf. Qed.

(** ** Nothing is lost

    The bytes the loop has not sent yet are [rest]: what is still to be read, the
    slave at the end, and the bytes inside the controller. *)

Definition to_read (d : duplex) (rest : list Z) : list Z :=
  dx_rx d ++ answers (dx_slave d) (dx_tx d ++ rest).
Definition at_end (d : duplex) (rest : list Z) : S := slave_after (dx_slave d) (dx_tx d ++ rest).
Definition inside (d : duplex) : nat := length (dx_tx d) + length (dx_rx d).

(** [d'] is [d] some time later, with nothing lost. *)
Record later (d d' : duplex) : Prop := {
  lt_read rest : to_read d' rest = to_read d rest;
  lt_end rest : at_end d' rest = at_end d rest;
  lt_inside : inside d' = inside d;
  lt_tx : (length (dx_tx d') <= length (dx_tx d))%nat;
  lt_rx : dx_rx d <> [] -> dx_rx d' <> [];
  lt_bytes : Forall is_u8 (dx_rx d) -> Forall is_u8 (dx_rx d');
  lt_on : dx_on d' = dx_on d;
  lt_mem : dx_mem d' = dx_mem d
}.

Lemma later_refl d : later d d.
Proof. by split. Qed.

Lemma later_trans d1 d2 d3 : later d1 d2 -> later d2 d3 -> later d1 d3.
Proof. intros [] []. split; try congruence; [lia|auto|auto]. Qed.

Lemma shift_later k : forall d, (inside d <= rx_depth)%nat -> later d (shift k d).
Proof.
  induction k as [|k IH]; intros [s tx rx on ks mem] Hd; cbn [shift dx_tx]; [apply later_refl|].
  destruct tx as [|b q]; [apply later_refl|]. cbn [dx_slave dx_rx dx_on dx_sched dx_mem].
  unfold inside in Hd. cbn in Hd. destruct (step s b) as [a s'] eqn:Es.
  rewrite (proj2 (Nat.ltb_lt _ _)) by lia. eapply later_trans; [|apply IH].
  - split; unfold to_read, at_end, inside; cbn; rewrite ?Es; try done.
    + intros rest. by rewrite <- app_assoc.
    + rewrite length_app. cbn. lia.
    + lia.
    + intros _. by destruct rx.
    + intros Hb. apply Forall_app. split; [done|]. repeat constructor; apply u8_range.
  - unfold inside. cbn. rewrite length_app. cbn. lia.
Qed.

Lemma elapse_later d : (inside d <= rx_depth)%nat -> later d (elapse d).
Proof.
  intros Hd. unfold elapse. destruct (dx_sched d) as [|k ks]; [by apply shift_later|].
  refine (later_trans _ _ _ _ (shift_later k _ _)); [|done]. by split.
Qed.

Lemma shift_sched k : forall d, dx_sched (shift k d) = dx_sched d.
Proof.
  induction k as [|k IH]; intros [s tx rx on ks mem]; cbn [shift dx_tx]; [done|].
  destruct tx as [|b q]; [done|]. cbn. destruct (step s b). by rewrite IH.
Qed.

Lemma elapse_sched d : dx_sched (elapse d) = tail (dx_sched d).
Proof. unfold elapse. destruct (dx_sched d) eqn:E; by rewrite shift_sched, ?E. Qed.

Lemma shift_all k : forall d, (length (dx_tx d) <= k)%nat -> dx_tx (shift k d) = [].
Proof.
  induction k as [|k IH]; intros [s tx rx on ks mem] Hk; cbn [shift dx_tx] in *; destruct tx as [|b q]; try done.
  - cbn in Hk. lia.
  - cbn. destruct (step s b). apply IH. cbn in *. lia.
Qed.

(** ** The register accesses of the loop *)

Context `{Platform}.

(** Everything fits: the loop keeps at most [tx_depth] bytes inside, one more
    between its write and its read. *)
Context (Hdepth : (1 <= tx_depth < rx_depth)%nat \/ (tx_depth = 1 /\ rx_depth = 1)%nat).

Lemma tx_byte_duplex txbuf i m :
  tx_byte txbuf i m =
    (Done match txbuf with Some a => u8 (dx_mem (m_dev m) (a + i)) | None => 0 end, m).
Proof.
  destruct txbuf as [a|]; [|done]. unfold tx_byte, rx_bytes. cbv [mbind boot_bind gets mret boot_ret].
  change (seqZ (a + i) 1) with (seqZ (a + i) (Z.succ 0)). rewrite seqZ_cons by lia. cbn [map].
  cbn [Z.pred Z.succ]. replace (seqZ (Z.succ (a + i)) (Z.pred (Z.succ 0))) with (@nil Z) by done.
  cbn [map le_combine]. do 2 f_equal. cbn. lia.
Qed.

Lemma read_status m :
  tsb_spi_read SPI_BASE DW_SPI_SR m = (Done (dx_status (elapse (m_dev m))), set_dev (elapse (m_dev m)) m).
Proof.
  unfold tsb_spi_read, getreg32. change (SPI_BASE +₃₂ DW_SPI_SR) with (SPI_BASE + DW_SPI_SR).
  cbn [reg_read duplex_hw]. unfold dx_read. by rewrite Z.eqb_refl.
Qed.

Lemma status_room d :
  (Z.land (dx_status d) SPI_SR_TFNF_MASK =? 0) = negb (length (dx_tx d) <? tx_depth)%nat.
Proof. unfold dx_status. destruct (_ <? _)%nat; repeat case_decide; done. Qed.
Lemma status_full d :
  (Z.land (dx_status d) SPI_SR_RFF_MASK =? 0) = negb (bool_decide (length (dx_rx d) = rx_depth)).
Proof. unfold dx_status. case_bool_decide; destruct (_ <? _)%nat; repeat case_decide; done. Qed.
Lemma status_data d : (Z.land (dx_status d) SPI_SR_RFNE_MASK =? 0) = bool_decide (dx_rx d = []).
Proof. unfold dx_status. case_bool_decide; destruct (_ <? _)%nat; repeat case_decide; done. Qed.

(** A read takes the first byte that is to be read. *)
Lemma read_data m rest :
  (inside (m_dev m) <= rx_depth)%nat -> dx_rx (m_dev m) <> [] -> Forall is_u8 (dx_rx (m_dev m)) ->
  exists b d, tsb_spi_read SPI_BASE DW_SPI_DR m = (Done b, set_dev d m) /\ is_u8 b /\
    to_read (m_dev m) rest = b :: to_read d rest /\ at_end d rest = at_end (m_dev m) rest /\
    Datatypes.S (inside d) = inside (m_dev m) /\ (length (dx_tx d) <= length (dx_tx (m_dev m)))%nat /\
    Forall is_u8 (dx_rx d) /\ dx_on d = dx_on (m_dev m) /\ dx_mem d = dx_mem (m_dev m) /\
    dx_sched d = tail (dx_sched (m_dev m)).
Proof.
  intros Hin Hne Hb. pose proof (elapse_sched (m_dev m)) as Hsch.
  destruct (elapse_later (m_dev m) Hin) as [L1 L2 L3 L4 L5 L6 L7 L8]. specialize (L5 Hne). specialize (L6 Hb).
  unfold tsb_spi_read, getreg32. change (SPI_BASE +₃₂ DW_SPI_DR) with (SPI_BASE + DW_SPI_DR).
  cbn [reg_read duplex_hw]. unfold dx_read.
  change (SPI_BASE + DW_SPI_DR =? SPI_BASE + DW_SPI_SR) with false. rewrite Z.eqb_refl. cbv zeta iota.
  rewrite <- L1, <- L2, <- L3, <- L7, <- L8. clear L1 L2 L3 L7 L8.
  destruct (elapse (m_dev m)) as [s tx rx on ks mem]. cbn in *. destruct rx as [|b q]; [done|].
  apply Forall_cons in L6 as [Hub Huq]. exists b, (Duplex s tx q on ks mem). split; [done|].
  unfold to_read, at_end, inside. cbn. split_and!; (done || lia).
Qed.

(** A write that fits joins the bytes inside. *)
Lemma write_data m v rest :
  dx_on (m_dev m) = true -> (inside (m_dev m) <= rx_depth)%nat ->
  (length (dx_tx (m_dev m)) < tx_depth)%nat ->
  exists d, tsb_spi_write SPI_BASE DW_SPI_DR v m = (Done tt, set_dev d m) /\
    to_read d rest = to_read (m_dev m) (v :: rest) /\ at_end d rest = at_end (m_dev m) (v :: rest) /\
    inside d = Datatypes.S (inside (m_dev m)) /\ (dx_rx (m_dev m) <> [] -> dx_rx d <> []) /\
    (Forall is_u8 (dx_rx (m_dev m)) -> Forall is_u8 (dx_rx d)) /\ dx_on d = true /\
    dx_mem d = dx_mem (m_dev m) /\ dx_sched d = tail (dx_sched (m_dev m)).
Proof.
  intros Hon Hin Hroom. destruct (elapse_later (m_dev m) Hin) as [L1 L2 L3 L4 L5 L6 L7 L8].
  pose proof (elapse_sched (m_dev m)) as Hsch.
  unfold tsb_spi_write, putreg32, modify. change (SPI_BASE +₃₂ DW_SPI_DR) with (SPI_BASE + DW_SPI_DR).
  cbn [reg_write duplex_hw]. unfold dx_write. rewrite Z.eqb_refl. cbv zeta. rewrite L7, Hon. cbn [andb].
  rewrite (proj2 (Nat.ltb_lt _ _)) by lia. rewrite <- L1, <- L2, <- L3, <- L8, <- Hsch.
  eexists. split; [done|]. unfold to_read, at_end, inside. cbn. rewrite <- !app_assoc, length_app. cbn.
  split_and!; (done || lia).
Qed.

(** ** The loop *)

(** Between two iterations, [t] bytes sent and [r] read of [n]. *)
Record between (n t r : Z) (d : duplex) : Prop := {
  bw_on : dx_on d = true;
  bw_inside : (inside d <= tx_depth)%nat;
  bw_count : t - r = Z.of_nat (inside d);
  bw_bytes : Forall is_u8 (dx_rx d);
  bw_sent : t <= n
}.

(** The decision to send, from the status in [d]. *)
Definition sends (n t : Z) (d : duplex) : bool :=
  (t <? n) && (length (dx_tx d) <? tx_depth)%nat && negb (bool_decide (length (dx_rx d) = rx_depth)).

Lemma send_phase txbuf n t r m :
  between n t r (m_dev m) ->
  let go := sends n t (m_dev m) in
  let t' := if go then t + 1 else t in
  exists d, when go (u8_dr ← tx_byte txbuf t; tsb_spi_write SPI_BASE DW_SPI_DR u8_dr) m = (Done tt, set_dev d m) /\
    to_read d (sent txbuf (dx_mem d) t' n) = to_read (m_dev m) (sent txbuf (dx_mem (m_dev m)) t n) /\
    at_end d (sent txbuf (dx_mem d) t' n) = at_end (m_dev m) (sent txbuf (dx_mem (m_dev m)) t n) /\
    t' - r = Z.of_nat (inside d) /\ t' <= n /\ (dx_rx (m_dev m) <> [] -> dx_rx d <> []) /\
    Forall is_u8 (dx_rx d) /\ dx_on d = true /\ dx_mem d = dx_mem (m_dev m) /\
    (length (dx_sched d) <= length (dx_sched (m_dev m)))%nat /\
    (inside d <= if decide (dx_rx (m_dev m) = []) then tx_depth else rx_depth)%nat.
Proof.
  intros [Hon Hin Hc Hb Ht] go t'. unfold t'. destruct go eqn:Hgo; unfold go in Hgo; cbn [when].
  - unfold sends in Hgo. rewrite !andb_true_iff, Z.ltb_lt, Nat.ltb_lt in Hgo. destruct Hgo as [[Htn Hroom] Hfull].
    apply negb_true_iff, bool_decide_eq_false in Hfull.
    rewrite (bind_step _ _ _ _ _ (tx_byte_duplex txbuf t m)).
    destruct (write_data m match txbuf with Some a => u8 (dx_mem (m_dev m) (a + t)) | None => 0 end
      (sent txbuf (dx_mem (m_dev m)) (t + 1) n) Hon ltac:(lia) Hroom)
      as (d & Hw & E1 & E2 & E3 & E4 & E5 & E6 & E7 & E8).
    exists d. rewrite Hw, E7, E1, E2, E3, E8, <- sent_cons by done. split_and!; try done; try lia; auto.
    + by destruct (dx_sched (m_dev m)); cbn; lia.
    + unfold inside in *. case_decide as Hrx; [rewrite Hrx in *; cbn in *; lia|].
      destruct (dx_rx (m_dev m)); [done|]. cbn in *. lia.
  - exists (m_dev m). split; [by destruct m|]. split_and!; try done. case_decide; lia.
Qed.

Lemma between_elapse n t r d : between n t r d -> between n t r (elapse d).
Proof.
  intros [Hon Hin Hc Hb Ht]. destruct (elapse_later d) as [_ _ L3 _ _ L6 L7 _]; [lia|].
  split; rewrite ?L3, ?L7; auto.
Qed.

(** With the bus idle, the loop can send or read. *)
Lemma idle_progress n t r d :
  between n t r (elapse d) -> dx_sched d = [] -> t < n \/ r < n ->
  sends n t (elapse d) = true \/ dx_rx (elapse d) <> [].
Proof.
  intros [_ _ Hc _ Ht] Hs Hn. assert (Htx : dx_tx (elapse d) = []).
  { unfold elapse. rewrite Hs. by apply shift_all. }
  destruct (decide (dx_rx (elapse d) = [])) as [Hrx|]; [left|by right].
  unfold inside in Hc. rewrite Htx, Hrx in Hc. unfold sends. rewrite Htx, Hrx. cbn [length] in *.
  rewrite (proj2 (Z.ltb_lt _ _)) by lia. rewrite (proj2 (Nat.ltb_lt _ _)) by lia.
  by rewrite bool_decide_false by lia.
Qed.

Lemma exchange_loop_duplex txbuf n : forall fuel t r m,
  between n t r (m_dev m) ->
  (n - t) + (n - r) + Z.of_nat (length (dx_sched (m_dev m))) <= Z.of_nat fuel ->
  exists d, exchange_loop fuel SPI_BASE txbuf n t r m =
      (Done (to_read (m_dev m) (sent txbuf (dx_mem (m_dev m)) t n)), set_dev d m) /\
    dx_slave d = at_end (m_dev m) (sent txbuf (dx_mem (m_dev m)) t n) /\
    dx_mem d = dx_mem (m_dev m) /\ inside d = 0%nat.
Proof.
  induction fuel as [|fuel IH]; intros t r m Hbw Hfuel; cbn [exchange_loop];
    (destruct ((t <? n) || (r <? n)) eqn:Eb;
      [apply orb_true_iff in Eb; rewrite !Z.ltb_lt in Eb
      |apply orb_false_iff in Eb as [Et Er]; apply Z.ltb_ge in Et, Er]).
  1: destruct Hbw; lia.
  1, 3: destruct Hbw as [_ _ Hc _ Ht]; assert (t = n) as -> by lia;
    assert (inside (m_dev m) = 0%nat) as H0' by lia; exists (m_dev m);
    rewrite sent_nil; unfold to_read, at_end, inside in *;
    destruct (dx_tx (m_dev m)), (dx_rx (m_dev m)); (done || (split_and!; by destruct m)).
  rewrite (bind_step _ _ _ _ _ (read_status m)). cbv zeta.
  rewrite status_room, status_full, status_data, !negb_involutive.
  set (d1 := elapse (m_dev m)) in *. set (m1 := @set_dev duplex_hw d1 m).
  pose proof (between_elapse _ _ _ _ Hbw) as Hbw1. fold d1 in Hbw1.
  destruct (elapse_later (m_dev m)) as [L1 L2 L3 _ _ _ _ L8]; [destruct Hbw; lia|]. fold d1 in L1, L2, L3, L8.
  destruct (send_phase txbuf n t r m1 Hbw1) as (d2 & E & R1 & R2 & R3 & R4 & R5 & R6 & R7 & R8 & R9 & R10).
  change (m_dev m1) with d1 in *. fold (sends n t d1). rewrite (bind_step _ _ _ _ _ E).
  set (t' := if sends n t d1 then t + 1 else t) in *.
  assert (Hs1 : length (dx_sched d1) = (length (dx_sched (m_dev m)) - 1)%nat).
  { unfold d1. rewrite elapse_sched. by destruct (dx_sched (m_dev m)); cbn; lia. }
  rewrite <- L1, <- L2, <- L8, <- R1, <- R2, <- R8. case_decide as Hrx.
  - rewrite (bool_decide_true (dx_rx d1 = [])) by done. cbn [negb]. rewrite andb_false_r.
    destruct (IH t' r (set_dev d2 m1)) as (d & Ed & D1 & D2 & D3).
    + by split.
    + cbn [m_dev set_dev]. destruct (decide (dx_sched (m_dev m) = [])) as [Hnil|Hnil].
      * destruct (idle_progress n t r (m_dev m) Hbw1 Hnil Eb) as [Hg|]; [|done].
        unfold t'. fold d1 in Hg. rewrite Hg, Hnil in *. cbn in *. lia.
      * destruct (dx_sched (m_dev m)); [done|]. cbn in *. unfold t'. destruct (sends n t d1); lia.
    + exists d. cbn [m_dev set_dev] in *. rewrite Ed. by split_and!.
  - rewrite (bool_decide_false (dx_rx d1 = [])) by done. cbn [negb].
    assert (Ht' : t <= t' <= t + 1) by (unfold t'; destruct (sends n t d1); lia). clearbody t'.
    assert (Hr : r < n).
    { destruct Hbw1 as [_ _ Hc _ Ht]. unfold inside in Hc. destruct (dx_rx d1); [done|]. cbn in Hc. lia. }
    rewrite (proj2 (Z.ltb_lt r n) Hr). cbn [andb].
    destruct (read_data (set_dev d2 m1) (sent txbuf (dx_mem d2) t' n)) as
      (b & d3 & E3 & Hb & Q1 & Q2 & Q3 & _ & Q5 & Q6 & Q7 & Q8); [done|by apply R5|done|].
    cbn [m_dev set_dev] in *. rewrite (bind_step _ _ _ _ _ E3).
    destruct (IH t' (r + 1) (set_dev d3 (set_dev d2 m1))) as (d & Ed & D1 & D2 & D3).
    + destruct Hbw1 as [_ Hin Hc _ _]. split; cbn [m_dev set_dev]; [congruence|lia|lia|done|done].
    + cbn [m_dev set_dev]. rewrite Q8. assert (length (tail (dx_sched d2)) <= length (dx_sched d2))%nat
        by (destruct (dx_sched d2); cbn; lia). lia.
    + cbn [m_dev set_dev] in *. rewrite Q7 in *. exists d. rewrite (bind_step _ _ _ _ _ Ed), Q1, <- Q2.
      change (Z.land b 0xFF) with (u8 b). rewrite u8_small by done. by split_and!.
Qed.

(** [C32] Full-duplex exchanges lose no byte, at any speed of the bus: against a
    controller whose FIFOs drop what does not fit, with a receive FIFO deeper than
    the transmit FIFO (or both one byte deep), [es3_spi_exchange] returns 0, the
    slave has seen exactly the [nwords] bytes of the transmit buffer (zeros
    without one) in order, all its answers are stored in order, and the
    controller is empty and off.  Two polls per byte are enough, and one for
    every register access during which the bus was held up. *)
Theorem spi_exchange_full_duplex tr m s sched mem :
  m_dev m = Duplex s [] [] false sched mem -> 0 <= nwords tr ->
  (txbuffer tr <> None \/ rxbuffer tr <> None) ->
  2 * nwords tr + Z.of_nat (length sched) <= Z.of_nat poll_fuel ->
  let tx := sent (txbuffer tr) mem 0 (nwords tr) in
  exists sched',
  es3_spi_exchange spi_info tr m =
    (Done (0, if rxbuffer tr then answers s tx else []),
     set_dev (Duplex (slave_after s tx) [] [] false sched' mem) m).
Proof.
  intros Hd Hn Hbuf Hfuel tx. unfold es3_spi_exchange.
  assert (Hb : bool_decide (txbuffer tr = None) && bool_decide (rxbuffer tr = None) = false).
  { apply andb_false_iff. rewrite !bool_decide_eq_false. tauto. }
  rewrite Hb. cbn [reg_base spi_info].
  assert (Hen : forall v m1, tsb_spi_write SPI_BASE DW_SPI_SSIENR v m1 =
    (Done tt, set_dev (dx_write (SPI_BASE + DW_SPI_SSIENR) v (m_dev m1)) m1)) by done.
  rewrite (bind_step _ _ _ _ _ (Hen 1 m)). rewrite Hd. unfold dx_write at 1.
  change (SPI_BASE + DW_SPI_SSIENR =? SPI_BASE + DW_SPI_DR) with false. rewrite Z.eqb_refl. cbv zeta iota.
  change (1 =? 0) with false. cbv iota.
  assert (He : elapse (Duplex s [] [] false sched mem) = Duplex s [] [] false (tail sched) mem).
  { unfold elapse. cbn. destruct sched as [|[|k] ks]; done. }
  rewrite He. cbn [dx_slave dx_tx dx_rx dx_sched dx_mem].
  destruct (exchange_loop_duplex (txbuffer tr) (nwords tr) poll_fuel 0 0
    (@set_dev duplex_hw (Duplex s [] [] true (tail sched) mem) m)) as (d & Ed & D1 & D2 & D3).
  - split; try done. unfold inside. cbn. lia.
  - cbn. destruct sched; cbn in *; lia.
  - rewrite (bind_step _ _ _ _ _ Ed), (bind_step _ _ _ _ _ (Hen 0 _)). cbn [m_dev set_dev] in *.
    unfold dx_write. change (SPI_BASE + DW_SPI_SSIENR =? SPI_BASE + DW_SPI_DR) with false.
    rewrite !Z.eqb_refl. cbv zeta iota. destruct (elapse_later d) as [_ L2 _ L4 _ _ _ L8]; [lia|].
    exists (dx_sched (elapse d)). rewrite L8, D2. specialize (L2 []). unfold at_end, inside in *.
    destruct (dx_tx d); [|done]. destruct (dx_tx (elapse d)); [|cbn in L4; lia]. cbn in L2, D1. rewrite L2, D1.
    unfold to_read, tx. cbn. done.
Qed.
End duplex.

(** A slave that answers each byte with the one before it, behind FIFOs of two
    and three bytes, on a bus that holds bytes up and then shifts two at once. *)
Lemma spi_exchange_full_duplex_witness :
  let hw := duplex_hw (λ s b, (s, b)) 2 3 in
  let m := @sim_machine_at hw (Duplex 0x5a [] [] false [0; 0; 0; 0; 2; 0; 0; 1; 2]%nat (λ a, a)) in
  let tr := {| txbuffer := Some 0x10; rxbuffer := Some 0; nwords := 4 |} in
  fst (@es3_spi_exchange (sim_platform Stage2 [] []) hw spi_info tr m) = Done (0, [0x5a; 0x10; 0x11; 0x12]).
Proof.
  intros hw m tr. subst hw.
  destruct (@spi_exchange_full_duplex Z (λ s b, (s, b)) 2 3 (sim_platform Stage2 [] []) ltac:(lia) tr m 0x5a
    [0; 0; 0; 0; 2; 0; 0; 1; 2]%nat (λ a, a) eq_refl ltac:(vm_compute; discriminate) ltac:(left; discriminate)
    ltac:(vm_compute; discriminate)) as [sched' E].
  rewrite E. vm_compute. reflexivity.
Defined.

(** Deeper FIFOs of the same size are too small for a bus that shifts two bytes
    between the poll and the read: the answer to the third byte is lost, and the
    loop waits for it for ever. *)
Example equal_depths_lose_a_byte :
  let hw := duplex_hw (λ s b, (s, b)) 2 2 in
  let m := @sim_machine_at hw (Duplex 0x5a [] [] false [0; 0; 0; 0; 0; 1; 0; 2]%nat (λ a, a)) in
  let tr := {| txbuffer := Some 0x10; rxbuffer := Some 0; nwords := 3 |} in
  fst (@es3_spi_exchange (sim_platform Stage2 [] []) hw spi_info tr m) = Spin.
Proof. vm_compute. reflexivity. Qed.
