(* ===== verification/SpiGb.v ===== *)
(** * SpiGb: SPI over Greybus (common/src/spi-gb.c)

    The request handlers of the SPI protocol on top of [SpiMaster].  A transfer
    request carries an array of descriptors and the bytes to write; its response
    buffer is a variable-sized array on the stack, whose initial contents are the
    parameter [stack]. *)

From S2P Require Import Prelude Machine Chip Sim Unipro Spi Greybus SpiMaster SpiDuplex.

Definition GB_SPI_VERSION_MAJOR : Z := 0.
Definition GB_SPI_VERSION_MINOR : Z := 1.
Definition GB_SPI_PROTOCOL_VERSION : Z := 0x01.
Definition GB_SPI_TYPE_MASTER_CONFIG : Z := 0x02.
Definition GB_SPI_TYPE_DEVICE_CONFIG : Z := 0x03.
Definition GB_SPI_PROTOCOL_TRANSFER : Z := 0x04.
Definition GB_OP_UNKNOWN_ERROR : Z := 0xFE.
Definition TRANSFER_REQUEST_SIZE : Z := 4.
Definition TRANSFER_DESC_SIZE : Z := 13.

Record gb_spi_transfer_desc := {
  speed_hz : Z; desc_len : Z; delay_usecs : Z; cs_change : Z; bits_per_word : Z; rdwr : Z
}.

Definition desc_of (b : list Z) : gb_spi_transfer_desc :=
  {| speed_hz := get32 b 0; desc_len := get32 b 4; delay_usecs := get16 b 8; cs_change := get8 b 10;
     bits_per_word := get8 b 11; rdwr := get8 b 12 |}.

Section spi_gb.
Context `{Platform, Hardware}.

(** [spi_dev], and what the stack holds where locals are not initialised. *)
Context (dev : option device_spi_type_ops) (stack : Z -> Z).

Definition gb_operation_request_size (op : Z) : B Z :=
  n ← op_size op; mret (n -₃₂ GB_OPERATION_HEADER_SIZE).

Definition gb_spi_get_version (cportid op : Z) : B Z :=
  greybus_op_response cportid op GB_OP_SUCCESS [GB_SPI_VERSION_MAJOR; GB_SPI_VERSION_MINOR].

(** Locals that are only read after a successful call. *)
Definition no_caps : master_spi_caps :=
  {| caps_bpw := 0; caps_min_speed_hz := 0; caps_max_speed_hz := 0; caps_modes := 0; caps_flags := 0;
     caps_csnum := 0 |}.
Definition no_cfg : device_spi_cfg :=
  {| cfg_mode := 0; cfg_bpw := 0; cfg_max_speed_hz := 0; cfg_device_type := 0; cfg_name := [] |}.

Definition gb_spi_type_master_config (cportid op : Z) : B Z :=
  r ← device_spi_get_master_caps dev no_caps;
  let '(rc, caps) := r : Z * master_spi_caps in
  if negb (rc =? 0) then greybus_op_response cportid op GB_OP_UNKNOWN_ERROR [] ;; mret (-1)
  else
    greybus_op_response cportid op GB_OP_SUCCESS
      (le_split 4 (caps_bpw caps) ++ le_split 4 (caps_min_speed_hz caps)
       ++ le_split 4 (caps_max_speed_hz caps) ++ le_split 2 (caps_modes caps)
       ++ le_split 2 (caps_flags caps) ++ le_split 1 (caps_csnum caps)).

Definition gb_spi_type_device_config (cportid op : Z) : B Z :=
  n ← gb_operation_request_size op;
  if n <? 1 then greybus_op_response cportid op GB_OP_INVALID [] ;; mret (-1)
  else
    bs ← rx_bytes (op + GB_OPERATION_HEADER_SIZE) 1;
    r ← device_spi_get_device_cfg dev (le_combine bs) no_cfg;
    let '(rc, cfg) := r : Z * device_spi_cfg in
    if negb (rc =? 0) then greybus_op_response cportid op GB_OP_UNKNOWN_ERROR [] ;; mret (-1)
    else
      greybus_op_response cportid op GB_OP_SUCCESS
        (le_split 2 (cfg_mode cfg) ++ le_split 1 (cfg_bpw cfg) ++ le_split 4 (cfg_max_speed_hz cfg)
         ++ le_split 1 (cfg_device_type cfg) ++ take 32 (cfg_name cfg)).

Definition desc_at (op i : Z) : B gb_spi_transfer_desc :=
  bs ← rx_bytes (op + GB_OPERATION_HEADER_SIZE + TRANSFER_REQUEST_SIZE + TRANSFER_DESC_SIZE * i)
                TRANSFER_DESC_SIZE;
  mret (desc_of bs).

Definition is_read (d : gb_spi_transfer_desc) : bool := negb (Z.land (rdwr d) SPI_XFER_READ =? 0).
Definition is_write (d : gb_spi_transfer_desc) : bool := negb (Z.land (rdwr d) SPI_XFER_WRITE =? 0).

(** The first loop: bytes to be read, in 32 bits. *)
Fixpoint read_size (n : nat) (op i size : Z) : B Z :=
  match n with
  | O => mret size
  | S n => d ← desc_at op i;
           read_size n op (i + 1) (if is_read d then size +₃₂ desc_len d else size)
  end.

(** Stores through [read_buf], inside the array. *)
Definition store_read (payload : list Z) (ofs : Z) (bs : list Z) : B (list Z) :=
  if ofs + Z.of_nat (length bs) <=? Z.of_nat (length payload) then mret (splice payload ofs bs) else fault.

(** The second loop, from its [i]-th iteration to [spi_err]: the chip-select
    state and the response buffer there. *)
Fixpoint transfer_loop (n : nat) (op cs i write_data read_buf : Z) (selected : bool) (payload : list Z)
    : B (bool * list Z) :=
  match n with
  | O => mret (selected, payload)
  | S n =>
      d ← desc_at op i;
      ret ← device_spi_setbits dev cs (bits_per_word d);
      if negb (ret =? 0) then mret (selected, payload)
      else
        ret ← device_spi_setfrequency dev cs (speed_hz d);
        if negb (ret =? 0) then mret (selected, payload)
        else
          ret ← (if selected then mret 0 else device_spi_select dev cs);
          if negb (ret =? 0) then mret (selected, payload)
          else
            r ← device_spi_exchange dev
                  {| txbuffer := if is_write d then Some write_data else None;
                     rxbuffer := if is_read d then Some read_buf else None;
                     nwords := desc_len d |};
            let '(ret, rx) := r : Z * list Z in
            if negb (ret =? 0) then mret (true, payload)
            else
              payload ← store_read payload read_buf rx;
              let write_data := if is_write d then write_data + desc_len d else write_data in
              let read_buf := if is_read d then read_buf + desc_len d else read_buf in
              if negb (cs_change d =? 0) then
                ret ← device_spi_deselect dev cs;
                if negb (ret =? 0) then mret (true, payload)
                else transfer_loop n op cs (i + 1) write_data read_buf false payload
              else transfer_loop n op cs (i + 1) write_data read_buf true payload
  end.

(** [spi_err]: with the chip selected [ret] is overwritten, and without it
    [ret] is not looked at. *)
Definition transfer_end (cportid op cs : Z) (selected : bool) (payload : list Z) : B Z :=
  ret ← (if selected then device_spi_deselect dev cs else mret 0);
  if negb (ret =? 0) then greybus_op_response cportid op GB_OP_UNKNOWN_ERROR [] ;; mret (-1)
  else greybus_op_response cportid op GB_OP_SUCCESS payload.

Definition gb_spi_transfer (cportid op : Z) : B Z :=
  request_size ← gb_operation_request_size op;
  if request_size <? TRANSFER_REQUEST_SIZE then
    greybus_op_response cportid op GB_OP_INVALID [] ;; mret (-1)
  else
    let request := op + GB_OPERATION_HEADER_SIZE in
    bs ← rx_bytes request TRANSFER_REQUEST_SIZE;
    let chip_select := get8 bs 0 in
    let mode := get8 bs 1 in
    let op_count := get16 bs 2 in
    if request_size <? TRANSFER_REQUEST_SIZE + op_count * TRANSFER_DESC_SIZE then
      greybus_op_response cportid op GB_OP_INVALID [] ;; mret (-1)
    else
      let write_data := request + TRANSFER_REQUEST_SIZE + op_count * TRANSFER_DESC_SIZE in
      size ← read_size (Z.to_nat op_count) op 0 0;
      let payload := map stack (seqZ 0 size) in
      ret ← device_spi_setmode dev chip_select mode;
      if negb (ret =? 0) then transfer_end cportid op chip_select false payload
      else
        r ← transfer_loop (Z.to_nat op_count) op chip_select 0 write_data 0 false payload;
        let '(selected, payload) := r : bool * list Z in
        transfer_end cportid op chip_select selected payload.

(** [spi_gb_cport_handlers]. *)
Definition spi_gb_cport_handlers : list (Z * (Z -> Z -> B Z)) :=
  [(GB_SPI_PROTOCOL_VERSION, gb_spi_get_version);
   (GB_SPI_TYPE_MASTER_CONFIG, gb_spi_type_master_config);
   (GB_SPI_TYPE_DEVICE_CONFIG, gb_spi_type_device_config);
   (GB_SPI_PROTOCOL_TRANSFER, gb_spi_transfer)].
End spi_gb.

(** ** What the handlers do not report *)

Section spi_gb_errors.
Context `{Platform, Hardware}.

(** A transfer the controller refuses is acknowledged: a well-formed request
    for a chip that does not exist is answered with [GB_OP_SUCCESS], and the
    data of the answer is whatever the stack held. *)
Theorem spi_transfer_bad_chip_acked stack cportid op m n bs size :
  gb_operation_request_size op m = (Done n, m) ->
  rx_bytes (op + GB_OPERATION_HEADER_SIZE) TRANSFER_REQUEST_SIZE m = (Done bs, m) ->
  TRANSFER_REQUEST_SIZE + get16 bs 2 * TRANSFER_DESC_SIZE <= n -> 0 <= get16 bs 2 ->
  read_size (Z.to_nat (get16 bs 2)) op 0 0 m = (Done size, m) ->
  CONFIG_SPI_MAX_CHIPS <= get8 bs 0 ->
  gb_spi_transfer (Some (es3_spi_ops spi_info)) stack cportid op m =
    greybus_op_response cportid op GB_OP_SUCCESS (map stack (seqZ 0 size)) m.
Proof.
  intros Hn Hb Hlen Hc Hs Hcs. unfold gb_spi_transfer. rewrite (bind_step _ _ _ _ _ Hn).
  unfold TRANSFER_DESC_SIZE, TRANSFER_REQUEST_SIZE in Hlen.
  destruct (Z.ltb_spec n TRANSFER_REQUEST_SIZE) as [Hlt|_]; [unfold TRANSFER_REQUEST_SIZE in Hlt; lia|].
  cbv zeta. rewrite (bind_step _ _ _ _ _ Hb).
  destruct (Z.ltb_spec n (TRANSFER_REQUEST_SIZE + get16 bs 2 * TRANSFER_DESC_SIZE)) as [Hlt|_];
    [unfold TRANSFER_DESC_SIZE, TRANSFER_REQUEST_SIZE in Hlt; lia|].
  rewrite (bind_step _ _ _ _ _ Hs).
  assert (Hm : device_spi_setmode (Some (es3_spi_ops spi_info)) (get8 bs 0) (get8 bs 1) m = (Done (- EINVAL), m)).
  { cbn. unfold es3_spi_setmode. cbn [si_caps spi_info caps_csnum].
    by destruct (Z.leb_spec CONFIG_SPI_MAX_CHIPS (get8 bs 0)); [|lia]. }
  rewrite (bind_step _ _ _ _ _ Hm). done.
Qed.

(** The configuration of a chip that does not exist is read behind the table. *)
Lemma spi_config_bad_chip_faults cs :
  CONFIG_SPI_MAX_CHIPS <= cs -> device_spi_get_device_cfg (Some (es3_spi_ops spi_info)) cs no_cfg = fault.
Proof.
  intros Hcs. cbn. unfold es3_get_device_cfg. cbn [dev_cfg spi_info]. unfold CONFIG_SPI_MAX_CHIPS in Hcs.
  by rewrite lookup_ge_None_2 by (cbn [length chips_info]; lia).
Qed.
End spi_gb_errors.

(** Chip 3, one descriptor that reads two bytes, on a controller that is never
    used. *)
Lemma spi_transfer_bad_chip_acked_witness :
  let hw := duplex_hw (λ s b, (s, b)) 2 3 in
  let msg := [25; 0; 1; 0; 4; 0; 0; 0; 3; 0; 1; 0] ++ le_split 4 1000000 ++ le_split 4 2 ++ [0; 0; 0; 8; 1] in
  let m := @sim_machine_at hw (Duplex 0 [] [] false [] (get8 msg)) in
  let P := sim_platform Stage2 [] [] in
  @gb_spi_transfer P hw (Some (es3_spi_ops spi_info)) (λ _, 0xee) 0 0 m =
    greybus_op_response 0 0 GB_OP_SUCCESS [0xee; 0xee] m.
Proof.
  intros hw msg m P.
  apply (@spi_transfer_bad_chip_acked P hw (λ _, 0xee) 0 0 m 17 [3; 0; 1; 0] 2);
    vm_compute; (reflexivity || discriminate).
Defined.
