(* ===== verification/Ffff.v ===== *)
(** * Ffff: the flash format (common/src/ffff.c, common/shared_inc/ffff.h)

    Flash holds two copies of a header with a table of elements.  The code looks
    for a valid copy, prefers the newer one, and picks the element of the wanted
    type with the highest generation.  A header copy is one of the two static
    buffers; element pointers are byte offsets into it. *)

From S2P Require Import Prelude Utils Machine Chip Errors Loading.

Definition FFFF_ERASE_BLOCK_SIZE_MAX : Z := 1024 * 512.
Definition FFFF_SENTINEL_SIZE : Z := 16.
Definition ffff_sentinel_value : list Z :=
  [0x46;0x6c;0x61;0x73;0x68;0x46;0x6f;0x72;0x6d;0x61;0x74;0x46;0x6f;0x72;0x46;0x57].
Definition FFFF_ELEMENT_STAGE_2_FW : Z := 0x01.
Definition FFFF_ELEMENT_STAGE_3_FW : Z := 0x02.
Definition FFFF_ELEMENT_IMS_CERT : Z := 0x03.
Definition FFFF_ELEMENT_CMS_CERT : Z := 0x04.
Definition FFFF_ELEMENT_DATA : Z := 0x05.
Definition FFFF_ELEMENT_END : Z := 0xfe.
Definition BRE_FFFF_LOGIC_ERROR : Z := BRE_FFFF_BASE + 15.

(** ** Header fields *)
Definition ffff_flash_capacity (h : list Z) : Z := get32 h 80.
Definition ffff_erase_block_size (h : list Z) : Z := get32 h 84.
Definition ffff_header_size (h : list Z) : Z := get32 h 88.
Definition ffff_flash_image_length (h : list Z) : Z := get32 h 92.
Definition ffff_header_generation (h : list Z) : Z := get32 h 96.
Definition ELEMENTS_OFFSET : Z := 116.

Definition ELEMENT_SIZE : Z := 20.
Definition ELEMENT_SLOTS : nat := 199.

Record ffff_element_descriptor := {
  element_type : Z;
  element_class : Z;
  element_id : Z;
  element_length : Z;
  element_location : Z;
  element_generation : Z
}.

Definition element_at (h : list Z) (off : Z) : option ffff_element_descriptor :=
  if off + ELEMENT_SIZE <=? Z.of_nat (length h)
  then Some {| element_type := get8 h off; element_class := Z.shiftr (get32 h off) 8;
               element_id := get32 h (off + 4); element_length := get32 h (off + 8);
               element_location := get32 h (off + 12); element_generation := get32 h (off + 16) |}
  else None.

Definition set_cur_header (w : ffff_which) (f : ffff_processing_state) :=
  {| f_header1 := f_header1 f; f_header2 := f_header2 f; f_cur_header := w;
     f_cur_element := f_cur_element f |}.
Definition set_cur_element (e : option Z) (f : ffff_processing_state) :=
  {| f_header1 := f_header1 f; f_header2 := f_header2 f; f_cur_header := f_cur_header f;
     f_cur_element := e |}.

Section ffff.
Context `{Platform, Hardware}.

Definition header_addr (w : ffff_which) : Z :=
  match w with Header1 => ffff_header1_addr | Header2 => ffff_header2_addr end.
Definition header_block (w : ffff_which) : block :=
  match w with Header1 => BFfffHeader1 | Header2 => BFfffHeader2 end.
Definition header_of (w : ffff_which) (f : ffff_processing_state) : list Z :=
  match w with Header1 => f_header1 f | Header2 => f_header2 f end.

Definition modify_ffff (f : ffff_processing_state -> ffff_processing_state) : B unit :=
  modify (λ m, set_ffff (f (m_ffff m)) m).

Definition is_element_out_of_range (w : ffff_which) (h : list Z) (off : Z) : bool :=
  u32 (header_addr w + ffff_header_size h - (FFFF_SENTINEL_SIZE + ELEMENT_SIZE))
    <=? (header_addr w +₃₂ off).

(** ** Validation *)

(** Last byte of an element, modulo [2^32]. *)
Definition element_end (e : ffff_element_descriptor) : Z :=
  u32 (element_location e + element_length e - 1).

Definition elements_collide (e o : ffff_element_descriptor) : bool :=
  (element_location e <=? element_end o) && (element_location o <=? element_end e).

Definition elements_duplicate (e o : ffff_element_descriptor) : bool :=
  (element_type e =? element_type o) && (element_id e =? element_id o)
  && (element_generation e =? element_generation o).

(** The scan of the following elements; the result is the error to report. *)
Fixpoint element_scan (slots : nat) (w : ffff_which) (h : list Z) (e : ffff_element_descriptor)
    (off : Z) : B (option Z) :=
  if is_element_out_of_range w h off then mret None
  else
    match slots with
    | O => fault
    | S slots =>
        o ← the (element_at h off);
        if element_type o =? FFFF_ELEMENT_END then mret None
        else if elements_collide e o then mret (Some BRE_FFFF_ELT_COLLISION)
        else if elements_duplicate e o then mret (Some BRE_FFFF_ELT_DUPLICATE)
        else element_scan slots w h e (off + ELEMENT_SIZE)
    end.

(** Where elements may start: behind the two headers. *)
Definition element_location_min (h : list Z) : Z :=
  if ffff_erase_block_size h <? ffff_header_size h
  then ffff_header_size h <<₃₂ 1 else ffff_erase_block_size h <<₃₂ 1.

(** [None] is the C result [false]; otherwise the value of
    [*end_of_elements]. *)
Definition valid_ffff_element (slots : nat) (w : ffff_which) (h : list Z)
    (e : ffff_element_descriptor) (off : Z) : B (option bool) :=
  if element_type e =? FFFF_ELEMENT_END then mret (Some true)
  else
    let this_start := element_location e in
    let this_end := element_end e in
    if (this_start <? element_location_min h) || (ffff_flash_image_length h <=? this_end) then
      set_last_error BRE_FFFF_ELT_RESERVED_MEMORY ;; mret None
    else if negb (block_aligned (element_location e) (ffff_erase_block_size h)) then
      set_last_error BRE_FFFF_ELT_ALIGNMENT ;; mret None
    else
      err ← element_scan slots w h e (off + ELEMENT_SIZE);
      match err with
      | Some code => set_last_error code ;; mret None
      | None => mret (Some false)
      end.

(** The element loop of [validate_ffff_header]. *)
Fixpoint valid_elements (slots : nat) (w : ffff_which) (h : list Z) (off : Z) (fin : bool)
    : B (option bool) :=
  if is_element_out_of_range w h off || fin then mret (Some fin)
  else
    match slots with
    | O => fault
    | S slots =>
        e ← the (element_at h off);
        r ← valid_ffff_element slots w h e off;
        match r with
        | None => mret None
        | Some fin => valid_elements slots w h (off + ELEMENT_SIZE) fin
        end
    end.

Definition get_trailing_sentinel (h : list Z) : list Z :=
  sub h (ffff_header_size h - FFFF_SENTINEL_SIZE) FFFF_SENTINEL_SIZE.

Definition validate_ffff_header (w : ffff_which) (h : list Z) : B Z :=
  c ← the (memcmp (get_trailing_sentinel h) ffff_sentinel_value (Z.to_nat FFFF_SENTINEL_SIZE));
  if negb (c =? 0) then set_last_error BRE_FFFF_SENTINEL ;; mret (-1)
  else if FFFF_ERASE_BLOCK_SIZE_MAX <? ffff_erase_block_size h then
    set_last_error BRE_FFFF_BLOCK_SIZE ;; mret (-1)
  else if ffff_flash_capacity h <? (ffff_erase_block_size h <<₃₂ 1) then
    set_last_error BRE_FFFF_FLASH_CAPACITY ;; mret (-1)
  else if ffff_flash_capacity h <? ffff_flash_image_length h then
    set_last_error BRE_FFFF_IMAGE_LENGTH ;; mret (-1)
  else
    r ← valid_elements ELEMENT_SLOTS w h ELEMENTS_OFFSET false;
    match r with
    | None => mret (-1)
    | Some fin =>
        if negb fin then set_last_error BRE_FFFF_NO_TABLE_END ;; mret (-1) else mret 0
    end.

(** ** Finding the header *)

(** Return code and [*valid_header]. *)
Definition load_ffff_header (rd : ptr -> Z -> Z -> B Z) (w : ffff_which) (addr : Z) : B (Z * bool) :=
  rc ← rd (Ptr (header_block w) 0) addr FFFF_HEADER_SIZE_MIN;
  if negb (rc =? 0) then set_last_error BRE_FFFF_LOAD_HEADER ;; mret (-1, false)
  else
    h ← gets (λ m, header_of w (m_ffff m));
    c ← the (memcmp (sub h 0 FFFF_SENTINEL_SIZE) ffff_sentinel_value (Z.to_nat FFFF_SENTINEL_SIZE));
    if negb (c =? 0) then set_last_error BRE_FFFF_SENTINEL ;; mret (0, false)
    else if (ffff_header_size h <? FFFF_HEADER_SIZE_MIN)
            || (MAX_FFFF_HEADER_SIZE_SUPPORTED <? ffff_header_size h) then
      set_last_error BRE_FFFF_HEADER_SIZE ;; mret (0, false)
    else
      rc ← (if ffff_header_size h =? FFFF_HEADER_SIZE_MIN then mret 0
            else rd (Ptr (header_block w) FFFF_HEADER_SIZE_MIN) (addr +₃₂ FFFF_HEADER_SIZE_MIN)
                    (ffff_header_size h - FFFF_HEADER_SIZE_MIN));
      if negb (rc =? 0) then set_last_error BRE_FFFF_LOAD_HEADER ;; mret (-1, false)
      else
        h ← gets (λ m, header_of w (m_ffff m));
        v ← validate_ffff_header w h;
        mret (0, v =? 0).

(** [while (address < FFFF_ERASE_BLOCK_SIZE_MAX * 2)], the address doubling:
    the [tries] are enough for every address below the limit. *)
Fixpoint search_second (tries : nat) (rd : ptr -> Z -> Z -> B Z) (address : Z) : B Z :=
  if address <? FFFF_ERASE_BLOCK_SIZE_MAX * 2 then
    match tries with
    | O => spin
    | S tries =>
        r ← load_ffff_header rd Header2 address;
        let '(rc, valid) := r : Z * bool in
        if negb (rc =? 0) then mret (-1)
        else if valid then
          modify_ffff (set_cur_header Header2) ;; init_last_error ;; mret 0
        else search_second tries rd (address <<₃₂ 1)
    end
  else set_last_error BRE_FFFF_HEADER_NOT_FOUND ;; mret (-1).

Definition locate_ffff_table (rd : ptr -> Z -> Z -> B Z) : B Z :=
  modify_ffff (set_cur_header Header1) ;;
  r ← load_ffff_header rd Header1 0;
  let '(rc, valid) := r : Z * bool in
  if negb (rc =? 0) then mret (-1)
  else if negb valid then search_second 11 rd FFFF_HEADER_SIZE_MIN
  else
    h1 ← gets (λ m, f_header1 (m_ffff m));
    let address := if ffff_erase_block_size h1 <? ffff_header_size h1
                   then ffff_header_size h1 else ffff_erase_block_size h1 in
    r ← load_ffff_header rd Header2 address;
    let '(rc, valid) := r : Z * bool in
    if negb (rc =? 0) then mret (-1)
    else if negb valid then init_last_error ;; mret 0
    else
      f ← gets m_ffff;
      when (ffff_header_generation (f_header1 f) <? ffff_header_generation (f_header2 f))
        (modify_ffff (set_cur_header Header2)) ;;
      init_last_error ;; mret 0.

(** ** Finding the element *)

(** The loop over the table; [best] is [ffff.cur_element]. *)
Fixpoint element_search (slots : nat) (w : ffff_which) (h : list Z) (type off : Z) (best : option Z)
    : B (option Z) :=
  if (header_addr w +₃₂ off) <=? u32 (header_addr w + ffff_header_size h - FFFF_SENTINEL_SIZE - ELEMENT_SIZE)
  then
    match slots with
    | O => fault
    | S slots =>
        e ← the (element_at h off);
        if element_type e =? FFFF_ELEMENT_END then mret best
        else
          best' ← (if element_type e =? type then
                     match best with
                     | None => mret (Some off)
                     | Some b =>
                         o ← the (element_at h b);
                         mret (if element_generation o <? element_generation e then Some off else best)
                     end
                   else mret best);
          element_search slots w h type (off + ELEMENT_SIZE) best'
    end
  else mret best.

(** Return code and [*length]. *)
Definition locate_element (type : Z) : B (Z * Z) :=
  f ← gets m_ffff;
  let w := f_cur_header f in
  let h := header_of w f in
  modify_ffff (set_cur_element None) ;;
  best ← element_search ELEMENT_SLOTS w h type ELEMENTS_OFFSET None;
  modify_ffff (set_cur_element best) ;;
  match best with
  | None => set_last_error BRE_FFFF_NO_FIRMWARE ;; mret (-1, 0)
  | Some off => e ← the (element_at h off); mret (0, element_length e)
  end.

Definition locate_ffff_element_on_storage (ops : data_load_ops) (type : Z) : B (Z * Z) :=
  match ops_read ops with
  | None => set_last_error BRE_FFFF_LOGIC_ERROR ;; mret (-1, 0)
  | Some rd =>
      rc ← locate_ffff_table rd;
      if negb (rc =? 0) then mret (-1, 0)
      else
        r ← locate_element type;
        let '(rc, length) := r : Z * Z in
        if negb (rc =? 0) then mret (-1, length)
        else
          f ← gets m_ffff;
          off ← the (f_cur_element f);
          e ← the (element_at (header_of (f_cur_header f) f) off);
          rd null (element_location e) 0 ;;
          mret (0, length)
  end.

End ffff.
