(* ===== verification/Wire.v ===== *)
(** * Wire: what a stage sends, and the message it is serving

    A log of the byte stores to the CPort transmit buffers, and the receive
    buffers that keep their contents until they are handed back.  Code that only
    reads storage is [quiet]: it sends nothing and leaves the received message
    alone. *)

From S2P Require Import Prelude Utils Machine Chip Errors Crypto Loading Unipro Spi Greybus Ffff.

(** The registers that hand a receive buffer back ([REG_RX_PAUSE_SIZE_00] on). *)
Definition restart_reg (a : Z) : bool :=
  (AIO_UNIPRO_BASE +₃₂ REG_RX_PAUSE_SIZE_00 <=? a) && (a <? AIO_UNIPRO_BASE +₃₂ CPB_RX_TRANSFERRED_DATA_SIZE_00).

Class Wire `{Hardware} := {
  tx_log : dev -> list (Z * Z);
  tx_read a d : tx_log (snd (reg_read a d)) = tx_log d;
  tx_write a v d : tx_log (reg_write a v d) = tx_log d;
  tx_write8 a v d : tx_log (reg_write8 a v d) = tx_log d ++ [(a, v)];
  rx_read a d x : buf_read8 x (snd (reg_read a d)) = buf_read8 x d;
  rx_write a v d x : restart_reg a = false -> buf_read8 x (reg_write a v d) = buf_read8 x d;
  rx_write8 a v d x : buf_read8 x (reg_write8 a v d) = buf_read8 x d
}.

Section wire.
Context `{Platform, Hardware, !Wire}.

Definition same_rx (m m' : machine) : Prop := forall x, buf_read8 x (m_dev m') = buf_read8 x (m_dev m).

Definition quiet (m m' : machine) : Prop := tx_log (m_dev m') = tx_log (m_dev m) /\ same_rx m m'.

#[export] Instance quiet_refl : Reflexive quiet.
Proof. by intros m. Qed.
#[export] Instance quiet_trans : Transitive quiet.
Proof. intros m1 m2 m3 [L1 R1] [L2 R2]. split; [congruence|]. intros x. by rewrite R2. Qed.

Lemma quiet_getreg a : pres quiet (getreg32 a).
Proof.
  intros m. unfold getreg32. pose proof (tx_read a (m_dev m)) as Ht. pose proof (rx_read a (m_dev m)) as Hr.
  destruct (reg_read a (m_dev m)) as [v d]. by split.
Qed.

Lemma quiet_putreg v a : restart_reg a = false -> pres quiet (putreg32 v a).
Proof. intros Ha m. split; [apply tx_write|]. intros x. by apply rx_write. Qed.

(** Anything that leaves the devices alone. *)
Lemma quiet_state (f : machine -> machine) : (forall m, m_dev (f m) = m_dev m) -> pres quiet (modify f).
Proof. intros E m. split; [cbn; by rewrite E|intros x; cbn; by rewrite E]. Qed.

Lemma quiet_write p bs : pres quiet (write_ptr p bs).
Proof.
  intros m. unfold write_ptr. destruct (in_bounds _ _ _); [|reflexivity].
  split; [|intros x]; cbn; by rewrite mem_write_dev.
Qed.
Lemma quiet_read_ptr p n : pres quiet (read_ptr p n).
Proof. intros m. unfold read_ptr. by destruct (in_bounds _ _ _). Qed.
Lemma quiet_poll {A} n (c : B (option A)) : pres quiet c -> pres quiet (poll n c).
Proof. apply pres_poll; typeclasses eauto. Qed.
End wire.
#[export] Hint Resolve quiet_getreg quiet_write quiet_read_ptr : pres.
#[export] Hint Extern 2 (pres quiet (putreg32 _ _)) => apply quiet_putreg; reflexivity : pres.
#[export] Hint Extern 2 (pres quiet (modify _)) => apply quiet_state; reflexivity : pres.

(** ** Reading storage is quiet *)

Section storage.
Context `{Platform, Hardware, !Wire}.

Lemma quiet_hash_update bs : pres quiet (hash_update bs).
Proof.
  induction bs as [|b bs IH]; cbn [hash_update]; [pres_auto|].
  apply pres_bind; [typeclasses eauto|pres_auto|]. intros cs.
  destruct (c_sha256_process_func cs) as [[]|]; try (apply pres_fault; typeclasses eauto).
  apply pres_bind; [typeclasses eauto| |done]. by apply quiet_state.
Qed.
#[local] Hint Resolve quiet_hash_update : pres.

Lemma quiet_spi_frames fuel : forall c p, pres quiet (spi_frames fuel c p).
Proof. induction fuel; intros c p; cbn [spi_frames]; pres_auto. Qed.
Lemma quiet_spi_start f a : pres quiet (spi_start f a).
Proof. unfold spi_start. pres_auto. Qed.
#[local] Hint Resolve quiet_spi_frames quiet_spi_start : pres.
Lemma quiet_set_addr a : pres quiet (set_current_addr a).
Proof. by apply quiet_state. Qed.
#[local] Hint Resolve quiet_set_addr : pres.
Lemma quiet_spi_trailing c p : pres quiet (spi_trailing c p).
Proof.
  unfold spi_trailing. apply pres_bind; [typeclasses eauto|pres_auto|]. intros a.
  apply pres_bind; [typeclasses eauto|pres_auto|]. intros _.
  apply pres_bind; [typeclasses eauto|apply quiet_poll; pres_auto|]. pres_auto.
Qed.
#[local] Hint Resolve quiet_spi_trailing : pres.
Lemma quiet_spi_load p n h : pres quiet (data_load_spi_load p n h).
Proof. unfold data_load_spi_load. generalize poll_fuel. intros. pres_auto. Qed.
#[local] Hint Resolve quiet_spi_load : pres.
Lemma quiet_spi_read p a n : pres quiet (data_load_spi_read p a n).
Proof. unfold data_load_spi_read. pres_auto. Qed.
Lemma quiet_add_usage k : pres quiet (add_clk_usage k).
Proof. by apply quiet_state. Qed.
#[local] Hint Resolve quiet_add_usage : pres.
Lemma quiet_spi_init : pres quiet data_load_spi_init.
Proof.
  unfold data_load_spi_init, tsb_clk_enable, scm_write. pres_auto.
Qed.

Lemma quiet_attr_access a v s p w : pres quiet (unipro_attr_access a v s p w).
Proof.
  unfold unipro_attr_access, tsb_unipro_write, tsb_unipro_read. cbv zeta.
  repeat (apply pres_bind; [typeclasses eauto| |intros ?]); pres_auto; apply quiet_poll; pres_auto.
Qed.
#[local] Hint Resolve quiet_attr_access : pres.
Lemma quiet_halt_at n : forall bs, pres quiet (halt_at n bs).
Proof.
  induction n as [|n IH]; intros bs; cbn [halt_at]; [pres_auto|].
  unfold merge_errno_with_boot_status, get_last_error, advertise_with, chip_unipro_attr_write. pres_auto.
Qed.
Lemma quiet_halt bs : pres quiet (halt_and_catch_fire bs).
Proof. apply quiet_halt_at. Qed.
#[local] Hint Resolve quiet_halt : pres.
Lemma quiet_set_last_error e : pres quiet (set_last_error e).
Proof.
  unfold set_last_error, error_zone, chip_get_boot_status, chip_unipro_attr_read. pres_auto.
Qed.
Lemma quiet_init_last_error : pres quiet init_last_error.
Proof.
  unfold init_last_error, chip_unipro_attr_read. destruct boot_stage; [by apply quiet_state|].
  apply pres_bind; [typeclasses eauto|apply quiet_attr_access|]. intros [rc v]. by apply quiet_state.
Qed.
End storage.
#[export] Hint Resolve quiet_spi_load quiet_spi_read quiet_spi_init quiet_set_last_error quiet_attr_access
  quiet_init_last_error : pres.

(** ** The search for an element is quiet *)

Section locate.
Context `{Platform, Hardware, !Wire}.

Lemma quiet_ffff f : pres quiet (modify_ffff f).
Proof. by apply quiet_state. Qed.
#[local] Hint Resolve quiet_ffff : pres.

Lemma quiet_element_scan w h e : forall n off, pres quiet (element_scan n w h e off).
Proof. induction n; intros; cbn [element_scan]; pres_auto. Qed.
#[local] Hint Resolve quiet_element_scan : pres.
Lemma quiet_valid_element n w h e off : pres quiet (valid_ffff_element n w h e off).
Proof. unfold valid_ffff_element. pres_auto. Qed.
#[local] Hint Resolve quiet_valid_element : pres.
Lemma quiet_valid_elements w h : forall n off fin, pres quiet (valid_elements n w h off fin).
Proof. induction n; intros; cbn [valid_elements]; pres_auto. Qed.
Lemma quiet_element_search w h ty : forall n off best, pres quiet (element_search n w h ty off best).
Proof. induction n; intros; cbn [element_search]; pres_auto. Qed.
#[local] Hint Resolve quiet_valid_elements quiet_element_search : pres.
Lemma quiet_validate w h : pres quiet (validate_ffff_header w h).
Proof. unfold validate_ffff_header. generalize ELEMENT_SLOTS. intros. pres_auto. Qed.
#[local] Hint Resolve quiet_validate : pres.
Lemma quiet_load_header w a : pres quiet (load_ffff_header data_load_spi_read w a).
Proof. unfold load_ffff_header. pres_auto. Qed.
#[local] Hint Resolve quiet_load_header : pres.
Lemma quiet_search_second : forall n a, pres quiet (search_second n data_load_spi_read a).
Proof. induction n; intros; cbn [search_second]; pres_auto. Qed.
#[local] Hint Resolve quiet_search_second : pres.
Lemma quiet_locate_table : pres quiet (locate_ffff_table data_load_spi_read).
Proof. unfold locate_ffff_table. generalize 11%nat. intros. pres_auto. Qed.
Lemma quiet_locate_element ty : pres quiet (locate_element ty).
Proof. unfold locate_element. generalize ELEMENT_SLOTS. intros. pres_auto. Qed.
#[local] Hint Resolve quiet_locate_table quiet_locate_element : pres.

Lemma quiet_locate_spi ty : pres quiet (locate_ffff_element_on_storage spi_ops ty).
Proof. unfold locate_ffff_element_on_storage. cbn [ops_read spi_ops]. pres_auto. Qed.
End locate.
#[export] Hint Resolve quiet_locate_spi : pres.

(** ** Sending *)

(** The message with a Greybus header. *)
Definition gb_packet (id type status : Z) (payload : list Z) : list Z :=
  le_split 2 (GB_OPERATION_HEADER_SIZE + Z.of_nat (length payload)) ++ le_split 2 id
  ++ le_split 1 type ++ le_split 1 status ++ le_split 2 0 ++ payload.

Definition stores_at (a : Z) (msg : list Z) : list (Z * Z) := zip (seqZ a (Z.of_nat (length msg))) msg.

(** The stores that send [msg] on a CPort: the bytes, and the end of message. *)
Definition message_stores (cportid : Z) (msg : list Z) : list (Z * Z) :=
  stores_at (CPORT_TX_BUF cportid) msg ++ [(CPORT_TX_BUF cportid + (CPORT_TX_BUF_SIZE - 1), 1)].

(** The stores determine the message, and the message its parts. *)
Lemma stores_at_bytes a msg : (stores_at a msg).*2 = msg.
Proof. unfold stores_at. apply snd_zip. rewrite length_seqZ. lia. Qed.

Lemma message_stores_inj c msg msg' : message_stores c msg = message_stores c msg' -> msg = msg'.
Proof.
  intros E. apply (f_equal (fmap snd)) in E. unfold message_stores in E.
  rewrite !fmap_app, !stores_at_bytes in E. by apply app_inj_tail in E as [? _].
Qed.

Lemma le_split_inj n x y :
  0 <= x < 2 ^ (8 * Z.of_nat n) -> 0 <= y < 2 ^ (8 * Z.of_nat n) -> le_split n x = le_split n y -> x = y.
Proof. intros Hx Hy E. apply (f_equal le_combine) in E. rewrite !le_combine_split, !Z.mod_small in E; done. Qed.

Lemma gb_packet_inj id type s p s' p' :
  is_u8 s -> is_u8 s' -> gb_packet id type s p = gb_packet id type s' p' -> s = s' /\ p = p'.
Proof.
  unfold is_u8. intros Hs Hs' E. unfold gb_packet in E.
  apply app_inj_1 in E as [_ E]; [|by rewrite !length_le_split].
  apply app_inv_head, app_inv_head in E.
  apply app_inj_1 in E as [E1 E]; [|by rewrite !length_le_split].
  apply app_inv_head in E. split; [|done]. by apply (le_split_inj 1).
Qed.

(** The stores, carried out. *)
Definition carry_out `{Hardware} (l : list (Z * Z)) (d : dev) : dev := foldl (λ d s, reg_write8 s.1 s.2 d) d l.

Section send.
Context `{Platform, Hardware}.

Lemma stores_at_cons a b msg : stores_at a (b :: msg) = (a, b) :: stores_at (a + 1) msg.
Proof. unfold stores_at. cbn [length]. by rewrite seqZ_cons, Z.add_1_r, Nat2Z.inj_succ, Z.pred_succ by lia. Qed.

Lemma put_bytes_run msg : forall a m,
  put_bytes msg a m = (Done tt, set_dev (carry_out (stores_at a msg) (m_dev m)) m).
Proof.
  induction msg as [|b msg IH]; intros a m; cbn [put_bytes]; [by destruct m|].
  erewrite bind_step by reflexivity. by rewrite IH, stores_at_cons.
Qed.

Lemma u16_small x : 0 <= x < 2 ^ 16 -> u16 x = x.
Proof. rewrite u16_mod. apply Z.mod_small. Qed.

(** A CPort of the build is in the table. *)
Lemma cport_handle_at cportid :
  0 <= cportid < CPORT_MAX -> CPORT_MAX <= 4 -> cport_handle cportid = Some (DECLARE_CPORT cportid).
Proof.
  intros Hc Hm. unfold cport_handle. rewrite u16_small by lia. rewrite (proj2 (Z.leb_gt _ _)) by lia.
  assert (cportid = 0 \/ cportid = 1 \/ cportid = 2 \/ cportid = 3) as Hcs by lia.
  by destruct Hcs as [->|[->|[->| ->]]].
Qed.

Lemma unipro_send_run cportid msg m :
  0 <= cportid < CPORT_MAX -> CPORT_MAX <= 4 -> Z.of_nat (length msg) <= CPORT_BUF_SIZE ->
  chip_unipro_send cportid msg m = (Done 0, set_dev (carry_out (message_stores cportid msg) (m_dev m)) m).
Proof.
  intros Hc Hm Hl. unfold chip_unipro_send. rewrite (proj2 (Z.leb_gt _ _)), (proj2 (Z.ltb_ge _ _)) by lia.
  cbn [orb]. rewrite cport_handle_at by done. cbn [DECLARE_CPORT tx_buf].
  rewrite (bind_step _ _ _ _ _ (put_bytes_run _ _ _)). unfold message_stores, carry_out. by rewrite foldl_app.
Qed.

Lemma send_message_run cportid id type status payload m :
  0 <= cportid < CPORT_MAX -> CPORT_MAX <= 4 ->
  GB_OPERATION_HEADER_SIZE + Z.of_nat (length payload) <= CPORT_BUF_SIZE ->
  greybus_send_message cportid id type status payload m =
    (Done 0, set_dev (carry_out (message_stores cportid (gb_packet id type status payload)) (m_dev m)) m).
Proof.
  intros Hc Hm Hl. unfold GB_OPERATION_HEADER_SIZE, CPORT_BUF_SIZE in *. unfold greybus_send_message. cbv zeta.
  rewrite u16_small by lia. rewrite Nat2Z.id, take_ge by done.
  fold (gb_packet id type status payload). apply unipro_send_run; [done|done|].
  unfold gb_packet, CPORT_BUF_SIZE. rewrite !length_app, !length_le_split. lia.
Qed.

(** In the log. *)
Lemma carry_out_log `{!Wire} l d : tx_log (carry_out l d) = tx_log d ++ l.
Proof.
  unfold carry_out. revert d. induction l as [|[a v] l IH]; intros d; cbn [foldl fst snd]; [by rewrite app_nil_r|].
  by rewrite IH, tx_write8, <- app_assoc.
Qed.
Lemma carry_out_rx `{!Wire} l d x : buf_read8 x (carry_out l d) = buf_read8 x d.
Proof.
  unfold carry_out. revert d. induction l as [|[a v] l IH]; intros d; cbn [foldl fst snd]; [done|].
  by rewrite IH, rx_write8.
Qed.
End send.

(** ** The received message *)

Section received.
Context `{Platform, Hardware}.

Definition received (a n : Z) (m : machine) : list Z := map (λ i, u8 (buf_read8 i (m_dev m))) (seqZ a n).

Lemma rx_bytes_run a n m : rx_bytes a n m = (Done (received a n m), m).
Proof. reflexivity. Qed.

Lemma received_u8 a n m : bytes_ok (received a n m).
Proof.
  apply Forall_forall. intros b Hb. apply list_elem_of_fmap in Hb as (x & -> & _). apply u8_range.
Qed.

(** A part of a message that is in the receive buffer at [a]. *)
Lemma received_sub a msg off n m :
  bytes_ok msg -> (forall i, (i < length msg)%nat -> buf_read8 (a + Z.of_nat i) (m_dev m) = msg !!! i) ->
  0 <= off -> 0 <= n -> off + n <= Z.of_nat (length msg) -> received (a + off) n m = sub msg off n.
Proof.
  intros Hb Hr Ho Hn Hl. apply list_eq. intros i. unfold received, sub. rewrite list_lookup_fmap.
  destruct (decide (Z.of_nat i < n)).
  - rewrite lookup_seqZ_lt by lia. cbn. rewrite lookup_take_lt by lia. rewrite lookup_drop.
    replace (a + off + Z.of_nat i) with (a + Z.of_nat (Z.to_nat off + i)) by lia. rewrite Hr by lia.
    rewrite (list_lookup_lookup_total_lt msg (Z.to_nat off + i)) by lia. f_equal. apply u8_small.
    apply (Forall_lookup_total_1 _ _ _ Hb). lia.
  - rewrite lookup_seqZ_ge by lia. cbn. symmetry. apply lookup_ge_None_2. rewrite length_take. lia.
Qed.
End received.
