(* ===== verification/FfffValid.v ===== *)
(** * FfffValid: what a valid FFFF header is, and which element is booted

    [wf_ffff] says in plain terms what [validate_ffff_header] checks, over the
    list of element descriptors in front of the end marker; the first theorem
    shows that the code decides exactly that.  The others say what a valid
    header guarantees about the flash ranges of its elements, and that the
    element search returns the newest element of the wanted type. *)

From S2P Require Import Prelude Utils Machine Chip Sim Errors Loading TftfValid Ffff.

(** ** Specification *)

(** First byte behind the space an element may start in. *)
Definition etable_end (h : list Z) : Z := ffff_header_size h - (FFFF_SENTINEL_SIZE + ELEMENT_SIZE).

(** The descriptors from [off] to the end marker or the end of the header, and
    whether there is an end marker. *)
Fixpoint etable_scan (slots : nat) (h : list Z) (off : Z) : list ffff_element_descriptor * bool :=
  if etable_end h <=? off then ([], false)
  else
    match slots, element_at h off with
    | S slots, Some e =>
        if element_type e =? FFFF_ELEMENT_END then ([], true)
        else (e :: fst (etable_scan slots h (off + ELEMENT_SIZE)),
              snd (etable_scan slots h (off + ELEMENT_SIZE)))
    | _, _ => ([], false)
    end.

Definition element_table (h : list Z) : list ffff_element_descriptor * bool :=
  etable_scan ELEMENT_SLOTS h ELEMENTS_OFFSET.

Lemma element_table_eq h : element_table h = etable_scan ELEMENT_SLOTS h ELEMENTS_OFFSET.
Proof. reflexivity. Qed.

(** [e] with the descriptors [rest] behind it. *)
Definition wf_element (h : list Z) (e : ffff_element_descriptor) (rest : list ffff_element_descriptor) : Prop :=
  element_location_min h <= element_location e /\
  element_end e < ffff_flash_image_length h /\
  block_aligned (element_location e) (ffff_erase_block_size h) = true /\
  Forall (λ o, elements_collide e o = false /\ elements_duplicate e o = false) rest.

Record wf_ffff (h : list Z) : Prop := {
  wff_sentinel : get_trailing_sentinel h = ffff_sentinel_value;
  wff_block : ffff_erase_block_size h <= FFFF_ERASE_BLOCK_SIZE_MAX;
  wff_capacity : 2 * ffff_erase_block_size h <= ffff_flash_capacity h;
  wff_image : ffff_flash_image_length h <= ffff_flash_capacity h;
  wff_end : snd (element_table h) = true;
  wff_elements : forall i e, fst (element_table h) !! i = Some e ->
                   wf_element h e (drop (S i) (fst (element_table h)))
}.

(** What [load_ffff_header] has checked before it validates the header. *)
Definition fsized (h : list Z) : Prop :=
  length h = 4096%nat /\ bytes_ok h /\
  FFFF_HEADER_SIZE_MIN <= ffff_header_size h <= MAX_FFFF_HEADER_SIZE_SUPPORTED.

(** The same, as a program. *)
Definition element_okb (h : list Z) (e : ffff_element_descriptor) (rest : list ffff_element_descriptor) : bool :=
  negb ((element_location e <? element_location_min h) || (ffff_flash_image_length h <=? element_end e))
  && block_aligned (element_location e) (ffff_erase_block_size h)
  && negb (existsb (λ o, elements_collide e o || elements_duplicate e o) rest).

Fixpoint elements_okb (h : list Z) (es : list ffff_element_descriptor) : bool :=
  match es with
  | [] => true
  | e :: es => element_okb h e es && elements_okb h es
  end.

Lemma element_okb_spec h e rest : element_okb h e rest = true <-> wf_element h e rest.
Proof.
  unfold element_okb, wf_element.
  rewrite !andb_true_iff, !negb_true_iff, orb_false_iff, Z.ltb_ge, Z.leb_gt, existsb_false_Forall.
  setoid_rewrite orb_false_iff. tauto.
Qed.

Lemma elements_okb_spec h es :
  elements_okb h es = true <-> forall i e, es !! i = Some e -> wf_element h e (drop (S i) es).
Proof.
  induction es as [|e es IH]; simpl; [by split|].
  rewrite andb_true_iff, element_okb_spec, IH. split.
  - intros [Hs Hss] [|i] s' Hi; simpl in *; [by simplify_eq | by apply Hss].
  - intros Hall. split; [apply (Hall 0%nat e eq_refl)|]. intros i s' Hi. apply (Hall (S i) s' Hi).
Qed.

(** ** The loops of the code compute the specification *)

Section refine.
Context `{Platform, Hardware, !PlatformOk}.
Implicit Types (h : list Z) (m : machine) (w : ffff_which).

Lemma header_addr_ok w : 0 <= header_addr w /\ header_addr w + 0x2000 <= 2 ^ 32.
Proof. destruct w; [apply ffff_header1_addr_ok | apply ffff_header2_addr_ok]. Qed.

(** [slots] descriptors still fit the buffer behind [off]. *)
Definition efits (slots : nat) (off : Z) : Prop := 0 <= off /\ off + ELEMENT_SIZE * Z.of_nat slots = 4096.

Lemma efits_start : efits ELEMENT_SLOTS ELEMENTS_OFFSET.
Proof. done. Qed.

(** One step of an element loop: out of range, or a descriptor and more slots. *)
Lemma escan_cases w h slots off :
  fsized h -> efits slots off ->
  (is_element_out_of_range w h off = true /\ etable_scan slots h off = ([], false)) \/
  (exists n e, slots = S n /\ efits n (off + ELEMENT_SIZE) /\
     is_element_out_of_range w h off = false /\ element_at h off = Some e /\
     (etable_end h <=? off) = false).
Proof.
  intros (Hl & _ & Hs) [Hlo Hend]. pose proof (header_addr_ok w) as [Ha Hb].
  unfold FFFF_HEADER_SIZE_MIN, MAX_FFFF_HEADER_SIZE_SUPPORTED, efits, ELEMENT_SIZE in *.
  assert (is_element_out_of_range w h off = (etable_end h <=? off)) as ->.
  { unfold is_element_out_of_range, etable_end, FFFF_SENTINEL_SIZE, ELEMENT_SIZE.
    rewrite !u32_small by (unfold is_u32; lia).
    destruct (Z.leb_spec (ffff_header_size h - (16 + 20)) off); [rewrite Z.leb_le | rewrite Z.leb_gt]; lia. }
  destruct (etable_end h <=? off) eqn:Er.
  - left. split; [done|]. destruct slots; cbn [etable_scan]; by rewrite Er.
  - right. apply Z.leb_gt in Er as Er'. unfold etable_end, FFFF_SENTINEL_SIZE, ELEMENT_SIZE in Er'.
    unfold element_at, ELEMENT_SIZE. rewrite Hl.
    destruct (Z.leb_spec (off + 20) (Z.of_nat 4096)); [|lia].
    destruct slots as [|n]; [lia|]. eexists n, _. split_and!; try done; lia.
Qed.

(** The error of the first element behind [e] that clashes with it. *)
Fixpoint clash (e : ffff_element_descriptor) (rest : list ffff_element_descriptor) : option Z :=
  match rest with
  | [] => None
  | o :: rest => if elements_collide e o then Some BRE_FFFF_ELT_COLLISION
                 else if elements_duplicate e o then Some BRE_FFFF_ELT_DUPLICATE else clash e rest
  end.

Lemma clash_none e rest :
  existsb (λ o, elements_collide e o || elements_duplicate e o) rest = false <-> clash e rest = None.
Proof.
  induction rest as [|o rest IH]; simpl; [done|].
  destruct (elements_collide e o); [done|]. by destruct (elements_duplicate e o).
Qed.

Lemma element_scan_eq w h e m : fsized h -> forall slots off, efits slots off ->
  element_scan slots w h e off m = (Done (clash e (fst (etable_scan slots h off))), m).
Proof.
  intros Hh slots. induction slots as [|n IH]; intros off Hf.
  { destruct (escan_cases w h 0 off Hh Hf) as [[Ho Ht]|(? & ? & ? & _)]; [|done].
    cbn [element_scan]. by rewrite Ho, Ht. }
  destruct (escan_cases w h (S n) off Hh Hf) as [[Ho Ht]|(n' & o & [= <-] & Hf' & Ho & Eo & Er)].
  { cbn [element_scan]. by rewrite Ho, Ht. }
  cbn [element_scan etable_scan]. rewrite Ho, Er, Eo. cbn [the]. rewrite bind_ret.
  destruct (element_type o =? FFFF_ELEMENT_END); [done|]. cbn [fst clash].
  destruct (elements_collide e o); [done|]. destruct (elements_duplicate e o); [done|]. by apply IH.
Qed.

Lemma valid_element_ok w h m slots e off :
  fsized h -> efits slots (off + ELEMENT_SIZE) -> (element_type e =? FFFF_ELEMENT_END) = false ->
  element_okb h e (fst (etable_scan slots h (off + ELEMENT_SIZE))) = true ->
  valid_ffff_element slots w h e off m = (Done (Some false), m).
Proof.
  intros Hh Hf He Hok. unfold element_okb in Hok. rewrite !andb_true_iff, !negb_true_iff in Hok.
  destruct Hok as [[Hr Ha] Hc]. apply clash_none in Hc.
  unfold valid_ffff_element. cbv zeta. rewrite He, Hr, Ha. cbn [negb].
  rewrite (bind_step _ _ _ _ _ (element_scan_eq w h e m Hh _ _ Hf)). by rewrite Hc.
Qed.

Lemma valid_element_bad w h m slots e off fin m' :
  fsized h -> efits slots (off + ELEMENT_SIZE) -> (element_type e =? FFFF_ELEMENT_END) = false ->
  element_okb h e (fst (etable_scan slots h (off + ELEMENT_SIZE))) = false ->
  valid_ffff_element slots w h e off m <> (Done (Some fin), m').
Proof.
  intros Hh Hf He Hbad E. unfold element_okb, valid_ffff_element in *. cbv zeta in E. rewrite He in E.
  destruct (_ || _); [by inv_done|]. destruct (block_aligned _ _); [|by inv_done]. cbn [negb andb] in *.
  rewrite (bind_step _ _ _ _ _ (element_scan_eq w h e m Hh _ _ Hf)) in E.
  destruct (clash _ _) eqn:Ec; [by inv_done|]. apply clash_none in Ec. by rewrite Ec in Hbad.
Qed.

Lemma valid_elements_ok w h m : fsized h -> forall slots off, efits slots off ->
  elements_okb h (fst (etable_scan slots h off)) = true ->
  valid_elements slots w h off false m = (Done (Some (snd (etable_scan slots h off))), m).
Proof.
  intros Hh slots. induction slots as [|n IH]; intros off Hf Hok.
  { destruct (escan_cases w h 0 off Hh Hf) as [[Ho Ht]|(? & ? & ? & _)]; [|done].
    cbn [valid_elements]. by rewrite Ho, Ht. }
  destruct (escan_cases w h (S n) off Hh Hf) as [[Ho Ht]|(n' & e & [= <-] & Hf' & Ho & Ee & Er)].
  { cbn [valid_elements]. by rewrite Ho, Ht. }
  cbn [valid_elements etable_scan] in *. rewrite Er, Ee in Hok. rewrite Ho, Er, Ee.
  cbn [orb the]. rewrite bind_ret.
  destruct (element_type e =? FFFF_ELEMENT_END) eqn:Et.
  - unfold mbind, boot_bind, valid_ffff_element. rewrite Et. cbn [mret boot_ret].
    destruct n; cbn [valid_elements]; by rewrite orb_true_r.
  - cbn [fst snd elements_okb] in *. apply andb_true_iff in Hok as [Hs Hrest].
    rewrite (bind_step _ _ _ _ _ (valid_element_ok w h m n e off Hh Hf' Et Hs)). by apply IH.
Qed.

Lemma valid_elements_bad w h : fsized h -> forall slots off m fin m', efits slots off ->
  elements_okb h (fst (etable_scan slots h off)) = false ->
  valid_elements slots w h off false m <> (Done (Some fin), m').
Proof.
  intros Hh slots. induction slots as [|n IH]; intros off m fin m' Hf Hbad E.
  { destruct (escan_cases w h 0 off Hh Hf) as [[Ho Ht]|(? & ? & ? & _)]; [|done]. by rewrite Ht in Hbad. }
  destruct (escan_cases w h (S n) off Hh Hf) as [[Ho Ht]|(n' & e & [= <-] & Hf' & Ho & Ee & Er)].
  { by rewrite Ht in Hbad. }
  cbn [valid_elements etable_scan] in *. rewrite Er, Ee in Hbad. rewrite Ho, Ee in E. cbn [orb the] in E.
  rewrite bind_ret in E.
  destruct (element_type e =? FFFF_ELEMENT_END) eqn:Et; [done|]. cbn [fst elements_okb] in Hbad.
  apply bind_done in E. destruct E as (r & m1 & Ev & E). destruct r as [fin1|]; [|by inv_done].
  destruct (element_okb h e (fst (etable_scan n h (off + ELEMENT_SIZE)))) eqn:Ek.
  - rewrite (valid_element_ok w h m n e off) in Ev by done. injection Ev as <- <-. by eapply IH in E.
  - by apply (valid_element_bad w h m n e off) in Ev.
Qed.

Lemma wf_ffff_okb h :
  wf_ffff h <->
  get_trailing_sentinel h = ffff_sentinel_value /\
  ffff_erase_block_size h <= FFFF_ERASE_BLOCK_SIZE_MAX /\
  2 * ffff_erase_block_size h <= ffff_flash_capacity h /\
  ffff_flash_image_length h <= ffff_flash_capacity h /\
  snd (element_table h) = true /\ elements_okb h (fst (element_table h)) = true.
Proof. rewrite elements_okb_spec. split; [by intros [] | by intros (? & ? & ? & ? & ? & ?)]. Qed.

Lemma length_trailing_sentinel h : fsized h -> length (get_trailing_sentinel h) = 16%nat.
Proof.
  intros (Hl & _ & Hs). unfold get_trailing_sentinel, FFFF_HEADER_SIZE_MIN,
    MAX_FFFF_HEADER_SIZE_SUPPORTED, FFFF_SENTINEL_SIZE in *.
  rewrite length_sub by lia. done.
Qed.

Lemma memcmp_sentinel s : length s = 16%nat ->
  exists c, memcmp s ffff_sentinel_value (Z.to_nat FFFF_SENTINEL_SIZE) = Some c /\
            (c = 0 <-> s = ffff_sentinel_value).
Proof.
  intros Hl. unfold memcmp. change (Z.to_nat FFFF_SENTINEL_SIZE) with 16%nat.
  destruct (memcmp_loop_total 16 0 s ffff_sentinel_value) as [c Ec]; [cbn; lia|cbn; lia|].
  exists c. split; [done|].
  pose proof (memcmp_loop_zero 16 0 s ffff_sentinel_value) as Hz. rewrite Ec in Hz.
  rewrite !drop_0, (take_ge s), (take_ge ffff_sentinel_value) in Hz by (cbn; lia).
  rewrite <- Hz by (cbn; lia). split; [by intros -> | by intros [= ->]].
Qed.

Lemma validate_ffff_header_ok w h m m' :
  fsized h -> validate_ffff_header w h m = (Done 0, m') <-> m' = m /\ wf_ffff h.
Proof.
  intros Hh. rewrite wf_ffff_okb. unfold validate_ffff_header.
  destruct (memcmp_sentinel _ (length_trailing_sentinel h Hh)) as (c & -> & Hc).
  cbn [the]. rewrite bind_ret.
  destruct (Z.eqb_spec c 0) as [Hc0|Hc0]; cbn [negb];
    [apply Hc in Hc0 | split; [intros E; by inv_done|]; naive_solver].
  destruct (Z.ltb_spec FFFF_ERASE_BLOCK_SIZE_MAX (ffff_erase_block_size h)) as [Hb|Hb];
    [split; [intros E; by inv_done | intros; lia]|].
  assert (0 <= ffff_erase_block_size h) by (apply get32_range; apply Hh).
  rewrite Z.shiftl_mul_pow2, u32_small by (unfold is_u32, FFFF_ERASE_BLOCK_SIZE_MAX in *; lia).
  destruct (Z.ltb_spec (ffff_flash_capacity h) (ffff_erase_block_size h * 2 ^ 1)) as [Hk|Hk];
    [split; [intros E; by inv_done | intros; lia]|].
  destruct (Z.ltb_spec (ffff_flash_capacity h) (ffff_flash_image_length h)) as [Hi|Hi];
    [split; [intros E; by inv_done | intros; lia]|].
  pose proof (valid_elements_ok w h m Hh ELEMENT_SLOTS ELEMENTS_OFFSET efits_start) as Hgood.
  pose proof (λ m fin m', valid_elements_bad w h Hh ELEMENT_SLOTS ELEMENTS_OFFSET m fin m' efits_start) as Hbad.
  rewrite <- element_table_eq in Hgood, Hbad. generalize dependent (element_table h).
  intros [es e]. cbn [fst snd]. intros Hgood Hbad.
  destruct (elements_okb h es) eqn:Hok.
  - rewrite (bind_step _ _ _ _ _ (Hgood eq_refl)). clear Hgood Hbad.
    destruct e; cbn [negb]; [|split; [intros E; by inv_done | naive_solver]].
    split; [intros [= <-]; split_and!; try done; lia | by intros [-> _]].
  - split; [clear Hgood | intros (_ & _ & _ & _ & _ & _ & ?); discriminate].
    intros E. apply bind_done in E. destruct E as ([fl|] & m1 & Ev & E); [|by inv_done].
    by apply Hbad in Ev.
Qed.
End refine.

(** ** Choosing an element *)

(** [e] is at index [i] of [es], has the wanted type, and is the first of those
    with the highest generation. *)
Definition newest_of (type : Z) (es : list ffff_element_descriptor) (i : nat) (e : ffff_element_descriptor) : Prop :=
  es !! i = Some e /\ element_type e = type /\
  forall j o, es !! j = Some o -> element_type o = type ->
    element_generation o <= element_generation e /\
    ((j < i)%nat -> element_generation o < element_generation e).

Definition none_of (type : Z) (es : list ffff_element_descriptor) : Prop :=
  forall j o, es !! j = Some o -> element_type o <> type.

Lemma none_of_app type es e : none_of type es -> element_type e <> type -> none_of type (es ++ [e]).
Proof.
  intros Hn He j o Hj. apply lookup_app_Some in Hj as [Hj|[_ Hj]]; [by eapply Hn|].
  by apply list_lookup_singleton_Some in Hj as [_ <-].
Qed.

Lemma newest_of_first type es e :
  none_of type es -> element_type e = type -> newest_of type (es ++ [e]) (length es) e.
Proof.
  intros Hn He. split; [apply list_lookup_middle; done|]. split; [done|]. intros j o Hj Ho.
  apply lookup_app_Some in Hj as [Hj|[Hle Hj]]; [by apply Hn in Hj|].
  apply list_lookup_singleton_Some in Hj as [Hj <-]. lia.
Qed.

Lemma newest_of_keep type es i b e :
  newest_of type es i b ->
  (element_type e = type -> element_generation e <= element_generation b) ->
  newest_of type (es ++ [e]) i b.
Proof.
  intros (Hi & Ht & Hmax) He. split; [by apply lookup_app_l_Some|]. split; [done|]. intros j o Hj Ho.
  apply lookup_app_Some in Hj as [Hj|[Hle Hj]]; [by apply (Hmax j o)|].
  apply list_lookup_singleton_Some in Hj as [Hj <-]. apply lookup_lt_Some in Hi. split; [auto|lia].
Qed.

Lemma newest_of_replace type es i b e :
  newest_of type es i b -> element_type e = type ->
  element_generation b < element_generation e -> newest_of type (es ++ [e]) (length es) e.
Proof.
  intros (Hi & Ht & Hmax) He Hlt. split; [apply list_lookup_middle; done|]. split; [done|].
  intros j o Hj Ho. apply lookup_app_Some in Hj as [Hj|[Hle Hj]].
  - pose proof (Hmax j o Hj Ho). lia.
  - apply list_lookup_singleton_Some in Hj as [Hj <-]. lia.
Qed.

Section search.
Context `{Platform, Hardware, !PlatformOk}.
Implicit Types (h : list Z) (m : machine) (w : ffff_which).

(** The offset of element [i] and the state of the search over [seen]. *)
Definition element_offset (i : nat) : Z := ELEMENTS_OFFSET + ELEMENT_SIZE * Z.of_nat i.

Definition best_so_far (h : list Z) (type : Z) (seen : list ffff_element_descriptor) (best : option Z) : Prop :=
  match best with
  | None => none_of type seen
  | Some off => exists i e, off = element_offset i /\ element_at h off = Some e /\ newest_of type seen i e
  end.

Lemma element_search_eq w h type m : fsized h -> forall slots seen best,
  efits slots (element_offset (length seen)) ->
  snd (etable_scan slots h (element_offset (length seen))) = true ->
  best_so_far h type seen best ->
  exists best',
    element_search slots w h type (element_offset (length seen)) best m = (Done best', m) /\
    best_so_far h type (seen ++ fst (etable_scan slots h (element_offset (length seen)))) best'.
Proof.
  intros Hh slots. induction slots as [|n IH]; intros seen best Hf Hend Hbest.
  all: destruct (escan_cases w h _ _ Hh Hf) as [[Ho Ht]|(n' & e & Hn & Hf' & Ho & Ee & Er)];
    [by rewrite Ht in Hend|].
  { done. }
  injection Hn as <-.
  assert (Hin : ((header_addr w +₃₂ element_offset (length seen)) <=?
                 u32 (header_addr w + ffff_header_size h - FFFF_SENTINEL_SIZE - ELEMENT_SIZE)) = true).
  { apply Z.leb_le. unfold is_element_out_of_range in Ho. apply Z.leb_gt in Ho.
    rewrite <- Z.sub_add_distr. lia. }
  cbn [element_search etable_scan] in *. rewrite Hin, Er, Ee. rewrite Er, Ee in Hend.
  cbn [the]. rewrite bind_ret.
  destruct (element_type e =? FFFF_ELEMENT_END) eqn:Et.
  { exists best. cbn [fst]. by rewrite app_nil_r. }
  cbn [fst snd] in *.
  replace (element_offset (length seen) + ELEMENT_SIZE) with (element_offset (length (seen ++ [e]))) in *
    by (rewrite length_app; unfold element_offset; cbn [length]; lia).
  assert (Hstep : exists best1,
    (if element_type e =? type then
       match best with
       | None => mret (Some (element_offset (length seen)))
       | Some b => o ← the (element_at h b);
                   mret (if element_generation o <? element_generation e
                         then Some (element_offset (length seen)) else best)
       end
     else mret best : B (option Z)) m = (Done best1, m) /\ best_so_far h type (seen ++ [e]) best1).
  { destruct (Z.eqb_spec (element_type e) type) as [Hty|Hty].
    - destruct best as [b|]; cbn [best_so_far] in Hbest.
      + destruct Hbest as (i & o & -> & Eo & Hnew). rewrite Eo. cbn [the]. rewrite bind_ret.
        eexists. split; [reflexivity|]. destruct (Z.ltb_spec (element_generation o) (element_generation e)).
        * eexists _, e. split; [reflexivity|]. split; [done|]. by eapply newest_of_replace.
        * exists i, o. split; [done|]. split; [done|]. apply newest_of_keep; [done|]. lia.
      + eexists. split; [reflexivity|]. eexists _, e. split; [reflexivity|]. split; [done|].
        by apply newest_of_first.
    - eexists. split; [reflexivity|]. destruct best as [b|]; cbn [best_so_far] in *.
      + destruct Hbest as (i & o & ? & ? & ?). exists i, o. split; [done|]. split; [done|].
        by apply newest_of_keep.
      + by apply none_of_app. }
  destruct Hstep as (best1 & Es & Hb1). rewrite (bind_step _ _ _ _ _ Es).
  destruct (IH (seen ++ [e]) best1 Hf' Hend Hb1) as (best' & Er' & Hb'). exists best'.
  split; [done|]. by rewrite <- app_assoc in Hb'.
Qed.

Lemma element_search_start w h type m slots :
  fsized h -> efits slots ELEMENTS_OFFSET -> snd (etable_scan slots h ELEMENTS_OFFSET) = true ->
  exists best, element_search slots w h type ELEMENTS_OFFSET None m = (Done best, m) /\
    best_so_far h type (fst (etable_scan slots h ELEMENTS_OFFSET)) best.
Proof.
  intros Hh Hf Hend. apply (element_search_eq w h type m Hh slots [] None); [done|done|].
  by intros j o Hj.
Qed.

(** The machine after the search chose [best]. *)
Definition chosen (best : option Z) (m : machine) : machine := set_ffff (set_cur_element best (m_ffff m)) m.

Lemma locate_element_eq type m :
  let h := header_of (f_cur_header (m_ffff m)) (m_ffff m) in
  fsized h -> wf_ffff h ->
  (exists i e, newest_of type (fst (element_table h)) i e /\
     locate_element type m = (Done (0, element_length e), chosen (Some (element_offset i)) m)) \/
  (none_of type (fst (element_table h)) /\
     locate_element type m = (set_last_error BRE_FFFF_NO_FIRMWARE ;; mret (-1, 0)) (chosen None m)).
Proof.
  intros h Hh Hw. pose proof (wff_end h Hw) as Hend. rewrite element_table_eq in Hend |- *.
  destruct (element_search_start (f_cur_header (m_ffff m)) h type
              (set_ffff (set_cur_element None (m_ffff m)) m) ELEMENT_SLOTS Hh efits_start Hend)
    as (best & Er & Hb). clear Hend. revert Er Hb. unfold locate_element.
  generalize ELEMENT_SLOTS. intros slots Er Hb.
  rewrite (bind_step (gets m_ffff) _ m (m_ffff m) m eq_refl). cbv zeta. fold h.
  rewrite (bind_step (modify_ffff (set_cur_element None)) _ m tt
             (set_ffff (set_cur_element None (m_ffff m)) m) eq_refl).
  rewrite (bind_step _ _ _ _ _ Er).
  rewrite (bind_step (modify_ffff (set_cur_element best)) _ (set_ffff (set_cur_element None (m_ffff m)) m)
             tt (chosen best m) eq_refl).
  destruct best as [off|]; cbn [best_so_far] in Hb.
  - destruct Hb as (i & e & -> & Ee & Hnew). left. exists i, e. split; [done|]. rewrite Ee. reflexivity.
  - right. done.
Qed.

(** With a valid current header, [locate_element] finds an element of the
    wanted type whenever the table has one: it returns its length, and
    [cur_element] points to the first of those with the highest generation. *)
Theorem locate_element_newest type m e0 :
  let h := header_of (f_cur_header (m_ffff m)) (m_ffff m) in
  fsized h -> wf_ffff h -> e0 ∈ fst (element_table h) -> element_type e0 = type ->
  exists i e, newest_of type (fst (element_table h)) i e /\
    locate_element type m = (Done (0, element_length e), chosen (Some (element_offset i)) m).
Proof.
  intros h Hh Hw Hin Ht. destruct (locate_element_eq type m Hh Hw) as [Hs|[Hn _]]; [done|].
  apply list_elem_of_lookup in Hin as [j Hj]. by apply Hn in Hj.
Qed.
End search.

(** ** What the checks guarantee *)

(** The flash bytes of an element. *)
Definition element_range (e : ffff_element_descriptor) : Z * Z :=
  (element_location e, element_location e + element_length e).

(** Length and place of an element as unsigned words, with an end below
    [2^32]. *)
Definition element_no_wrap (e : ffff_element_descriptor) : Prop :=
  0 < element_length e /\ 0 <= element_location e /\
  element_location e + element_length e <= 2 ^ 32.

Lemma element_end_no_wrap e :
  element_no_wrap e -> element_end e = element_location e + element_length e - 1.
Proof. intros (? & ? & ?). unfold element_end. apply u32_small. unfold is_u32. lia. Qed.

Lemma not_collide_disjoint e o :
  element_no_wrap e -> element_no_wrap o -> elements_collide e o = false ->
  ranges_disjoint (element_range e) (element_range o).
Proof.
  intros He Ho Hc. unfold elements_collide in Hc. rewrite !element_end_no_wrap in Hc by done.
  destruct He as (? & ? & ?), Ho as (? & ? & ?).
  apply andb_false_iff in Hc. rewrite !Z.leb_gt in Hc.
  unfold ranges_disjoint, element_range. simpl. lia.
Qed.

Section guarantees.
Context `{Platform, Hardware, !PlatformOk}.

(** [C29] [validate_ffff_header] accepts a header copy, leaving the machine as it
    was, exactly when it is well formed: trailing sentinel, block size, capacity
    and image length in their limits, an end marker in the table, and every
    element in the image area, aligned, and clear of all elements behind it. *)
Theorem validate_ffff_header_decides w h m m' :
  fsized h -> validate_ffff_header w h m = (Done 0, m') <-> m' = m /\ wf_ffff h.
Proof. apply validate_ffff_header_ok. Qed.

(** An accepted element whose range does not wrap is in the image area. *)
Lemma wf_element_inside h i e :
  fsized h -> wf_ffff h -> fst (element_table h) !! i = Some e -> element_no_wrap e ->
  2 * ffff_header_size h <= element_location e /\
  2 * ffff_erase_block_size h <= element_location e /\
  element_location e + element_length e <= ffff_flash_image_length h.
Proof.
  intros Hh Hw Hi He. destruct (wff_elements h Hw i e Hi) as (Hmin & Hend & _ & _).
  rewrite element_end_no_wrap in Hend by done.
  assert (Hm : 2 * ffff_header_size h <= element_location_min h /\
               2 * ffff_erase_block_size h <= element_location_min h).
  { pose proof (wff_block h Hw) as Hb. unfold FFFF_ERASE_BLOCK_SIZE_MAX in Hb.
    assert (0 <= ffff_erase_block_size h) by (apply get32_range; apply Hh).
    destruct Hh as (_ & _ & Hs). unfold FFFF_HEADER_SIZE_MIN, MAX_FFFF_HEADER_SIZE_SUPPORTED in Hs.
    unfold element_location_min. destruct (Z.ltb_spec (ffff_erase_block_size h) (ffff_header_size h));
      rewrite Z.shiftl_mul_pow2, u32_small by (unfold is_u32; lia); lia. }
  lia.
Qed.

(** Two elements, the first in front of the second. *)
Lemma wf_elements_apart h i j e o :
  wf_ffff h -> (i < j)%nat ->
  fst (element_table h) !! i = Some e -> fst (element_table h) !! j = Some o ->
  element_no_wrap e -> element_no_wrap o ->
  ranges_disjoint (element_range e) (element_range o) /\
  ~ (element_type e = element_type o /\ element_id e = element_id o /\
     element_generation e = element_generation o).
Proof.
  intros Hw Hij Hi Hj He Ho. destruct (wff_elements h Hw i e Hi) as (_ & _ & _ & Hall).
  rewrite Forall_lookup in Hall. destruct (Hall (j - S i)%nat o) as [Hc Hd].
  { rewrite lookup_drop. by replace (S i + (j - S i))%nat with j by lia. }
  split; [by apply not_collide_disjoint|].
  intros (Ht & Hid & Hg). unfold elements_duplicate in Hd. by rewrite Ht, Hid, Hg, !Z.eqb_refl in Hd.
Qed.

(** [C30] In an accepted header, elements whose ranges do not wrap around the
    address space lie behind both header copies and inside the flash image, any
    two of them at different places of the table occupy disjoint flash ranges,
    and no two agree in type, id and generation. *)
Theorem valid_ffff_elements_apart w h m m' i j e o :
  fsized h -> validate_ffff_header w h m = (Done 0, m') -> i <> j ->
  fst (element_table h) !! i = Some e -> fst (element_table h) !! j = Some o ->
  element_no_wrap e -> element_no_wrap o ->
  2 * ffff_header_size h <= element_location e /\
  2 * ffff_erase_block_size h <= element_location e /\
  element_location e + element_length e <= ffff_flash_image_length h /\
  ranges_disjoint (element_range e) (element_range o) /\
  ~ (element_type e = element_type o /\ element_id e = element_id o /\
     element_generation e = element_generation o).
Proof.
  intros Hh Hv Hij Hi Hj He Ho. apply validate_ffff_header_ok in Hv as [_ Hw]; [|done].
  destruct (wf_element_inside h i e Hh Hw Hi He) as (H1' & H2' & H3'). split_and!; [done..| |].
  all: destruct (Nat.lt_total i j) as [Hlt|[->|Hlt]]; [|done|].
  1, 3: apply (wf_elements_apart h i j e o Hw Hlt Hi Hj He Ho).
  all: destruct (wf_elements_apart h j i o e Hw Hlt Hj Hi Ho He) as [Hr Hd].
  - unfold ranges_disjoint in *. lia.
  - intros (Ht & Hid & Hg). by apply Hd.
Qed.
End guarantees.

(** ** Concrete headers *)

(** A header of 512 bytes for a flash of 1 MiB with blocks of 4 KiB: elements as
    (type, id, length, location, generation). *)
Definition sim_element (e : Z * Z * Z * Z * Z) : list Z :=
  let '(ty, id, len, loc, gen) := e in
  le_split 4 ty ++ le_split 4 id ++ le_split 4 len ++ le_split 4 loc ++ le_split 4 gen.

Definition sim_ffff (gen : Z) (es : list (Z * Z * Z * Z * Z)) : list Z :=
  let b := ffff_sentinel_value ++ replicate 64 0 ++ le_split 4 0x100000 ++ le_split 4 4096
           ++ le_split 4 512 ++ le_split 4 0x100000 ++ le_split 4 gen ++ replicate 16 0
           ++ concat (map sim_element es) ++ sim_element (FFFF_ELEMENT_END, 0, 0, 0, 0) in
  b ++ replicate (496 - length b) 0 ++ ffff_sentinel_value.

(** Three stage 2 images, the newest in the middle, and a data element. *)
Definition good_ffff : list Z :=
  sim_ffff 1 [(1, 1, 0x3000, 0x10000, 3); (5, 2, 0x100, 0x20000, 9); (1, 3, 0x2000, 0x30000, 7);
              (1, 4, 0x2000, 0x40000, 5)] ++ replicate 3584 0.

(** An element whose length wraps around the address space. *)
Definition wrap_ffff : list Z :=
  sim_ffff 1 [(1, 1, 0xFFFFF000, 0x10000, 1)] ++ replicate 3584 0.

Lemma fsized_good : fsized good_ffff.
Proof. split; [by vm_compute|]. split; [by apply bytes_okb_ok; vm_compute|by vm_compute]. Qed.

Definition good_ffff_machine : @machine sim_hw :=
  set_ffff {| f_header1 := good_ffff; f_header2 := replicate 4096 0;
              f_cur_header := Header1; f_cur_element := None |} (sim_machine (sim_soc ∅ [])).

Lemma validate_ffff_header_decides_witness :
  let P := sim_platform Stage1 [] [] in
  @validate_ffff_header P sim_hw Header1 good_ffff (sim_machine (sim_soc ∅ [])) =
    (Done 0, snd (@validate_ffff_header P sim_hw Header1 good_ffff (sim_machine (sim_soc ∅ [])))) /\
  wf_ffff good_ffff.
Proof.
  intros P. pose proof (sim_platform_ok Stage1 : @PlatformOk P).
  assert (Hrun : @validate_ffff_header P sim_hw Header1 good_ffff (sim_machine (sim_soc ∅ [])) =
    (Done 0, snd (@validate_ffff_header P sim_hw Header1 good_ffff (sim_machine (sim_soc ∅ []))))).
  { apply (run_done (@validate_ffff_header P sim_hw Header1 good_ffff) (sim_machine (sim_soc ∅ [])) 0).
    vm_compute. reflexivity. }
  split; [exact Hrun|].
  exact (proj2 (proj1 (@validate_ffff_header_decides P sim_hw _ Header1 good_ffff _ _ fsized_good) Hrun)).
Defined.

Lemma wf_good : wf_ffff good_ffff.
Proof. apply wf_ffff_okb. vm_compute. intuition discriminate. Qed.

Lemma valid_ffff_elements_apart_witness :
  let P := sim_platform Stage1 [] [] in
  exists e o, fst (element_table good_ffff) !! 0%nat = Some e /\
    fst (element_table good_ffff) !! 2%nat = Some o /\
    ranges_disjoint (element_range e) (element_range o).
Proof.
  intros P. pose proof (sim_platform_ok Stage1 : @PlatformOk P).
  set (t := fst (element_table good_ffff)).
  destruct (t !! 0%nat) as [e|] eqn:Ee; [|vm_compute in Ee; discriminate].
  destruct (t !! 2%nat) as [o|] eqn:Eo; [|vm_compute in Eo; discriminate].
  exists e, o. split; [reflexivity|]. split; [reflexivity|].
  refine (proj1 (proj2 (proj2 (proj2 (@valid_ffff_elements_apart P sim_hw _ Header1 good_ffff
           (sim_machine (sim_soc ∅ []))
           (snd (@validate_ffff_header P sim_hw Header1 good_ffff (sim_machine (sim_soc ∅ []))))
           0 2 e o fsized_good _ _ Ee Eo _ _))))).
  - apply (run_done (@validate_ffff_header P sim_hw Header1 good_ffff) (sim_machine (sim_soc ∅ [])) 0).
    vm_compute. reflexivity.
  - lia.
  - vm_compute in Ee. injection Ee as <-. vm_compute. intuition discriminate.
  - vm_compute in Eo. injection Eo as <-. vm_compute. intuition discriminate.
Defined.

Lemma locate_element_newest_witness :
  let P := sim_platform Stage1 [] [] in
  exists i e, newest_of FFFF_ELEMENT_STAGE_2_FW (fst (element_table good_ffff)) i e /\
    @locate_element P sim_hw FFFF_ELEMENT_STAGE_2_FW good_ffff_machine =
      (Done (0, element_length e), chosen (Some (element_offset i)) good_ffff_machine).
Proof.
  intros P. pose proof (sim_platform_ok Stage1 : @PlatformOk P).
  set (t := fst (element_table good_ffff)).
  destruct (t !! 0%nat) as [e|] eqn:Ee; [|vm_compute in Ee; discriminate].
  apply (@locate_element_newest P sim_hw _ FFFF_ELEMENT_STAGE_2_FW good_ffff_machine e).
  - exact fsized_good.
  - exact wf_good.
  - apply (list_elem_of_lookup_2 _ 0 _ Ee).
  - vm_compute in Ee. injection Ee as <-. reflexivity.
Defined.

(** The end of an element is computed modulo [2^32]: a header is valid
    although its element claims almost the whole address space, far beyond the
    flash image. *)
Theorem element_end_wraps :
  let P := sim_platform Stage1 [] [] in
  @validate_ffff_header P sim_hw Header1 wrap_ffff (sim_machine (sim_soc ∅ [])) =
    (Done 0, snd (@validate_ffff_header P sim_hw Header1 wrap_ffff (sim_machine (sim_soc ∅ [])))) /\
  exists e, fst (element_table wrap_ffff) !! 0%nat = Some e /\
    ffff_flash_image_length wrap_ffff < element_location e + element_length e.
Proof.
  intros P. split.
  - apply (run_done (@validate_ffff_header P sim_hw Header1 wrap_ffff) (sim_machine (sim_soc ∅ [])) 0).
    vm_compute. reflexivity.
  - eexists. split; [vm_compute; reflexivity|]. vm_compute. reflexivity.
Qed.
