(* ===== verification/FfffLocate.v ===== *)
(** * FfffLocate: which header copy is used

    With a storage driver that reads the flash contents, [load_ffff_header]
    accepts an address just when a valid header copy is there, and
    [locate_ffff_table] picks the newest valid copy: the one at address 0 or its
    twin behind it, or else the first one on a power-of-two boundary. *)

From S2P Require Import Prelude Utils Machine Chip Sim Errors Loading TftfValid Ffff FfffValid.

(** ** A header is determined by its first [header_size] bytes *)

Lemma sub_agree (h h' : list Z) k off n :
  0 <= off -> 0 <= n -> off + n <= k -> take (Z.to_nat k) h = take (Z.to_nat k) h' ->
  sub h off n = sub h' off n.
Proof.
  intros Ho Hn Hk E. unfold sub.
  assert (Ht : forall l : list Z, take (Z.to_nat n) (drop (Z.to_nat off) l) =
                 take (Z.to_nat n) (drop (Z.to_nat off) (take (Z.to_nat k) l))).
  { intros l. rewrite skipn_firstn_comm, take_take. f_equal. lia. }
  by rewrite (Ht h), (Ht h'), E.
Qed.

Section agree.
Context (h h' : list Z) (k : Z).
Context (Hl : length h = 4096%nat) (Hl' : length h' = 4096%nat).
Context (Hk : take (Z.to_nat k) h = take (Z.to_nat k) h').

Lemma get32_agree off : 0 <= off -> off + 4 <= k -> get32 h off = get32 h' off.
Proof. intros. unfold get32. f_equal. by apply sub_agree with k; try lia. Qed.

Lemma get8_agree off : 0 <= off -> off + 1 <= k -> get8 h off = get8 h' off.
Proof.
  intros. unfold get8. f_equal.
  rewrite <- (lookup_take_lt h (Z.to_nat k)), <- (lookup_take_lt h' (Z.to_nat k)) by lia. by rewrite Hk.
Qed.

Lemma element_at_agree off : 0 <= off -> off + ELEMENT_SIZE <= k -> element_at h off = element_at h' off.
Proof.
  unfold ELEMENT_SIZE. intros. unfold element_at. rewrite Hl, Hl'. unfold ELEMENT_SIZE.
  by rewrite !(get32_agree), get8_agree by lia.
Qed.

Context (Hsz : ffff_header_size h = k) (Hsz' : ffff_header_size h' = k) (Hmin : 512 <= k).

Lemma etable_scan_agree : forall slots off, 0 <= off -> etable_scan slots h off = etable_scan slots h' off.
Proof.
  assert (He : etable_end h = etable_end h') by (unfold etable_end; lia).
  induction slots as [|n IH]; intros off Ho; cbn [etable_scan]; rewrite <- He; [done|].
  destruct (Z.leb_spec (etable_end h) off) as [|Hlt]; [done|].
  unfold etable_end, FFFF_SENTINEL_SIZE, ELEMENT_SIZE in Hlt.
  rewrite element_at_agree by (unfold ELEMENT_SIZE; lia).
  rewrite IH by (unfold ELEMENT_SIZE; lia). done.
Qed.

Lemma wf_ffff_agree : wf_ffff h -> wf_ffff h'.
Proof.
  assert (Ht : element_table h = element_table h') by (apply etable_scan_agree; done).
  assert (Hf : forall off, 0 <= off <= 500 -> get32 h off = get32 h' off)
    by (intros; apply get32_agree; lia).
  assert (Hloc : element_location_min h = element_location_min h').
  { unfold element_location_min, ffff_erase_block_size. by rewrite Hf, Hsz, Hsz' by lia. }
  intros [Hse Hb Hc Hi He Hel]. split.
  - unfold get_trailing_sentinel, FFFF_SENTINEL_SIZE in *. rewrite Hsz' in *. rewrite Hsz in Hse.
    rewrite <- Hse. symmetry. apply sub_agree with k; try lia. done.
  - unfold ffff_erase_block_size in *. by rewrite <- Hf by lia.
  - unfold ffff_erase_block_size, ffff_flash_capacity in *. by rewrite <- !Hf by lia.
  - unfold ffff_flash_image_length, ffff_flash_capacity in *. by rewrite <- !Hf by lia.
  - by rewrite <- Ht.
  - rewrite <- Ht. unfold wf_element, ffff_flash_image_length, ffff_erase_block_size in *.
    by rewrite <- Hloc, <- !Hf by lia.
Qed.
End agree.

(** ** Frame *)

Section frame.
Context `{Platform, Hardware}.

Lemma pres_element_scan w h e : forall slots off, pres only_err (element_scan slots w h e off).
Proof. induction slots as [|n IH]; intros off; cbn [element_scan]; pres_auto; apply IH. Qed.

Lemma pres_valid_element slots w h e off : pres only_err (valid_ffff_element slots w h e off).
Proof. unfold valid_ffff_element. cbv zeta. pres_auto. apply pres_element_scan. Qed.

Lemma pres_valid_elements w h : forall slots off fin, pres only_err (valid_elements slots w h off fin).
Proof.
  induction slots as [|n IH]; intros off fin; cbn [valid_elements]; pres_auto;
    first [apply pres_valid_element | apply IH].
Qed.

Lemma pres_validate w h : pres only_err (validate_ffff_header w h).
Proof.
  unfold validate_ffff_header. generalize ELEMENT_SLOTS. intros slots.
  pres_auto; apply pres_valid_elements.
Qed.

Lemma pres_init_last_error : pres only_err init_last_error.
Proof. unfold init_last_error. destruct boot_stage; pres_auto. Qed.

(** A run that reports errors at most. *)
Lemma err_run {A} (c : B A) m a m' :
  pres only_err c -> c m = (Done a, m') -> mem_ok m -> mem_ok m' /\ m_ffff m' = m_ffff m.
Proof.
  intros Hp E Hm. pose proof (pres_run _ _ _ _ _ Hp E) as He. apply only_err_image in He.
  split; [by eapply mem_ok_image | by rewrite (ie_ffff _ _ He)].
Qed.
End frame.

(** ** Copies on the flash *)

Definition flash_header (flash : Z -> Z) (addr : Z) : list Z := flash_bytes flash addr 4096.

Record valid_copy (flash : Z -> Z) (addr : Z) : Prop := {
  vc_leading : sub (flash_header flash addr) 0 FFFF_SENTINEL_SIZE = ffff_sentinel_value;
  vc_sized : fsized (flash_header flash addr);
  vc_wf : wf_ffff (flash_header flash addr)
}.

Section load.
Context `{Platform, Hardware, !PlatformOk}.
Context (rd : ptr -> Z -> Z -> B Z) (flash : Z -> Z) `{!ReadOk rd flash}.

Definition set_header (w : ffff_which) (h : list Z) (f : ffff_processing_state) : ffff_processing_state :=
  match w with Header1 => set_f_header1 h f | Header2 => set_f_header2 h f end.

Lemma flash_bytes_ok a n : bytes_ok (flash_bytes flash a n).
Proof.
  apply Forall_forall. intros b Hb. apply list_elem_of_fmap in Hb as (x & -> & _). apply flash_u8.
Qed.

(** A read into a header buffer. *)
Lemma read_header w ofs addr n m m' :
  is_u32 n -> 0 <= addr -> addr + n < 2 ^ 32 -> mem_ok m -> rd (Ptr (header_block w) ofs) addr n m = (Done 0, m') ->
  mem_ok m' /\
  m_ffff m' = set_header w (splice (header_of w (m_ffff m)) ofs (flash_bytes flash addr n)) (m_ffff m).
Proof.
  intros Hn32 Ha Han Hm E. apply read_ok in E; [|done..]. split; [by eapply mem_ok_loaded|].
  pose proof (ie_ffff _ _ (ld_state _ _ _ _ _ _ E)) as Hf. by destruct w.
Qed.

Lemma header_of_set w h f : header_of w (set_header w h f) = h.
Proof. by destruct w. Qed.

Lemma set_header_set w h h' f : set_header w h (set_header w h' f) = set_header w h f.
Proof. by destruct w. Qed.

(** What a buffer holds when the copy at [addr] was found valid. *)
Definition holds_copy (addr : Z) (h : list Z) : Prop :=
  fsized h /\ wf_ffff h /\
  take (Z.to_nat (ffff_header_size h)) h = flash_bytes flash addr (ffff_header_size h).

Lemma header_buffer_ok w m :
  mem_ok m -> length (header_of w (m_ffff m)) = 4096%nat /\ bytes_ok (header_of w (m_ffff m)).
Proof. intros Hm. destruct w; [apply (ok_ffff1 _ Hm) | apply (ok_ffff2 _ Hm)]. Qed.

(** The buffer after the first [k] bytes of the copy at [addr] were read. *)
Definition buffered (h0 : list Z) (addr k : Z) : list Z := splice h0 0 (flash_bytes flash addr k).

Section buffered.
Context (h0 : list Z) (addr k : Z) (Hl : length h0 = 4096%nat) (Hb : bytes_ok h0) (Hk : 512 <= k <= 4096).

Lemma length_buffered : length (buffered h0 addr k) = 4096%nat.
Proof. unfold buffered. rewrite length_splice; rewrite ?length_flash_bytes; lia. Qed.

Lemma buffered_bytes : bytes_ok (buffered h0 addr k).
Proof. apply bytes_ok_splice; [done|apply flash_bytes_ok]. Qed.

Lemma take_buffered : take (Z.to_nat k) (buffered h0 addr k) = flash_bytes flash addr k.
Proof.
  unfold buffered, splice. rewrite take_0, app_nil_l. apply take_app_length'. rewrite length_flash_bytes; lia.
Qed.

Lemma buffered_agree : take (Z.to_nat k) (buffered h0 addr k) = take (Z.to_nat k) (flash_header flash addr).
Proof. rewrite take_buffered. symmetry. apply take_flash_bytes. lia. Qed.

Lemma buffered_sub off n :
  0 <= off -> 0 <= n -> off + n <= k -> sub (buffered h0 addr k) off n = sub (flash_header flash addr) off n.
Proof. intros. apply sub_agree with k; try done. apply buffered_agree. Qed.

Lemma buffered_size : ffff_header_size (buffered h0 addr k) = ffff_header_size (flash_header flash addr).
Proof. unfold ffff_header_size, get32. rewrite buffered_sub by lia. done. Qed.

Lemma buffered_more n :
  0 <= n -> k + n <= 4096 ->
  splice (buffered h0 addr k) k (flash_bytes flash (addr + k) n) = buffered h0 addr (k + n).
Proof.
  intros Hn Hkn. unfold buffered. rewrite <- flash_bytes_app by lia.
  rewrite <- splice_app; [|lia|rewrite length_app, !length_flash_bytes; lia].
  f_equal. rewrite length_flash_bytes; lia.
Qed.
End buffered.

Lemma flash_header_sized addr :
  FFFF_HEADER_SIZE_MIN <= ffff_header_size (flash_header flash addr) <= MAX_FFFF_HEADER_SIZE_SUPPORTED ->
  fsized (flash_header flash addr).
Proof. intros Hs. split; [by apply length_flash_bytes|]. split; [apply flash_bytes_ok|done]. Qed.

(** The last step: all of the header is in the buffer. *)
Lemma validate_buffered w h0 addr k m v m' :
  length h0 = 4096%nat -> bytes_ok h0 ->
  k = ffff_header_size (flash_header flash addr) -> 512 <= k <= 4096 ->
  sub (flash_header flash addr) 0 FFFF_SENTINEL_SIZE = ffff_sentinel_value ->
  validate_ffff_header w (buffered h0 addr k) m = (Done v, m') ->
  (v = 0 -> holds_copy addr (buffered h0 addr k)) /\ (v = 0 <-> valid_copy flash addr).
Proof.
  intros Hl Hb Hkz Hk Hlead E.
  pose proof (length_buffered h0 addr k Hl Hk) as HL. pose proof (buffered_agree h0 addr k Hl Hk) as Hag.
  pose proof (buffered_size h0 addr k Hl Hk) as Hsz. rewrite <- Hkz in Hsz.
  assert (Hfs : fsized (flash_header flash addr)) by (apply flash_header_sized; by rewrite <- Hkz).
  assert (HF : length (flash_header flash addr) = 4096%nat) by apply Hfs.
  assert (Hs : fsized (buffered h0 addr k)).
  { split; [done|]. split; [by apply buffered_bytes|]. by rewrite Hsz. }
  assert (Hgood : v = 0 <-> wf_ffff (buffered h0 addr k)).
  { split; [intros ->; by apply validate_ffff_header_ok in E as [_ ?]|].
    intros Hw. pose proof (proj2 (validate_ffff_header_ok w _ m m Hs) (conj eq_refl Hw)) as E'.
    rewrite E in E'. congruence. }
  split.
  - intros Hv. split; [done|]. split; [by apply Hgood|]. rewrite Hsz. by apply take_buffered.
  - rewrite Hgood. split.
    + intros Hw. split; [done|done|]. by apply (wf_ffff_agree _ _ k HL HF Hag Hsz (eq_sym Hkz) (proj1 Hk)).
    + intros [_ _ Hw]. by apply (wf_ffff_agree _ _ k HF HL (eq_sym Hag) (eq_sym Hkz) Hsz (proj1 Hk)).
Qed.

Lemma load_ffff_header_done w addr m v m' :
  mem_ok m -> 0 <= addr -> addr + 4096 < 2 ^ 32 ->
  load_ffff_header rd w addr m = (Done (0, v), m') ->
  mem_ok m' /\
  (exists h, m_ffff m' = set_header w h (m_ffff m) /\ (v = true -> holds_copy addr h)) /\
  (v = true <-> valid_copy flash addr).
Proof.
  intros Hm Ha Ha4 E. unfold load_ffff_header in E.
  destruct (header_buffer_ok w m Hm) as [HL HB]. set (h0 := header_of w (m_ffff m)) in *.
  apply bind_done in E. destruct E as (rc & m1 & E1 & E).
  destruct (Z.eqb_spec rc 0) as [->|]; [|by inv_done]. cbn [negb] in E.
  apply read_header in E1 as (Hm1 & Hf1); [|done|done|unfold FFFF_HEADER_SIZE_MIN; lia|done].
  apply bind_done in E. destruct E as (h & ma & [= <- <-] & E).
  rewrite Hf1, header_of_set in E. fold h0 in E. fold (buffered h0 addr FFFF_HEADER_SIZE_MIN) in E.
  set (h1 := buffered h0 addr FFFF_HEADER_SIZE_MIN) in *.
  assert (Hsz : ffff_header_size h1 = ffff_header_size (flash_header flash addr)) by (by apply buffered_size).
  assert (Hse : sub h1 0 FFFF_SENTINEL_SIZE = sub (flash_header flash addr) 0 FFFF_SENTINEL_SIZE)
    by (by apply buffered_sub).
  rewrite Hse, Hsz in E.
  apply bind_done in E. destruct E as (c & ma & Ec & E). apply the_done in Ec as [Ec ->].
  destruct (memcmp_sentinel (sub (flash_header flash addr) 0 FFFF_SENTINEL_SIZE)) as (c' & Ec' & Hc).
  { rewrite length_sub; [done|done|done|]. unfold flash_header. by rewrite length_flash_bytes. }
  rewrite Ec in Ec'. injection Ec' as <-.
  destruct (Z.eqb_spec c 0) as [Hc0|Hc0]; cbn [negb] in E.
  2: { apply bind_done in E. destruct E as ([] & m2 & E2 & [= <- <-]).
       destruct (err_run _ _ _ _ (pres_set_last_error _) E2 Hm1) as [Hm2 Hf2].
       split; [done|]. split; [exists h1; split; [by rewrite Hf2|done]|].
       split; [done|]. intros [? _ _]. by apply Hc in vc_leading0. }
  apply Hc in Hc0.
  destruct ((_ <? _) || (_ <? _)) eqn:Erange.
  { apply bind_done in E. destruct E as ([] & m2 & E2 & [= <- <-]).
    destruct (err_run _ _ _ _ (pres_set_last_error _) E2 Hm1) as [Hm2 Hf2].
    split; [done|]. split; [exists h1; split; [by rewrite Hf2|done]|].
    split; [done|]. intros [_ (_ & _ & ? & ?) _]. apply orb_true_iff in Erange. rewrite !Z.ltb_lt in Erange. lia. }
  apply orb_false_iff in Erange as [Hlo Hhi]. apply Z.ltb_ge in Hlo, Hhi.
  set (k := ffff_header_size (flash_header flash addr)) in *.
  apply bind_done in E. destruct E as (rc & m2 & E2 & E).
  destruct (Z.eqb_spec rc 0) as [->|]; [|by inv_done]. cbn [negb] in E.
  apply bind_done in E. destruct E as (h & ma & [= <- <-] & E).
  apply bind_done in E. destruct E as (vr & m3 & E3 & [= <- <-]).
  assert (H2 : mem_ok m2 /\ m_ffff m2 = set_header w (buffered h0 addr k) (m_ffff m)).
  { destruct (Z.eqb_spec k FFFF_HEADER_SIZE_MIN) as [->|Hne]; [by injection E2 as <-|].
    unfold FFFF_HEADER_SIZE_MIN, MAX_FFFF_HEADER_SIZE_SUPPORTED in *.
    rewrite u32_small in E2 by (unfold is_u32; lia).
    apply read_header in E2 as (Hm2 & Hf2); [|unfold is_u32; lia|lia|lia|done].
    split; [done|]. rewrite Hf2, Hf1, header_of_set, set_header_set. fold h0.
    fold (buffered h0 addr 512). rewrite buffered_more by lia. do 2 f_equal. lia. }
  destruct H2 as [Hm2 Hf2]. rewrite Hf2, header_of_set in E3.
  destruct (err_run _ _ _ _ (pres_validate _ _) E3 Hm2) as [Hm3 Hf3].
  destruct (validate_buffered w h0 addr k m2 vr m3 HL HB eq_refl (conj Hlo Hhi) Hc0 E3) as [Hv Hvc].
  split; [done|]. rewrite Z.eqb_eq. split; [|done].
  exists (buffered h0 addr k). rewrite Hf3. split; [done|].
  intros Hv0. by apply Hv, Z.eqb_eq.
Qed.
End load.

(** ** The copy that is used *)

Definition copy_generation (flash : Z -> Z) (addr : Z) : Z := ffff_header_generation (flash_header flash addr).

(** Where the twin of the copy at address 0 is. *)
Definition second_copy (flash : Z -> Z) : Z :=
  Z.max (ffff_erase_block_size (flash_header flash 0)) (ffff_header_size (flash_header flash 0)).

(** The places searched when the first copy is damaged. *)
Definition search_addr (k : nat) : Z := FFFF_HEADER_SIZE_MIN * 2 ^ Z.of_nat k.

Inductive selected (flash : Z -> Z) : Z -> Prop :=
| selected_first :
    valid_copy flash 0 ->
    (valid_copy flash (second_copy flash) ->
       copy_generation flash (second_copy flash) <= copy_generation flash 0) ->
    selected flash 0
| selected_second :
    valid_copy flash 0 -> valid_copy flash (second_copy flash) ->
    copy_generation flash 0 < copy_generation flash (second_copy flash) ->
    selected flash (second_copy flash)
| selected_search k :
    ~ valid_copy flash 0 -> search_addr k < 2 * FFFF_ERASE_BLOCK_SIZE_MAX ->
    (forall j, (j < k)%nat -> ~ valid_copy flash (search_addr j)) ->
    valid_copy flash (search_addr k) ->
    selected flash (search_addr k).

Section locate.
Context `{Platform, Hardware, !PlatformOk}.
Context (rd : ptr -> Z -> Z -> B Z) (flash : Z -> Z) `{!ReadOk rd flash}.

Lemma holds_copy_agree addr h :
  holds_copy flash addr h ->
  take (Z.to_nat (ffff_header_size h)) h = take (Z.to_nat (ffff_header_size h)) (flash_header flash addr).
Proof.
  intros ((_ & _ & Hs) & _ & Ht). unfold FFFF_HEADER_SIZE_MIN, MAX_FFFF_HEADER_SIZE_SUPPORTED in Hs.
  rewrite Ht. symmetry. apply take_flash_bytes. lia.
Qed.

Lemma holds_copy_get32 addr h off :
  holds_copy flash addr h -> 0 <= off <= 508 -> get32 h off = get32 (flash_header flash addr) off.
Proof.
  intros Hc Hoff. pose proof Hc as ((HL & _ & Hs) & _).
  unfold FFFF_HEADER_SIZE_MIN in Hs.
  apply (get32_agree h (flash_header flash addr) (ffff_header_size h)); [done| |by apply holds_copy_agree|lia|lia].
  unfold flash_header. by rewrite length_flash_bytes.
Qed.

Lemma holds_copy_table addr h :
  holds_copy flash addr h -> element_table h = element_table (flash_header flash addr).
Proof.
  intros Hc. pose proof Hc as ((HL & _ & Hs) & _). unfold FFFF_HEADER_SIZE_MIN in Hs.
  assert (HF : length (flash_header flash addr) = 4096%nat)
    by (unfold flash_header; by rewrite length_flash_bytes).
  assert (Hsz : ffff_header_size (flash_header flash addr) = ffff_header_size h)
    by (symmetry; by apply (holds_copy_get32 addr h 88 Hc)).
  rewrite !element_table_eq. generalize ELEMENT_SLOTS. intros slots.
  apply (etable_scan_agree h (flash_header flash addr) (ffff_header_size h)); try done.
  by apply holds_copy_agree.
Qed.

Lemma search_second_done : forall tries k m m',
  mem_ok m -> (forall j, (j < k)%nat -> ~ valid_copy flash (search_addr j)) ->
  search_second tries rd (search_addr k) m = (Done 0, m') ->
  mem_ok m' /\ f_cur_header (m_ffff m') = Header2 /\
  exists j, search_addr j < 2 * FFFF_ERASE_BLOCK_SIZE_MAX /\
    (forall i, (i < j)%nat -> ~ valid_copy flash (search_addr i)) /\
    valid_copy flash (search_addr j) /\ holds_copy flash (search_addr j) (f_header2 (m_ffff m')).
Proof.
  induction tries as [|n IH]; intros k m m' Hm Hbefore E; cbn [search_second] in E;
    (destruct (Z.ltb_spec (search_addr k) (FFFF_ERASE_BLOCK_SIZE_MAX * 2)) as [Hlt|]; [|by inv_done]); [done|].
  assert (Hpos : 0 <= search_addr k) by (unfold search_addr, FFFF_HEADER_SIZE_MIN; lia).
  unfold FFFF_ERASE_BLOCK_SIZE_MAX in Hlt.
  apply bind_done in E. destruct E as ([rc v] & m1 & E1 & E).
  destruct (Z.eqb_spec rc 0) as [->|]; [|by inv_done]. cbn [negb] in E.
  apply (load_ffff_header_done rd flash) in E1
    as (Hm1 & (h & Hf & Hh) & Hv); [|done|done|lia].
  destruct v.
  - apply bind_done in E. destruct E as ([] & m2 & [= <-] & E).
    apply bind_done in E. destruct E as ([] & m3 & E3 & [= <-]).
    apply err_run in E3 as [Hm3 Hf3]; [|apply pres_init_last_error|by destruct Hm1].
    split; [done|]. rewrite Hf3. split; [done|]. exists k.
    split; [unfold FFFF_ERASE_BLOCK_SIZE_MAX; lia|]. split; [done|]. split; [by apply Hv|].
    cbn. rewrite Hf. by apply Hh.
  - apply (IH (S k) m1); [done| |].
    + intros j Hj. destruct (decide (j = k)) as [->|]; [|apply Hbefore; lia].
      intros Hc. by apply Hv in Hc.
    + rewrite <- E. f_equal. rewrite Z.shiftl_mul_pow2, u32_small by (unfold is_u32; lia).
      unfold search_addr. rewrite Nat2Z.inj_succ, Z.pow_succ_r by lia. lia.
Qed.

Lemma locate_ffff_table_done m m' :
  mem_ok m -> locate_ffff_table rd m = (Done 0, m') ->
  mem_ok m' /\ exists addr, selected flash addr /\
    holds_copy flash addr (header_of (f_cur_header (m_ffff m')) (m_ffff m')).
Proof.
  intros Hm E. unfold locate_ffff_table in E.
  apply bind_done in E. destruct E as ([] & m0 & [= <-] & E).
  set (m0 := set_ffff _ m) in E. assert (Hm0 : mem_ok m0) by (by destruct Hm).
  apply bind_done in E. destruct E as ([rc v] & m1 & E1 & E).
  destruct (Z.eqb_spec rc 0) as [->|]; [|by inv_done]. cbn [negb] in E.
  apply (load_ffff_header_done rd flash) in E1
    as (Hm1 & (h1 & Hf1 & Hh1) & Hv1); [|done|lia|lia].
  destruct v; cbn [negb] in E.
  2: { apply (search_second_done 11 0) in E as (Hm' & Hw & j & Hlt & Hbefore & Hc & Hh); [|done|lia].
       split; [done|]. exists (search_addr j). split; [|by rewrite Hw].
       apply selected_search; try done. intros Hc0. by apply Hv1 in Hc0. }
  specialize (Hh1 eq_refl). pose proof (proj1 Hv1 eq_refl) as Hc1.
  apply bind_done in E. destruct E as (h & ma & [= <- <-] & E).
  apply bind_done in E. destruct E as ([rc v] & m2 & E2 & E).
  destruct (Z.eqb_spec rc 0) as [->|]; [|by inv_done]. cbn [negb] in E.
  assert (Hsz : ffff_header_size h1 = ffff_header_size (flash_header flash 0))
    by (by apply (holds_copy_get32 0 h1 88)).
  assert (Hbs : ffff_erase_block_size h1 = ffff_erase_block_size (flash_header flash 0))
    by (by apply (holds_copy_get32 0 h1 84)).
  assert (Hsecond : (if ffff_erase_block_size h1 <? ffff_header_size h1 then ffff_header_size h1
                     else ffff_erase_block_size h1) = second_copy flash).
  { unfold second_copy. rewrite Hsz, Hbs. destruct (Z.ltb_spec (ffff_erase_block_size (flash_header flash 0))
      (ffff_header_size (flash_header flash 0))); lia. }
  rewrite Hf1 in E2. cbn [set_header set_f_header1 f_header1] in E2. rewrite Hsecond in E2.
  assert (Hsb : 0 <= second_copy flash <= 0x80000).
  { pose proof (vc_sized _ _ Hc1) as (_ & _ & Hs). pose proof (wff_block _ (vc_wf _ _ Hc1)) as Hb.
    unfold second_copy, FFFF_HEADER_SIZE_MIN, MAX_FFFF_HEADER_SIZE_SUPPORTED, FFFF_ERASE_BLOCK_SIZE_MAX in *. lia. }
  apply (load_ffff_header_done rd flash) in E2
    as (Hm2 & (h2 & Hf2 & Hh2) & Hv2); [|done|lia|lia].
  destruct v; cbn [negb] in E.
  - specialize (Hh2 eq_refl). pose proof (proj1 Hv2 eq_refl) as Hc2.
    apply bind_done in E. destruct E as (f & ma & [= <- <-] & E). rewrite Hf2, Hf1 in E. cbn in E.
    assert (Hg1 : ffff_header_generation h1 = copy_generation flash 0)
      by (by apply (holds_copy_get32 0 h1 96)).
    assert (Hg2 : ffff_header_generation h2 = copy_generation flash (second_copy flash))
      by (by apply (holds_copy_get32 (second_copy flash) h2 96)).
    rewrite Hg1, Hg2 in E. apply bind_done in E. destruct E as ([] & m3 & E3 & E).
    apply bind_done in E. destruct E as ([] & m4 & E4 & [= <-]).
    destruct (Z.ltb_spec (copy_generation flash 0) (copy_generation flash (second_copy flash)));
      injection E3 as <-; apply err_run in E4 as [Hm4 Hf4];
      try apply pres_init_last_error; try done; try (by destruct Hm2).
    + split; [done|]. exists (second_copy flash). split; [by apply selected_second|].
      rewrite Hf4. cbn. by rewrite Hf2.
    + split; [done|]. exists 0. split; [by apply selected_first|]. rewrite Hf4, Hf2, Hf1. exact Hh1.
  - apply bind_done in E. destruct E as ([] & m3 & E3 & [= <-]).
    apply err_run in E3 as [Hm3 Hf3]; [|apply pres_init_last_error|done].
    split; [done|]. exists 0. split; [|rewrite Hf3, Hf2, Hf1; exact Hh1].
    apply selected_first; [done|]. intros Hc2. by apply Hv2 in Hc2.
Qed.

Lemma etable_lookup h : forall slots off i e,
  fst (etable_scan slots h off) !! i = Some e -> element_at h (off + ELEMENT_SIZE * Z.of_nat i) = Some e.
Proof.
  induction slots as [|n IH]; intros off i e Hi; cbn [etable_scan] in Hi;
    destruct (etable_end h <=? off); try done.
  destruct (element_at h off) as [o|] eqn:Eo; [|done].
  destruct (element_type o =? FFFF_ELEMENT_END); [done|]. destruct i as [|i].
  - injection Hi as <-. by rewrite Z.mul_0_r, Z.add_0_r.
  - apply IH in Hi. rewrite <- Hi. f_equal. lia.
Qed.

Lemma locate_element_done type m len m' :
  let h := header_of (f_cur_header (m_ffff m)) (m_ffff m) in
  fsized h -> wf_ffff h -> locate_element type m = (Done (0, len), m') ->
  exists i e, newest_of type (fst (element_table h)) i e /\ len = element_length e /\
    element_at h (element_offset i) = Some e /\ m' = chosen (Some (element_offset i)) m.
Proof.
  intros h Hh Hw E. destruct (locate_element_eq type m Hh Hw) as [(i & e & Hnew & E')|[_ E']];
    rewrite E' in E.
  - injection E as <- <-. exists i, e. split; [done|]. split; [done|]. split; [|done].
    apply (etable_lookup h ELEMENT_SLOTS). rewrite <- element_table_eq. apply Hnew.
  - by inv_done.
Qed.

(** The driver has been sent to the element by a read of no bytes. *)
Lemma locate_on_storage_done ops type m len m' :
  ops_read ops = Some rd -> mem_ok m ->
  locate_ffff_element_on_storage ops type m = (Done (0, len), m') ->
  exists addr i e, selected flash addr /\
    newest_of type (fst (element_table (flash_header flash addr))) i e /\
    len = element_length e /\
    exists m1 rc, mem_ok m1 /\ rd null (element_location e) 0 m1 = (Done rc, m').
Proof.
  intros Hrd Hm E. unfold locate_ffff_element_on_storage in E. rewrite Hrd in E.
  apply bind_done in E. destruct E as (rc & m1 & E1 & E).
  destruct (Z.eqb_spec rc 0) as [->|]; [|by inv_done]. cbn [negb] in E.
  apply locate_ffff_table_done in E1 as (Hm1 & addr & Hsel & Hc); [|done].
  apply bind_done in E. destruct E as ([rc len'] & m2 & E2 & E).
  destruct (Z.eqb_spec rc 0) as [->|]; [|by inv_done]. cbn [negb] in E.
  pose proof Hc as (Hs & Hw & _).
  apply locate_element_done in E2 as (i & e & Hnew & -> & Ee & ->); [|done|done].
  apply bind_done in E. destruct E as (f & ma & [= <- <-] & E).
  apply bind_done in E. destruct E as (off & ma & Eo & E). apply the_done in Eo as [[= <-] ->].
  apply bind_done in E. destruct E as (e' & ma & Ee' & E). apply the_done in Ee' as [Ee' ->].
  apply bind_done in E. destruct E as (rc & m3 & E3 & [= <- <-]).
  assert (e' = e) as ->.
  { revert Ee'. unfold chosen. destruct (f_cur_header (m_ffff m1)) eqn:Ew; cbn; rewrite ?Ew;
      cbn in Ee |- *; congruence. }
  exists addr, i, e. rewrite <- (holds_copy_table addr _ Hc). split_and!; try done.
  eexists _, _. split; [|exact E3]. unfold chosen. destruct Hm1. by split.
Qed.

(** [C26] With a driver that reads the flash contents, a successful
    [locate_ffff_element_on_storage] has selected the newest valid header copy
    on the flash, has found the element of the wanted type with the highest
    generation in its table, returns that element's length, and has set the
    driver to the element's location. *)
Theorem locate_on_storage_correct ops type m len m' :
  ops_read ops = Some rd -> mem_ok m ->
  locate_ffff_element_on_storage ops type m = (Done (0, len), m') ->
  exists addr i e, selected flash addr /\
    newest_of type (fst (element_table (flash_header flash addr))) i e /\
    len = element_length e /\
    exists m1 rc, rd null (element_location e) 0 m1 = (Done rc, m').
Proof.
  intros Hrd Hm E. destruct (locate_on_storage_done ops type m len m' Hrd Hm E)
    as (addr & i & e & Hsel & Hnew & Hlen & m1 & rc & _ & E1). eauto 10.
Qed.
End locate.

(** ** A flash with two copies *)

(** A driver for flash that is mapped into the address space. *)
Definition mapped_read `{Platform, Hardware} (flash : Z -> Z) (p : ptr) (addr n : Z) : B Z :=
  write_ptr p (flash_bytes flash addr n) ;; mret 0.

Lemma mapped_read_ok `{Platform, Hardware} flash :
  (forall a, is_u8 (flash a)) -> ReadOk (mapped_read flash) flash.
Proof.
  intros Hf. split; [done|]. intros p addr n m m' Hm Hn _ _ E. unfold mapped_read in E.
  apply bind_done in E. destruct E as ([] & m1 & E1 & [= <-]).
  apply write_ptr_done in E1 as [Hin ->]. unfold is_u32 in Hn.
  rewrite length_flash_bytes, Z2Nat.id in Hin by lia. apply loaded_intro.
  - rewrite length_flash_bytes; lia.
  - apply Forall_forall. intros b Hb. by apply list_elem_of_fmap in Hb as (x & -> & _).
  - by right.
  - done.
Qed.

(** The copy at address 0 is older than its twin. *)
Definition two_copies : list Z :=
  sim_ffff 1 [(1, 1, 0x3000, 0x10000, 3)] ++ replicate 3584 0 ++
  sim_ffff 2 [(1, 1, 0x3000, 0x10000, 3); (1, 2, 0x2000, 0x20000, 4)].

Lemma two_copies_u8 a : is_u8 (get8 two_copies a).
Proof.
  unfold get8. destruct (two_copies !! Z.to_nat a) as [b|] eqn:E; [|done]. simpl.
  assert (Hb : bytes_ok two_copies) by (apply bytes_okb_ok; by vm_compute).
  rewrite Forall_lookup in Hb. by eapply Hb.
Qed.

Lemma locate_on_storage_correct_witness :
  let P := sim_platform Stage1 [] [] in
  let rd := @mapped_read P sim_hw (get8 two_copies) in
  exists addr i e, selected (get8 two_copies) addr /\
    newest_of FFFF_ELEMENT_STAGE_2_FW
      (fst (element_table (flash_header (get8 two_copies) addr))) i e /\
    element_length e = 0x2000 /\
    exists m1 rc m', rd null (element_location e) 0 m1 = (Done rc, m').
Proof.
  intros P rd. pose proof (sim_platform_ok Stage1 : @PlatformOk P).
  pose proof (@mapped_read_ok P sim_hw (get8 two_copies) two_copies_u8) as Hrd.
  set (ops := {| ops_init := mret 0; ops_read := Some rd; ops_load := λ _ _ _, mret 0;
                 ops_finish := λ _ _, mret 0 |} : @data_load_ops sim_hw).
  destruct (@locate_on_storage_correct P sim_hw _ rd (get8 two_copies) Hrd ops
              FFFF_ELEMENT_STAGE_2_FW (sim_machine (sim_soc ∅ [])) 0x2000
              (snd (@locate_ffff_element_on_storage P sim_hw ops FFFF_ELEMENT_STAGE_2_FW
                 (sim_machine (sim_soc ∅ []))))) as (addr & i & e & Hsel & Hnew & Hlen & m1 & rc & E).
  - reflexivity.
  - split; vm_compute; (intuition discriminate) || (split; [reflexivity | apply bytes_okb_ok; reflexivity]).
  - apply (run_done (@locate_ffff_element_on_storage P sim_hw ops FFFF_ELEMENT_STAGE_2_FW)
             (sim_machine (sim_soc ∅ [])) (0, 0x2000)). vm_compute. reflexivity.
  - exists addr, i, e. split; [exact Hsel|]. split; [exact Hnew|]. split; [by rewrite Hlen|].
    exists m1, rc. eexists. exact E.
Defined.
