(* ===== verification/SpiFlash.v ===== *)
(** * SpiFlash: loading from a flash chip

    With a controller that streams the contents of a flash chip, a load returns
    and puts the bytes at the current address to the destination.  The driver is
    then a storage driver in the sense of [ReadOk], so what is shown about the
    search for elements holds for the flash chip. *)

From S2P Require Import Prelude Utils Sha256 Machine Chip Sim Errors Crypto Loading Efuse EfuseSpec Spi TftfValid Ffff FfffValid FfffLocate.

(** The frame at address [a], most significant byte first. *)
Definition frame_at (flash : Z -> Z) (a : Z) : Z := le_combine (reverse (flash_bytes flash a 4)).

(** The controller as [data_load_spi_init] configures it, with a flash chip that
    answers the read command: once started for [f] frames, a frame becomes
    available after at most [latency] reads of the status register, the controller
    is busy from the first frame on until all have been handed out, and the chip
    streams its bytes in order, with 24 address bits.  [streams d a k w b]: [k]
    frames from address [a] are to come, the first after [w] status reads; [b]
    says that a frame has been handed out. *)
Class FlashController `{Hardware} (flash : Z -> Z) := {
  streams : dev -> Z -> nat -> nat -> bool -> Prop;
  latency : nat;
  fc_u8 a : is_u8 (flash a);
  fc_wraps a : flash (a mod 2 ^ 24) = flash a;
  fc_start d f a : 1 <= f <= 0xFFFF -> 0 <= a < 2 ^ 24 ->
    exists w, (w <= latency)%nat /\
      streams (reg_write SPIM_DR0 (Z.lor (Z.shiftl SPI_FLASH_READ_CMD 24) a)
                (reg_write SPIM_SSIENR SPIM_SSI_ENABLE (reg_write SPIM_CTRLR1 (f - 1) d)))
        a (Z.to_nat f) w false;
  fc_wait d a k w b : streams d a k (S w) b ->
    Z.land (fst (reg_read SPIM_SR d)) SPIM_SR_RFNE = 0 /\
    (b = true -> Z.land (fst (reg_read SPIM_SR d)) SPIM_SR_BUSY <> 0) /\
    streams (snd (reg_read SPIM_SR d)) a k w b;
  fc_ready d a k b : streams d a (S k) 0 b ->
    Z.land (fst (reg_read SPIM_SR d)) SPIM_SR_RFNE <> 0 /\
    streams (snd (reg_read SPIM_SR d)) a (S k) 0 b;
  fc_frame d a k b : streams d a (S k) 0 b ->
    fst (reg_read SPIM_DR0 d) = frame_at flash a /\
    exists w, (w <= latency)%nat /\ streams (snd (reg_read SPIM_DR0 d)) (a + 4) k w true;
  fc_done d a : streams d a 0 0 true ->
    Z.land (fst (reg_read SPIM_SR d)) (Z.lor SPIM_SR_BUSY SPIM_SR_RFNE) = 0
}.

Section flash.
Context `{Platform, Hardware} (flash : Z -> Z) `{!FlashController flash}.

Lemma flash_bytes_u8 a n : bytes_ok (flash_bytes flash a n).
Proof.
  apply Forall_forall. intros b Hb. apply list_elem_of_fmap in Hb as (x & -> & _). apply fc_u8.
Qed.

Lemma flash_bytes_wraps a n : flash_bytes flash (a mod 2 ^ 24) n = flash_bytes flash a n.
Proof.
  unfold flash_bytes. apply list_eq. intros i. rewrite !list_lookup_fmap.
  destruct (decide (Z.of_nat i < n)).
  - rewrite !lookup_seqZ_lt by lia. cbn. f_equal.
    rewrite <- fc_wraps, <- (fc_wraps (a + Z.of_nat i)). by rewrite Zplus_mod_idemp_l.
  - by rewrite !lookup_seqZ_ge by lia.
Qed.

Lemma frame_bytes_flash a n :
  (n <= 4)%nat -> frame_bytes n (frame_at flash a) = flash_bytes flash a (Z.of_nat n).
Proof.
  intros Hn. unfold frame_bytes, frame_at. pose proof (length_flash_bytes flash a 4 ltac:(lia)) as Hl.
  change (Z.to_nat 4) with 4%nat in Hl.
  rewrite <- Hl at 1. rewrite <- (length_reverse (flash_bytes flash a 4)), le_split_combine
    by (apply Forall_reverse, flash_bytes_u8).
  rewrite reverse_involutive. rewrite <- (Nat2Z.id n) at 1. apply take_flash_bytes. lia.
Qed.

(** ** The boot monad *)

Lemma bind_eq {S A C} (c : boot S A) (f g : A -> boot S C) s :
  (forall a s', f a s' = g a s') -> (c ≫= f) s = (c ≫= g) s.
Proof. intros E. unfold mbind, boot_bind. destruct (c s) as [[]]; auto. Qed.

(** ** The device through the machine *)

Lemma getreg32_run a m :
  getreg32 a m = (Done (fst (reg_read a (m_dev m))), set_dev (snd (reg_read a (m_dev m))) m).
Proof. unfold getreg32. by destruct (reg_read a (m_dev m)). Qed.

Lemma spi_start_run f a m :
  1 <= f <= 0xFFFF -> 0 <= a < 2 ^ 24 ->
  exists d w, spi_start f a m = (Done tt, set_dev d m) /\ (w <= latency)%nat /\
    streams d a (Z.to_nat f) w false.
Proof.
  intros Hf Ha. destruct (fc_start (m_dev m) f a Hf Ha) as (w & Hw & Hs).
  rewrite <- (u32_small (f - 1)) in Hs by (unfold is_u32; lia). eauto.
Qed.

Definition busy_word (v : Z) : bool := Z.land v (Z.lor SPIM_SR_BUSY SPIM_SR_RFNE) =? 0.

Lemma busy_rfne v : Z.land v SPIM_SR_RFNE <> 0 -> busy_word v = false.
Proof.
  intros Hv. unfold busy_word. apply Z.eqb_neq. rewrite Z.land_lor_distr_r.
  intros E%Z.lor_eq_0_iff. tauto.
Qed.

Lemma busy_busy v : Z.land v SPIM_SR_BUSY <> 0 -> busy_word v = false.
Proof.
  intros Hv. unfold busy_word. apply Z.eqb_neq. rewrite Z.land_lor_distr_r.
  intros E%Z.lor_eq_0_iff. tauto.
Qed.

(** ** The read loop *)

Lemma spi_frames_step fuel c p m :
  spi_frames (S fuel) c p m =
    (let v := fst (reg_read SPIM_SR (m_dev m)) in
     let m1 := set_dev (snd (reg_read SPIM_SR (m_dev m))) m in
     if negb (c =? 0) && busy_word v then (Done c, m1)
     else if negb (Z.land v SPIM_SR_RFNE =? 0) then
       let m2 := set_dev (snd (reg_read SPIM_DR0 (m_dev m1))) m1 in
       (write_ptr p (frame_bytes 4 (fst (reg_read SPIM_DR0 (m_dev m1)))) ;;
        spi_frames fuel (c +₃₂ 1) (ptr_add p 4)) m2
     else spi_frames fuel c p m1).
Proof.
  cbn [spi_frames]. rewrite (bind_step _ _ _ _ _ (getreg32_run _ _)). cbv zeta. unfold busy_word.
  destruct (negb (c =? 0) && _); [done|]. destruct (negb _); [|done].
  by rewrite (bind_step _ _ _ _ _ (getreg32_run _ _)).
Qed.

(** The loop does not end while it waits for a frame. *)
Lemma loop_waits c b v :
  (b = false -> c = 0) -> (b = true -> Z.land v SPIM_SR_BUSY <> 0) -> negb (c =? 0) && busy_word v = false.
Proof.
  intros Hc Hb. destruct b; [by rewrite (busy_busy _ (Hb eq_refl)), andb_false_r|]. by rewrite (Hc eq_refl).
Qed.

Lemma set_dev_image d m : image_eq (set_dev d m) m.
Proof. by split. Qed.

(** What the loop has done when it returns: all frames of the stream. *)
Lemma spi_frames_flash fuel : forall k w b a c p m m' c',
  streams (m_dev m) a k w b -> (b = false -> c = 0) -> (c = 0 -> b = false /\ k <> 0%nat) -> 0 <= c -> c + Z.of_nat k < 2 ^ 32 ->
  spi_frames fuel c p m = (Done c', m') ->
  c' = c + Z.of_nat k /\ image_eq m' (mem_write p (flash_bytes flash a (4 * Z.of_nat k)) m) /\
  (k = 0%nat \/ in_bounds p (4 * Z.of_nat k) m = true).
Proof.
  induction fuel as [|fuel IH]; intros k w b a c p m m' c' Hs Hb0 Hc Hc0 Hck E; [done|].
  rewrite spi_frames_step in E. cbv zeta in E. set (m1 := set_dev (snd _) m) in E.
  pose proof (set_dev_image (snd (reg_read SPIM_SR (m_dev m))) m) as Hm1. fold m1 in Hm1.
  destruct w as [|w].
  - destruct k as [|k].
    + assert (b = true /\ c <> 0) as [-> Hcn] by (destruct b; [split; [done|intros ->; by destruct Hc]|by destruct (Hc (Hb0 eq_refl))]).
      pose proof (fc_done _ _ Hs) as Hd. apply Z.eqb_eq in Hd. unfold busy_word in E. rewrite Hd in E.
      rewrite (proj2 (Z.eqb_neq _ _) Hcn) in *. cbn [negb andb] in *. injection E as <- <-.
      split; [lia|]. split; [by rewrite Hm1, mem_write_nil|by left].
    + destruct (fc_ready _ _ _ _ Hs) as [Hr Hs1].
      rewrite (busy_rfne _ Hr), andb_false_r, (proj2 (Z.eqb_neq _ _) Hr) in E. cbn [negb] in E.
      change (snd (reg_read SPIM_SR (m_dev m))) with (m_dev m1) in Hs1.
      destruct (fc_frame _ _ _ _ Hs1) as (Hf & w & _ & Hs2). rewrite Hf, frame_bytes_flash in E by lia.
      set (m2 := set_dev _ m1) in E.
      pose proof (set_dev_image (snd (reg_read SPIM_DR0 (m_dev m1))) m1) as Hm2. fold m2 in Hm2.
      apply bind_done in E. destruct E as ([] & m3 & E3 & E). apply write_ptr_done in E3 as [Hin ->].
      change (Z.of_nat 4) with 4 in *. set (f4 := flash_bytes flash a 4) in *.
      assert (length f4 = 4%nat) as L4 by (apply (length_flash_bytes flash a 4); lia).
      apply (IH k w true (a + 4)) in E as (-> & He & Hin2); [| | | |..].
      * rewrite u32_small by (unfold is_u32; lia).
        assert (flash_bytes flash a (4 * Z.of_nat (S k)) = f4 ++ flash_bytes flash (a + 4) (4 * Z.of_nat k)) as ->.
        { unfold f4. rewrite flash_bytes_app by lia. f_equal. lia. }
        rewrite L4 in Hin. change (Z.of_nat 4) with 4 in Hin.
        assert (Hm : image_eq m2 m) by (by rewrite Hm2, Hm1).
        assert (Hall : in_bounds p (4 * Z.of_nat (S k)) m = true).
        { rewrite <- (image_eq_bounds m2 m _ _ Hm). destruct Hin2 as [->|Hin2]; [done|].
          replace (4 * Z.of_nat (S k)) with (Z.of_nat (length f4) + 4 * Z.of_nat k) by (rewrite L4; lia).
          apply in_bounds_app; [lia|by rewrite L4|by rewrite L4]. }
        split; [lia|]. split; [|by right]. rewrite He. rewrite <- Hm.
        replace (ptr_add p 4) with (ptr_add p (Z.of_nat (length f4))) by (by rewrite L4).
        rewrite mem_write_app; [done|]. rewrite length_app, L4, length_flash_bytes by lia.
        rewrite <- Hall, <- (image_eq_bounds m2 m _ _ Hm). f_equal. lia.
      * rewrite mem_write_dev. exact Hs2.
      * done.
      * rewrite u32_small by (unfold is_u32; lia). lia.
      * rewrite u32_small by (unfold is_u32; lia). lia.
      * rewrite u32_small by (unfold is_u32; lia). lia.
  - destruct (fc_wait _ _ _ _ _ Hs) as (Hr & Hb & Hs1).
    rewrite (loop_waits c b _ Hb0 Hb), (proj2 (Z.eqb_eq _ _) Hr) in E. cbn [negb] in E.
    apply (IH k w b a) in E as (-> & He & Hin); [|done..]. split; [done|]. rewrite Hm1 in He.
    split; [done|]. destruct Hin as [?|Hin]; [by left|right]. by rewrite <- (image_eq_bounds m1 m _ _ Hm1).
Qed.

(** It returns when the destination has room and there is fuel for the status
    reads of every frame. *)
Lemma spi_frames_returns fuel : forall k w b a c p m,
  streams (m_dev m) a k w b -> (b = false -> c = 0) -> (c = 0 -> b = false /\ k <> 0%nat) -> 0 <= c -> c + Z.of_nat k < 2 ^ 32 ->
  (w <= latency)%nat -> (w + k * (latency + 1) < fuel)%nat -> in_bounds p (4 * Z.of_nat k) m = true ->
  exists c' m', spi_frames fuel c p m = (Done c', m').
Proof.
  induction fuel as [|fuel IH]; intros k w b a c p m Hs Hb0 Hc Hc0 Hck Hw Hf Hin; [lia|].
  rewrite spi_frames_step. cbv zeta. set (m1 := set_dev (snd _) m).
  pose proof (set_dev_image (snd (reg_read SPIM_SR (m_dev m))) m) as Hm1. fold m1 in Hm1.
  destruct w as [|w].
  - destruct k as [|k].
    + assert (b = true /\ c <> 0) as [-> Hcn] by (destruct b; [split; [done|intros ->; by destruct Hc]|by destruct (Hc (Hb0 eq_refl))]).
      pose proof (fc_done _ _ Hs) as Hd. apply Z.eqb_eq in Hd. unfold busy_word. rewrite Hd.
      rewrite (proj2 (Z.eqb_neq _ _) Hcn) in *. cbn [negb andb] in *. cbn [negb andb]. eauto.
    + destruct (fc_ready _ _ _ _ Hs) as [Hr Hs1].
      rewrite (busy_rfne _ Hr), andb_false_r, (proj2 (Z.eqb_neq _ _) Hr). cbn [negb].
      change (snd (reg_read SPIM_SR (m_dev m))) with (m_dev m1) in Hs1.
      destruct (fc_frame _ _ _ _ Hs1) as (Hfr & w & Hw' & Hs2). rewrite Hfr, frame_bytes_flash by lia.
      set (m2 := set_dev _ m1).
      pose proof (set_dev_image (snd (reg_read SPIM_DR0 (m_dev m1))) m1) as Hm2. fold m2 in Hm2.
      assert (Hm : image_eq m2 m) by (by rewrite Hm2, Hm1).
      change (Z.of_nat 4) with 4. set (f4 := flash_bytes flash a 4).
      assert (length f4 = 4%nat) as L4 by (apply (length_flash_bytes flash a 4); lia).
      assert (write_ptr p f4 m2 = (Done tt, mem_write p f4 m2)) as Ew.
      { unfold write_ptr. rewrite (image_eq_bounds m2 m _ _ Hm), L4.
        by rewrite (in_bounds_prefix p _ _ m Hin) by lia. }
      rewrite (bind_step _ _ _ _ _ Ew). rewrite u32_small by (unfold is_u32; lia).
      apply (IH k w true (a + 4)); [by rewrite mem_write_dev|done|lia|lia|lia|done|lia|].
      replace (4 * Z.of_nat k) with (4 * Z.of_nat (S k) - Z.of_nat (length f4)) by (rewrite L4; lia).
      replace (ptr_add p 4) with (ptr_add p (Z.of_nat (length f4))) by (by rewrite L4).
      apply in_bounds_behind; [by rewrite (image_eq_bounds m2 m _ _ Hm)|rewrite L4; lia].
  - destruct (fc_wait _ _ _ _ _ Hs) as (Hr & Hb & Hs1).
    rewrite (loop_waits c b _ Hb0 Hb), (proj2 (Z.eqb_eq _ _) Hr). cbn [negb].
    apply (IH k w b a); [done|done|done|done|done|lia|lia|]. by rewrite (image_eq_bounds m1 m _ _ Hm1).
Qed.

(** ** The trailing bytes *)

Definition trailing_body (count : Z) (p : ptr) : B (option unit) :=
  sr ← getreg32 SPIM_SR;
  if negb (Z.land sr SPIM_SR_RFNE =? 0) then
    dr ← getreg32 SPIM_DR0;
    write_ptr p (frame_bytes (Z.to_nat count) dr) ;;
    mret (Some tt)
  else mret None.

Lemma trailing_poll count p n : forall w b a m,
  0 <= count <= 4 -> streams (m_dev m) a 1 w b ->
  (w < n)%nat /\ (exists m2, image_eq m2 m /\
    poll n (trailing_body count p) m =
      if in_bounds p count m then (Done tt, mem_write p (flash_bytes flash a count) m2) else (Fault, m2)) \/
  (n <= w)%nat /\ fst (poll n (trailing_body count p) m) = Spin.
Proof.
  induction n as [|n IH]; intros w b a m Hc Hs; [right; split; [lia|done]|].
  set (m1 := set_dev (snd (reg_read SPIM_SR (m_dev m))) m).
  pose proof (set_dev_image (snd (reg_read SPIM_SR (m_dev m))) m) as Hm1. fold m1 in Hm1.
  destruct w as [|w].
  - left. split; [lia|]. destruct (fc_ready _ _ _ _ Hs) as [Hr Hs1].
    change (snd (reg_read SPIM_SR (m_dev m))) with (m_dev m1) in Hs1.
    destruct (fc_frame _ _ _ _ Hs1) as (Hf & _).
    set (m2 := set_dev (snd (reg_read SPIM_DR0 (m_dev m1))) m1). exists m2.
    assert (image_eq m2 m) as Hm by (transitivity m1; [apply set_dev_image|done]). split; [done|].
    cbn [poll]. unfold trailing_body at 1.
    assert ((trailing_body count p) m =
      if in_bounds p count m then (Done (Some tt), mem_write p (flash_bytes flash a count) m2) else (Fault, m2)) as E.
    { unfold trailing_body. rewrite (bind_step _ _ _ _ _ (getreg32_run _ _)).
      rewrite (proj2 (Z.eqb_neq _ _) Hr). cbn [negb]. fold m1.
      rewrite (bind_step _ _ _ _ _ (getreg32_run _ _)). fold m2.
      rewrite Hf, frame_bytes_flash, Z2Nat.id by lia.
      unfold mbind, boot_bind, write_ptr.
      rewrite length_flash_bytes, Z2Nat.id, (image_eq_bounds m2 m _ _ Hm) by lia.
      by destruct (in_bounds p count m). }
    fold (trailing_body count p). unfold mbind at 1, boot_bind at 1. rewrite E.
    by destruct (in_bounds p count m).
  - destruct (fc_wait _ _ _ _ _ Hs) as (Hr & _ & Hs1).
    change (snd (reg_read SPIM_SR (m_dev m))) with (m_dev m1) in Hs1.
    assert (poll (S n) (trailing_body count p) m = poll n (trailing_body count p) m1) as ->.
    { cbn [poll]. assert (trailing_body count p m = (Done None, m1)) as E.
      { unfold trailing_body. rewrite (bind_step _ _ _ _ _ (getreg32_run _ _)).
        by rewrite (proj2 (Z.eqb_eq _ _) Hr). }
      by rewrite (bind_step _ _ _ _ _ E). }
    destruct (IH w b a m1 Hc Hs1) as [[Hw (m2 & Hm2 & E)]|[Hw E]]; [left|right]; (split; [lia|]); [|done].
    exists m2. split; [by rewrite Hm2|]. rewrite E. by rewrite (image_eq_bounds m1 m _ _ Hm1).
Qed.

Lemma spi_trailing_eq count p m :
  spi_trailing count p m =
    (spi_start 1 (current_addr (m_spi m)) ;; poll poll_fuel (trailing_body count p) ;;
     putreg32 SPIM_SSI_DISABLE SPIM_SSIENR ;;
     set_current_addr (current_addr (m_spi m) +₃₂ count)) m.
Proof. done. Qed.

(** ** The address register of the driver *)

Definition same_spi (m m' : machine) : Prop := m_spi m' = m_spi m.

#[local] Instance same_spi_refl : Reflexive same_spi.
Proof. done. Qed.
#[local] Instance same_spi_trans : Transitive same_spi.
Proof. intros m1 m2 m3 H1' H2'. unfold same_spi in *. congruence. Qed.

Lemma same_spi_getreg a : pres same_spi (getreg32 a).
Proof. intros m. by rewrite getreg32_run. Qed.
Lemma same_spi_putreg v a : pres same_spi (putreg32 v a).
Proof. done. Qed.
Lemma same_spi_write p bs : pres same_spi (write_ptr p bs).
Proof.
  intros m. unfold write_ptr. destruct (in_bounds _ _ _); [|done].
  unfold same_spi, mem_write. cbn. by destruct (p_blk p).
Qed.
Lemma same_spi_read p n : pres same_spi (read_ptr p n).
Proof. intros m. unfold read_ptr. by destruct (in_bounds _ _ _). Qed.
Lemma same_spi_hash bs : pres same_spi (hash_update bs).
Proof.
  induction bs as [|b bs IH]; cbn [hash_update]; [apply pres_ret; typeclasses eauto|].
  apply pres_bind; [typeclasses eauto|apply pres_gets; typeclasses eauto|]. intros cs.
  destruct (c_sha256_process_func cs) as [[]|]; try (apply pres_fault; typeclasses eauto).
  by apply pres_bind; [typeclasses eauto|..].
Qed.
#[local] Hint Resolve same_spi_getreg same_spi_putreg same_spi_write same_spi_read same_spi_hash : pres.

Lemma same_spi_start f a : pres same_spi (spi_start f a).
Proof. unfold spi_start. pres_auto. Qed.
Lemma same_spi_frames fuel : forall c p, pres same_spi (spi_frames fuel c p).
Proof. induction fuel; intros c p; cbn [spi_frames]; pres_auto. Qed.
Lemma same_spi_poll {A} n (c : B (option A)) : pres same_spi c -> pres same_spi (poll n c).
Proof. intros Hc. induction n; cbn [poll]; pres_auto. Qed.
Lemma same_spi_trailing count p : pres same_spi (trailing_body count p).
Proof. unfold trailing_body. pres_auto. Qed.

Lemma spi_run {A} (c : B A) m o m' : pres same_spi c -> c m = (o, m') -> m_spi m' = m_spi m.
Proof. intros Hc E. exact (pres_run _ _ _ _ _ Hc E). Qed.

(** A stretch of the stream has been stored. *)
Lemma spi_trailing_flash count p m m' a :
  0 < count <= 3 -> current_addr (m_spi m) = a -> 0 <= a < 2 ^ 24 ->
  spi_trailing count p m = (Done tt, m') ->
  in_bounds p count m = true /\ image_eq m' (mem_write p (flash_bytes flash a count) m) /\
  current_addr (m_spi m') = a + count.
Proof.
  intros Hc Ea Ha E. rewrite spi_trailing_eq, Ea in E.
  destruct (spi_start_run 1 a m ltac:(lia) Ha) as (d & w & Es & _ & Hs).
  rewrite (bind_step _ _ _ _ _ Es) in E. apply bind_done in E as ([] & m2 & E2 & E).
  apply bind_done in E as ([] & m3 & E3 & E). change (Z.to_nat 1) with 1%nat in Hs.
  pose proof (only_dev_eq _ _ _ _ (pres_putreg32 _ _) E3) as He3.
  destruct (trailing_poll count p poll_fuel w false a (set_dev d m) ltac:(lia) Hs)
    as [[_ (m1 & Hm1 & E1)]|[_ E1]]; [|by rewrite E2 in E1].
  rewrite E2, (image_eq_bounds _ m _ _ (set_dev_image d m)) in E1.
  destruct (in_bounds p count m); [|done]. injection E1 as ->.
  pose proof (set_current_addr_eq _ _ _ E) as He. injection E as <-. split; [done|]. split.
  - by rewrite He, He3, Hm1, set_dev_image.
  - cbn. apply u32_small. unfold is_u32. lia.
Qed.

Lemma spi_trailing_returns count p m a :
  0 < count <= 3 -> current_addr (m_spi m) = a -> 0 <= a < 2 ^ 24 -> (latency < poll_fuel)%nat ->
  in_bounds p count m = true -> exists m', spi_trailing count p m = (Done tt, m').
Proof.
  intros Hc Ea Ha Hf Hin. rewrite spi_trailing_eq, Ea.
  destruct (spi_start_run 1 a m ltac:(lia) Ha) as (d & w & Es & Hw & Hs).
  rewrite (bind_step _ _ _ _ _ Es). change (Z.to_nat 1) with 1%nat in Hs.
  destruct (trailing_poll count p poll_fuel w false a (set_dev d m) ltac:(lia) Hs)
    as [[_ (m1 & Hm1 & E1)]|[? _]]; [|lia].
  rewrite (image_eq_bounds _ m _ _ (set_dev_image d m)), Hin in E1.
  rewrite (bind_step _ _ _ _ _ E1). eexists. reflexivity.
Qed.

(** ** The load *)

Lemma round_down_4 n : is_u32 n -> Z.land n (~₃₂ 3) = 4 * Z.shiftr n 2.
Proof.
  intros Hn. change (~₃₂ 3) with (Z.shiftl (Z.ones 30) 2).
  replace (4 * Z.shiftr n 2) with (Z.shiftl (Z.shiftr n 2) 2) by (rewrite Z.shiftl_mul_pow2 by lia; lia).
  apply Z.bits_inj'. intros i Hi. rewrite Z.land_spec. destruct (Z.lt_ge_cases i 2).
  - rewrite !Z.shiftl_spec_low, andb_false_r by lia. done.
  - rewrite !Z.shiftl_spec, Z.shiftr_spec by lia. replace (i - 2 + 2) with i by lia.
    destruct (Z.lt_ge_cases i 32).
    + by rewrite Z.ones_spec_low, andb_true_r by lia.
    + rewrite is_u32_testbit_high by (done || lia). done.
Qed.

Lemma next_addr a k : 0 <= a < 2 ^ 24 -> 0 <= k < 2 ^ 31 ->
  Z.land (a +₃₂ k) 0x00FFFFFF = (a + k) mod 2 ^ 24.
Proof.
  intros Ha Hk. change 0x00FFFFFF with (Z.ones 24). rewrite Z.land_ones by lia.
  by rewrite u32_small by (unfold is_u32; lia).
Qed.

(** The frames of a load: start, loop, stop. *)
Definition spi_main (k a : Z) (p : ptr) : B Z :=
  spi_start k a ;; c ← spi_frames poll_fuel 0 p; putreg32 SPIM_SSI_DISABLE SPIM_SSIENR ;; mret c.

(** What follows: the trailing bytes and the hash. *)
Definition spi_rest (n : Z) (hash : bool) (p : ptr) : B unit :=
  when (negb (Z.land n 3 =? 0)) (spi_trailing (Z.land n 3) (ptr_add p (4 * Z.shiftr n 2))) ;;
  when hash (bs ← read_ptr p n; hash_update bs).

Definition at_addr (a : Z) (m : machine) : machine := snd (set_current_addr a m).

Lemma at_addr_image a m : image_eq (at_addr a m) m.
Proof. by split. Qed.

Lemma spi_load_eq p n hash m :
  is_u32 n -> n <> 0 -> Z.shiftr n 2 <= 0xFFFF ->
  let a := current_addr (m_spi m) mod 2 ^ 24 in
  data_load_spi_load p n hash m =
    (c ← spi_main (Z.shiftr n 2) a p;
     if negb (c =? Z.shiftr n 2) then mret (-1)
     else
       set_current_addr ((a + 4 * Z.shiftr n 2) mod 2 ^ 24) ;;
       spi_rest n hash p ;;
       mret 0) (at_addr a m).
Proof.
  intros Hn Hn0 Hk a. pose proof (shiftr_land_4 n ltac:(unfold is_u32 in Hn; lia)) as Hn4.
  pose proof (land_3_bound n). unfold is_u32 in Hn.
  pose proof (Z.mod_pos_bound (current_addr (m_spi m)) (2 ^ 24) ltac:(lia)) as Ha. fold a in Ha.
  unfold data_load_spi_load. cbv zeta. rewrite (proj2 (Z.eqb_neq _ _) Hn0), (proj2 (Z.ltb_ge _ _) Hk).
  erewrite bind_step; [|reflexivity]. erewrite bind_step; [|reflexivity].
  assert (Z.land (current_addr (m_spi m)) 0x00FFFFFF = a) as ->
    by (change 0x00FFFFFF with (Z.ones 24); by rewrite Z.land_ones by lia).
  fold (at_addr a m).
  rewrite round_down_4, next_addr by (done || lia).
  unfold spi_main, spi_rest. rewrite bind_assoc. apply bind_eq. intros [] m1.
  rewrite bind_assoc. apply bind_eq. intros c m2. rewrite bind_assoc. apply bind_eq. intros [] m3.
  erewrite bind_step; [|reflexivity]. destruct (negb (c =? Z.shiftr n 2)); [done|].
  apply bind_eq. intros [] m4. rewrite bind_assoc. by apply bind_eq.
Qed.

Lemma spi_main_flash k a p m c m' :
  1 <= k <= 0xFFFF -> 0 <= a < 2 ^ 24 -> spi_main k a p m = (Done c, m') ->
  c = k /\ in_bounds p (4 * k) m = true /\ image_eq m' (mem_write p (flash_bytes flash a (4 * k)) m).
Proof.
  intros Hk Ha E. destruct (spi_start_run k a m Hk Ha) as (d & w & Es & _ & Hst).
  unfold spi_main in E. rewrite (bind_step _ _ _ _ _ Es) in E.
  apply bind_done in E. destruct E as (c1 & m3 & E3 & E).
  apply (spi_frames_flash _ (Z.to_nat k) w false a) in E3 as (-> & He3 & Hin); [|done|done|by split; [|lia]|lia|lia].
  rewrite Z2Nat.id, Z.add_0_l in * by lia. destruct Hin as [|Hin]; [lia|].
  apply bind_done in E. destruct E as ([] & m4 & E4 & [= <- <-]).
  pose proof (only_dev_eq _ _ _ _ (pres_putreg32 _ _) E4) as He4.
  rewrite (image_eq_bounds _ m _ _ (set_dev_image d m)) in Hin. split; [done|]. split; [done|].
  by rewrite He4, He3, set_dev_image.
Qed.

Lemma spi_main_returns k a p m :
  1 <= k <= 0xFFFF -> 0 <= a < 2 ^ 24 -> in_bounds p (4 * k) m = true ->
  (latency + Z.to_nat k * (latency + 1) < poll_fuel)%nat ->
  exists c m', spi_main k a p m = (Done c, m').
Proof.
  intros Hk Ha Hin Hf. destruct (spi_start_run k a m Hk Ha) as (d & w & Es & Hw & Hst).
  unfold spi_main. rewrite (bind_step _ _ _ _ _ Es).
  destruct (spi_frames_returns poll_fuel (Z.to_nat k) w false a 0 p (set_dev d m)) as (c & m3 & E3);
    [done|done|by split; [|lia]|lia|lia|done|lia| |].
  - rewrite (image_eq_bounds _ m _ _ (set_dev_image d m)). by rewrite Z2Nat.id by lia.
  - rewrite (bind_step _ _ _ _ _ E3). eexists _, _. reflexivity.
Qed.

(** The rest of a load that has stored the frames [b1] at [p]. *)
Lemma spi_rest_flash n hash p m0 m m' a :
  is_u32 n -> 4 <= n -> let k := Z.shiftr n 2 in
  let a' := (a + 4 * k) mod 2 ^ 24 in let bs := flash_bytes flash a n in
  current_addr (m_spi m) = a' ->
  in_bounds p (4 * k) m0 = true -> image_eq m (mem_write p (flash_bytes flash a (4 * k)) m0) ->
  spi_rest n hash p m = (Done tt, m') ->
  in_bounds p n m0 = true /\ image_eq m' (hashed hash bs (mem_write p bs m0)) /\
  current_addr (m_spi m') mod 2 ^ 24 = (a + n) mod 2 ^ 24.
Proof.
  intros Hn Hn4 k a' bs Ea Hin He E. unfold is_u32 in Hn. pose proof (land_3_bound n) as Hr.
  pose proof (shiftr_land_4 n ltac:(lia)) as Hn'. fold k in Hn'.
  pose proof (Z.mod_pos_bound (a + 4 * k) (2 ^ 24) ltac:(lia)) as Ha'. fold a' in Ha'.
  apply bind_done in E. destruct E as ([] & m6 & E6 & E7).
  assert (A7 : m_spi m' = m_spi m6) by (eapply spi_run; [|exact E7]; pres_auto).
  set (b1 := flash_bytes flash a (4 * k)) in *.
  assert (Hl1 : Z.of_nat (length b1) = 4 * k) by (unfold b1; rewrite length_flash_bytes; lia).
  assert (Ebs : bs = b1 ++ flash_bytes flash (a + 4 * k) (Z.land n 3)).
  { unfold bs, b1. rewrite flash_bytes_app by lia. f_equal. lia. }
  assert (Hfin : in_bounds p n m0 = true /\ image_eq m6 (mem_write p bs m0) /\
                 current_addr (m_spi m6) = a' + Z.land n 3).
  { destruct (Z.eqb_spec (Z.land n 3) 0) as [Hr0|Hr0]; cbn [negb when] in E6.
    - injection E6 as <-. rewrite Ebs, Hr0, app_nil_r, Z.add_0_r. split_and!; [|done|done].
      by replace n with (4 * k) by lia.
    - fold k in E6. apply (spi_trailing_flash _ _ _ _ a') in E6 as (Hin2 & He6 & A6); [|lia|done|done].
      unfold a' in He6. rewrite flash_bytes_wraps in He6. set (b2 := flash_bytes _ _ (Z.land n 3)) in *.
      assert (Hl2 : Z.of_nat (length b2) = Z.land n 3) by (unfold b2; rewrite length_flash_bytes; lia).
      rewrite (image_eq_bounds _ _ _ _ He), <- Hl1 in Hin2. rewrite <- Hl1 in Hin.
      pose proof (in_bounds_app p b1 (Z.land n 3) m0 ltac:(lia) Hin Hin2) as Hall.
      replace (Z.of_nat (length b1) + Z.land n 3) with n in Hall by lia.
      split_and!; [done| |done]. rewrite He6, He, Ebs, <- Hl1, mem_write_app; [done|].
      rewrite length_app. by replace (Z.of_nat _) with n by lia. }
  destruct Hfin as (Hall & He6 & A6). split; [done|]. split.
  - eapply hash_stored_done; [|done|done|exact E7]. unfold bs. rewrite length_flash_bytes; lia.
  - rewrite A7, A6. unfold a'. rewrite Zplus_mod_idemp_l. f_equal. lia.
Qed.

(** A successful load has stored the bytes at the current address, and moved it
    behind them. *)
Lemma spi_load_flash p n hash m m' :
  mem_ok m -> is_u32 n -> data_load_spi_load p n hash m = (Done 0, m') ->
  loaded p n hash (flash_bytes flash (current_addr (m_spi m)) n) m m' /\
  current_addr (m_spi m') mod 2 ^ 24 = (current_addr (m_spi m) + n) mod 2 ^ 24.
Proof.
  intros Hm Hn E. destruct (decide (0 < n < 4)) as [Hs|Hns]; [by apply spi_short_load_fails in E|].
  destruct (Z.eqb_spec n 0) as [->|Hn0].
  { injection E as <-. rewrite Z.add_0_r. split; [|done].
    apply loaded_intro; [done|constructor|by left|]. change (flash_bytes _ _ 0) with (@nil Z).
    rewrite hashed_nil. symmetry. apply mem_write_nil. }
  pose proof Hn as Hn'. unfold is_u32 in Hn'. pose proof (land_3_bound n) as Hr.
  pose proof (shiftr_land_4 n ltac:(lia)) as Hn4. destruct (Z.le_gt_cases (Z.shiftr n 2) 0xFFFF) as [Hk|Hk].
  - rewrite spi_load_eq in E by done. set (cur := current_addr (m_spi m)) in *. cbv zeta in E.
    pose proof (Z.mod_pos_bound cur (2 ^ 24) ltac:(lia)) as Ha. set (a := cur mod 2 ^ 24) in *.
    apply bind_done in E. destruct E as (c & m1 & E1 & E).
    apply spi_main_flash in E1 as (-> & Hin & He); [|lia|done]. rewrite Z.eqb_refl in E. cbn [negb] in E.
    apply bind_done in E. destruct E as ([] & m2 & [= <-] & E).
    apply bind_done in E. destruct E as ([] & m3 & E3 & [= <-]).
    apply (spi_rest_flash n hash p m _ _ a) in E3 as (Hall & Hfin & A3);
      [|done|lia|done|by rewrite <- (image_eq_bounds _ m _ _ (at_addr_image a m))
       |transitivity m1; [by split|by rewrite He, at_addr_image]].
    unfold a in Hfin, A3. rewrite flash_bytes_wraps in Hfin. rewrite Zplus_mod_idemp_l in A3.
    split; [|done]. apply loaded_intro; [rewrite length_flash_bytes; lia|apply flash_bytes_u8|by right|done].
  - unfold data_load_spi_load in E. cbv zeta in E. rewrite (proj2 (Z.eqb_neq _ _) Hn0) in E.
    rewrite (proj2 (Z.ltb_lt _ _) Hk) in E. by inv_done.
Qed.

Lemma in_bounds_write p bs n m :
  in_bounds p (Z.of_nat (length bs)) m = true -> in_bounds p n (mem_write p bs m) = in_bounds p n m.
Proof.
  unfold in_bounds, mem_write. destruct p as [[] o]; cbn [p_blk p_ofs blk_get];
    rewrite andb_true_iff, !Z.leb_le; intros [Ho Hin]; try rewrite Z.leb_le in Hin; cbn;
    rewrite ?length_splice by lia; done.
Qed.

Lemma spi_rest_returns n hash p m0 m b1 :
  is_u32 n -> 4 <= n -> Z.of_nat (length b1) = 4 * Z.shiftr n 2 ->
  0 <= current_addr (m_spi m) < 2 ^ 24 -> image_eq m (mem_write p b1 m0) ->
  in_bounds p n m0 = true -> (hash = true -> crypto_ready m0) -> (latency < poll_fuel)%nat ->
  exists m', spi_rest n hash p m = (Done tt, m').
Proof.
  intros Hn Hn4 Hl1 Ha He Hin Hh Hf. unfold is_u32 in Hn. pose proof (land_3_bound n) as Hr.
  pose proof (shiftr_land_4 n ltac:(lia)) as Hn'. set (k := Z.shiftr n 2) in *.
  assert (Hin4 : in_bounds p (Z.of_nat (length b1)) m0 = true) by (apply (in_bounds_prefix p n); [done|lia]).
  unfold spi_rest. fold k.
  assert (exists m3 bs, when (negb (Z.land n 3 =? 0))
      (spi_trailing (Z.land n 3) (ptr_add p (4 * k))) m = (Done tt, m3) /\
      image_eq m3 (mem_write p bs m0) /\ in_bounds p (Z.of_nat (length bs)) m0 = true)
    as (m3 & bs & E3 & He3 & Hbs).
  { destruct (Z.eqb_spec (Z.land n 3) 0); [by exists m, b1|]. cbn [negb when]. rewrite <- Hl1.
    assert (in_bounds (ptr_add p (Z.of_nat (length b1))) (Z.land n 3) m = true) as Hb2.
    { rewrite (image_eq_bounds _ _ _ _ He).
      replace (Z.land n 3) with (n - Z.of_nat (length b1)) by lia. apply in_bounds_behind; [done|lia]. }
    destruct (spi_trailing_returns (Z.land n 3) (ptr_add p (Z.of_nat (length b1))) m _ ltac:(lia) eq_refl Ha Hf Hb2)
      as [m3 E3].
    exists m3, (b1 ++ flash_bytes flash (current_addr (m_spi m)) (Z.land n 3)). split; [done|].
    apply (spi_trailing_flash _ _ _ _ (current_addr (m_spi m))) in E3 as (_ & He3 & _); [|lia|done|done].
    assert (in_bounds p (Z.of_nat (length (b1 ++ flash_bytes flash (current_addr (m_spi m)) (Z.land n 3)))) m0 = true)
      as Hall by (rewrite length_app, length_flash_bytes by lia; apply (in_bounds_prefix p n); [done|lia]).
    split; [|done]. set (b2 := flash_bytes _ _ _) in *. clearbody b2. by rewrite He3, He, mem_write_app. }
  rewrite (bind_step _ _ _ _ _ E3). destruct hash; cbn [when]; [|by eexists].
  assert (in_bounds p n m3 = true) as Hin3
    by (by rewrite (image_eq_bounds _ _ _ _ He3), in_bounds_write).
  assert (crypto_ready m3) as Hr3.
  { specialize (Hh eq_refl). pose proof (ie_crypto _ _ He3) as Ec.
    assert (m_crypto (mem_write p bs m0) = m_crypto m0) as Ec' by (unfold mem_write; by destruct (p_blk p)).
    destruct Hh. split; by rewrite Ec, Ec'. }
  unfold read_ptr, mbind, boot_bind. rewrite Hin3, hash_update_run by done. by eexists.
Qed.

(** [C27] With a flash chip behind the controller a load of at least four bytes
    and less than 0x40000, more than the RAM of the chip, returns 0, given fuel for the status reads of every frame: it puts the bytes
    of the flash at the current address to the destination, hashes them if
    asked, changes nothing else the image loader uses, and moves the address
    behind them, so that consecutive loads read on. *)
Theorem spi_load_reads_flash p n hash m :
  mem_ok m -> (hash = true -> crypto_ready m) -> 4 <= n < 4 * 0x10000 -> in_bounds p n m = true ->
  (latency + Z.to_nat (n / 4) * (latency + 1) < poll_fuel)%nat ->
  exists m', data_load_spi_load p n hash m = (Done 0, m') /\
    loaded p n hash (flash_bytes flash (current_addr (m_spi m)) n) m m' /\
    current_addr (m_spi m') mod 2 ^ 24 = (current_addr (m_spi m) + n) mod 2 ^ 24.
Proof.
  intros Hm Hh Hn Hin Hf. assert (Hu : is_u32 n) by (unfold is_u32; lia).
  assert (exists m', data_load_spi_load p n hash m = (Done 0, m')) as [m' E];
    [|exists m'; split; [done|by apply spi_load_flash]].
  pose proof (shiftr_land_4 n ltac:(lia)) as Hn4. pose proof (land_3_bound n) as Hr.
  rewrite <- Z.shiftr_div_pow2 with (n := 2) in Hf by lia. set (k := Z.shiftr n 2) in *.
  rewrite spi_load_eq by (done || lia). cbv zeta. fold k.
  set (a := current_addr (m_spi m) mod 2 ^ 24).
  assert (0 <= a < 2 ^ 24) as Ha by (apply Z.mod_pos_bound; lia).
  assert (in_bounds p (4 * k) m = true) as Hin4 by (apply (in_bounds_prefix p n); [done|lia]).
  destruct (spi_main_returns k a p (at_addr a m)) as (c & m1 & E1); [lia|done| |done|].
  { by rewrite (image_eq_bounds _ m _ _ (at_addr_image a m)). }
  rewrite (bind_step _ _ _ _ _ E1). apply spi_main_flash in E1 as (-> & _ & He); [|lia|done].
  rewrite Z.eqb_refl. cbn [negb]. erewrite bind_step; [|reflexivity]. set (m2 := set_spi _ m1).
  assert (He2 : image_eq m2 (mem_write p (flash_bytes flash a (4 * k)) m))
    by (transitivity m1; [by split|by rewrite He, at_addr_image]).
  destruct (spi_rest_returns n hash p m m2 (flash_bytes flash a (4 * k))) as [m3 E3];
    [done|lia|rewrite length_flash_bytes; lia|apply Z.mod_pos_bound; lia|done|done|done|nia|].
  rewrite (bind_step _ _ _ _ _ E3). by eexists.
Qed.

(** The driver reads storage. *)
#[export] Instance spi_read_ok : ReadOk data_load_spi_read flash.
Proof.
  split; [apply fc_u8|]. intros p addr n m m' Hm Hn _ _ E. unfold data_load_spi_read in E.
  apply bind_done in E. destruct E as ([] & m1 & E1 & E). pose proof (set_current_addr_eq _ _ _ E1) as He1.
  assert (current_addr (m_spi m1) = addr) as Ea by (by injection E1 as <-).
  assert (data_load_spi_load p n false m1 = (Done 0, m')) as E'.
  { destruct (Z.eqb_spec n 0) as [->|]; [|done]. unfold data_load_spi_load. by rewrite Z.eqb_refl. }
  apply spi_load_flash in E' as [[Hl Hb Hin Hk Hs] _];
    [|by eapply mem_ok_image; [symmetry; exact He1|]|done].
  rewrite Ea in *. split; [done|done| | |].
  - by rewrite (image_eq_bounds m1 m _ _ He1) in Hin.
  - etrans; [apply image_eq_kept; symmetry; exact He1|exact Hk].
  - rewrite Hs. cbn. by rewrite He1.
Qed.

(** [C25] On the SPI flash chip, a successful [locate_ffff_element_on_storage] has
    selected the newest valid header copy on the chip, has found the element of
    the wanted type with the highest generation in its table and returns its
    length; the next successful load puts the first bytes of that element, as
    they are on the chip, to its destination. *)
Theorem spi_element_loaded `{!PlatformOk} type m len m1 p n hash m2 :
  mem_ok m -> is_u32 n ->
  locate_ffff_element_on_storage spi_ops type m = (Done (0, len), m1) ->
  data_load_spi_load p n hash m1 = (Done 0, m2) ->
  exists addr i e, selected flash addr /\
    newest_of type (fst (element_table (flash_header flash addr))) i e /\ len = element_length e /\
    loaded p n hash (flash_bytes flash (element_location e) n) m1 m2.
Proof.
  intros Hm Hn E E2.
  destruct (locate_on_storage_done data_load_spi_read flash spi_ops type m len m1 eq_refl Hm E)
    as (addr & i & e & Hsel & Hnew & Hlen & m0 & rc & Hm0 & E1).
  exists addr, i, e. split; [done|]. split; [done|]. split; [done|].
  assert (m1 = at_addr (element_location e) m0) as -> by (by injection E1 as _ <-).
  destruct (spi_load_flash p n hash (at_addr (element_location e) m0) m2) as [Hld _]; [|done|done|done].
  eapply mem_ok_image; [symmetry; apply at_addr_image|done].
Qed.
End flash.

(** ** A controller with a flash chip *)

(** The frame counter, and the state of the transfer: frames to come, their
    address, and whether the first is still being shifted in. *)
Record spi_chip := SpiChip { sc_ctrlr1 : Z; sc_left : nat; sc_addr : Z; sc_wait : nat }.

Definition spi_chip_read (flash : Z -> Z) (a : Z) (d : spi_chip) : Z * spi_chip :=
  if a =? SPIM_SR then
    match sc_wait d, sc_left d with
    | S w, _ => (SPIM_SR_BUSY, SpiChip (sc_ctrlr1 d) (sc_left d) (sc_addr d) w)
    | O, O => (0, d)
    | O, S _ => (Z.lor SPIM_SR_BUSY SPIM_SR_RFNE, d)
    end
  else if a =? SPIM_DR0 then
    (frame_at flash (sc_addr d), SpiChip (sc_ctrlr1 d) (sc_left d - 1) (sc_addr d + 4) 1)
  else (0, d).

Definition spi_chip_write (a v : Z) (d : spi_chip) : spi_chip :=
  if a =? SPIM_CTRLR1 then SpiChip v (sc_left d) (sc_addr d) (sc_wait d)
  else if a =? SPIM_DR0
  then SpiChip (sc_ctrlr1 d) (Z.to_nat (u16 (sc_ctrlr1 d) + 1)) (Z.land v 0x00FFFFFF) 1
  else d.

Definition spi_chip_hw (flash : Z -> Z) : Hardware :=
  {| dev := spi_chip; reg_read := spi_chip_read flash; reg_write := spi_chip_write;
     reg_write8 := λ _ _ d, d; buf_read8 := λ _ _, 0 |}.

Lemma read_command_addr a : 0 <= a < 2 ^ 24 ->
  Z.land (Z.lor (Z.shiftl SPI_FLASH_READ_CMD 24) a) 0x00FFFFFF = a.
Proof.
  intros Ha. rewrite Z.land_lor_distr_l. change (Z.land (Z.shiftl SPI_FLASH_READ_CMD 24) 0x00FFFFFF) with 0.
  rewrite Z.lor_0_l. change 0x00FFFFFF with (Z.ones 24). rewrite Z.land_ones by lia. by apply Z.mod_small.
Qed.

Definition spi_chip_controller (flash : Z -> Z) :
  (forall a, is_u8 (flash a)) -> (forall a, flash (a mod 2 ^ 24) = flash a) ->
  @FlashController (spi_chip_hw flash) flash.
Proof.
  intros Hu Hw.
  refine {| streams := λ (d : @dev (spi_chip_hw flash)) a k w _, sc_addr d = a /\ sc_left d = k /\ sc_wait d = w;
            latency := 1; fc_u8 := Hu; fc_wraps := Hw |}.
  - intros d f a Hf Ha. exists 1%nat. split; [lia|]. cbn. unfold spi_chip_write. cbn.
    split; [by apply read_command_addr|]. split; [|done].
    change (Z.to_nat (u16 (f - 1) + 1) = Z.to_nat f).
    assert (u16 (f - 1) = f - 1) as ->; [|f_equal; lia].
    unfold u16. change 0xFFFF with (Z.ones 16). rewrite Z.land_ones, Z.mod_small by lia. done.
  - intros d a k w b (Ha & Hk & Hwt). cbn. unfold spi_chip_read. cbn. rewrite Hwt. cbn. by repeat split.
  - intros d a k b (Ha & Hk & Hwt). cbn. unfold spi_chip_read. cbn. rewrite Hwt, Hk. cbn. by repeat split.
  - intros d a k b (Ha & Hk & Hwt). cbn. unfold spi_chip_read. cbn. rewrite Ha, Hk. split; [done|].
    exists 1%nat. split; [lia|]. repeat split. apply Nat.sub_0_r.
  - intros d a (Ha & Hk & Hwt). cbn. unfold spi_chip_read. cbn. by rewrite Hwt, Hk.
Defined.

(** The two header copies of FfffLocate.v on the chip. *)
Definition chip_flash (a : Z) : Z := get8 two_copies (a mod 2 ^ 24).

Lemma chip_flash_u8 a : is_u8 (chip_flash a).
Proof. apply two_copies_u8. Qed.
Lemma chip_flash_wraps a : chip_flash (a mod 2 ^ 24) = chip_flash a.
Proof. unfold chip_flash. by rewrite Zmod_mod. Qed.

Definition chip_hw : Hardware := spi_chip_hw chip_flash.
Definition chip_controller : @FlashController chip_hw chip_flash :=
  spi_chip_controller chip_flash chip_flash_u8 chip_flash_wraps.
Definition chip_machine : @machine chip_hw := @sim_machine_at chip_hw (SpiChip 0 0 0 0).

Lemma chip_machine_ok : @mem_ok chip_hw chip_machine.
Proof.
  split; vm_compute; (intuition discriminate) || (split; [reflexivity | apply bytes_okb_ok; reflexivity]).
Qed.

Lemma spi_load_reads_flash_witness :
  let P := sim_platform Stage1 [] [] in
  exists m', @data_load_spi_load P chip_hw (Ptr BRam 0x10000000) 18 false chip_machine = (Done 0, m') /\
    @loaded P chip_hw (Ptr BRam 0x10000000) 18 false (flash_bytes chip_flash 0 18) chip_machine m' /\
    current_addr (m_spi m') mod 2 ^ 24 = 18.
Proof.
  intros P. apply (@spi_load_reads_flash P chip_hw chip_flash chip_controller (Ptr BRam 0x10000000) 18 false chip_machine).
  - exact chip_machine_ok.
  - discriminate.
  - lia.
  - reflexivity.
  - apply Nat.ltb_lt. reflexivity.
Defined.

Definition chip_located : @machine chip_hw :=
  snd (@locate_ffff_element_on_storage (sim_platform Stage1 [] []) chip_hw (@spi_ops (sim_platform Stage1 [] []) chip_hw)
         FFFF_ELEMENT_STAGE_2_FW chip_machine).
Definition chip_loaded : @machine chip_hw :=
  snd (@data_load_spi_load (sim_platform Stage1 [] []) chip_hw (Ptr BRam 0x10000000) 16 false chip_located).

(** The newest element is the one at [0x20000] of the second copy. *)
Lemma spi_element_loaded_witness :
  let P := sim_platform Stage1 [] [] in
  exists addr i e, selected chip_flash addr /\
    newest_of FFFF_ELEMENT_STAGE_2_FW (fst (element_table (flash_header chip_flash addr))) i e /\
    0x2000 = element_length e /\
    @loaded P chip_hw (Ptr BRam 0x10000000) 16 false (flash_bytes chip_flash (element_location e) 16)
      chip_located chip_loaded.
Proof.
  intros P. pose proof (sim_platform_ok Stage1 : @PlatformOk P).
  apply (@spi_element_loaded P chip_hw chip_flash chip_controller _ FFFF_ELEMENT_STAGE_2_FW chip_machine 0x2000
    chip_located (Ptr BRam 0x10000000) 16 false chip_loaded).
  - exact chip_machine_ok.
  - split; [discriminate|reflexivity].
  - apply (run_done (@locate_ffff_element_on_storage P chip_hw (@spi_ops P chip_hw) FFFF_ELEMENT_STAGE_2_FW)
      chip_machine (0, 0x2000)). vm_compute. reflexivity.
  - apply (run_done (@data_load_spi_load P chip_hw (Ptr BRam 0x10000000) 16 false) chip_located 0).
    vm_compute. reflexivity.
Defined.
