(* ===== verification/Es2.v ===== *)
(** * Es2: the previous revision of the chip (chips/es2tsb/src)

    On ES2 the flash is mapped into the address space and the storage driver
    (es2_spi.c) copies from there; UniPro needs corrections to its M-PHY
    (es2_unipro.c), the boot status is eight bits wide (es2_advertise.c), and
    there are no fuses (es2_efuse.c).  The driver is one more implementation of
    the storage contracts of Loading.v.  Names are those of the C files, in a
    module of their own because ES3 uses the same ones. *)

From S2P Require Import Prelude Sha256 Machine Chip Sim Errors Crypto Loading EfuseSpec Unipro Dme Spi FfffLocate SpiFlash.

Module Es2.

Definition SPI_BASE : Z := 0x01000000.
Definition SPI_SIZE : Z := 0x1000000.
Definition MMAP_LOAD_BASE : Z := SPI_BASE.
Definition MMAP_LOAD_SIZE : Z := SPI_SIZE.

(** ** Storage (es2_spi.c) *)

Section storage.
Context `{Platform, Hardware}.

Definition set_initialized (v : Z) : B unit :=
  modify (λ m, set_spi {| current_addr := current_addr (m_spi m);
                          spi_clk_usage_count := spi_clk_usage_count (m_spi m); initialized := v |} m).

(** [current_addr], a 32-bit pointer. *)
Definition load_addr : B Z := gets (λ m, u32 (current_addr (m_spi m))).

(** A byte of memory that a device backs. *)
Definition mmap_read8 (a : Z) : B Z := gets (λ m, u8 (buf_read8 a (m_dev m))).

(** [while (current_addr < load_end) *dst++ = *current_addr++]; every pass adds
    one to the address, so the length of the range bounds the passes. *)
Fixpoint mmap_copy (n : nat) (load_end : Z) (dst : ptr) : B unit :=
  addr ← load_addr;
  if addr <? load_end then
    match n with
    | O => spin
    | S n =>
        b ← mmap_read8 addr;
        write_ptr dst [b] ;;
        set_current_addr (addr +₃₂ 1) ;;
        mmap_copy n load_end (ptr_add dst 1)
    end
  else mret tt.

Definition data_load_mmapped_init : B Z :=
  i ← gets (λ m, initialized (m_spi m));
  if negb (i =? 1) then
    set_current_addr MMAP_LOAD_BASE ;;
    set_initialized 1 ;;
    tsb_clk_enable TSB_CLK_SPIP ;;
    tsb_clk_enable TSB_CLK_SPIS ;;
    mret 0
  else mret (-1).

Definition data_load_mmapped_read (dest : ptr) (addr length : Z) : B Z :=
  i ← gets (λ m, initialized (m_spi m));
  if negb (i =? 1) || (MMAP_LOAD_SIZE <=? addr +₃₂ length) then mret (-1)
  else
    set_current_addr (MMAP_LOAD_BASE +₃₂ addr) ;;
    mmap_copy (Z.to_nat length) (u32 (MMAP_LOAD_BASE + addr + length)) dest ;;
    mret 0.

Definition data_load_mmapped_load (dest : ptr) (length : Z) (hash : bool) : B Z :=
  i ← gets (λ m, initialized (m_spi m));
  addr ← load_addr;
  let load_end := addr +₃₂ length in
  if negb (i =? 1) || (MMAP_LOAD_BASE + MMAP_LOAD_SIZE <=? load_end) then mret (-1)
  else
    mmap_copy (Z.to_nat length) load_end dest ;;
    when hash (bs ← read_ptr dest length; hash_update bs) ;;
    mret 0.

Definition data_load_mmapped_finish (valid is_secure_image : bool) : B Z :=
  tsb_clk_disable TSB_CLK_SPIS ;;
  tsb_clk_disable TSB_CLK_SPIP ;;
  set_initialized 0 ;;
  set_current_addr 0 ;;
  mret 0.

Definition spi_ops : data_load_ops :=
  {| ops_init := data_load_mmapped_init; ops_read := Some data_load_mmapped_read;
     ops_load := data_load_mmapped_load; ops_finish := data_load_mmapped_finish |}.

End storage.

(** ** UniPro (es2_unipro.c) *)

Definition ES2_MBOX_ACK_ATTR : Z := 0x4086.       (* T_TSTSRCINTERMESSAGEGAP *)
Definition T_TSTSRCINCREMENT : Z := 0x4083.
Definition DME_ARA_VID : Z := 0x6000.
Definition DME_ARA_PID : Z := 0x6001.
Definition UNIPRO_INT_EN : Z := 0x200.
Definition AHM_MODE_CTRL_0 : Z := 0x610.
Definition TRANSFER_MODE : Z := 2.
Definition TRANSFER_MODE_2_CTRL_0 : Z := 0xAAAAAAAA.
Definition TSB_MPHY_MAP : Z := 0x7F.
Definition TSB_MPHY_MAP_TSB_REGISTER_1 : Z := 0x01.
Definition TSB_MPHY_MAP_NORMAL : Z := 0x00.
Definition TSB_MPHY_MAP_TSB_REGISTER_2 : Z := 0x81.
Definition TSB_MPHY_FIXUP_LAST : Z := 0x1.
Definition TSB_MPHY_FIXUP_MAGIC_R1 : Z := 0x2.

Record tsb_mphy_fixup := Fixup { fu_attrid : Z; fu_select_index : Z; fu_value : Z; fu_flags : Z }.

Definition tsb_mphy_fixup_is_last (fu : tsb_mphy_fixup) : bool :=
  negb (Z.land (fu_flags fu) TSB_MPHY_FIXUP_LAST =? 0).
Definition tsb_mphy_r1_fixup_is_magic (fu : tsb_mphy_fixup) : bool :=
  negb (Z.land (fu_flags fu) TSB_MPHY_FIXUP_MAGIC_R1 =? 0).

Definition TSB_MPHY_FIXUP (a s v : Z) : tsb_mphy_fixup := Fixup a s v 0.
Definition TSB_MPHY_LAST_FIXUP (a s v : Z) : tsb_mphy_fixup := Fixup a s v TSB_MPHY_FIXUP_LAST.
Definition TSB_MPHY_MAGIC_R1_FIXUP : tsb_mphy_fixup := Fixup 0 0 0 TSB_MPHY_FIXUP_MAGIC_R1.

Definition tsb_register_1_map_mphy_fixups : list tsb_mphy_fixup :=
  [TSB_MPHY_MAGIC_R1_FIXUP;
   TSB_MPHY_FIXUP 0x8004 0 0xCA; TSB_MPHY_FIXUP 0x8015 0 0x01; TSB_MPHY_FIXUP 0x8022 0 0x44;
   TSB_MPHY_FIXUP 0x8023 0 0x42; TSB_MPHY_FIXUP 0x80A2 0 0x00; TSB_MPHY_FIXUP 0x80AA 0 0xA8;
   TSB_MPHY_FIXUP 0x80BA 0 0x20;
   TSB_MPHY_FIXUP 0x80A2 1 0x00; TSB_MPHY_FIXUP 0x80AA 1 0xA8; TSB_MPHY_FIXUP 0x80BA 1 0x20;
   TSB_MPHY_FIXUP 0x8094 4 0x09; TSB_MPHY_FIXUP 0x809A 4 0x06; TSB_MPHY_FIXUP 0x809B 4 0x03;
   TSB_MPHY_FIXUP 0x809C 4 0x00; TSB_MPHY_FIXUP 0x80AA 4 0x0F; TSB_MPHY_FIXUP 0x80B4 4 0x50;
   TSB_MPHY_FIXUP 0x80B6 4 0x82; TSB_MPHY_FIXUP 0x80B7 4 0x01;
   TSB_MPHY_FIXUP 0x8094 5 0x09; TSB_MPHY_FIXUP 0x809A 5 0x06; TSB_MPHY_FIXUP 0x809B 5 0x03;
   TSB_MPHY_FIXUP 0x809C 5 0x00; TSB_MPHY_FIXUP 0x80AA 5 0x0F; TSB_MPHY_FIXUP 0x80B4 5 0x50;
   TSB_MPHY_FIXUP 0x80B6 5 0x82; TSB_MPHY_FIXUP 0x80B7 5 0x01;
   TSB_MPHY_LAST_FIXUP 0x8000 0 0x01].

Definition tsb_register_2_map_mphy_fixups : list tsb_mphy_fixup :=
  [TSB_MPHY_FIXUP 0x8000 0 0x02;
   TSB_MPHY_FIXUP 0x8080 0 0x20; TSB_MPHY_FIXUP 0x8081 0 0x03;
   TSB_MPHY_FIXUP 0x8080 1 0x20; TSB_MPHY_FIXUP 0x8081 1 0x03;
   TSB_MPHY_FIXUP 0x8082 4 0x3F; TSB_MPHY_FIXUP 0x8084 4 0x10; TSB_MPHY_FIXUP 0x8086 4 0x10;
   TSB_MPHY_FIXUP 0x8087 4 0x01; TSB_MPHY_FIXUP 0x8088 4 0x10; TSB_MPHY_FIXUP 0x808D 4 0x0B;
   TSB_MPHY_FIXUP 0x808E 4 0x00; TSB_MPHY_FIXUP 0x8094 4 0x00; TSB_MPHY_FIXUP 0x8096 4 0x00;
   TSB_MPHY_FIXUP 0x8098 4 0x08; TSB_MPHY_FIXUP 0x8099 4 0x50;
   TSB_MPHY_FIXUP 0x8082 5 0x3F; TSB_MPHY_FIXUP 0x8084 5 0x10; TSB_MPHY_FIXUP 0x8086 5 0x10;
   TSB_MPHY_FIXUP 0x8087 5 0x01; TSB_MPHY_FIXUP 0x8088 5 0x10; TSB_MPHY_FIXUP 0x808D 5 0x0B;
   TSB_MPHY_FIXUP 0x808E 5 0x00; TSB_MPHY_FIXUP 0x8094 5 0x00; TSB_MPHY_FIXUP 0x8096 5 0x00;
   TSB_MPHY_FIXUP 0x8098 5 0x08; TSB_MPHY_LAST_FIXUP 0x8099 5 0x50].

Section es2_unipro.
Context `{Platform, Hardware}.

(** As on ES3, but the mailbox is acknowledged through another attribute. *)
Definition es2_attr (attr : Z) : Z := if attr =? ARA_MBOX_ACK_ATTR then ES2_MBOX_ACK_ATTR else attr.

Definition unipro_attr_access (attr val selector : Z) (peer write : bool) : B (Z * Z) :=
  Chip.unipro_attr_access (es2_attr attr) val selector peer write.

Definition chip_unipro_attr_read (attr selector : Z) (peer : bool) : B (Z * Z) :=
  if attr =? DME_ARA_VID then v ← gets m_ara_vid; mret (0, v)
  else if attr =? DME_ARA_PID then v ← gets m_ara_pid; mret (0, v)
  else unipro_attr_access attr 0 selector peer false.

Definition chip_unipro_attr_write (attr val selector : Z) (peer : bool) : B Z :=
  r ← unipro_attr_access attr val selector peer true; mret (fst r).

Definition unipro_attr_local_write (attr val selector : Z) : B Z :=
  chip_unipro_attr_write attr val selector ATTR_LOCAL.

(** [if (urc) return urc;] before [k]. *)
Definition checked (c k : B Z) : B Z := urc ← c; if negb (urc =? 0) then mret urc else k.

(** The walk over a table, up to the entry that is marked as the last one. *)
Fixpoint apply_fixups (write : tsb_mphy_fixup -> B Z) (fu : list tsb_mphy_fixup) : B Z :=
  match fu with
  | [] => fault
  | f :: fu => checked (write f) (if tsb_mphy_fixup_is_last f then mret 0 else apply_fixups write fu)
  end.

Definition plain_fixup (fu : tsb_mphy_fixup) : B Z :=
  unipro_attr_local_write (fu_attrid fu) (fu_value fu) (fu_select_index fu).

Definition r1_fixup (debug_0720 : Z) (fu : tsb_mphy_fixup) : B Z :=
  if tsb_mphy_r1_fixup_is_magic fu
  then unipro_attr_local_write 0x8002 (Z.land (Z.shiftr debug_0720 1) 0x1f) 0
  else plain_fixup fu.

Definition es2_fixup_mphy : B Z :=
  debug_0720 ← tsb_get_debug_reg 0x0720;
  checked (unipro_attr_local_write TSB_MPHY_MAP TSB_MPHY_MAP_TSB_REGISTER_2 0)
  (checked (apply_fixups plain_fixup tsb_register_2_map_mphy_fixups)
  (checked (unipro_attr_local_write TSB_MPHY_MAP TSB_MPHY_MAP_NORMAL 0)
  (checked (unipro_attr_local_write TSB_MPHY_MAP TSB_MPHY_MAP_TSB_REGISTER_1 0)
  (checked (apply_fixups (r1_fixup debug_0720) tsb_register_1_map_mphy_fixups)
  (checked (unipro_attr_local_write TSB_MPHY_MAP TSB_MPHY_MAP_NORMAL 0) (mret 0)))))).

Definition configure_transfer_mode (mode : Z) : B unit :=
  if mode =? TRANSFER_MODE then tsb_unipro_write AHM_MODE_CTRL_0 TRANSFER_MODE_2_CTRL_0 else mret tt.

(** [tsb_reset_all_cports] with the attribute access of this chip. *)
Definition chip_unipro_init : B unit :=
  es2_fixup_mphy ;;
  configure_transfer_mode TRANSFER_MODE ;;
  tsb_unipro_write UNIPRO_INT_EN 0 ;;
  tsb_unipro_write UNIPRO_INT_EN 1 ;;
  tsb_reset_all_cports ;;
  mret tt.

Definition chip_unipro_init_cport (cportid : Z) : B Z := tsb_unipro_init_cport cportid.
Definition chip_reset_before_jump : B unit := tsb_reset_before_jump.

(** ** Boot status (es2_advertise.c) *)

Definition ES2_INIT_STATUS (boot_status : Z) : Z := Z.shiftr boot_status 24.

Definition advertise_with (halt : Z -> B unit) (boot_status : Z) : B unit :=
  offline ← gets m_offline;
  if (offline : bool) then mret tt
  else
    rc ← chip_unipro_attr_write T_TSTSRCINCREMENT (ES2_INIT_STATUS boot_status) 0 ATTR_LOCAL;
    when (negb (rc =? 0)) (modify (set_offline true) ;; halt boot_status).

(** [halt_and_catch_fire] of error.c over this chip, cut off after [n] nested
    calls. *)
Fixpoint halt_at (n : nat) (boot_status : Z) : B unit :=
  match n with
  | O => spin
  | S n =>
      merged ← merge_errno_with_boot_status boot_status;
      advertise_with (halt_at n) (Z.lor merged INIT_STATUS_FAILED) ;;
      halted
  end.

Definition halt_and_catch_fire (boot_status : Z) : B unit := halt_at 2 boot_status.

Definition chip_advertise_boot_status (boot_status : Z) : B unit :=
  advertise_with halt_and_catch_fire boot_status.

Definition chip_get_boot_status : B Z :=
  r ← chip_unipro_attr_read T_TSTSRCINCREMENT 0 ATTR_LOCAL;
  let '(rc, boot_status) := r : Z * Z in
  when (negb (rc =? 0)) (modify (set_offline true) ;; halt_and_catch_fire boot_status) ;;
  mret (boot_status <<₃₂ 24).

Definition chip_advertise_boot_type : B Z := mret 0.
Definition chip_reset_before_ready : B unit := tsb_reset_before_ready.
End es2_unipro.

(** ** Identifiers (es2_efuse.c) *)

(** [BOOTROM_MODULE_VID] and [BOOTROM_MODULE_PID] of the configuration. *)
Class ModuleIds := { BOOTROM_MODULE_VID : Z; BOOTROM_MODULE_PID : Z }.

Section efuse.
Context `{Platform, Hardware, ModuleIds}.
Definition efuse_init : B Z :=
  modify (set_ara_vid BOOTROM_MODULE_VID) ;; modify (set_ara_pid BOOTROM_MODULE_PID) ;; mret 0.
Definition efuse_rig_for_untrusted : B unit := mret tt.
End efuse.

(** ** The driver reads storage *)

(** The flash window: a byte load delivers the flash at that offset. *)
Class MappedFlash `{Hardware} (flash : Z -> Z) : Prop := {
  mf_u8 a : is_u8 (flash a);
  mf_reads d a : 0 <= a < MMAP_LOAD_SIZE -> buf_read8 (MMAP_LOAD_BASE + a) d = flash a
}.

Section reads.
Context `{Platform, Hardware}.

Definition addr_of (m : machine) : Z := u32 (current_addr (m_spi m)).

(** The bytes a device backs. *)
Definition mapped_bytes (d : dev) (a n : Z) : list Z := map (λ i, u8 (buf_read8 i d)) (seqZ a n).

Lemma mapped_bytes_ok d a n : bytes_ok (mapped_bytes d a n).
Proof. apply Forall_forall. intros b Hb. apply list_elem_of_fmap in Hb as (x & -> & _). apply u8_range. Qed.

Lemma length_mapped_bytes d a n : 0 <= n -> Z.of_nat (length (mapped_bytes d a n)) = n.
Proof. intros Hn. unfold mapped_bytes. rewrite length_map, length_seqZ. lia. Qed.

(** A state that a copy leads to: the bytes stored, the devices untouched, and
    the address at the end of the range. *)
Record copied (p : ptr) (bs : list Z) (e : Z) (m m' : machine) : Prop := {
  cp_image : image_eq m' (mem_write p bs m);
  cp_dev : m_dev m' = m_dev m;
  cp_addr : addr_of m' = e;
  cp_init : initialized (m_spi m') = initialized (m_spi m)
}.

(** One byte, and the rest of the range. *)
Lemma mmap_copy_step n e p m :
  is_u32 e -> addr_of m < e ->
  in_bounds p 1 m = true ->
  exists m1, mmap_copy (S n) e p m = mmap_copy n e (ptr_add p 1) m1 /\
    copied p (mapped_bytes (m_dev m) (addr_of m) 1) (addr_of m + 1) m m1.
Proof.
  intros He Hlt Hin. cbn [mmap_copy].
  rewrite (bind_step load_addr _ m (addr_of m) m eq_refl), (proj2 (Z.ltb_lt _ _) Hlt).
  erewrite (bind_step (mmap_read8 _)) by reflexivity. cbv beta.
  rewrite (bind_step (write_ptr _ _) _ m tt (mem_write p (mapped_bytes (m_dev m) (addr_of m) 1) m)).
  2: { unfold write_ptr. change (Z.of_nat (length [_])) with 1. by rewrite Hin. }
  erewrite bind_step by reflexivity. eexists. split; [reflexivity|].
  pose proof (u32_range (current_addr (m_spi m))) as Hr. fold (addr_of m) in Hr. unfold is_u32 in *.
  split; cbn; try done.
  - unfold mem_write. by destruct (p_blk p).
  - unfold addr_of at 1. cbn. rewrite !u32_small; unfold is_u32; try lia. by rewrite u32_small; unfold is_u32; lia.
  - unfold mem_write. by destruct (p_blk p).
Qed.

Lemma in_bounds_tail p b n m :
  0 < n -> in_bounds p n m = true -> in_bounds (ptr_add p 1) (n - 1) (mem_write p [b] m) = true.
Proof. intros Hn Hin. exact (in_bounds_behind p [b] n m Hin ltac:(cbn; lia)). Qed.

Lemma copied_cons p d a n e m m1 m2 :
  0 < n -> in_bounds p n m = true -> d = m_dev m ->
  copied p (mapped_bytes d a 1) (a + 1) m m1 ->
  copied (ptr_add p 1) (mapped_bytes d (a + 1) (n - 1)) e m1 m2 ->
  copied p (mapped_bytes d a n) e m m2.
Proof.
  intros Hn Hin -> [I1 D1 A1 S1] [I2 D2 A2 S2]. split; [|by rewrite D2|done|by rewrite S2].
  assert (mapped_bytes (m_dev m) a n = mapped_bytes (m_dev m) a 1 ++ mapped_bytes (m_dev m) (a + 1) (n - 1)) as ->.
  { unfold mapped_bytes. rewrite <- map_app. f_equal. rewrite <- seqZ_app by lia. f_equal. lia. }
  assert (Z.of_nat (length (mapped_bytes (m_dev m) a 1)) = 1) as Hl by (by apply length_mapped_bytes).
  rewrite I2, I1. replace (ptr_add p 1) with (ptr_add p (Z.of_nat (length (mapped_bytes (m_dev m) a 1)))) by (by rewrite Hl).
  rewrite mem_write_app; [done|].
  rewrite length_app, Nat2Z.inj_add, Hl, length_mapped_bytes by lia. by replace (1 + (n - 1)) with n by lia.
Qed.

Lemma copied_nil p d a m : copied p (mapped_bytes d a 0) (addr_of m) m m.
Proof. split; try done. by rewrite mem_write_nil. Qed.

Lemma mmap_copy_end n e p m : e <= addr_of m -> mmap_copy n e p m = (Done tt, m).
Proof.
  intros He. destruct n; cbn [mmap_copy];
    rewrite (bind_step load_addr _ m (addr_of m) m eq_refl), (proj2 (Z.ltb_ge _ _) He); done.
Qed.

(** The copy ends, and has stored the range. *)
Lemma mmap_copy_returns n : forall p m,
  is_u32 (addr_of m + Z.of_nat n) -> in_bounds p (Z.of_nat n) m = true ->
  exists m', mmap_copy n (addr_of m + Z.of_nat n) p m = (Done tt, m') /\
    copied p (mapped_bytes (m_dev m) (addr_of m) (Z.of_nat n)) (addr_of m + Z.of_nat n) m m'.
Proof.
  induction n as [|n IH]; intros p m Hu Hin.
  { rewrite Z.add_0_r. exists m. split; [apply mmap_copy_end; lia|apply copied_nil]. }
  destruct (mmap_copy_step n (addr_of m + Z.of_nat (S n)) p m) as (m1 & E1 & C1); [done|lia| |].
  { apply (in_bounds_prefix p (Z.of_nat (S n))); [done|lia]. }
  rewrite E1. pose proof (cp_addr _ _ _ _ _ C1) as A1. pose proof (cp_dev _ _ _ _ _ C1) as D1.
  replace (addr_of m + Z.of_nat (S n)) with (addr_of m1 + Z.of_nat n) in * by lia.
  destruct (IH (ptr_add p 1) m1 Hu) as (m' & E & C).
  { rewrite (image_eq_bounds _ _ _ _ (cp_image _ _ _ _ _ C1)).
    replace (Z.of_nat n) with (Z.of_nat (S n) - 1) by lia. apply in_bounds_tail; [lia|done]. }
  exists m'. split; [done|]. rewrite D1, A1 in C.
  eapply copied_cons; [|exact Hin|reflexivity|exact C1|]; [lia|].
  rewrite A1. by replace (Z.of_nat (S n) - 1) with (Z.of_nat n) by lia.
Qed.

(** A finished copy, whatever the fuel was. *)
Lemma mmap_copy_done n : forall e p m m',
  is_u32 e -> mmap_copy n e p m = (Done tt, m') ->
  exists bs, Z.of_nat (length bs) = Z.max 0 (e - addr_of m) /\ bytes_ok bs /\
    (bs = [] \/ in_bounds p (Z.of_nat (length bs)) m = true) /\ copied p bs (Z.max e (addr_of m)) m m' /\
    bs = mapped_bytes (m_dev m) (addr_of m) (Z.max 0 (e - addr_of m)).
Proof.
  induction n as [|n IH]; intros e p m m' He E; destruct (Z.leb_spec e (addr_of m)) as [Hge|Hlt];
    try (rewrite mmap_copy_end in E by done; injection E as <-; rewrite !(Z.max_l 0), (Z.max_r e) by lia;
         exists []; split_and!; [done|constructor|by left|exact (copied_nil p (m_dev m) 0 m)|done]).
  { cbn [mmap_copy] in E. rewrite (bind_step load_addr _ m (addr_of m) m eq_refl), (proj2 (Z.ltb_lt _ _) Hlt) in E. done. }
  destruct (in_bounds p 1 m) eqn:Hin.
  2: { cbn [mmap_copy] in E. rewrite (bind_step load_addr _ m (addr_of m) m eq_refl), (proj2 (Z.ltb_lt _ _) Hlt) in E.
       apply bind_done in E. destruct E as (b & m0 & [= <- <-] & E).
       apply bind_done in E. destruct E as ([] & m1 & E1 & _). apply write_ptr_done in E1 as [Hin' _].
       change (Z.of_nat (length [_])) with 1 in Hin'. congruence. }
  destruct (mmap_copy_step n e p m He Hlt Hin) as (m1 & E1 & C1). rewrite E1 in E.
  pose proof (cp_addr _ _ _ _ _ C1) as A1. pose proof (cp_dev _ _ _ _ _ C1) as D1.
  apply IH in E as (bs & Hl & Hb & Hbd & C & Heq); [|done]. rewrite A1, D1 in *.
  rewrite !(Z.max_r 0), !(Z.max_l e) in * by lia. set (k := e - addr_of m) in *.
  replace (e - (addr_of m + 1)) with (k - 1) in * by lia.
  assert (in_bounds p k m = true) as Hk.
  { destruct Hbd as [->|Hbd]; [cbn in Hl; by replace k with 1 by lia|].
    rewrite (image_eq_bounds _ _ _ _ (cp_image _ _ _ _ _ C1)) in Hbd.
    replace k with (Z.of_nat (length (mapped_bytes (m_dev m) (addr_of m) 1)) + Z.of_nat (length bs))
      by (rewrite length_mapped_bytes; lia).
    apply in_bounds_app; [lia|done|done]. }
  exists (mapped_bytes (m_dev m) (addr_of m) k).
  assert (Z.of_nat (length (mapped_bytes (m_dev m) (addr_of m) k)) = k) as Hlk by (apply length_mapped_bytes; lia).
  split_and!; [done|apply mapped_bytes_ok|right; by rewrite Hlk| |done].
  subst bs. eapply copied_cons; [|exact Hk|reflexivity|exact C1|exact C]. lia.
Qed.

(** ** The contracts *)

Lemma load_addr_run m : load_addr m = (Done (addr_of m), m).
Proof. done. Qed.

Lemma initialized_run m : gets (λ m, initialized (m_spi m)) m = (Done (initialized (m_spi m)), m).
Proof. done. Qed.

(** The bytes at the destination after the copy are those that are hashed. *)
Lemma load_rest_done hash p bs m m1 m2 n :
  Z.of_nat (length bs) = n -> bytes_ok bs -> image_eq m1 (mem_write p bs m) ->
  (bs = [] \/ p_blk p = BRam \/ in_bounds p n m = true) -> ram_kept m (mem_write p bs m) ->
  (forall k, in_bounds p k (mem_write p bs m) = in_bounds p k m) ->
  when hash (b ← read_ptr p n; hash_update b) m1 = (Done tt, m2) ->
  loaded p n hash bs m m2.
Proof.
  intros Hl Hb He Hbd Hkp Hk E.
  assert (image_eq m2 (hashed hash bs (mem_write p bs m))) as Hs;
    [|split; [done|done|done|by apply (ram_kept_loaded p hash bs)|done]].
  destruct hash; [|by injection E as <-]. eapply hash_stored_done; [done| |done|exact E]. cbn [when] in E.
  apply bind_done in E. destruct E as (b & m3 & E & _). apply read_ptr_done in E as [Hin _].
  by rewrite <- Hk, <- (image_eq_bounds _ _ _ _ He).
Qed.

#[export] Instance mmapped_load_ok : LoadOk spi_ops.
Proof.
  intros p n hash m m' Hm Hn Hroom E. cbn in E. unfold data_load_mmapped_load in E.
  rewrite (bind_step _ _ _ _ _ (initialized_run m)), (bind_step _ _ _ _ _ (load_addr_run m)) in E. cbv zeta in E.
  destruct (negb (initialized _ =? 1) || _) eqn:Hg; [by inv_done|].
  pose proof (u32_range (current_addr (m_spi m))) as Ha. fold (addr_of m) in Ha.
  set (e := addr_of m +₃₂ n) in *. pose proof (u32_range (addr_of m + n) : is_u32 e) as He.
  apply bind_done in E. destruct E as ([] & m1 & E1 & E).
  apply mmap_copy_done in E1 as (bs & Hl & Hb & Hbd & C & _); [|done].
  apply bind_done in E. destruct E as ([] & m2 & E2 & [= <-]).
  destruct (Z.lt_ge_cases (addr_of m + n) (2 ^ 32)) as [Hlt|Hge].
  - assert (e = addr_of m + n) as Ee by (apply u32_small; unfold is_u32 in *; lia).
    rewrite Ee, Z.max_r in Hl by (unfold is_u32 in *; lia).
    assert (Z.of_nat (length bs) = n) as Hln by lia. rewrite Hln in Hbd.
    exists bs. eapply load_rest_done; [done|done|apply C| | | |exact E2].
    + destruct Hbd; auto.
    + by apply (ram_kept_stored p n).
    + intros k. destruct Hbd as [->|Hin]; [by apply image_eq_bounds, mem_write_nil|].
      apply in_bounds_write. by rewrite Hln.
  - assert (bs = []) as ->.
    { apply length_zero_iff_nil. apply Nat2Z.inj. rewrite Hl. unfold e. rewrite u32_mod.
      replace (addr_of m + n) with ((addr_of m + n - 2 ^ 32) + 1 * 2 ^ 32) by lia.
      rewrite Z.mod_add, Z.mod_small by (unfold is_u32 in *; lia). unfold is_u32 in *. lia. }
    assert (image_eq m1 m) as Hm1 by (rewrite (cp_image _ _ _ _ _ C); apply mem_write_nil).
    assert (0 <= n) as Hn0 by apply Hn. pose proof (mem_write_read p n m Hn0 Hroom) as Hw.
    exists (mem_read p n m). eapply load_rest_done; [by apply mem_read_length|by apply mem_read_bytes| | | | |exact E2].
    + by rewrite Hm1, Hw.
    + by right.
    + apply image_eq_kept. by symmetry.
    + intros k. by apply image_eq_bounds.
Qed.

(** Inside the window the mapped bytes are the flash. *)
Lemma window_bytes flash `{!MappedFlash flash} d off n :
  0 <= off -> 0 <= n -> off + n <= MMAP_LOAD_SIZE ->
  mapped_bytes d (MMAP_LOAD_BASE + off) n = flash_bytes flash off n.
Proof.
  intros Ho Hn Hs. unfold mapped_bytes, flash_bytes. apply list_eq. intros i. rewrite !list_lookup_fmap.
  destruct (decide (i < Z.to_nat n)%nat) as [Hi|Hi]; [|by rewrite !lookup_seqZ_ge by lia].
  rewrite !lookup_seqZ_lt by lia. cbn. f_equal. rewrite <- Z.add_assoc, mf_reads by lia. apply u8_small, mf_u8.
Qed.

#[export] Instance mmapped_read_ok flash `{!MappedFlash flash} : ReadOk data_load_mmapped_read flash.
Proof.
  split; [apply mf_u8|]. intros p addr n m m' Hm Hn Ha Han E. unfold data_load_mmapped_read in E.
  rewrite (bind_step _ _ _ _ _ (initialized_run m)) in E.
  destruct (negb _ || _) eqn:Hg; [by inv_done|]. apply orb_false_iff in Hg as [_ Hg]. apply Z.leb_gt in Hg.
  unfold is_u32 in Hn. rewrite u32_small in Hg by (unfold is_u32; lia).
  apply bind_done in E. destruct E as ([] & m0 & E0 & E). pose proof (set_current_addr_eq _ _ _ E0) as He0.
  assert (addr_of m0 = MMAP_LOAD_BASE + addr) as Ea.
  { injection E0 as <-. unfold addr_of. cbn. unfold MMAP_LOAD_SIZE, SPI_SIZE, MMAP_LOAD_BASE, SPI_BASE in *.
    rewrite u32_idemp. apply u32_small. unfold is_u32. lia. }
  assert (m_dev m0 = m_dev m) as Ed by (by injection E0 as <-).
  apply bind_done in E. destruct E as ([] & m1 & E1 & [= <-]).
  unfold MMAP_LOAD_SIZE, SPI_SIZE, MMAP_LOAD_BASE, SPI_BASE in *.
  rewrite u32_small in E1 by (unfold is_u32; lia).
  apply mmap_copy_done in E1 as (bs & Hl & Hb & Hbd & C & Heq); [|unfold is_u32; lia].
  rewrite Ea, Ed in *. replace (0x1000000 + addr + n - (0x1000000 + addr)) with n in * by lia.
  rewrite Z.max_r in Hl, Heq by lia.
  rewrite (window_bytes flash) in Heq by (unfold MMAP_LOAD_SIZE, SPI_SIZE; lia). subst bs.
  apply loaded_intro; [done|done| |].
  - rewrite Hl, (image_eq_bounds _ _ _ _ He0) in Hbd. destruct Hbd; auto.
  - rewrite (cp_image _ _ _ _ _ C). cbn. by rewrite He0.
Qed.

(** [C28] On ES2, with the flash mapped into the address space, a load that ends
    below the end of the window (strictly, as the code tests it) returns 0, puts the bytes of the flash at the current
    address to the destination, hashes them if asked, changes nothing else the
    image loader uses, and moves the address behind them, so that consecutive
    loads read on. *)
Theorem mmapped_load_reads_flash flash `{!MappedFlash flash} p n hash off m :
  initialized (m_spi m) = 1 -> addr_of m = MMAP_LOAD_BASE + off ->
  0 <= off -> 0 <= n -> off + n < MMAP_LOAD_SIZE ->
  in_bounds p n m = true -> (hash = true -> crypto_ready m) ->
  exists m', data_load_mmapped_load p n hash m = (Done 0, m') /\
    loaded p n hash (flash_bytes flash off n) m m' /\
    addr_of m' = MMAP_LOAD_BASE + (off + n) /\ initialized (m_spi m') = 1.
Proof.
  intros Hi Ha Ho Hn Hsz Hin Hc. unfold data_load_mmapped_load.
  rewrite (bind_step _ _ _ _ _ (initialized_run m)), (bind_step _ _ _ _ _ (load_addr_run m)), Hi. cbv zeta.
  unfold MMAP_LOAD_SIZE, SPI_SIZE, MMAP_LOAD_BASE, SPI_BASE in *.
  rewrite u32_small by (unfold is_u32; lia). rewrite (proj2 (Z.leb_gt _ _)) by lia. change (negb (1 =? 1) || false) with false. cbv iota.
  destruct (mmap_copy_returns (Z.to_nat n) p m) as (m1 & E1 & C1);
    rewrite ?Z2Nat.id in * by done; [unfold is_u32; lia|done|].
  rewrite (bind_step _ _ _ _ _ E1). rewrite Ha in C1.
  change 0x1000000 with MMAP_LOAD_BASE in C1 at 1.
  rewrite (window_bytes flash) in C1 by (unfold MMAP_LOAD_SIZE, SPI_SIZE; lia).
  set (bs := flash_bytes flash off n) in *.
  assert (Z.of_nat (length bs) = n) as Hl by (unfold bs; rewrite length_flash_bytes by done; lia).
  assert (forall k, in_bounds p k (mem_write p bs m) = in_bounds p k m) as Hk
    by (intros k; apply in_bounds_write; by rewrite Hl).
  assert (exists m2, when hash (b ← read_ptr p n; hash_update b) m1 = (Done tt, m2) /\ m_spi m2 = m_spi m1)
    as (m2 & E2 & Hs2).
  { destruct hash; cbn [when]; [|by exists m1]. specialize (Hc eq_refl).
    assert (in_bounds p n m1 = true) as Hin1 by (by rewrite (image_eq_bounds _ _ _ _ (cp_image _ _ _ _ _ C1)), Hk).
    assert (crypto_ready m1) as Hc1.
    { pose proof (ie_crypto _ _ (cp_image _ _ _ _ _ C1)) as Ec.
      assert (m_crypto (mem_write p bs m) = m_crypto m) as Ec' by (unfold mem_write; by destruct (p_blk p)).
      destruct Hc. split; by rewrite Ec, Ec'. }
    eexists. unfold read_ptr, mbind, boot_bind. rewrite Hin1, hash_update_run by done. done. }
  rewrite (bind_step _ _ _ _ _ E2). exists m2. split; [done|].
  assert (bytes_ok bs) as Hb.
  { apply Forall_forall. intros b Hb. apply list_elem_of_fmap in Hb as (x & -> & _). apply mf_u8. }
  split; [eapply load_rest_done; [done|done|apply C1|auto|apply (ram_kept_stored p n); auto|done|done]|].
  unfold addr_of. rewrite Hs2. fold (addr_of m1). rewrite (cp_addr _ _ _ _ _ C1), (cp_init _ _ _ _ _ C1), Hi. split; [lia|done].
Qed.

(** A range that wraps around the address space passes the checks, and nothing
    is copied: the read reports success and the destination is unchanged. *)
Lemma mmapped_read_wraps p addr n m :
  initialized (m_spi m) = 1 -> is_u32 n -> addr + MMAP_LOAD_BASE < 2 ^ 32 ->
  2 ^ 32 <= addr + n < 2 ^ 32 + MMAP_LOAD_SIZE ->
  exists m', data_load_mmapped_read p addr n m = (Done 0, m') /\ image_eq m' m.
Proof.
  unfold MMAP_LOAD_SIZE, SPI_SIZE, MMAP_LOAD_BASE, SPI_BASE, is_u32. intros Hi Hn Ha Hw.
  unfold data_load_mmapped_read. rewrite (bind_step _ _ _ _ _ (initialized_run m)), Hi.
  assert (forall x, 2 ^ 32 <= x < 2 * 2 ^ 32 -> u32 x = x - 2 ^ 32) as Hwrap.
  { intros x Hx. rewrite u32_mod. symmetry. apply (Z.mod_unique _ _ 1); lia. }
  unfold MMAP_LOAD_SIZE, SPI_SIZE, MMAP_LOAD_BASE, SPI_BASE. rewrite Hwrap by lia.
  rewrite (proj2 (Z.leb_gt _ _)) by lia. change (negb (1 =? 1) || false) with false. cbv iota.
  erewrite bind_step by reflexivity. rewrite Hwrap by lia.
  set (m1 := set_spi _ m).
  assert (addr_of m1 = 0x1000000 + addr) as Ea.
  { unfold addr_of, m1. cbn. rewrite u32_idemp. apply u32_small. unfold is_u32. lia. }
  erewrite bind_step by (apply mmap_copy_end; rewrite Ea; lia). exists m1. by split.
Qed.
End reads.

(** ** The boot status *)

Section status.
Context `{Platform, Hardware, !DmeController}.
Context (Hfuel : (dme_latency < poll_fuel)%nat).

Lemma upper_byte s : is_u32 s -> Z.shiftr s 24 <<₃₂ 24 = Z.land s 0xFF000000.
Proof.
  intros Hs. change 0xFF000000 with (Z.shiftl (Z.ones 8) 24). rewrite <- Z.ldiff_ones_r by lia.
  apply Z.bits_inj'. intros i Hi. rewrite Z.land_spec, Z.shiftl_spec by lia.
  destruct (Z.lt_ge_cases i 32) as [Hlt|Hge].
  - rewrite u32_testbit_low, Z.ldiff_spec by lia. destruct (Z.lt_ge_cases i 24).
    + rewrite (Z.ones_spec_low 24), (Z.testbit_neg_r _ (i - 24)) by lia. by rewrite !andb_false_r.
    + rewrite (Z.ones_spec_high 24), (Z.ones_spec_low 8) by lia. done.
  - rewrite (is_u32_testbit_high _ i (u32_range _)), (is_u32_testbit_high s) by done. done.
Qed.

(** The status is advertised in eight bits: what is read back is the upper byte,
    and the error code in the lower ones is lost. *)
Lemma status_upper_byte s m :
  is_u32 s -> m_offline m = false ->
  exists d, (chip_advertise_boot_status s ;; chip_get_boot_status) m = (Done (Z.land s 0xFF000000), set_dev d m).
Proof.
  intros Hs Ho. set (k := Attr false 0 T_TSTSRCINCREMENT).
  assert (valid_attr k) as Hk by (by split).
  assert (is_u32 (Z.shiftr s 24)) as Hv.
  { unfold is_u32 in *. rewrite Z.shiftr_div_pow2 by lia. split; [by apply Z.div_pos; lia|].
    apply Z.div_lt_upper_bound; lia. }
  destruct (attr_write_run Hfuel k (Z.shiftr s 24) m Hk Hv) as (d1 & E1 & S1).
  destruct (attr_read_run Hfuel k (set_dev d1 m) Hk) as (d2 & E2 & S2).
  exists d2. unfold chip_advertise_boot_status, advertise_with.
  assert (forall A (f : bool -> B A), (gets m_offline ≫= f) m = f false m) as Hoff
    by (intros A f; unfold gets, mbind, boot_bind; by rewrite Ho).
  rewrite bind_assoc, Hoff, bind_assoc.
  change (chip_unipro_attr_write T_TSTSRCINCREMENT (ES2_INIT_STATUS s) 0 ATTR_LOCAL)
    with (Chip.chip_unipro_attr_write (ak_attr k) (Z.shiftr s 24) (ak_selector k) (ak_peer k)).
  rewrite (bind_step _ _ _ _ _ E1). change (negb (0 =? 0)) with false. cbn [when]. rewrite bind_ret.
  unfold chip_get_boot_status.
  change (chip_unipro_attr_read T_TSTSRCINCREMENT 0 ATTR_LOCAL)
    with (Chip.chip_unipro_attr_read (ak_attr k) (ak_selector k) (ak_peer k)).
  rewrite (bind_step _ _ _ _ _ E2). cbn [m_dev set_dev]. rewrite S1. unfold store_set. rewrite attr_eqb_refl.
  change (negb (0 =? 0)) with false. cbn [when]. rewrite bind_ret.
  change (set_dev d2 (set_dev d1 m)) with (set_dev d2 m). unfold mret, boot_ret. do 2 f_equal.
  by apply upper_byte.
Qed.
End status.

(** ** The corrections *)

(** Each table has exactly one entry that is marked as the last, its last one,
    so the walks end inside them. *)
Lemma fixups_end_inside `{Platform, Hardware} (write : tsb_mphy_fixup -> B Z) l m :
  existsb tsb_mphy_fixup_is_last l = true ->
  (forall fu m, fst (write fu m) <> Fault) -> fst (apply_fixups write l m) <> Fault.
Proof.
  intros Hl Hw. revert m. induction l as [|f l IH]; intros m; [done|]. cbn [apply_fixups existsb] in *.
  unfold checked, mbind, boot_bind. pose proof (Hw f m) as Hf. destruct (write f m) as [[rc| | | |] m1]; try done.
  destruct (negb (rc =? 0)); [done|]. destruct (tsb_mphy_fixup_is_last f); [done|by apply IH].
Qed.

Lemma last_marked :
  existsb tsb_mphy_fixup_is_last tsb_register_1_map_mphy_fixups = true /\
  existsb tsb_mphy_fixup_is_last tsb_register_2_map_mphy_fixups = true.
Proof. by vm_compute. Qed.

(** ** A chip with mapped flash *)

Definition mapped_hw (flash : Z -> Z) : Hardware :=
  {| dev := unit; reg_read := λ _ d, (0, d); reg_write := λ _ _ d, d; reg_write8 := λ _ _ d, d;
     buf_read8 := λ a _, flash (a - MMAP_LOAD_BASE) |}.

Lemma mapped_flash flash : (forall a, is_u8 (flash a)) -> @MappedFlash (mapped_hw flash) flash.
Proof. intros Hu. split; [done|]. intros d a _. cbn. f_equal. lia. Qed.

Lemma mmapped_load_reads_flash_witness :
  let P := sim_platform Stage1 [] [] in
  let W := mapped_hw chip_flash in
  let m := snd (@data_load_mmapped_init W (@sim_machine_at W tt)) in
  exists m', @data_load_mmapped_load P W (Ptr BRam 0x10000000) 18 false m = (Done 0, m') /\
    @loaded P W (Ptr BRam 0x10000000) 18 false (flash_bytes chip_flash 0 18) m m' /\
    @addr_of W m' = MMAP_LOAD_BASE + 18 /\ initialized (m_spi m') = 1.
Proof.
  intros P W m. pose proof (mapped_flash chip_flash chip_flash_u8) as Hf.
  apply (@mmapped_load_reads_flash P W chip_flash Hf (Ptr BRam 0x10000000) 18 false 0 m).
  - reflexivity.
  - reflexivity.
  - discriminate.
  - discriminate.
  - reflexivity.
  - reflexivity.
  - discriminate.
Defined.
End Es2.
