(* ===== verification/Bootrom.v ===== *)
(** * Bootrom: the two boot stages (apps/bootrom/src/start.c,
    apps/secondstage/src/start.c, chip_init of chips/tsb/src/tsb_chipapi.c and
    chip_clear_image_loading_ram of chips/tsb/src/tsb_utils.S)

    Stage 1 is the mask ROM, stage 2 the loader it starts.  Both try the SPI
    flash if told to, and fall back to a download over UniPro; both end in a jump
    to the loaded image or in [halt_and_catch_fire].  The parts that the two
    [bootrom_main] functions share word for word are one definition here. *)

From S2P Require Import Prelude Utils Sha256 Machine Chip Errors Crypto Loading Efuse Unipro Tftf Spi Greybus SpiMaster Ffff.

Definition TSB_EBOOTSELECTOR_SPIBOOT_N : Z := 1.
Definition DME_ARA_BOOT_CONTROL : Z := 0x610e.
Definition FORCE_UNIPRO_BOOT : Z := 1.

Section bootrom.
Context `{Platform, Hardware}.

(** ** Start-up *)

(** The second stage is built with the GPIO and bridged SPI drivers; the device
    table that the latter registers is used by the SPI protocol only. *)
Definition chip_init : B unit :=
  tsb_clk_init ;;
  match boot_stage with
  | Stage1 => mret tt
  | Stage2 => chip_gpio_init ;; chip_spi_master_init ;; mret tt
  end.

(** [do { *r8 = 0; r8 += 4 } while (r8 != r9)]. *)
Fixpoint clear_loading_ram (fuel : nat) (r8 r9 : Z) : B unit :=
  match fuel with
  | O => spin
  | S fuel =>
      write_ptr (Ptr BRam r8) [0; 0; 0; 0] ;;
      let r8 := r8 +₃₂ 4 in
      if r8 =? r9 then mret tt else clear_loading_ram fuel r8 r9
  end.

(** The loop ends after one word per four bytes of the area, if it ends. *)
Definition chip_clear_image_loading_ram : B unit :=
  clear_loading_ram (Z.to_nat (Z.shiftr (image_area_end -₃₂ workram_start) 2)) workram_start image_area_end.

(** ** Boot from flash *)

(** From a loaded image to its first instruction; [merge] is set for SPI boot,
    which merges the error code into the status. *)
Definition start_image (secure merge : bool) (trusted_status untrusted_status : Z) : B unit :=
  let boot_status := if secure then trusted_status else untrusted_status in
  when (negb secure) efuse_rig_for_untrusted ;;
  boot_status ← (if merge then merge_errno_with_boot_status boot_status else mret boot_status);
  chip_advertise_boot_status boot_status ;;
  jump_to_image.

(** The SPI block of both stages, from [spi_ops.init] to the fallback; the
    result is the boot status when no image was started. *)
Definition boot_from_spi (element_type boot_status : Z) : B Z :=
  ops_init spi_ops ;;
  r ← locate_ffff_element_on_storage spi_ops element_type;
  let '(rc, _) := r : Z * Z in
  boot_status ←
    (if rc =? 0 then
       let boot_status := INIT_STATUS_SPI_BOOT_STARTED in
       chip_advertise_boot_status boot_status ;;
       r ← load_tftf_image spi_ops;
       let '(rc, is_secure_image) := r : Z * Z in
       let secure := negb (is_secure_image =? 0) in
       when (rc =? 0)
         (ops_finish spi_ops true secure ;;
          start_image secure true INIT_STATUS_TRUSTED_SPI_FLASH_BOOT_FINISHED
                                  INIT_STATUS_UNTRUSTED_SPI_FLASH_BOOT_FINISHED) ;;
       mret boot_status
     else mret boot_status);
  ops_finish spi_ops false false ;;
  chip_clear_image_loading_ram ;;
  mret boot_status.

(** ** Boot over UniPro *)

(** The status advertised before the download. *)
Definition unipro_status (fallback : bool) : B Z :=
  if fallback then merge_errno_with_boot_status INIT_STATUS_FALLLBACK_UNIPRO_BOOT_STARTED
  else mret INIT_STATUS_UNIPRO_BOOT_STARTED.

(** From [greybus_ops.init] to the end of [bootrom_main]. *)
Definition download_image (fallback : bool) (boot_status : Z) : B unit :=
  rc ← ops_init greybus_ops;
  when (negb (rc =? 0)) (halt_and_catch_fire boot_status) ;;
  r ← load_tftf_image greybus_ops;
  let '(rc, is_secure_image) := r : Z * Z in
  let secure := negb (is_secure_image =? 0) in
  when (rc =? 0)
    (rc ← ops_finish greybus_ops true secure;
     when (negb (rc =? 0)) (halt_and_catch_fire boot_status) ;;
     start_image secure false
       (if fallback then INIT_STATUS_FALLLBACK_TRUSTED_UNIPRO_BOOT_FINISHED
        else INIT_STATUS_TRUSTED_UNIPRO_BOOT_FINISHED)
       (if fallback then INIT_STATUS_FALLLBACK_UNTRUSTED_UNIPRO_BOOT_FINISHED
        else INIT_STATUS_UNTRUSTED_UNIPRO_BOOT_FINISHED)) ;;
  rc ← ops_finish greybus_ops false secure;
  when (negb (rc =? 0)) (halt_and_catch_fire boot_status) ;;
  halt_and_catch_fire boot_status.

(** ** Stage 1 *)

(** [ims0]: the contents of the stack buffer that [efuse_init] reads the secret
    into. *)
Definition bootrom_main_1 (ims0 : list Z) : B unit :=
  let boot_status := INIT_STATUS_OPERATING in
  chip_init ;;
  init_last_error ;;
  crypto_init ;;
  set_shared_function SHARED_FUNCTION_ENTER_STANDBY (Some FN_chip_enter_standby) ;;
  chip_unipro_init ;;
  chip_advertise_boot_status boot_status ;;
  rc ← chip_advertise_boot_type;
  when (negb (rc =? 0)) (halt_and_catch_fire boot_status) ;;
  rc ← efuse_init ims0;
  when (negb (rc =? 0)) (halt_and_catch_fire boot_status) ;;
  register_val ← tsb_get_bootselector;
  let from_spi := Z.land register_val TSB_EBOOTSELECTOR_SPIBOOT_N =? 0 in
  when from_spi (boot_from_spi FFFF_ELEMENT_STAGE_2_FW boot_status ;; mret tt) ;;
  boot_status ← unipro_status from_spi;
  chip_advertise_boot_status boot_status ;;
  rc ← greybus_init;
  when (negb (rc =? 0)) (halt_and_catch_fire boot_status) ;;
  advertise_ready ;;
  download_image from_spi boot_status.

(** ** Stage 2 *)

(** [*boot_from_spi]. *)
Definition boot_control : B bool :=
  let boot_status := INIT_STATUS_OPERATING in
  prev_boot_status ← chip_get_boot_status;
  r ← chip_unipro_attr_read DME_ARA_BOOT_CONTROL 0 ATTR_LOCAL;
  let '(rc, bootctrl) := r : Z * Z in
  when (negb (rc =? 0)) (halt_and_catch_fire boot_status) ;;
  when (negb (Z.land prev_boot_status INIT_STATUS_FAILED =? 0)) (halt_and_catch_fire boot_status) ;;
  let prev_boot_status := Z.land prev_boot_status INIT_STATUS_STATUS_MASK in
  let from_spi := (prev_boot_status =? INIT_STATUS_TRUSTED_SPI_FLASH_BOOT_FINISHED)
                  || (prev_boot_status =? INIT_STATUS_UNTRUSTED_SPI_FLASH_BOOT_FINISHED) in
  mret (if negb (Z.land bootctrl FORCE_UNIPRO_BOOT =? 0) then false else from_spi).

(** [ims0], [ims1]: the stack buffers of [efuse_init] and of [bootrom_main]. *)
Definition bootrom_main_2 (ims0 ims1 : list Z) : B unit :=
  let boot_status := INIT_STATUS_OPERATING in
  chip_init ;;
  init_last_error ;;
  crypto_init ;;
  match get_2ndstage_cfgdata with
  | Some cfg =>
      when (negb (use_fake_ims cfg =? 0))
        (rc ← efuse_init ims0; when (negb (rc =? 0)) (halt_and_catch_fire boot_status))
  | None => mret tt
  end ;;
  ims ← tsb_get_ims ims1 TSB_ISAA_NUM_IMS_BYTES;
  key_generation ims ;;
  chip_unipro_init ;;
  from_spi ← boot_control;
  chip_advertise_boot_status boot_status ;;
  rc ← chip_advertise_boot_type;
  when (negb (rc =? 0)) (halt_and_catch_fire boot_status) ;;
  boot_status ← (if from_spi : bool then boot_from_spi FFFF_ELEMENT_STAGE_3_FW boot_status
                 else mret boot_status);
  rc ← greybus_init;
  when (negb (rc =? 0)) (set_last_error BRE_BOU_GBCTRL_CPORT ;; halt_and_catch_fire boot_status) ;;
  boot_status ← unipro_status from_spi;
  chip_advertise_boot_status boot_status ;;
  advertise_ready ;;
  download_image from_spi boot_status.

End bootrom.

(** ** Fallback starts from clean memory *)

Section clear.
Context `{Platform, Hardware}.

Lemma clear_loading_ram_run n : forall a m,
  0 <= a -> a + 4 * Z.of_nat (S n) < 2 ^ 32 -> ram_lo <= a -> a + 4 * Z.of_nat (S n) <= ram_hi -> exists r,
  clear_loading_ram (S n) a (a + 4 * Z.of_nat (S n)) m = (Done tt, set_ram r m) /\
  forall x, ram_get r x = if decide (a <= x < a + 4 * Z.of_nat (S n)) then 0 else ram_get (m_ram m) x.
Proof.
  induction n as [|n IH]; intros a m Ha Hlim Hlo Hhi; remember (a + 4 * Z.of_nat (S _)) as e eqn:He.
  all: set (r1 := ram_write a [0; 0; 0; 0] (m_ram m)).
  all: assert (Hw : write_ptr (Ptr BRam a) [0; 0; 0; 0] m = (Done tt, set_ram r1 m))
    by (unfold write_ptr; cbn [length]; change (Z.of_nat 4) with 4;
        rewrite (in_bounds_le (Ptr BRam a) 4 m) by (cbn [p_blk p_ofs]; lia); done).
  all: assert (Hr1 : forall x, ram_get r1 x = if decide (a <= x < a + 4) then 0 else ram_get (m_ram m) x).
  1, 3: intros x; subst r1; unfold ram_get at 1; rewrite lookup_ram_write; cbn [length];
    change (Z.of_nat 4) with 4; case_decide; [|done];
    assert (Hx : (Z.to_nat (x - a) < 4)%nat) by lia;
    destruct (Z.to_nat (x - a)) as [|[|[|[|?]]]]; (done || lia).
  all: cbn [clear_loading_ram]; rewrite (bind_step _ _ _ _ _ Hw); cbv zeta;
    rewrite u32_small by (unfold is_u32; lia).
  - exists r1. destruct (Z.eqb_spec (a + 4) e); [|lia]. split; [done|]. intros x. rewrite Hr1.
    subst e. by replace (a + 4 * Z.of_nat 1) with (a + 4) by lia.
  - destruct (Z.eqb_spec (a + 4) e); [lia|].
    destruct (IH (a + 4) (set_ram r1 m)) as (r & Hrun & Hr); [lia..|].
    replace (a + 4 + 4 * Z.of_nat (S n)) with e in Hrun, Hr by lia.
    exists r. split; [exact Hrun|]. intros x. rewrite Hr. cbn [m_ram set_ram]. rewrite Hr1.
    repeat case_decide; (done || lia).
Qed.

(** After a failed SPI boot nothing of it is left in the image area: the
    clearing loop ends, every byte from the start of work RAM up to the stage's
    own memory is zero, and everything else is as before. *)
Theorem clear_image_ram_zeroes m `{!PlatformOk} :
  image_area_end < 2 ^ 32 -> (image_area_end - workram_start) mod 4 = 0 -> exists r,
  chip_clear_image_loading_ram m = (Done tt, set_ram r m) /\
  forall x, ram_get r x = if decide (workram_start <= x < image_area_end) then 0 else ram_get (m_ram m) x.
Proof.
  intros He Hmod. destruct load_area_ok as (Hlo & Hhi & _). unfold chip_clear_image_loading_ram.
  assert (Hd : exists n, image_area_end = workram_start + 4 * Z.of_nat (S n)).
  { exists (Z.to_nat ((image_area_end - workram_start) / 4 - 1)).
    pose proof (Z.div_mod (image_area_end - workram_start) 4). lia. }
  destruct Hd as [n Hn]. rewrite u32_small by (unfold is_u32; lia).
  replace (Z.to_nat (Z.shiftr (image_area_end - workram_start) 2)) with (S n).
  - rewrite Hn. apply clear_loading_ram_run; lia.
  - rewrite Z.shiftr_div_pow2 by lia. change (2 ^ 2) with 4. rewrite Hn.
    replace (workram_start + 4 * Z.of_nat (S n) - workram_start) with (Z.of_nat (S n) * 4) by lia.
    rewrite Z.div_mul by lia. lia.
Qed.

(** The status field of a boot status word. *)
Lemma status_field st k :
  0 <= k -> Z.land st INIT_STATUS_STATUS_MASK = Z.shiftl k 24 <-> Z.land (Z.shiftr st 24) 0x7f = k.
Proof.
  intros Hk. assert (He : Z.land st INIT_STATUS_STATUS_MASK = Z.shiftl (Z.land (Z.shiftr st 24) 0x7f) 24).
  { change INIT_STATUS_STATUS_MASK with (Z.shiftl 0x7f 24). rewrite Z.shiftl_land. bits_eq.
    destruct (Z.lt_ge_cases i 24).
    - by rewrite !(Z.shiftl_spec_low 0x7f), !andb_false_r by lia.
    - rewrite (Z.shiftl_spec_high (Z.shiftr st 24)), Z.shiftr_spec by lia.
      by replace (i - 24 + 24) with i by lia. }
  rewrite He, !Z.shiftl_mul_pow2 by lia. lia.
Qed.

(** The second stage boots from flash exactly when stage 1 did and the host
    does not force UniPro: [boot_control] returns only if the published status
    carries no failure, and then its answer is given by the status field and bit
    0 of the boot control attribute. *)
Theorem boot_control_decides m b m' :
  boot_control m = (Done b, m') -> exists st m1 ctrl,
  chip_get_boot_status m = (Done st, m1) /\
  chip_unipro_attr_read DME_ARA_BOOT_CONTROL 0 ATTR_LOCAL m1 = (Done (0, ctrl), m') /\
  Z.testbit st 31 = false /\
  (b = true <-> Z.testbit ctrl 0 = false /\
     (Z.land (Z.shiftr st 24) 0x7f = 3 \/ Z.land (Z.shiftr st 24) 0x7f = 4)).
Proof.
  intros E. unfold boot_control in E. cbv zeta in E.
  apply bind_done in E. destruct E as (st & m1 & E1 & E).
  apply bind_done in E. destruct E as ([rc ctrl] & m2 & E2 & E).
  apply bind_done in E. destruct E as ([] & m3 & E3 & E).
  apply bind_done in E. destruct E as ([] & m4 & E4 & E). injection E as <- <-.
  assert (Hh : forall (c : bool) ma mb, when c (halt_and_catch_fire INIT_STATUS_OPERATING) ma = (Done tt, mb) ->
    c = false /\ mb = ma).
  { intros [] ma mb Ew; [exfalso|by injection Ew]. cbn [when] in Ew.
    unfold halt_and_catch_fire in Ew. cbn [halt_at] in Ew.
    apply bind_done in Ew. destruct Ew as (? & ? & _ & Ew).
    apply bind_done in Ew. by destruct Ew as (? & ? & _ & Ew). }
  apply Hh in E3 as [Hrc ->]. apply Hh in E4 as [Hst ->].
  apply negb_false_iff, Z.eqb_eq in Hrc. apply negb_false_iff, Z.eqb_eq in Hst. subst rc.
  exists st, m1, ctrl. split_and!; [done|done| |].
  - apply (f_equal (λ z, Z.testbit z 31)) in Hst. by rewrite Z.land_spec, andb_true_r in Hst.
  - rewrite <- !(status_field st) by lia. unfold FORCE_UNIPRO_BOOT. change 1 with (Z.ones 1).
    rewrite Z.land_ones by lia. change (2 ^ 1) with 2. rewrite <- Z.bit0_mod.
    unfold INIT_STATUS_TRUSTED_SPI_FLASH_BOOT_FINISHED, INIT_STATUS_UNTRUSTED_SPI_FLASH_BOOT_FINISHED.
    destruct (Z.testbit ctrl 0); cbn [Z.b2z Z.eqb negb]; [intuition discriminate|].
    rewrite orb_true_iff, !Z.eqb_eq. tauto.
Qed.
End clear.
