(* ===== verification/Debug.v ===== *)
(** * Debug: messages on the serial port (common/src/debug.c,
    chips/tsb/src/tsb_dbguart.c)

    Characters, strings and hexadecimal numbers are written to a UART.  With a
    UART that becomes ready, everything printed reaches the line, and the numbers
    can be read back from it. *)

From S2P Require Import Prelude Machine Chip Sim.

Definition UART_BASE : Z := 0x40005000.
Definition UART_RBR_THR_DLL : Z := UART_BASE.
Definition UART_IER_DLH : Z := UART_BASE + 0x4.
Definition UART_FCR_IIR : Z := UART_BASE + 0x8.
Definition UART_LCR : Z := UART_BASE + 0xc.
Definition UART_LSR : Z := UART_BASE + 0x14.
Definition UART_LCR_DLAB : Z := Z.shiftl 1 7.
Definition UART_LCR_DLS_8 : Z := 3.
Definition UART_FCR_IIR_IID0_FIFOE : Z := 1.
Definition UART_FCR_IIR_IID1_RFIFOR : Z := 2.
Definition UART_FCR_IIR_IID1_XFIFOR : Z := 4.
Definition UART_LSR_THRE : Z := Z.shiftl 1 5.
Definition UART_LSR_TX_EMPTY : Z := Z.shiftl 1 6.
Definition TSB_PIN_UART_RXTX : Z := 1.
Definition TSB_CLK_UARTP : Z := 21.
Definition TSB_CLK_UARTS : Z := 22.
Definition TSB_RST_UARTP : Z := 18.
Definition TSB_RST_UARTS : Z := 19.

(** [UART_CLOCK_DIVIDER] of the build. *)
Class UartClock := { UART_CLOCK_DIVIDER : Z }.

Definition newline : Z := 10.
Definition carriage_return : Z := 13.

(** ** The port (tsb_dbguart.c) *)

Section uart.
Context `{Platform, Hardware}.

Definition UART_DLL `{UartClock} : Z := Z.land UART_CLOCK_DIVIDER 0xff.
Definition UART_DLH `{UartClock} : Z := Z.land (Z.shiftr UART_CLOCK_DIVIDER 8) 0xff.

Definition uart_setup `{UartClock} : B unit :=
  putreg32 (Z.lor UART_LCR_DLAB UART_LCR_DLS_8) UART_LCR ;;
  putreg32 UART_DLL UART_RBR_THR_DLL ;;
  putreg32 UART_DLH UART_IER_DLH ;;
  putreg32 UART_LCR_DLS_8 UART_LCR ;;
  putreg32 0 UART_IER_DLH ;;
  putreg32 (Z.lor (Z.lor UART_FCR_IIR_IID0_FIFOE UART_FCR_IIR_IID1_RFIFOR) UART_FCR_IIR_IID1_XFIFOR) UART_FCR_IIR.

Definition chip_dbginit `{UartClock} : B unit :=
  tsb_set_pinshare TSB_PIN_UART_RXTX ;;
  tsb_clk_enable TSB_CLK_UARTP ;;
  tsb_clk_enable TSB_CLK_UARTS ;;
  tsb_reset TSB_RST_UARTP ;;
  tsb_reset TSB_RST_UARTS ;;
  uart_setup ;; uart_setup ;; uart_setup.

(** The loops on the line status. *)
Definition wait_status (bits : Z) : B unit :=
  poll poll_fuel (v ← getreg32 UART_LSR; mret (if Z.land v bits =? bits then Some tt else None)).

Definition chip_dbgputc (c : Z) : B unit :=
  wait_status UART_LSR_THRE ;;
  when (c =? newline) (putreg32 carriage_return UART_RBR_THR_DLL ;; wait_status UART_LSR_THRE) ;;
  putreg32 c UART_RBR_THR_DLL.

Definition chip_dbgflush : B unit := wait_status UART_LSR_TX_EMPTY.

(** ** Printing (debug.c) *)

Definition dbginit `{UartClock} : B unit := chip_dbginit.
Definition dbgputc (x : Z) : B unit := chip_dbgputc x.

(** The characters of a string, up to its terminator. *)
Fixpoint print_chars (str : list Z) : B unit :=
  match str with
  | [] => mret tt
  | c :: str => if c =? 0 then mret tt else dbgputc c ;; print_chars str
  end.

Definition dbgprint (str : option (list Z)) : B unit :=
  match str with Some str => print_chars str | None => mret tt end.

Definition hex_char (nybble : Z) : Z := if nybble <? 10 then 48 + nybble else 97 + (nybble - 10).

(** [for (digit = n - 1; digit >= 0; digit--)] *)
Fixpoint hex_digits_loop (n : nat) (num : Z) : B unit :=
  match n with
  | O => mret tt
  | S digit =>
      dbgputc (hex_char (Z.land (Z.shiftr num (Z.shiftl (Z.of_nat digit) 2)) 0x0f)) ;;
      hex_digits_loop digit num
  end.

Definition dbgprinthex8 (num : Z) : B unit := hex_digits_loop 2 num.

Definition dbgprinthex16 (num : Z) : B unit :=
  dbgprinthex8 (u8 (Z.shiftr num 8)) ;; dbgprinthex8 (u8 (Z.land num 0x0ff)).

(** [for (byte = n - 1; byte >= 0; byte--)] *)
Fixpoint hex_bytes_loop (n : nat) (num : Z) : B unit :=
  match n with
  | O => mret tt
  | S byte =>
      dbgprinthex8 (u8 (Z.land (Z.shiftr num (Z.shiftl (Z.of_nat byte) 3)) 0x0ff)) ;;
      hex_bytes_loop byte num
  end.

Definition dbgprinthex32 (num : Z) : B unit := hex_bytes_loop 4 num.
Definition dbgprinthex64 (num : Z) : B unit := hex_bytes_loop 8 num.

Definition dbgprintx16 (s1 : option (list Z)) (num : Z) (s2 : option (list Z)) : B unit :=
  dbgprint s1 ;; dbgprinthex16 num ;; dbgprint s2.
Definition dbgprintx32 (s1 : option (list Z)) (num : Z) (s2 : option (list Z)) : B unit :=
  dbgprint s1 ;; dbgprinthex32 num ;; dbgprint s2.
Definition dbgprintx64 (s1 : option (list Z)) (num : Z) (s2 : option (list Z)) : B unit :=
  dbgprint s1 ;; dbgprinthex64 num ;; dbgprint s2.

End uart.

(** ** What reaches the line *)

(** The port: the characters sent, and the reads of the status until it is
    ready. *)
Class Uart `{Hardware} := {
  uart_log : dev -> list Z;
  uart_wait : dev -> nat;
  uart_latency : nat;
  uart_bound d : (uart_wait d <= uart_latency)%nat;
  uart_status d :
    let r := reg_read UART_LSR d in
    uart_log (snd r) = uart_log d /\
    match uart_wait d with
    | O => Z.land (fst r) UART_LSR_THRE = UART_LSR_THRE /\ uart_wait (snd r) = O
    | S w => Z.land (fst r) UART_LSR_THRE <> UART_LSR_THRE /\ uart_wait (snd r) = w
    end;
  uart_send c d : uart_wait d = O -> uart_log (reg_write UART_RBR_THR_DLL c d) = uart_log d ++ [u8 c]
}.

(** What a string looks like on the line. *)
Fixpoint on_line (str : list Z) : list Z :=
  match str with
  | [] => []
  | c :: str => if c =? 0 then [] else (if c =? newline then [carriage_return] else []) ++ u8 c :: on_line str
  end.

Definition line_of (s : option (list Z)) : list Z := match s with Some s => on_line s | None => [] end.

(** [n] hexadecimal digits. *)
Fixpoint hex (n : nat) (num : Z) : list Z :=
  match n with
  | O => []
  | S n => hex_char (num / 16 ^ Z.of_nat n mod 16) :: hex n num
  end.

(** The number that digits stand for. *)
Definition digit_value (c : Z) : Z := if c <? 97 then c - 48 else c - 97 + 10.
Definition read_hex (s : list Z) : Z := foldl (λ acc c, 16 * acc + digit_value c) 0 s.

Lemma digit_hex_char d : 0 <= d < 16 -> digit_value (hex_char d) = d.
Proof.
  intros Hd. unfold digit_value, hex_char. destruct (Z.ltb_spec d 10).
  - rewrite (proj2 (Z.ltb_lt _ _)); lia.
  - rewrite (proj2 (Z.ltb_ge _ _)); lia.
Qed.

Lemma read_hex_acc num n : forall acc,
  foldl (λ acc c, 16 * acc + digit_value c) acc (hex n num) = acc * 16 ^ Z.of_nat n + num mod 16 ^ Z.of_nat n.
Proof.
  induction n as [|n IH]; intros acc; cbn [hex foldl]; [rewrite Z.mod_1_r; cbn; lia|].
  rewrite IH, digit_hex_char by (apply Z.mod_pos_bound; lia).
  rewrite Nat2Z.inj_succ, Z.pow_succ_r by lia. set (p := 16 ^ Z.of_nat n). assert (0 < p) by (apply Z.pow_pos_nonneg; lia).
  rewrite (Z.mul_comm 16 p), (Z.rem_mul_r num p 16) by lia. lia.
Qed.

Lemma read_hex_hex n num : read_hex (hex n num) = num mod 16 ^ Z.of_nat n.
Proof. unfold read_hex. by rewrite read_hex_acc. Qed.

Lemma length_hex n num : length (hex n num) = n.
Proof. induction n as [|n IH]; [done|]. cbn. by rewrite IH. Qed.

(** The last [n] digits depend on the number modulo [16^n] only. *)
Lemma hex_app k n num : 0 <= num -> hex (k + n) num = hex k (num / 16 ^ Z.of_nat n) ++ hex n num.
Proof.
  intros Hn. induction k as [|k IH]; [done|]. cbn [Nat.add hex app]. rewrite IH. do 2 f_equal.
  rewrite Z.div_div by (try apply Z.pow_pos_nonneg; try apply Z.pow_nonzero; lia).
  by rewrite <- Z.pow_add_r, Nat2Z.inj_add, Z.add_comm by lia.
Qed.

Lemma hex_mod n num : forall k, (n <= k)%nat -> hex n (num mod 16 ^ Z.of_nat k) = hex n num.
Proof.
  induction n as [|n IH]; intros k Hk; [done|]. cbn [hex]. rewrite IH by lia. do 2 f_equal.
  set (p := 16 ^ Z.of_nat n). assert (0 < p) by (apply Z.pow_pos_nonneg; lia).
  replace (16 ^ Z.of_nat k) with (p * 16 ^ (Z.of_nat k - Z.of_nat n)) by (unfold p; rewrite <- Z.pow_add_r by lia; f_equal; lia).
  set (q := 16 ^ (Z.of_nat k - Z.of_nat n)). assert (0 < q) by (apply Z.pow_pos_nonneg; lia).
  rewrite Z.rem_mul_r, (Z.mul_comm p), Z.div_add, (Z.div_small (num mod p)), Z.add_0_l by (try apply Z.mod_pos_bound; lia).
  assert ((16 | q)) as Hq.
  { unfold q. replace (Z.of_nat k - Z.of_nat n) with (Z.succ (Z.of_nat k - Z.of_nat n - 1)) by lia.
    rewrite Z.pow_succ_r by lia. apply Z.divide_factor_l. }
  symmetry. apply Znumtheory.Zmod_div_mod; [lia|lia|done].
Qed.

Section output.
Context `{Platform, Hardware, !Uart}.
Context (Hfuel : (uart_latency < poll_fuel)%nat).

(** [c] returns, having sent [l] and changed nothing but the devices. *)
Definition prints (c : B unit) (l : list Z) : Prop :=
  forall m, exists d, c m = (Done tt, set_dev d m) /\ uart_log d = uart_log (m_dev m) ++ l.

Lemma prints_ret : prints (mret tt) [].
Proof. intros m. exists (m_dev m). rewrite app_nil_r. by destruct m. Qed.

Lemma prints_bind c l k l' : prints c l -> prints k l' -> prints (c ;; k) (l ++ l').
Proof.
  intros Hc Hk m. destruct (Hc m) as (d & E & L). destruct (Hk (set_dev d m)) as (d' & E' & L').
  exists d'. rewrite (bind_step _ _ _ _ _ E), E'. split; [done|]. rewrite L'. cbn. by rewrite L, app_assoc.
Qed.

Lemma wait_run n : forall m, (uart_wait (m_dev m) < n)%nat ->
  exists d, poll n (v ← getreg32 UART_LSR; mret (if Z.land v UART_LSR_THRE =? UART_LSR_THRE then Some tt else None)) m
              = (Done tt, set_dev d m) /\ uart_log d = uart_log (m_dev m) /\ uart_wait d = O.
Proof.
  induction n as [|n IH]; intros m Hw; [lia|]. cbn [poll].
  assert (getreg32 UART_LSR m = (Done (fst (reg_read UART_LSR (m_dev m))), set_dev (snd (reg_read UART_LSR (m_dev m))) m)) as E
    by (unfold getreg32; by destruct (reg_read _ _)).
  rewrite bind_assoc, (bind_step _ _ _ _ _ E), bind_ret.
  destruct (uart_status (m_dev m)) as [L Hs]. destruct (uart_wait (m_dev m)) as [|w].
  - destruct Hs as [Hr Hz]. rewrite (proj2 (Z.eqb_eq _ _) Hr). eexists. split; [reflexivity|]. done.
  - destruct Hs as [Hr Hz]. rewrite (proj2 (Z.eqb_neq _ _) Hr).
    destruct (IH (set_dev (snd (reg_read UART_LSR (m_dev m))) m)) as (d & E' & L' & Hd); [cbn; lia|].
    exists d. split; [by rewrite E'|]. split; [|done]. rewrite L'. exact L.
Qed.

(** One character to the port, as soon as it is ready. *)
Lemma prints_raw c : prints (wait_status UART_LSR_THRE ;; putreg32 c UART_RBR_THR_DLL) [u8 c].
Proof.
  intros m. pose proof (uart_bound (m_dev m)). destruct (wait_run poll_fuel m) as (d & E & L & Hd); [lia|].
  exists (reg_write UART_RBR_THR_DLL c d). unfold wait_status. rewrite (bind_step _ _ _ _ _ E).
  split; [done|]. by rewrite uart_send, L.
Qed.

Lemma prints_eq c c' l : (forall m : machine, c m = c' m) -> prints c' l -> prints c l.
Proof. intros Heq Hc m. rewrite Heq. apply Hc. Qed.

Lemma prints_putc c : prints (dbgputc c) ((if c =? newline then [carriage_return] else []) ++ [u8 c]).
Proof.
  unfold dbgputc, chip_dbgputc. destruct (c =? newline); cbn [when].
  - eapply prints_eq; [|exact (prints_bind _ _ _ _ (prints_raw carriage_return) (prints_raw c))].
    intros m. by rewrite !bind_assoc.
  - eapply prints_eq; [|exact (prints_raw c)]. intros m. unfold mbind, boot_bind.
    by destruct (wait_status _ m) as [[] ?].
Qed.

Lemma prints_chars str : prints (print_chars str) (on_line str).
Proof.
  induction str as [|c str IH]; cbn [print_chars on_line]; [apply prints_ret|].
  destruct (c =? 0); [apply prints_ret|].
  replace (_ ++ u8 c :: on_line str) with (((if c =? newline then [carriage_return] else []) ++ [u8 c]) ++ on_line str)
    by (by rewrite <- app_assoc).
  apply prints_bind; [apply prints_putc|done].
Qed.

Lemma prints_string s : prints (dbgprint s) (line_of s).
Proof. destruct s; [apply prints_chars|apply prints_ret]. Qed.

Lemma hex_char_range d : 0 <= d < 16 -> 48 <= hex_char d < 103.
Proof. intros Hd. unfold hex_char. destruct (Z.ltb_spec d 10); lia. Qed.

Lemma prints_digit d : 0 <= d < 16 -> prints (dbgputc (hex_char d)) [hex_char d].
Proof.
  intros Hd. pose proof (hex_char_range d Hd). pose proof (prints_putc (hex_char d)) as Hp.
  unfold newline in Hp. rewrite (proj2 (Z.eqb_neq _ _)), u8_small in Hp by (unfold is_u8; lia). exact Hp.
Qed.

Lemma prints_digits n num : 0 <= num -> prints (hex_digits_loop n num) (hex n num).
Proof.
  intros Hn. induction n as [|n IH]; cbn [hex_digits_loop hex]; [apply prints_ret|].
  assert (Z.land (Z.shiftr num (Z.shiftl (Z.of_nat n) 2)) 0x0f = num / 16 ^ Z.of_nat n mod 16) as ->.
  { change 0x0f with (Z.ones 4). rewrite Z.land_ones, Z.shiftl_mul_pow2, Z.shiftr_div_pow2 by lia.
    change (2 ^ 4) with 16. do 2 f_equal. change 16 with (2 ^ 4). rewrite <- Z.pow_mul_r by lia. f_equal. lia. }
  apply (prints_bind _ [_]); [|done]. apply prints_digit, Z.mod_pos_bound. lia.
Qed.

Lemma prints_bytes n num : 0 <= num -> prints (hex_bytes_loop n num) (hex (2 * n) num).
Proof.
  intros Hn. induction n as [|n IH]; [apply prints_ret|]. cbn [hex_bytes_loop].
  replace (2 * S n)%nat with (2 + 2 * n)%nat by lia. rewrite hex_app by done.
  apply prints_bind; [|done].
  assert (u8 (Z.land (Z.shiftr num (Z.shiftl (Z.of_nat n) 3)) 0x0ff) = (num / 16 ^ Z.of_nat (2 * n)) mod 16 ^ Z.of_nat 2) as ->.
  { rewrite (Z.land_ones _ 8), u8_small by (try lia; unfold is_u8; apply Z.mod_pos_bound; lia).
    rewrite Z.shiftl_mul_pow2, Z.shiftr_div_pow2 by lia. do 2 f_equal.
    change 16 with (2 ^ 4). rewrite <- Z.pow_mul_r by lia. f_equal. lia. }
  rewrite <- (hex_mod 2 (num / 16 ^ Z.of_nat (2 * n)) 2) by lia.
  apply prints_digits, Z.mod_pos_bound. by vm_compute.
Qed.

(** [C39] With a port that becomes ready, [dbgprintx32] and [dbgprintx64] return
    and send the prefix, eight or sixteen digits, and the suffix, with carriage
    returns before the line feeds of the strings; the number read back from the
    digits is the one printed. *)
Theorem printed_number_reads_back s1 num s2 m :
  (is_u32 num -> exists d, dbgprintx32 s1 num s2 m = (Done tt, set_dev d m) /\
     uart_log d = uart_log (m_dev m) ++ line_of s1 ++ hex 8 num ++ line_of s2 /\ read_hex (hex 8 num) = num) /\
  (0 <= num < 2 ^ 64 -> exists d, dbgprintx64 s1 num s2 m = (Done tt, set_dev d m) /\
     uart_log d = uart_log (m_dev m) ++ line_of s1 ++ hex 16 num ++ line_of s2 /\ read_hex (hex 16 num) = num).
Proof.
  assert (forall k, 0 <= num < 16 ^ Z.of_nat (2 * k) ->
    exists d, (dbgprint s1 ;; hex_bytes_loop k num ;; dbgprint s2) m = (Done tt, set_dev d m) /\
      uart_log d = uart_log (m_dev m) ++ line_of s1 ++ hex (2 * k) num ++ line_of s2 /\
      read_hex (hex (2 * k) num) = num) as Hall.
  { intros k Hk. destruct (prints_bind _ _ _ _ (prints_string s1)
      (prints_bind _ _ _ _ (prints_bytes k num ltac:(lia)) (prints_string s2)) m) as (d & E & L).
    exists d. split; [done|]. split; [done|]. rewrite read_hex_hex. by apply Z.mod_small. }
  split; intros Hn; [apply (Hall 4%nat)|apply (Hall 8%nat)]; exact Hn.
Qed.
End output.

(** ** A port *)

(** A port that is ready every second time it is asked. *)
Record port := Port { po_log : list Z; po_busy : bool }.

Definition port_hw : Hardware :=
  {| dev := port;
     reg_read := λ a d, if a =? UART_LSR
                        then if po_busy d then (0, Port (po_log d) false) else (UART_LSR_THRE, d)
                        else (0, d);
     reg_write := λ a v d, if a =? UART_RBR_THR_DLL then Port (po_log d ++ [u8 v]) true else d;
     reg_write8 := λ _ _ d, d; buf_read8 := λ _ _, 0 |}.

Definition port_uart : @Uart port_hw.
Proof.
  refine {| uart_log := po_log : @dev port_hw -> list Z;
            uart_wait := λ d : @dev port_hw, if po_busy d then 1%nat else 0%nat; uart_latency := 1 |}.
  - intros d. destruct (po_busy d); lia.
  - intros [l []]; cbn; by repeat split.
  - intros c [l []]; [done|]. by cbn.
Defined.

(** A prefix, a number with a line feed behind it. *)
Lemma printed_number_reads_back_witness :
  let P := sim_platform Stage1 [] [] in
  let m := @sim_machine_at port_hw (Port [] false) in
  (exists d, @dbgprintx32 P port_hw (Some [48; 120]) 0x1234abcd (Some [newline]) m = (Done tt, @set_dev port_hw d m) /\
     po_log d = [48; 120; 49; 50; 51; 52; 97; 98; 99; 100; 13; 10] /\ read_hex (hex 8 0x1234abcd) = 0x1234abcd) /\
  (exists d, @dbgprintx64 P port_hw (Some [48; 120]) 0x1234abcd (Some [newline]) m = (Done tt, @set_dev port_hw d m) /\
     po_log d = [48; 120; 48; 48; 48; 48; 48; 48; 48; 48; 49; 50; 51; 52; 97; 98; 99; 100; 13; 10] /\
     read_hex (hex 16 0x1234abcd) = 0x1234abcd).
Proof.
  intros P m.
  destruct (@printed_number_reads_back P port_hw port_uart ltac:(by apply Nat.ltb_lt)
              (Some [48; 120]) 0x1234abcd (Some [newline]) m) as [H32 H64].
  split; [apply H32|apply H64]; split; by vm_compute.
Defined.
