(* ===== verification/Standby.v ===== *)
(** * Standby: hibernation and standby from RAM, and the test controller
    (chips/es3tsb/src/es3_workram_standby.c, the handshake of
    chips/tsb/src/tsb_chipapi.c)

    The sequences that later firmware runs around standby.  Entering standby
    itself is the shared function of the boot ROM, in assembly: a parameter.
    Delays only pass time. *)

From S2P Require Import Prelude Machine Chip Sim Crypto Unipro Bootrom Debug.

Definition TSB_HIBERNATE_ENTER_REQ : Z := 0xd030.
Definition TSB_HIBERNATE_ENTER_IND : Z := 0xd031.
Definition TSB_HIBERNATE_EXIT_REQ : Z := 0xd032.
Definition EXIT_REQ_DENIED : Z := Z.shiftl 1 1.
Definition TSB_HIBERNATE_EXIT_IND : Z := 0xd033.
Definition TSB_CLK_UNIPROSYS : Z := Z.lor (Z.shiftl 1 24) 2.
Definition PMU_BASE : Z := 0x40090000.
Definition ISO_FOR_IO_EN : Z := PMU_BASE + 0x04.
Definition HB8CLK_EN : Z := PMU_BASE + 0x1C.
Definition WAKEUPSRC : Z := PMU_BASE + 0x24.
Definition BOOTRET_O : Z := PMU_BASE + 0x2C.
Definition RETFFSAVE : Z := PMU_BASE + 0x40.
Definition RETFFSTR : Z := PMU_BASE + 0x44.
Definition UNIPRO_CLK_EN : Z := SYSCTL_BASE + 0x0E10.
Definition SOFTRESETRELEASE1 : Z := SYSCTL_BASE + 0x0104.
Definition SRSTRELEASE_UNIPRO_SYSRESET_N : Z := Z.shiftl 1 2.
Definition TEST_WAKEUPSRC : Z := 0x1111.
Definition GPIO_REQ : Z := 16.
Definition GPIO_RESP : Z := 17.
Definition GPIO_TEST_STATUS : Z := 18.
Definition GPIO_TEST_STATUS_OK : Z := 0.
Definition GPIO_TEST_STATUS_FAIL : Z := 1.

(** [chip_enter_standby] of the boot ROM, and whether the build is
    [SPECIAL_GBBOOT_SERVER_STANDBY]. *)
Class StandbyBuild `{Hardware} := { rom_enter_standby : B Z; server_standby : bool }.

Section standby.
Context `{Platform, Hardware}.

(** [do rc = read(attr, &val) while (!rc && val == 0)] *)
Definition wait_nonzero (attr : Z) : B Z :=
  poll poll_fuel
    (r ← chip_unipro_attr_read attr 0 ATTR_LOCAL;
     let '(rc, tempval) := r : Z * Z in
     mret (if (rc =? 0) && (tempval =? 0) then None else Some rc)).

(** The loop that puts both directions of every CPort into reset. *)
Fixpoint reset_directions (ids : list Z) : B unit :=
  match ids with
  | [] => mret tt
  | cportid :: ids =>
      putreg32 CPORT_SW_RESET_BITS (AIO_UNIPRO_BASE +₃₂ (TX_SW_RESET_00 + Z.shiftl cportid 2)) ;;
      putreg32 CPORT_SW_RESET_BITS (AIO_UNIPRO_BASE +₃₂ (RX_SW_RESET_00 + Z.shiftl cportid 2)) ;;
      reset_directions ids
  end.

Definition chip_enter_hibern8_client : B Z :=
  rc ← wait_nonzero TSB_HIBERNATE_ENTER_IND;
  if negb (rc =? 0) then mret rc else reset_directions (seqZ 0 CPORT_MAX) ;; mret 0.

(** The request is repeated while it is denied; [Some rc] ends the loop. *)
Definition request_exit : B Z :=
  poll poll_fuel
    (rc ← chip_unipro_attr_write TSB_HIBERNATE_EXIT_REQ 1 0 ATTR_LOCAL;
     if negb (rc =? 0) then mret (Some rc)
     else
       r ← chip_unipro_attr_read TSB_HIBERNATE_EXIT_REQ 0 ATTR_LOCAL;
       let '(rc, tempval) := r : Z * Z in
       if negb (rc =? 0) then mret (Some rc)
       else mret (if negb (tempval =? EXIT_REQ_DENIED) then Some 0 else None)).

Definition chip_exit_hibern8_client : B Z :=
  tsb_clk_enable TSB_CLK_UNIPROSYS ;;
  rc ← request_exit;
  if negb (rc =? 0) then mret rc else wait_nonzero TSB_HIBERNATE_EXIT_IND.

Definition enter_hibern8 : B Z :=
  reset_directions (seqZ 0 CPORT_MAX) ;;
  rc ← chip_unipro_attr_write TSB_HIBERNATE_ENTER_REQ 1 0 ATTR_LOCAL;
  if negb (rc =? 0) then mret rc else wait_nonzero TSB_HIBERNATE_ENTER_IND.

Definition chip_enter_hibern8_server : B Z :=
  enter_hibern8 ;;
  wait_nonzero TSB_HIBERNATE_EXIT_IND.

(** ** Standby *)

Definition standby_sequence `{!StandbyBuild} : B Z :=
  putreg32 TEST_WAKEUPSRC WAKEUPSRC ;;
  (if server_standby then chip_enter_hibern8_client else enter_hibern8) ;;
  poll poll_fuel (v ← getreg32 UNIPRO_CLK_EN; mret (if v =? 0 then Some tt else None)) ;;
  tsb_clk_disable TSB_CLK_UNIPROSYS ;;
  putreg32 0 HB8CLK_EN ;;
  putreg32 1 RETFFSAVE ;;
  putreg32 0 RETFFSAVE ;;
  enter_standby_func ← get_shared_function SHARED_FUNCTION_ENTER_STANDBY;
  match enter_standby_func with
  | Some FN_chip_enter_standby => rom_enter_standby
  | _ => fault
  end.

Definition resume_sequence_in_workram `{UartClock} : B unit :=
  putreg32 SRSTRELEASE_UNIPRO_SYSRESET_N SOFTRESETRELEASE1 ;;
  putreg32 1 RETFFSTR ;;
  putreg32 0 RETFFSTR ;;
  putreg32 1 HB8CLK_EN ;;
  chip_init ;;
  dbginit ;;
  chip_exit_hibern8_client ;;
  putreg32 0 ISO_FOR_IO_EN ;;
  putreg32 1 BOOTRET_O.

(** ** The test controller (tsb_chipapi.c) *)

Definition wait_resp (high : bool) : B unit :=
  poll poll_fuel (v ← chip_gpio_get_value GPIO_RESP; mret (if Bool.eqb (negb (v =? 0)) high then Some tt else None)).

Definition chip_handshake_with_test_controller : B unit :=
  chip_dbgflush ;;
  wait_resp false ;;
  chip_gpio_set_value GPIO_REQ 1 ;;
  wait_resp true ;;
  chip_gpio_set_value GPIO_REQ 0 ;;
  wait_resp false.

Definition chip_handshake_boot_status (status : Z) : B unit :=
  chip_gpio_set_value GPIO_TEST_STATUS (if status =? 0 then GPIO_TEST_STATUS_OK else GPIO_TEST_STATUS_FAIL) ;;
  chip_handshake_with_test_controller.

(** ** What a finished sequence has seen *)

Lemma poll_last {A} (body : B (option A)) n : forall m m' a,
  poll n body m = (Done a, m') -> exists m1, body m1 = (Done (Some a), m').
Proof.
  induction n as [|n IH]; intros m m' a E; cbn [poll] in E; [done|].
  apply bind_done in E. destruct E as ([b|] & m1 & E1 & E); [|by eapply IH].
  injection E as <- <-. by exists m.
Qed.

Lemma wait_nonzero_seen attr m m' :
  wait_nonzero attr m = (Done 0, m') ->
  exists m1 v, chip_unipro_attr_read attr 0 ATTR_LOCAL m1 = (Done (0, v), m') /\ v <> 0.
Proof.
  intros E. apply poll_last in E as (m1 & E). apply bind_done in E. destruct E as ([rc v] & m2 & E1 & E).
  destruct (Z.eqb_spec rc 0) as [->|]; cbn [andb] in E; [|by injection E as -> _].
  destruct (Z.eqb_spec v 0); [done|]. injection E as <-. by exists m1, v.
Qed.

(** When the client reports that it has left hibernation, its last request was
    not denied, and after it the indication was read as set. *)
Lemma exit_hibern8_seen m m' :
  chip_exit_hibern8_client m = (Done 0, m') ->
  exists m1 m2 m3 req ind,
    chip_unipro_attr_read TSB_HIBERNATE_EXIT_REQ 0 ATTR_LOCAL m1 = (Done (0, req), m2) /\ req <> EXIT_REQ_DENIED /\
    chip_unipro_attr_read TSB_HIBERNATE_EXIT_IND 0 ATTR_LOCAL m3 = (Done (0, ind), m') /\ ind <> 0.
Proof.
  intros E. apply bind_done in E. destruct E as ([] & m0 & _ & E).
  apply bind_done in E. destruct E as (rc & m2 & E2 & E).
  destruct (Z.eqb_spec rc 0) as [->|]; [|by injection E]. cbn [negb] in E.
  apply wait_nonzero_seen in E as (m3 & ind & E3 & Hind).
  apply poll_last in E2 as (m1 & E2). apply bind_done in E2. destruct E2 as (rc & m4 & _ & E2).
  destruct (Z.eqb_spec rc 0) as [->|]; [|by injection E2]. cbn [negb] in E2.
  apply bind_done in E2. destruct E2 as ([rc req] & m5 & E5 & E2).
  destruct (Z.eqb_spec rc 0) as [->|]; [|by injection E2]. cbn [negb] in E2.
  destruct (Z.eqb_spec req EXIT_REQ_DENIED); [done|]. injection E2 as <-.
  by exists m4, m5, m3, req, ind.
Qed.
End standby.
