(* ===== verification/Server.v ===== *)
(** * Server: the download server (apps/gbboot_server/src/start.c)

    The application on the other side of a Greybus download: it connects the
    control and the boot CPort and answers the requests of the boot ROM from its
    own SPI flash.  Names that the client side uses as well have the prefix
    [server_].  The dumps of messages on the debug port are not modelled. *)

From S2P Require Import Prelude Utils Machine Chip Sim Errors Unipro FakeSvc Spi Greybus Ffff Bootrom.

Definition LOCAL_DEV_ID : Z := 0xA.
Definition PEER_DEV_ID : Z := 0xB.
Definition GB_OP_UNKNOWN_ERROR : Z := 0xFE.

(** Where the compiler puts the variable-length array of a request, and what an
    automatic variable holds before it is set. *)
Class ServerBuild := { srv_data : Z; srv_indeterminate : Z }.

Section server.
Context `{Platform, Hardware, ServerBuild}.

Definition set_download_finished (b : bool) : B unit :=
  modify (λ m, set_server {| srv_image_download_finished := b;
                             srv_stage_to_load := srv_stage_to_load (m_server m) |} m).
Definition set_stage_to_load (n : Z) : B unit :=
  modify (λ m, set_server {| srv_image_download_finished := srv_image_download_finished (m_server m);
                             srv_stage_to_load := n |} m).

(** ** Connections *)

Definition server_control_cport_handler (cportid data len : Z) : B Z := mret 0.

Definition poke_mailbox (val : Z) (peer : bool) : B Z := chip_unipro_attr_write ARA_MAILBOX val 0 peer.

Definition wait_for_mailbox_ack (wval : Z) (peer : bool) : B Z :=
  rc ← poll poll_fuel
    (r ← chip_unipro_attr_read ARA_MBOX_ACK_ATTR 0 peer;
     let '(rc, val) := r : Z * Z in
     mret (if (rc =? 0) && negb (val =? wval) then None else Some rc));
  if negb (rc =? 0) then mret rc
  else chip_unipro_attr_write ARA_MBOX_ACK_ATTR 0 0 peer ;; mret 0.

Definition create_connection (c : unipro_connection) : B Z :=
  switch_cport_connect c ;;
  poke_mailbox (cport_id0 c + 1) ATTR_LOCAL ;;
  chip_unipro_init_cport (cport_id0 c) ;;
  chip_unipro_recv_cport 0 ;;
  wait_for_mailbox_ack (cport_id0 c + 1) ATTR_LOCAL ;;
  write_mailbox (cport_id1 c + 1) ;;
  mret 0.

Definition unipro_receive_blocking (cportid : Z) (handler : unipro_rx_handler) : B Z :=
  chip_unipro_receive cportid (Some handler) true.

(** A request on a CPort, and the wait for its answer; results are ignored. *)
Definition ask (cportid type : Z) (payload : list Z) (handler : unipro_rx_handler) : B unit :=
  greybus_send_request cportid 1 type payload ;;
  unipro_receive_blocking cportid handler ;;
  mret tt.

Definition gb_control : B Z :=
  ask CONTROL_CPORT GB_CTRL_OP_VERSION [0; 1] server_control_cport_handler ;;
  ask CONTROL_CPORT GB_CTRL_OP_PROBE_AP [0; 1] server_control_cport_handler ;;
  ask CONTROL_CPORT GB_CTRL_OP_GET_MANIFEST_SIZE [] server_control_cport_handler ;;
  ask CONTROL_CPORT GB_CTRL_OP_GET_MANIFEST [] server_control_cport_handler ;;
  create_connection (conn GBBOOT_CPORT) ;;
  ask CONTROL_CPORT GB_CTRL_OP_CONNECTED (le_split 2 (cport_id1 (conn GBBOOT_CPORT))) server_control_cport_handler ;;
  mret 0.

(** ** Requests of the boot ROM *)

Definition server_firmware_size (cportid op : Z) : B Z :=
  data_load_spi_init ;;
  payload ← rx_bytes (op + GB_OPERATION_HEADER_SIZE) 1;
  set_stage_to_load (le_combine payload - 1) ;;
  stage_to_load ← gets (λ m, srv_stage_to_load (m_server m));
  r ← locate_ffff_element_on_storage spi_ops (u32 stage_to_load);
  let '(rc, length) := r : Z * Z in
  let size := if rc =? 0 then length else srv_indeterminate in
  greybus_op_response cportid op (if rc =? 0 then GB_OP_SUCCESS else GB_OP_UNKNOWN_ERROR) (le_split 4 size).

Definition server_get_firmware (cportid op : Z) : B Z :=
  req_size ← rx_bytes (op + GB_OPERATION_HEADER_SIZE + 4) 4;
  let size := le_combine req_size in
  rc ← data_load_spi_load (Ptr BRam srv_data) size false;
  data ← read_ptr (Ptr BRam srv_data) size;
  greybus_op_response cportid op (if rc =? 0 then GB_OP_SUCCESS else GB_OP_UNKNOWN_ERROR) data.

Definition server_ready_to_boot (cportid op : Z) : B Z :=
  set_download_finished true ;;
  payload ← rx_bytes (op + GB_OPERATION_HEADER_SIZE) 1;
  greybus_op_response cportid op
    (if negb (le_combine payload =? 0) then GB_OP_SUCCESS else GB_OP_UNKNOWN_ERROR) [].

Definition gbboot_cport_handler (cportid data len : Z) : B Z :=
  if len <? GB_OPERATION_HEADER_SIZE then mret (-1)
  else
    type ← op_type data;
    if type =? GB_BOOT_OP_FIRMWARE_SIZE then server_firmware_size cportid data
    else if type =? GB_BOOT_OP_GET_FIRMWARE then server_get_firmware cportid data
    else if type =? GB_BOOT_OP_READY_TO_BOOT then server_ready_to_boot cportid data
    else mret 0.

Definition gbboot_process : B Z :=
  ask GBBOOT_CPORT GB_BOOT_OP_PROTOCOL_VERSION [0; 1] gbboot_cport_handler ;;
  ask GBBOOT_CPORT GB_BOOT_OP_AP_READY [] gbboot_cport_handler ;;
  set_download_finished false ;;
  poll poll_fuel
    (finished ← gets (λ m, srv_image_download_finished (m_server m));
     if finished : bool then mret (Some tt)
     else unipro_receive_blocking GBBOOT_CPORT gbboot_cport_handler ;; mret None) ;;
  mret 0.

(** ** The server *)

Definition server_loop : B unit :=
  chip_unipro_init ;;
  switch_set_local_dev_id SWITCH_PORT_ID LOCAL_DEV_ID ;;
  chip_reset_before_ready ;;
  rc ← svc_wait_for_peer_ready;
  if negb (rc =? 0) then mret tt
  else
    switch_if_dev_id_set 1 PEER_DEV_ID ;;
    create_connection (conn CONTROL_CPORT) ;;
    gb_control ;;
    gbboot_process ;;
    mret tt.

(** [bootrom_main] of the server: the endless loop, cut off after [poll_fuel]
    passes. *)
Definition server_main : B unit :=
  chip_init ;;
  init_last_error ;;
  chip_wait_for_link_up ;;
  chip_unipro_attr_write DME_ARA_BOOT_CONTROL FORCE_UNIPRO_BOOT 0 ATTR_PEER ;;
  poll poll_fuel (server_loop ;; mret None).

End server.
