(* ===== verification/ServerFlash.v ===== *)
(** * ServerFlash: what the download server answers

    With a flash chip behind the SPI controller ([FlashController]) and the log of
    what is sent ([Wire]): the size request is answered with the size of the newest
    element, and the answers to the following requests are, put together, the
    bytes of that element. *)

From S2P Require Import Prelude Utils Machine Chip Sim Errors Loading Unipro TftfValid Spi Greybus GreybusLoad Ffff FfffValid FfffLocate SpiFlash FakeSvc Bootrom Wire Server.

Section server.
Context `{Platform, Hardware, ServerBuild, !Wire} (flash : Z -> Z) `{!FlashController flash}.
Context (cportid op : Z).

(** The answer that carries [payload]. *)
Definition answer (status : Z) (payload : list Z) (m : machine) : list (Z * Z) :=
  message_stores cportid
    (gb_packet (le_combine (received (op + 2) 2 m)) (Z.lor (le_combine (received (op + 4) 1 m)) GB_TYPE_RESPONSE)
       status payload).

(** The request for [n] bytes. *)
Definition requested (m : machine) : Z := le_combine (received (op + GB_OPERATION_HEADER_SIZE + 4) 4 m).

(** A run of a handler that has sent one answer. *)
Record answered (status : Z) (payload : list Z) (m m' : machine) : Prop := {
  an_log : tx_log (m_dev m') = tx_log (m_dev m) ++ answer status payload m;
  an_rx : same_rx m m'
}.

Context (Hcport : 0 <= cportid < CPORT_MAX) (Hports : CPORT_MAX <= 4).

Lemma received_same a n m m' : same_rx m m' -> received a n m' = received a n m.
Proof. intros Hr. unfold received. apply list_fmap_ext. intros i x _. by rewrite Hr. Qed.

Lemma answer_same s p m m' : same_rx m m' -> answer s p m' = answer s p m.
Proof. intros Hr. unfold answer. by rewrite !(received_same _ _ m m' Hr). Qed.

Lemma op_response_run status payload m :
  GB_OPERATION_HEADER_SIZE + Z.of_nat (length payload) <= CPORT_BUF_SIZE ->
  exists d, greybus_op_response cportid op status payload m = (Done 0, set_dev d m) /\
    answered status payload m (set_dev d m).
Proof.
  intros Hl.
  set (msg := gb_packet (le_combine (received (op + 2) 2 m))
    (Z.lor (le_combine (received (op + 4) 1 m)) GB_TYPE_RESPONSE) status payload).
  exists (carry_out (message_stores cportid msg) (m_dev m)). split; [|split].
  - by apply send_message_run.
  - apply carry_out_log.
  - intros x. apply carry_out_rx.
Qed.

(** A run has sent one answer at most. *)
Lemma answered_unique s p s' p' m m' :
  is_u8 s -> is_u8 s' -> answered s p m m' -> answered s' p' m m' -> s = s' /\ p = p'.
Proof.
  intros Hs Hs' [L _] [L' _]. rewrite L in L'. apply app_inv_head, message_stores_inj in L'.
  by apply gb_packet_inj in L'.
Qed.

(** Quiet code before the answer. *)
Lemma answered_quiet s p m m1 m' : quiet m m1 -> answered s p m1 m' -> answered s p m m'.
Proof.
  intros [L1 R1] [L R]. split; [by rewrite L, L1, (answer_same _ _ m m1 R1)|]. intros x. by rewrite R, R1.
Qed.

Lemma status_u8 : is_u8 GB_OP_SUCCESS.
Proof. by split. Qed.
Lemma status_of_u8 rc : is_u8 (if rc =? 0 then GB_OP_SUCCESS else GB_OP_UNKNOWN_ERROR).
Proof. by destruct (rc =? 0). Qed.

Lemma requested_u32 m : is_u32 (requested m).
Proof.
  pose proof (le_combine_bound _ (received_u8 (op + GB_OPERATION_HEADER_SIZE + 4) 4 m)) as Hb.
  assert (length (received (op + GB_OPERATION_HEADER_SIZE + 4) 4 m) = 4%nat) as El
    by (unfold received; by rewrite length_map, length_seqZ).
  rewrite El in Hb. exact Hb.
Qed.

(** ** A block of firmware *)

(** The server at address [a] of its flash. *)
Record serving (a : Z) (m : machine) : Prop := {
  sv_mem : mem_ok m;
  sv_addr : current_addr (m_spi m) mod 2 ^ 24 = a mod 2 ^ 24
}.

Lemma flash_bytes_at a a' n : a mod 2 ^ 24 = a' mod 2 ^ 24 -> flash_bytes flash a n = flash_bytes flash a' n.
Proof. intros E. by rewrite <- (flash_bytes_wraps flash a), E, flash_bytes_wraps. Qed.

Definition data_ptr : ptr := Ptr BRam srv_data.

(** Where the linker and the stack put it. *)
Definition buffer_in_ram : Prop :=
  0 <= srv_data /\ ram_lo <= srv_data /\ srv_data + CPORT_BUF_SIZE <= ram_hi /\ ram_hi <= 2 ^ 32.

(** What a block request does, when its load returns. *)
Lemma serving_after a n m m1 d :
  serving a m -> is_u32 n -> data_load_spi_load data_ptr n false m = (Done 0, m1) ->
  serving (a + n) (set_dev d m1).
Proof.
  intros [Hm Ha] Hn E. destruct (spi_load_flash flash data_ptr n false m m1 Hm Hn E) as [Hld Haddr]. split.
  - eapply mem_ok_image; [|by eapply mem_ok_loaded]. by split.
  - cbn. rewrite Haddr. rewrite <- Zplus_mod_idemp_l, Ha. apply Zplus_mod_idemp_l.
Qed.

Lemma loaded_data a n m m1 :
  serving a m -> is_u32 n -> data_load_spi_load data_ptr n false m = (Done 0, m1) ->
  mem_read data_ptr n m1 = flash_bytes flash a n.
Proof.
  intros [Hm Ha] Hn E. destruct (spi_load_flash flash data_ptr n false m m1 Hm Hn E) as [[Hl _ _ _ Hs] _].
  rewrite Hs. cbn [hashed]. rewrite <- Hl at 1. rewrite mem_read_write_roomy by (by left).
  by apply flash_bytes_at.
Qed.

(** Serving a block request, whatever offset it asks for: with a flash chip
    behind the controller and fuel for its status reads, a request of at least
    four bytes that fits a message is answered, with success, with that many
    bytes of the flash from the server's own position, the received message is
    left alone, and the position moves behind the block. *)
Lemma server_answers_block a m :
  serving a m -> 4 <= requested m <= CPORT_BUF_SIZE - GB_OPERATION_HEADER_SIZE ->
  buffer_in_ram ->
  (latency + Z.to_nat (requested m / 4) * (latency + 1) < poll_fuel)%nat ->
  exists m', server_get_firmware cportid op m = (Done 0, m') /\
    answered GB_OP_SUCCESS (flash_bytes flash a (requested m)) m m' /\
    serving (a + requested m) m'.
Proof.
  intros Hs Hn Hd Hf. set (n := requested m) in *. unfold buffer_in_ram, CPORT_BUF_SIZE, GB_OPERATION_HEADER_SIZE in *.
  assert (in_bounds data_ptr n m = true) as Hin by (apply in_bounds_le; cbn; lia).
  pose proof Hs as [Hm Ha].
  destruct (spi_load_reads_flash flash data_ptr n false m) as (m1 & E & _); [done|done|lia|done|done|].
  assert (is_u32 n) as Hu by (unfold is_u32; lia).
  pose proof (loaded_data a n m m1 Hs Hu E) as Hdata.
  set (payload := flash_bytes flash a n) in *.
  destruct (op_response_run GB_OP_SUCCESS payload m1) as (d & Er & Han).
  { unfold payload, CPORT_BUF_SIZE, GB_OPERATION_HEADER_SIZE. rewrite length_flash_bytes; lia. }
  exists (set_dev d m1). split; [|split; [|by eapply serving_after]].
  - unfold server_get_firmware. rewrite (bind_step _ _ _ _ _ (rx_bytes_run _ _ _)). fold (requested m) n.
    cbv zeta. rewrite (bind_step _ _ _ _ _ E). unfold mbind at 1, boot_bind at 1, read_ptr.
    assert (in_bounds (Ptr BRam srv_data) n m1 = true) as -> by (apply in_bounds_le; cbn; lia).
    fold data_ptr. rewrite Hdata. exact Er.
  - eapply answered_quiet; [|exact Han]. exact (pres_run _ _ _ _ _ (quiet_spi_load data_ptr n false) E).
Qed.

(** The answer of a run that returned: success only with the bytes of the flash. *)
Lemma block_answer a rc m m' payload :
  serving a m -> requested m <= GB_MAX_PAYLOAD_SIZE -> server_get_firmware cportid op m = (Done rc, m') ->
  answered GB_OP_SUCCESS payload m m' ->
  payload = flash_bytes flash a (requested m) /\ serving (a + requested m) m'.
Proof.
  intros Hs Hn E Han. unfold server_get_firmware in E.
  rewrite (bind_step _ _ _ _ _ (rx_bytes_run _ _ _)) in E. fold (requested m) in E. cbv zeta in E.
  pose proof (requested_u32 m) as Hu. set (n := requested m) in *. unfold GB_MAX_PAYLOAD_SIZE in Hn.
  apply bind_done in E. destruct E as (rc1 & m1 & E1 & E). apply bind_done in E. destruct E as (data & m2 & E2 & E).
  fold data_ptr in E1, E2. apply read_ptr_done in E2 as (_ & -> & ->).
  pose proof (pres_run _ _ _ _ _ (quiet_spi_load data_ptr n false) E1) as Hq.
  set (data := mem_read data_ptr n m1) in *.
  assert (Z.of_nat (length data) = n) as Hl.
  { unfold is_u32 in Hu. apply mem_read_length; [lia|by left]. }
  destruct (op_response_run (if rc1 =? 0 then GB_OP_SUCCESS else GB_OP_UNKNOWN_ERROR) data m1) as (d & Er & Hr).
  { rewrite Hl. unfold GB_OPERATION_HEADER_SIZE, CPORT_BUF_SIZE. lia. }
  rewrite Er in E. injection E as <- <-. apply (answered_quiet _ _ _ _ _ Hq) in Hr.
  apply (answered_unique _ _ _ _ _ _ status_u8 (status_of_u8 rc1) Han) in Hr as [Hst ->].
  destruct (Z.eqb_spec rc1 0) as [->|]; [|done].
  split; [by apply (loaded_data a n m)|by eapply serving_after].
Qed.

(** ** The size of the element *)

Definition requested_stage (m : machine) : Z := le_combine (received (op + GB_OPERATION_HEADER_SIZE) 1 m) - 1.

Lemma spi_init_image : pres image_eq data_load_spi_init.
Proof.
  assert (forall c v, pres image_eq (scm_write c v)) as Hw.
  { intros c v m. apply only_dev_image. apply pres_scm_write. }
  assert (forall v a, pres image_eq (putreg32 v a)) as Hp.
  { intros v a m. apply only_dev_image. apply pres_putreg32. }
  unfold data_load_spi_init, tsb_clk_enable, set_current_addr, add_clk_usage.
  repeat (apply pres_bind; [typeclasses eauto|first [apply Hw|apply Hp|intros m; by split]|intros _]).
  apply pres_ret. typeclasses eauto.
Qed.

Lemma spi_init_mem m rc m1 : mem_ok m -> data_load_spi_init m = (Done rc, m1) -> mem_ok m1.
Proof. intros Hm E. eapply mem_ok_image; [|exact Hm]. exact (pres_run _ _ _ _ _ spi_init_image E). Qed.

Lemma size_answer rc m m' payload `{!PlatformOk} :
  mem_ok m -> server_firmware_size cportid op m = (Done rc, m') -> answered GB_OP_SUCCESS payload m m' ->
  exists addr i e, selected flash addr /\
    newest_of (u32 (requested_stage m)) (fst (element_table (flash_header flash addr))) i e /\
    payload = le_split 4 (element_length e) /\ serving (element_location e) m'.
Proof.
  intros Hm E Han. unfold server_firmware_size in E.
  apply bind_done in E. destruct E as (rc1 & m1 & E1 & E).
  pose proof (pres_run _ _ _ _ _ quiet_spi_init E1) as Hq1. apply spi_init_mem in E1; [|done].
  rewrite (bind_step _ _ _ _ _ (rx_bytes_run _ _ _)) in E.
  rewrite (received_same _ _ m m1 (proj2 Hq1)) in E. fold (requested_stage m) in E.
  apply bind_done in E. destruct E as ([] & m2 & [= <-] & E).
  apply bind_done in E. destruct E as (st & m3 & [= <- <-] & E). cbn [srv_stage_to_load m_server set_server] in E.
  apply bind_done in E. destruct E as ([rc2 len] & m4 & E4 & E).
  pose proof (pres_run _ _ _ _ _ (quiet_locate_spi _) E4) as Hq4. set (m2 := set_server _ m1) in *.
  assert (quiet m m4) as Hq by (transitivity m1; [done|exact Hq4]).
  destruct (op_response_run (if rc2 =? 0 then GB_OP_SUCCESS else GB_OP_UNKNOWN_ERROR)
    (le_split 4 (if rc2 =? 0 then len else srv_indeterminate)) m4) as (d & Er & Hr).
  { rewrite length_le_split. unfold GB_OPERATION_HEADER_SIZE, CPORT_BUF_SIZE. lia. }
  rewrite Er in E. injection E as <- <-. apply (answered_quiet _ _ _ _ _ Hq) in Hr.
  apply (answered_unique _ _ _ _ _ _ status_u8 (status_of_u8 rc2) Han) in Hr as [Hst ->].
  destruct (Z.eqb_spec rc2 0) as [->|]; [|done].
  assert (mem_ok m2) as Hm2 by (by destruct E1).
  destruct (locate_on_storage_done data_load_spi_read flash spi_ops _ m2 len m4 eq_refl Hm2 E4)
    as (addr & i & e & Hsel & Hnew & -> & m0 & rc & Hm0 & Ee).
  exists addr, i, e. split; [done|]. split; [done|]. split; [done|].
  injection Ee as _ <-. split; [by destruct Hm0|done].
Qed.
(** ** A download *)

Definition message_type (m : machine) : Z := le_combine (received (op + 4) 1 m).

Lemma handles_size len m :
  GB_OPERATION_HEADER_SIZE <= len -> message_type m = GB_BOOT_OP_FIRMWARE_SIZE ->
  gbboot_cport_handler cportid op len m = server_firmware_size cportid op m.
Proof.
  intros Hl Ht. unfold gbboot_cport_handler, op_type. rewrite (proj2 (Z.ltb_ge _ _)) by done.
  rewrite bind_assoc, (bind_step _ _ _ _ _ (rx_bytes_run _ _ _)), bind_ret. fold (message_type m). by rewrite Ht.
Qed.

Lemma handles_block len m :
  GB_OPERATION_HEADER_SIZE <= len -> message_type m = GB_BOOT_OP_GET_FIRMWARE ->
  gbboot_cport_handler cportid op len m = server_get_firmware cportid op m.
Proof.
  intros Hl Ht. unfold gbboot_cport_handler, op_type. rewrite (proj2 (Z.ltb_ge _ _)) by done.
  rewrite bind_assoc, (bind_step _ _ _ _ _ (rx_bytes_run _ _ _)), bind_ret. fold (message_type m). by rewrite Ht.
Qed.

(** Block requests answered one after the other; between two of them the
    devices do anything ([d]), in particular receive the next request. *)
Inductive session : machine -> list (list Z) -> machine -> Prop :=
| session_nil m : session m [] m
| session_block m d len rc payload m1 payloads m2 :
    GB_OPERATION_HEADER_SIZE <= len ->
    message_type (set_dev d m) = GB_BOOT_OP_GET_FIRMWARE ->
    requested (set_dev d m) <= GB_MAX_PAYLOAD_SIZE ->
    gbboot_cport_handler cportid op len (set_dev d m) = (Done rc, m1) ->
    answered GB_OP_SUCCESS payload (set_dev d m) m1 ->
    session m1 payloads m2 ->
    session m (payload :: payloads) m2.

Lemma serving_dev a d m : serving a m -> serving a (set_dev d m).
Proof. intros [Hm Ha]. split; [by destruct Hm|done]. Qed.

Lemma session_bytes m payloads m2 :
  session m payloads m2 -> forall a, serving a m ->
  concat payloads = flash_bytes flash a (Z.of_nat (length (concat payloads))).
Proof.
  induction 1 as [m|m d len rc payload m1 payloads m2 Hl Ht Hn E Han _ IH]; intros a Hs; [done|].
  rewrite handles_block in E by done.
  apply (block_answer a rc _ _ payload (serving_dev a d m Hs) Hn E) in Han as [-> Hs1].
  pose proof (requested_u32 (set_dev d m)) as Hu. set (n := requested (set_dev d m)) in *. unfold is_u32 in Hu.
  cbn [concat]. rewrite length_app, length_flash_bytes by lia.
  rewrite (IH _ Hs1) at 1. rewrite flash_bytes_app by lia. f_equal. lia.
Qed.

(** [C24] A download from the server: when the size request for a stage and then a
    number of block requests have been answered with success, in any sizes and
    with anything happening on the devices in between, there is a valid header
    copy and in it an element of the stage's type with the highest generation;
    the size answered is the element's length, and the blocks put together are
    the element's first bytes as they are on the flash. *)
Theorem server_delivers_element `{!PlatformOk} len rc size payloads m m1 m2 :
  mem_ok m -> GB_OPERATION_HEADER_SIZE <= len -> message_type m = GB_BOOT_OP_FIRMWARE_SIZE ->
  gbboot_cport_handler cportid op len m = (Done rc, m1) -> answered GB_OP_SUCCESS size m m1 ->
  session m1 payloads m2 ->
  exists addr i e, selected flash addr /\
    newest_of (u32 (requested_stage m)) (fst (element_table (flash_header flash addr))) i e /\
    size = le_split 4 (element_length e) /\
    concat payloads = flash_bytes flash (element_location e) (Z.of_nat (length (concat payloads))).
Proof.
  intros Hm Hl Ht E Han Hses. rewrite handles_size in E by done.
  destruct (size_answer rc m m1 size Hm E Han) as (addr & i & e & Hsel & Hnew & Hsize & Hs).
  exists addr, i, e. split; [done|]. split; [done|]. split; [done|]. by apply (session_bytes m1 payloads m2).
Qed.
End server.

(** ** A server with a flash chip *)

(** The chip of SpiFlash.v, the log, and the contents of the receive buffer. *)
Record server_chip := ServerChip { vc_spi : spi_chip; vc_log : list (Z * Z); vc_rx : list Z }.

Definition server_hw (flash : Z -> Z) (rx : Z) : Hardware :=
  {| dev := server_chip;
     reg_read := λ a d, let r := spi_chip_read flash a (vc_spi d) in
                        (fst r, ServerChip (snd r) (vc_log d) (vc_rx d));
     reg_write := λ a v d, ServerChip (spi_chip_write a v (vc_spi d)) (vc_log d) (vc_rx d);
     reg_write8 := λ a v d, ServerChip (vc_spi d) (vc_log d ++ [(a, v)]) (vc_rx d);
     buf_read8 := λ a d, get8 (vc_rx d) (a - rx) |}.

Definition server_controller (flash : Z -> Z) (rx : Z) (C : @FlashController (spi_chip_hw flash) flash) :
  @FlashController (server_hw flash rx) flash.
Proof.
  refine {| streams := λ (d : @dev (server_hw flash rx)), @streams (spi_chip_hw flash) flash C (vc_spi d);
            latency := @latency (spi_chip_hw flash) flash C;
            fc_u8 := @fc_u8 (spi_chip_hw flash) flash C; fc_wraps := @fc_wraps (spi_chip_hw flash) flash C |}.
  - intros d. exact (@fc_start (spi_chip_hw flash) flash C (vc_spi d)).
  - intros d. exact (@fc_wait (spi_chip_hw flash) flash C (vc_spi d)).
  - intros d. exact (@fc_ready (spi_chip_hw flash) flash C (vc_spi d)).
  - intros d. exact (@fc_frame (spi_chip_hw flash) flash C (vc_spi d)).
  - intros d. exact (@fc_done (spi_chip_hw flash) flash C (vc_spi d)).
Defined.

Definition server_wire (flash : Z -> Z) (rx : Z) : @Wire (server_hw flash rx).
Proof. by refine {| tx_log := vc_log : @dev (server_hw flash rx) -> _ |}. Defined.

(** Two header copies, and a pattern where the elements are. *)
Definition srv_flash (a : Z) : Z :=
  let a := a mod 2 ^ 24 in if 0x10000 <=? a then u8 (7 * a + 1) else get8 two_copies a.

Lemma srv_flash_u8 a : is_u8 (srv_flash a).
Proof. unfold srv_flash. destruct (_ <=? _); [apply u8_range|apply two_copies_u8]. Qed.
Lemma srv_flash_wraps a : srv_flash (a mod 2 ^ 24) = srv_flash a.
Proof. unfold srv_flash. by rewrite Zmod_mod. Qed.

Module Download.
Definition rx : Z := CPORT_RX_BUF GBBOOT_CPORT.
#[export] Instance hw : Hardware := server_hw srv_flash rx.
#[export] Instance wire : Wire := server_wire srv_flash rx.
#[export] Instance controller : FlashController srv_flash :=
  server_controller srv_flash rx (spi_chip_controller srv_flash srv_flash_u8 srv_flash_wraps).
#[export] Instance platform : Platform := sim_platform Stage1 [] [].
#[export] Instance build : ServerBuild := {| srv_data := 0x10000000; srv_indeterminate := 0 |}.

(** A request arrives. *)
Definition receive (type : Z) (payload : list Z) (m : machine) : machine :=
  set_dev (ServerChip (vc_spi (m_dev m)) (vc_log (m_dev m)) (gb_packet 1 type 0 payload)) m.

Definition handle (m : machine) : outcome Z * machine := gbboot_cport_handler GBBOOT_CPORT rx 16 m.

Definition start : machine := receive GB_BOOT_OP_FIRMWARE_SIZE [2] (sim_machine_at (ServerChip (SpiChip 0 0 0 0) [] [])).
Definition located : machine := snd (handle start).
Definition block_request (offset size : Z) : list Z := le_split 4 offset ++ le_split 4 size.
Definition asked1 : machine := receive GB_BOOT_OP_GET_FIRMWARE (block_request 0 12) located.
Definition sent1 : machine := snd (handle asked1).
Definition asked2 : machine := receive GB_BOOT_OP_GET_FIRMWARE (block_request 12 6) sent1.
Definition sent2 : machine := snd (handle asked2).

Lemma start_ok : mem_ok start.
Proof. destruct (chip_machine_ok). by split. Qed.

Lemma run_handle m : fst (handle m) = Done 0 ->
  gbboot_cport_handler GBBOOT_CPORT rx 16 m = (Done 0, snd (handle m)).
Proof. apply run_done. Qed.

Definition block1 : list Z := flash_bytes srv_flash 0x20000 12.
Definition block2 : list Z := flash_bytes srv_flash 0x2000C 6.

(** An answer, decided on the log and the receive buffer. *)
Definition answeredb (payload : list Z) (m m' : machine) : bool :=
  bool_decide (vc_log (m_dev m') = vc_log (m_dev m) ++ answer GBBOOT_CPORT rx GB_OP_SUCCESS payload m) &&
  bool_decide (vc_rx (m_dev m') = vc_rx (m_dev m)).

Lemma answeredb_ok payload m m' :
  answeredb payload m m' = true -> answered GBBOOT_CPORT rx GB_OP_SUCCESS payload m m'.
Proof.
  intros [E1%bool_decide_eq_true E2%bool_decide_eq_true]%andb_true_iff. split; [done|].
  intros x. cbn [buf_read8 hw server_hw]. by rewrite E2.
Qed.

Lemma size_answered : answered GBBOOT_CPORT rx GB_OP_SUCCESS (le_split 4 0x2000) start located.
Proof. apply answeredb_ok. vm_compute. reflexivity. Qed.
Lemma block1_answered : answered GBBOOT_CPORT rx GB_OP_SUCCESS block1 asked1 sent1.
Proof. apply answeredb_ok. vm_compute. reflexivity. Qed.
Lemma block2_answered : answered GBBOOT_CPORT rx GB_OP_SUCCESS block2 asked2 sent2.
Proof. apply answeredb_ok. vm_compute. reflexivity. Qed.

Lemma two_blocks : session GBBOOT_CPORT rx located [block1; block2] sent2.
Proof.
  apply (session_block GBBOOT_CPORT rx located (m_dev asked1) 16 0 block1 sent1);
    [discriminate|vm_compute; reflexivity|vm_compute; discriminate|apply run_handle; vm_compute; reflexivity|exact block1_answered|].
  apply (session_block GBBOOT_CPORT rx sent1 (m_dev asked2) 16 0 block2 sent2);
    [discriminate|vm_compute; reflexivity|vm_compute; discriminate|apply run_handle; vm_compute; reflexivity|exact block2_answered|].
  apply session_nil.
Qed.

Lemma start_type : message_type rx start = GB_BOOT_OP_FIRMWARE_SIZE.
Proof. vm_compute. reflexivity. Qed.
Lemma start_run : gbboot_cport_handler GBBOOT_CPORT rx 16 start = (Done 0, located).
Proof. apply run_handle. vm_compute. reflexivity. Qed.
Lemma boot_cport_ok : 0 <= GBBOOT_CPORT < CPORT_MAX.
Proof. by split. Qed.
Lemma header_fits : GB_OPERATION_HEADER_SIZE <= 16.
Proof. discriminate. Qed.
Lemma cports_ok : CPORT_MAX <= 4.
Proof. discriminate. Qed.

(** The newest element of the chip, of length [0x2000] at [0x20000], in blocks of
    12 and 6 bytes. *)
Lemma server_delivers_element_witness :
  exists addr i e, selected srv_flash addr /\
    newest_of (u32 (requested_stage rx start)) (fst (element_table (flash_header srv_flash addr))) i e /\
    le_split 4 0x2000 = le_split 4 (element_length e) /\
    concat [block1; block2] = flash_bytes srv_flash (element_location e) (Z.of_nat (length (concat [block1; block2]))).
Proof.
  exact (@server_delivers_element platform hw build wire srv_flash controller GBBOOT_CPORT rx boot_cport_ok cports_ok
    (sim_platform_ok Stage1) 16 0 (le_split 4 0x2000) [block1; block2] start located sent2
    start_ok header_fits start_type start_run size_answered two_blocks).
Defined.

End Download.
