(* ===== verification/GreybusPeer.v ===== *)
(** * GreybusPeer: downloading from a peer that serves an image

    GreybusLoad.v shows what the download does whatever arrives.  Here the other
    side answers: with a peer that sends the bytes of an image in order
    ([BootPeer]), the size request returns the image's length and a load returns
    0 with the requested bytes at the destination. *)

From S2P Require Import Prelude Utils Sha256 Machine Chip Sim Errors Crypto Loading EfuseSpec Unipro Dme Greybus GreybusLoad Wire.

(** The registers of DME accesses. *)
Definition dme_regs : list Z :=
  map DME [A2D_ATTRACS_CTRL_00; A2D_ATTRACS_DATA_CTRL_00; A2D_ATTRACS_MSTR_CTRL; A2D_ATTRACS_INT_BEF;
           A2D_ATTRACS_STS_00; A2D_ATTRACS_DATA_STS_00].

Definition BOOT_RX : Z := CPORT_RX_BUF GBBOOT_CPORT.
Definition EOM_BOOT : Z := 1 <<₃₂ Z.shiftl GBBOOT_CPORT 1.

(** What sending a Greybus request does to the devices. *)
Definition sent `{Hardware} (type : Z) (payload : list Z) (d : dev) : dev :=
  carry_out (message_stores GBBOOT_CPORT (gb_packet 1 type 0 payload)) d.

(** A peer with an image of [total] bytes.  [idle d off]: nothing is under way,
    and the peer will send on from [off]; [awaiting d msg off w]: the message
    [msg] is complete after [w] reads of the interrupt register, and the peer
    will then be at [off]; [arrived d msg off]: it is in the receive buffer and
    its interrupt is cleared.  Blocks of fewer than four bytes are not asked for:
    the SPI driver of the peer refuses them.  DME registers and link do not disturb
    each other. *)
Class BootPeer `{Hardware, !DmeController} (image : Z -> Z) (total : Z) := {
  idle : dev -> Z -> Prop;
  awaiting : dev -> list Z -> Z -> nat -> Prop;
  arrived : dev -> list Z -> Z -> Prop;
  peer_latency : nat;
  bp_u8 a : is_u8 (image a);
  bp_total : is_u32 total;
  bp_block d off n : idle d off -> 0 <= off -> 4 <= n <= GB_MAX_PAYLOAD_SIZE -> off + n <= total ->
    exists id w, (w <= peer_latency)%nat /\
      awaiting (sent GB_BOOT_OP_GET_FIRMWARE (le_split 4 off ++ le_split 4 n) d)
        (gb_packet id (Z.lor GB_BOOT_OP_GET_FIRMWARE GB_TYPE_RESPONSE) GB_OP_SUCCESS (flash_bytes image off n))
        (off + n) w;
  bp_dme_read d msg off w a : a ∈ dme_regs -> awaiting d msg off w -> awaiting (snd (reg_read a d)) msg off w;
  bp_dme_write d msg off w a v : a ∈ dme_regs -> awaiting d msg off w -> awaiting (reg_write a v d) msg off w;
  bp_attrs_read d a k : a ∉ dme_regs -> attrs (snd (reg_read a d)) k = attrs d k;
  bp_attrs_write d a v k : a ∉ dme_regs -> attrs (reg_write a v d) k = attrs d k;
  bp_attrs_write8 d a v k : attrs (reg_write8 a v d) k = attrs d k;
  bp_wait d msg off w : awaiting d msg off (S w) ->
    fst (reg_read (DME AHM_RX_EOM_INT_BEF_0) d) = 0 /\ awaiting (snd (reg_read (DME AHM_RX_EOM_INT_BEF_0) d)) msg off w;
  bp_ready d msg off : awaiting d msg off 0 ->
    fst (reg_read (DME AHM_RX_EOM_INT_BEF_0) d) = EOM_BOOT /\
    awaiting (snd (reg_read (DME AHM_RX_EOM_INT_BEF_0) d)) msg off 0;
  bp_no_eot d msg off w : awaiting d msg off w ->
    fst (reg_read (DME AHM_RX_EOT_INT_BEF_0) d) = 0 /\ awaiting (snd (reg_read (DME AHM_RX_EOT_INT_BEF_0) d)) msg off w;
  bp_arrived d msg off : awaiting d msg off 0 ->
    let a := DME (CPB_RX_TRANSFERRED_DATA_SIZE_00 + Z.shiftl GBBOOT_CPORT 2) in
    fst (reg_read a d) = Z.of_nat (length msg) /\
    arrived (reg_write (DME AHM_RX_EOM_INT_BEF_0) EOM_BOOT (snd (reg_read a d))) msg off;
  bp_buffer d msg off i : arrived d msg off -> (i < length msg)%nat ->
    buf_read8 (BOOT_RX + Z.of_nat i) d = msg !!! i;
  bp_restart d msg off : arrived d msg off ->
    idle (reg_write (DME (REG_RX_PAUSE_SIZE_00 + Z.shiftl GBBOOT_CPORT 2)) (Z.lor RX_PAUSE_RESTART CPORT_BUF_SIZE)
           (reg_write (DME (AHM_ADDRESS_00 + Z.shiftl GBBOOT_CPORT 2)) BOOT_RX d)) off
}.

Section peer.
Context `{Platform, Hardware, !DmeController} (image : Z -> Z) (total : Z) `{!BootPeer image total}.
Context (Hports : CPORT_MAX = 2) (Hfuel : (dme_latency < poll_fuel)%nat).

(** ** The message loop *)

(** DME accesses leave the link alone. *)
Definition undisturbed (m m' : machine) : Prop :=
  forall msg off w, awaiting (m_dev m) msg off w -> awaiting (m_dev m') msg off w.

#[local] Instance undisturbed_refl : Reflexive undisturbed.
Proof. by intros m ???. Qed.
#[local] Instance undisturbed_trans : Transitive undisturbed.
Proof. intros m1 m2 m3 R1 R2 msg off w Ha. by apply R2, R1. Qed.

Lemma undisturbed_read o : DME o ∈ dme_regs -> pres undisturbed (tsb_unipro_read o).
Proof. intros Ho m msg off w Ha. rewrite unipro_read_run. by apply bp_dme_read. Qed.
Lemma undisturbed_write o v : DME o ∈ dme_regs -> pres undisturbed (tsb_unipro_write o v).
Proof. intros Ho m msg off w Ha. rewrite unipro_write_run. by apply bp_dme_write. Qed.

Lemma undisturbed_attr a v s p w : pres undisturbed (unipro_attr_access a v s p w).
Proof.
  assert (Hr : forall o, bool_decide (DME o ∈ dme_regs) = true -> pres undisturbed (tsb_unipro_read o))
    by (intros o Ho; apply undisturbed_read; by apply (bool_decide_eq_true_1 _)).
  assert (Hw : forall o x, bool_decide (DME o ∈ dme_regs) = true -> pres undisturbed (tsb_unipro_write o x))
    by (intros o x Ho; apply undisturbed_write; by apply (bool_decide_eq_true_1 _)).
  unfold unipro_attr_access. cbv zeta.
  apply pres_bind; [typeclasses eauto|by apply Hw|intros _].
  apply pres_bind; [typeclasses eauto|apply pres_when; [typeclasses eauto|by apply Hw]|intros _].
  apply pres_bind; [typeclasses eauto|by apply Hw|intros _].
  apply pres_bind; [typeclasses eauto| |intros _].
  { apply pres_poll; [typeclasses eauto..|]. apply pres_bind; [typeclasses eauto|by apply Hr|intros x].
    apply pres_ret; typeclasses eauto. }
  apply pres_bind; [typeclasses eauto|by apply Hw|intros _].
  apply pres_bind; [typeclasses eauto|by apply Hr|intros rc].
  destruct w; [apply pres_ret; typeclasses eauto|].
  apply pres_bind; [typeclasses eauto|by apply Hr|intros x]. apply pres_ret; typeclasses eauto.
Qed.

(** The mailbox interrupt is not pending. *)
Definition no_mail (d : dev) : Prop :=
  Z.land (attrs d (Attr false 0 ARA_INTERRUPTSTATUS)) ARA_INTERRUPTSTATUS_MAILBOX = 0.

Definition awaits (d : dev) (msg : list Z) (off : Z) (w : nat) : Prop := awaiting d msg off w /\ no_mail d.
Definition rests (d : dev) (off : Z) : Prop := idle d off /\ no_mail d.

Lemma link_reg o : bool_decide (DME o ∈ dme_regs) = false -> DME o ∉ dme_regs.
Proof. by apply (bool_decide_eq_false_1 _). Qed.

Lemma awaits_wait d msg off w : awaits d msg off (S w) ->
  fst (reg_read (DME AHM_RX_EOM_INT_BEF_0) d) = 0 /\ awaits (snd (reg_read (DME AHM_RX_EOM_INT_BEF_0) d)) msg off w.
Proof.
  intros [Ha Hm]. destruct (bp_wait _ _ _ _ Ha) as [E Ha']. split; [done|]. split; [done|].
  unfold no_mail. by rewrite (bp_attrs_read (image := image) (total := total)) by by apply link_reg.
Qed.

Lemma awaits_ready d msg off : awaits d msg off 0 ->
  fst (reg_read (DME AHM_RX_EOM_INT_BEF_0) d) = EOM_BOOT /\
  awaits (snd (reg_read (DME AHM_RX_EOM_INT_BEF_0) d)) msg off 0.
Proof.
  intros [Ha Hm]. destruct (bp_ready _ _ _ Ha) as [E Ha']. split; [done|]. split; [done|].
  unfold no_mail. by rewrite (bp_attrs_read (image := image) (total := total)) by by apply link_reg.
Qed.

Lemma awaits_no_eot d msg off w : awaits d msg off w ->
  fst (reg_read (DME AHM_RX_EOT_INT_BEF_0) d) = 0 /\ awaits (snd (reg_read (DME AHM_RX_EOT_INT_BEF_0) d)) msg off w.
Proof.
  intros [Ha Hm]. destruct (bp_no_eot _ _ _ _ Ha) as [E Ha']. split; [done|]. split; [done|].
  unfold no_mail. by rewrite (bp_attrs_read (image := image) (total := total)) by by apply link_reg.
Qed.

Lemma awaits_arrived d msg off : awaits d msg off 0 ->
  let a := DME (CPB_RX_TRANSFERRED_DATA_SIZE_00 + Z.shiftl GBBOOT_CPORT 2) in
  let d' := reg_write (DME AHM_RX_EOM_INT_BEF_0) EOM_BOOT (snd (reg_read a d)) in
  fst (reg_read a d) = Z.of_nat (length msg) /\ arrived d' msg off /\ no_mail d'.
Proof.
  intros [Ha Hm]. cbv zeta. destruct (bp_arrived _ _ _ Ha) as [E Ha']. split; [done|]. split; [done|].
  unfold no_mail. rewrite (bp_attrs_write (image := image) (total := total)) by by apply link_reg.
  by rewrite (bp_attrs_read (image := image) (total := total)) by by apply link_reg.
Qed.

Lemma rests_restart d msg off : arrived d msg off -> no_mail d ->
  rests (reg_write (DME (REG_RX_PAUSE_SIZE_00 + Z.shiftl GBBOOT_CPORT 2)) (Z.lor RX_PAUSE_RESTART CPORT_BUF_SIZE)
          (reg_write (DME (AHM_ADDRESS_00 + Z.shiftl GBBOOT_CPORT 2)) BOOT_RX d)) off.
Proof.
  intros Ha Hm. split; [by apply bp_restart in Ha|].
  unfold no_mail. by rewrite !(bp_attrs_write (image := image) (total := total)) by by apply link_reg.
Qed.

Lemma no_mail_sent d type payload : no_mail d -> no_mail (sent type payload d).
Proof.
  unfold sent. generalize (message_stores GBBOOT_CPORT (gb_packet 1 type 0 payload)). unfold carry_out, no_mail.
  intros l. revert d. induction l as [|[a v] l IH]; intros d Hm; [done|]. cbn [foldl]. apply IH.
  by rewrite (bp_attrs_write8 (image := image) (total := total)).
Qed.

Lemma no_mail_run m msg off w :
  awaits (m_dev m) msg off w ->
  exists d, is_mailbox_irq_pending m = (Done false, set_dev d m) /\ awaits d msg off w.
Proof.
  intros [Ha Hm]. assert (valid_attr (Attr false 0 ARA_INTERRUPTSTATUS)) as Hk by (split; by split).
  destruct (attr_read_run Hfuel (Attr false 0 ARA_INTERRUPTSTATUS) m Hk) as (d & E & Hs).
  change (chip_unipro_attr_read ARA_INTERRUPTSTATUS 0 ATTR_LOCAL m = (Done (0, attrs (m_dev m) (Attr false 0 ARA_INTERRUPTSTATUS)), set_dev d m)) in E.
  exists d. split; [|split].
  - unfold is_mailbox_irq_pending. rewrite (bind_step _ _ _ _ _ E). cbn [Z.eqb negb]. by rewrite Hm.
  - exact (pres_run _ _ _ _ _ (undisturbed_attr ARA_INTERRUPTSTATUS 0 0 ATTR_LOCAL false) E msg off w Ha).
  - unfold no_mail. by rewrite Hs.
Qed.

(** One look at a CPort on which nothing has arrived. *)
Lemma receive_nothing cportid c h m msg off w v :
  0 <= cportid < 2 -> awaits (m_dev m) msg off w ->
  fst (reg_read (DME AHM_RX_EOM_INT_BEF_0) (m_dev m)) = v -> (v = 0 \/ v = EOM_BOOT /\ cportid = 0) ->
  (forall w', awaits (snd (reg_read (DME AHM_RX_EOM_INT_BEF_0) (m_dev m))) msg off w' ->
     exists d, receive_once cportid c h m = (Done None, set_dev d m) /\ awaits d msg off w').
Proof.
  intros Hc Ha Hv Hvs w' Ha'. unfold receive_once.
  rewrite (bind_step _ _ _ _ _ (unipro_read_run _ _)). set (m1 := set_dev _ m).
  rewrite (bind_step _ _ _ _ _ (unipro_read_run _ _)). cbv zeta. rewrite Hv.
  destruct (awaits_no_eot (m_dev m1) msg off w' Ha') as [-> Ha2].
  exists (snd (reg_read (DME AHM_RX_EOT_INT_BEF_0) (m_dev m1))). split; [|done].
  assert (cportid = 0 \/ cportid = 1) as [->| ->] by lia; destruct Hvs as [->|[-> ?]]; try done.
Qed.

(** What receiving the message does, up to the handler's own work. *)
Lemma receive_message h m msg off rc m2 :
  awaits (m_dev m) msg off 0 ->
  (forall d, arrived d msg off ->
     h GBBOOT_CPORT BOOT_RX (Z.of_nat (length msg)) (set_dev d m) = (Done rc, set_dev d m2)) ->
  exists d, receive_once GBBOOT_CPORT (DECLARE_CPORT GBBOOT_CPORT) (Some h) m = (Done (Some rc), set_dev d m2) /\
    rests d off.
Proof.
  intros Ha Hh. unfold receive_once. destruct (awaits_ready _ _ _ Ha) as [Hv Ha1].
  rewrite (bind_step _ _ _ _ _ (unipro_read_run _ _)), Hv. set (m1 := set_dev _ m).
  destruct (awaits_no_eot (m_dev m1) msg off 0 Ha1) as [He Ha2].
  rewrite (bind_step _ _ _ _ _ (unipro_read_run _ _)), He. cbv zeta. cbn [negb Z.eqb].
  change (Z.land EOM_BOOT (2 <<₃₂ Z.shiftl GBBOOT_CPORT 1)) with 0. rewrite Z.land_0_l.
  change (Z.land EOM_BOOT (1 <<₃₂ Z.shiftl GBBOOT_CPORT 1) =? 0) with false. cbn [negb Z.eqb].
  fold EOM_BOOT. set (m3 := set_dev _ m1) in *.
  destruct (awaits_arrived (m_dev m3) msg off Ha2) as (Hl & Harr & Hmail). cbv zeta in Hl, Harr, Hmail.
  rewrite (bind_step _ _ _ _ _ (unipro_read_run _ _)), Hl.
  rewrite (bind_step _ _ _ _ _ (unipro_write_run _ _ _)).
  pose proof (Hh _ Harr) as Eh. rewrite (bind_step _ _ _ _ _ Eh).
  unfold tsb_unipro_restart_rx. rewrite bind_assoc, (bind_step _ _ _ _ _ (unipro_write_run _ _ _)).
  rewrite (bind_step _ _ _ _ _ (unipro_write_run _ _ _)).
  eexists. split; [reflexivity|]. exact (rests_restart _ _ _ Harr Hmail).
Qed.
(** The handlers of both CPorts are registered. *)
Definition listening (m : machine) : Prop :=
  g_handler_table (m_gb m) = [Some control_cport_handlers; Some gbboot_cport_handlers].

Definition receive (cportid : Z) : B Z := chip_unipro_receive cportid (Some common_cport_handler) false.

Lemma serve_two m :
  listening m ->
  serve_cports [0; 1] m =
    (rc ← receive 0;
     if rc <? 0 then mret (Some (-1)) else if 0 <? rc then mret (Some 0)
     else
       t ← gets (λ m, g_handler_table (m_gb m) !! 1%nat);
       table ← the t;
       match table with
       | None => mret None
       | Some _ =>
           rc ← receive 1;
           if rc <? 0 then mret (Some (-1)) else if 0 <? rc then mret (Some 0) else mret None
       end) m.
Proof.
  intros Hl. cbn [serve_cports]. unfold mbind at 1, boot_bind at 1, gets at 1. rewrite Hl. reflexivity.
Qed.

Lemma receive_eq cportid m :
  0 <= cportid < 2 ->
  receive cportid m = (r ← receive_once cportid (DECLARE_CPORT cportid) (Some common_cport_handler); mret (default 0 r)) m.
Proof.
  intros Hc. unfold receive, chip_unipro_receive. by rewrite cport_handle_at by lia.
Qed.

(** One pass over the CPorts. *)
Lemma pass_run m msg off w m2 :
  listening m -> awaits (m_dev m) msg off w ->
  (forall d, arrived d msg off ->
     common_cport_handler GBBOOT_CPORT BOOT_RX (Z.of_nat (length msg)) (set_dev d m) = (Done 1, set_dev d m2)) ->
  (exists d, serve_cports [0; 1] m = (Done (Some 0), set_dev d m2) /\ rests d off) \/
  (exists d w', serve_cports [0; 1] m = (Done None, set_dev d m) /\ awaits d msg off w' /\ (w' < w)%nat).
Proof.
  intros Hl Ha Hh. rewrite serve_two by done.
  assert (exists w1 d1, receive 0 m = (Done 0, set_dev d1 m) /\ awaits d1 msg off w1 /\ (w1 < w \/ w1 = 0)%nat)
    as (w1 & d1 & E1 & Ha1 & Hw1).
  { rewrite receive_eq by lia. destruct w as [|w].
    - destruct (awaits_ready _ _ _ Ha) as [Hv Ha1].
      destruct (receive_nothing 0 (DECLARE_CPORT 0) (Some common_cport_handler) m msg off 0 EOM_BOOT
        ltac:(lia) Ha Hv ltac:(by right) 0%nat Ha1) as (d & E & Had).
      exists 0%nat, d. rewrite (bind_step _ _ _ _ _ E). split; [done|]. split; [done|]. by right.
    - destruct (awaits_wait _ _ _ _ Ha) as [Hv Ha1].
      destruct (receive_nothing 0 (DECLARE_CPORT 0) (Some common_cport_handler) m msg off (S w) 0
        ltac:(lia) Ha Hv ltac:(by left) w Ha1) as (d & E & Had).
      exists w, d. rewrite (bind_step _ _ _ _ _ E). split; [done|]. split; [done|]. lia. }
  rewrite (bind_step _ _ _ _ _ E1). change (0 <? 0) with false. cbn iota.
  erewrite bind_step; [|reflexivity]. cbn [m_gb set_dev]. rewrite Hl. cbn [lookup list_lookup].
  erewrite bind_step; [|reflexivity]. change 1 with GBBOOT_CPORT.
  assert (0 <= GBBOOT_CPORT < 2) as Hb by (unfold GBBOOT_CPORT; lia).
  destruct w1 as [|w1].
  - left. destruct (receive_message common_cport_handler (set_dev d1 m) msg off 1 m2 Ha1 Hh) as (d & E & Hi).
    exists d. split; [|done]. unfold mbind at 1, boot_bind at 1. rewrite (receive_eq _ _ Hb).
    by rewrite (bind_step _ _ _ _ _ E).
  - right. destruct (awaits_wait _ _ _ _ Ha1) as [Hv Ha2].
    destruct (receive_nothing GBBOOT_CPORT (DECLARE_CPORT GBBOOT_CPORT) (Some common_cport_handler) (set_dev d1 m)
      msg off (S w1) 0 Hb Ha1 Hv ltac:(by left) w1 Ha2) as (d & E & Had).
    exists d, w1. split; [|split; [done|lia]]. unfold mbind at 1, boot_bind at 1. rewrite (receive_eq _ _ Hb).
    by rewrite (bind_step _ _ _ _ _ E).
Qed.

(** The loop returns 0 once the message has been handled. *)
Lemma loop_run m msg off w m2 :
  listening m -> awaits (m_dev m) msg off w -> (w < poll_fuel)%nat ->
  (forall d, arrived d msg off ->
     common_cport_handler GBBOOT_CPORT BOOT_RX (Z.of_nat (length msg)) (set_dev d m) = (Done 1, set_dev d m2)) ->
  exists d, greybus_loop m = (Done 0, set_dev d m2) /\ rests d off.
Proof.
  intros Hl Ha Hw Hh. unfold greybus_loop. rewrite Hports. change (seqZ 0 2) with [0; 1].
  revert Hw. generalize poll_fuel at 1 2. intros n. revert w m Hl Ha Hh.
  induction n as [|n IH]; intros w m Hl Ha Hh Hw; [lia|]. cbn [poll].
  destruct (no_mail_run m msg off w Ha) as (d0 & E0 & Ha0).
  rewrite bind_assoc, (bind_step _ _ _ _ _ E0). cbn [when]. rewrite bind_assoc, bind_ret.
  destruct (pass_run (set_dev d0 m) msg off w m2 Hl Ha0 Hh) as [(d & E & Hi)|(d & w' & E & Ha' & Hw')].
  - exists d. split; [|done]. by rewrite (bind_step _ _ _ _ _ E).
  - rewrite (bind_step _ _ _ _ _ E). by apply (IH w' (set_dev d m)); [..|lia].
Qed.
(** ** The handlers *)

Section packet.
Context (id type status : Z) (payload : list Z).
Context (Htype : is_u8 type) (Hstatus : is_u8 status) (Hbytes : bytes_ok payload).
Context (Hsize : Z.of_nat (length payload) <= GB_MAX_PAYLOAD_SIZE).

Let msg := gb_packet id type status payload.

Lemma packet_length : Z.of_nat (length msg) = GB_OPERATION_HEADER_SIZE + Z.of_nat (length payload).
Proof. unfold msg, gb_packet, GB_OPERATION_HEADER_SIZE. rewrite !length_app, !length_le_split. lia. Qed.

Lemma packet_bytes : bytes_ok msg.
Proof. unfold msg, gb_packet. rewrite !bytes_ok_app. repeat (split; [apply le_split_bytes|]). done. Qed.

Lemma packet_size : le_combine (sub msg 0 2) = GB_OPERATION_HEADER_SIZE + Z.of_nat (length payload).
Proof.
  change (sub msg 0 2) with (le_split 2 (GB_OPERATION_HEADER_SIZE + Z.of_nat (length payload))).
  rewrite le_combine_split. apply Z.mod_small. unfold GB_OPERATION_HEADER_SIZE, GB_MAX_PAYLOAD_SIZE in *. lia.
Qed.
Lemma packet_type : le_combine (sub msg 4 1) = type.
Proof. change (sub msg 4 1) with (le_split 1 type). rewrite le_combine_split. by apply Z.mod_small. Qed.
Lemma packet_status : le_combine (sub msg 5 1) = status.
Proof. change (sub msg 5 1) with (le_split 1 status). rewrite le_combine_split. by apply Z.mod_small. Qed.
Lemma packet_payload : sub msg 8 (Z.of_nat (length payload)) = payload.
Proof.
  change (sub msg 8 (Z.of_nat (length payload))) with (take (Z.to_nat (Z.of_nat (length payload))) payload).
  apply take_ge. lia.
Qed.

Lemma packet_rx m off o n :
  arrived (m_dev m) msg off -> 0 <= o -> 0 <= n -> o + n <= Z.of_nat (length msg) ->
  rx_bytes (BOOT_RX + o) n m = (Done (sub msg o n), m).
Proof.
  intros Ha Ho Hn Hl. rewrite rx_bytes_run. f_equal. f_equal. apply received_sub; try done.
  - apply packet_bytes.
  - intros i Hi. by apply (bp_buffer (image := image) (total := total)) with off.
Qed.
End packet.

(** The dispatch of a response: the handler runs with the message's parts. *)
Lemma dispatch_response f id type payload m m2 off d rc :
  listening m -> arrived d (gb_packet id type GB_OP_SUCCESS payload) off ->
  is_u8 type -> bytes_ok payload -> Z.of_nat (length payload) <= GB_MAX_PAYLOAD_SIZE ->
  find_handler (handlers gbboot_cport_handlers) type = Some (response_handler f) ->
  f BOOT_RX (BOOT_RX + GB_OPERATION_HEADER_SIZE) (Z.of_nat (length payload))
    (set_dev d (set_gb (set_responded_op type (m_gb m)) m)) = (Done rc, set_dev d m2) ->
  common_cport_handler GBBOOT_CPORT BOOT_RX (Z.of_nat (length (gb_packet id type GB_OP_SUCCESS payload)))
    (set_dev d m) = (Done rc, set_dev d m2).
Proof.
  intros Hl Ha Ht Hb Hn Hfind Hf. assert (is_u8 GB_OP_SUCCESS) as Hs by by split.
  pose proof (packet_length id type GB_OP_SUCCESS payload) as HL.
  unfold common_cport_handler. rewrite HL. unfold GB_OPERATION_HEADER_SIZE at 1 2.
  rewrite (proj2 (Z.ltb_ge _ _)) by lia. unfold op_type.
  rewrite bind_assoc, (bind_step _ _ _ _ _ (packet_rx id type GB_OP_SUCCESS payload Hb (set_dev d m) off 4 1 Ha
    ltac:(lia) ltac:(lia) ltac:(rewrite HL; unfold GB_OPERATION_HEADER_SIZE; lia))).
  rewrite bind_ret, packet_type by done.
  erewrite bind_step; [|reflexivity]. cbn [m_gb set_dev]. rewrite Hl.
  erewrite bind_step; [|reflexivity]. cbv beta iota. rewrite Hfind. unfold response_handler, op_size, op_type. unfold response_handler, op_size, op_type.
  rewrite <- (Z.add_0_r BOOT_RX) at 1.
  rewrite bind_assoc, (bind_step _ _ _ _ _ (packet_rx id type GB_OP_SUCCESS payload Hb (set_dev d m) off 0 2 Ha
    ltac:(lia) ltac:(lia) ltac:(rewrite HL; unfold GB_OPERATION_HEADER_SIZE; lia))).
  rewrite bind_ret, packet_size by done.
  rewrite bind_assoc, (bind_step _ _ _ _ _ (packet_rx id type GB_OP_SUCCESS payload Hb (set_dev d m) off 4 1 Ha
    ltac:(lia) ltac:(lia) ltac:(rewrite HL; unfold GB_OPERATION_HEADER_SIZE; lia))).
  rewrite bind_ret, packet_type by done.
  erewrite bind_step; [|reflexivity]. rewrite <- Hf. f_equal.
  unfold GB_MAX_PAYLOAD_SIZE, GB_OPERATION_HEADER_SIZE in *. rewrite u32_small; [lia|unfold is_u32; lia].
Qed.
(** ** The requests *)

Lemma set_gb_dev g d m : set_gb g (set_dev d m) = set_dev d (set_gb g m).
Proof. done. Qed.
Lemma mem_write_set_dev p bs d m : mem_write p bs (set_dev d m) = set_dev d (mem_write p bs m).
Proof. unfold mem_write. by destruct (p_blk p). Qed.

(** The machine after a size response, and after a block response. *)
Definition after_size (m : machine) : machine :=
  let g := set_responded_op (Z.lor GB_BOOT_OP_FIRMWARE_SIZE GB_TYPE_RESPONSE) (m_gb m) in
  set_gb (set_size_response total g) m.

Definition after_block (data : ptr) (n : Z) (bs : list Z) (m : machine) : machine :=
  let g := set_responded_op (Z.lor GB_BOOT_OP_GET_FIRMWARE GB_TYPE_RESPONSE) (set_fw_buff data n (m_gb m)) in
  mem_write data bs (set_gb g m).

Lemma size_response_run id d m off :
  arrived d (gb_packet id (Z.lor GB_BOOT_OP_FIRMWARE_SIZE GB_TYPE_RESPONSE) GB_OP_SUCCESS (le_split 4 total)) off ->
  gbboot_firmware_size_response BOOT_RX (BOOT_RX + GB_OPERATION_HEADER_SIZE) 4 (set_dev d m)
    = (Done 1, set_dev d (set_gb (set_size_response total (m_gb m)) m)).
Proof.
  intros Ha. set (type := Z.lor _ _) in Ha. assert (is_u8 GB_OP_SUCCESS) as Hs by by split.
  pose proof (packet_length id type GB_OP_SUCCESS (le_split 4 total)) as HL.
  pose proof (le_split_bytes 4 total) as Hb. unfold gbboot_firmware_size_response, op_status.
  rewrite bind_assoc, (bind_step _ _ _ _ _ (packet_rx id type GB_OP_SUCCESS _ Hb (set_dev d m) off 5 1 Ha
    ltac:(lia) ltac:(lia) ltac:(rewrite HL, length_le_split; unfold GB_OPERATION_HEADER_SIZE; lia))).
  rewrite bind_ret, packet_status by done. change (negb (GB_OP_SUCCESS =? 0)) with false. cbn iota.
  change (4 <? 4) with false. cbn iota. change (BOOT_RX + GB_OPERATION_HEADER_SIZE) with (BOOT_RX + 8).
  rewrite (bind_step _ _ _ _ _ (packet_rx id type GB_OP_SUCCESS _ Hb (set_dev d m) off 8 4 Ha
    ltac:(lia) ltac:(lia) ltac:(rewrite HL, length_le_split; unfold GB_OPERATION_HEADER_SIZE; lia))).
  pose proof (packet_payload id type GB_OP_SUCCESS (le_split 4 total)) as Hp. rewrite length_le_split in Hp.
  change (Z.of_nat 4) with 4 in Hp. rewrite Hp, le_combine_split, Z.mod_small by apply bp_total. reflexivity.
Qed.

Lemma block_response_run id bs d m off :
  arrived d (gb_packet id (Z.lor GB_BOOT_OP_GET_FIRMWARE GB_TYPE_RESPONSE) GB_OP_SUCCESS bs) off ->
  bytes_ok bs -> Z.of_nat (length bs) <= GB_MAX_PAYLOAD_SIZE ->
  g_fw_buff_size (m_gb m) = Z.of_nat (length bs) -> in_bounds (g_fw_buff (m_gb m)) (Z.of_nat (length bs)) m = true ->
  gbboot_get_firmware_response BOOT_RX (BOOT_RX + GB_OPERATION_HEADER_SIZE) (Z.of_nat (length bs)) (set_dev d m)
    = (Done 1, set_dev d (mem_write (g_fw_buff (m_gb m)) bs m)).
Proof.
  intros Ha Hb Hn Hsz Hin. set (type := Z.lor _ _) in Ha. assert (is_u8 GB_OP_SUCCESS) as Hs by by split.
  pose proof (packet_length id type GB_OP_SUCCESS bs) as HL. unfold gbboot_get_firmware_response, op_status, op_size.
  rewrite bind_assoc, (bind_step _ _ _ _ _ (packet_rx id type GB_OP_SUCCESS _ Hb (set_dev d m) off 5 1 Ha
    ltac:(lia) ltac:(lia) ltac:(rewrite HL; unfold GB_OPERATION_HEADER_SIZE; lia))).
  rewrite bind_ret, packet_status by done. change (negb (GB_OP_SUCCESS =? 0)) with false. cbn iota. rewrite <- (Z.add_0_r BOOT_RX) at 1.
  rewrite bind_assoc, (bind_step _ _ _ _ _ (packet_rx id type GB_OP_SUCCESS _ Hb (set_dev d m) off 0 2 Ha
    ltac:(lia) ltac:(lia) ltac:(rewrite HL; unfold GB_OPERATION_HEADER_SIZE; lia))).
  rewrite bind_ret, packet_size by done. erewrite bind_step; [|reflexivity]. cbn [m_gb set_dev]. rewrite Hsz.
  unfold GB_MAX_PAYLOAD_SIZE in Hn.
  assert ((GB_OPERATION_HEADER_SIZE + Z.of_nat (length bs)) -₃₂ GB_OPERATION_HEADER_SIZE = Z.of_nat (length bs)) as ->
    by (unfold GB_OPERATION_HEADER_SIZE; rewrite u32_small; [lia|unfold is_u32; lia]).
  rewrite !Z.eqb_refl. cbn [negb orb]. change (BOOT_RX + GB_OPERATION_HEADER_SIZE) with (BOOT_RX + 8).
  rewrite (bind_step _ _ _ _ _ (packet_rx id type GB_OP_SUCCESS _ Hb (set_dev d m) off 8 (Z.of_nat (length bs)) Ha
    ltac:(lia) ltac:(lia) ltac:(rewrite HL; unfold GB_OPERATION_HEADER_SIZE; lia))).
  rewrite packet_payload. unfold write_ptr, mbind, boot_bind.
  rewrite (image_eq_bounds (set_dev d m) m) by by split. by rewrite Hin, mem_write_set_dev.
Qed.

Context (Hpeer : (peer_latency < poll_fuel)%nat).

Lemma image_bytes a n : bytes_ok (flash_bytes image a n).
Proof.
  apply Forall_forall. intros b Hb. apply list_elem_of_fmap in Hb as (x & -> & _). apply (bp_u8 (total := total)).
Qed.

(** The size request, when its answer is under way. *)
Lemma firmware_size_run stage id off w m :
  listening m -> (w < poll_fuel)%nat ->
  awaits (sent GB_BOOT_OP_FIRMWARE_SIZE (le_split 1 stage) (m_dev m))
    (gb_packet id (Z.lor GB_BOOT_OP_FIRMWARE_SIZE GB_TYPE_RESPONSE) GB_OP_SUCCESS (le_split 4 total)) off w ->
  exists d, gbboot_firmware_size stage m = (Done (0, total), set_dev d (after_size m)) /\ rests d off.
Proof.
  intros Hl Hw Ha.
  unfold gbboot_firmware_size, greybus_send_request. erewrite bind_step.
  2: { apply send_message_run; [unfold GBBOOT_CPORT; lia|lia|].
       rewrite length_le_split. unfold GB_OPERATION_HEADER_SIZE, CPORT_BUF_SIZE. lia. }
  cbn [negb Z.eqb]. set (m1 := set_dev _ m).
  destruct (loop_run m1 _ off w (after_size m) Hl Ha Hw) as (d & E & Hid).
  { intros d Harr. apply dispatch_response with (off := off) (f := gbboot_firmware_size_response); try done.
    - apply le_split_bytes.
    - rewrite length_le_split. change (Z.of_nat 4) with 4. etransitivity; [by apply (size_response_run id d _ off)|done]. }
  exists d. split; [|done]. by rewrite (bind_step _ _ _ _ _ E).
Qed.

Lemma in_bounds_ready prev prev_len m :
  (0 <? prev_len = true -> crypto_ready m /\ in_bounds prev prev_len m = true) ->
  when (0 <? prev_len) (bs ← read_ptr prev prev_len; hash_update bs) m
    = (Done tt, hashed true (pending prev prev_len m) m).
Proof.
  intros Hr. unfold pending. destruct (0 <? prev_len); cbn [when]; [|by rewrite hashed_nil].
  destruct (Hr eq_refl) as [Hc Hin]. unfold read_ptr, mbind, boot_bind. rewrite Hin.
  by rewrite hash_update_run.
Qed.

Lemma hashed_gb h bs m : m_gb (hashed h bs m) = m_gb m.
Proof. by destruct h. Qed.

(** A block request: the pending block is hashed and the new one stored. *)
Lemma get_firmware_run off n data prev prev_len m :
  listening m -> rests (m_dev m) off -> 0 <= off -> 4 <= n <= GB_MAX_PAYLOAD_SIZE -> off + n <= total ->
  in_bounds data n m = true ->
  (0 <? prev_len = true -> crypto_ready m /\ in_bounds prev prev_len m = true) ->
  exists d, gbboot_get_firmware off n data prev prev_len m
      = (Done 0, set_dev d (after_block data n (flash_bytes image off n) (hashed true (pending prev prev_len m) m))) /\
    rests d (off + n).
Proof.
  intros Hl Hi Ho Hn Hoff Hin Hr. destruct Hi as [Hi Hmail]. destruct (bp_block (m_dev m) off n Hi Ho Hn Hoff) as (id & w & Hw & Ha0).
  pose proof (conj Ha0 (no_mail_sent _ _ _ Hmail) : awaits _ _ _ _) as Ha. clear Ha0.
  unfold gbboot_get_firmware, greybus_send_request. erewrite bind_step.
  2: { apply send_message_run; [unfold GBBOOT_CPORT; lia|lia|].
       rewrite length_app, !length_le_split. unfold GB_OPERATION_HEADER_SIZE, CPORT_BUF_SIZE. lia. }
  cbn [negb Z.eqb]. set (m1 := set_dev _ m).
  assert (0 <? prev_len = true -> crypto_ready m1 /\ in_bounds prev prev_len m1 = true) as Hr1.
  { intros Hp. destruct (Hr Hp) as [[] Hb]. split; [by split|]. by rewrite (image_eq_bounds m1 m) by by split. }
  rewrite (bind_step _ _ _ _ _ (in_bounds_ready prev prev_len m1 Hr1)).
  erewrite bind_step; [|reflexivity].
  assert (pending prev prev_len m1 = pending prev prev_len m) as -> by (apply pending_proper; by split).
  set (bs := flash_bytes image off n) in *. set (m2 := hashed true _ m1).
  pose proof (image_bytes off n) as Hbytes. fold bs in Hbytes.
  assert (Z.of_nat (length bs) = n) as Hlen by (unfold bs; rewrite length_flash_bytes; lia).
  destruct (loop_run (set_gb (set_fw_buff data n (m_gb m2)) m2) _ (off + n) w
    (after_block data n bs (hashed true (pending prev prev_len m) m)) Hl Ha) as (d & E & Hid); [lia| |].
  { intros d Harr. apply dispatch_response with (off := off + n) (f := gbboot_get_firmware_response); try done.
    - rewrite Hlen. lia.
    - etransitivity; [apply (block_response_run id bs d _ (off + n)); [done|done|rewrite Hlen; lia|by rewrite Hlen|]|].
      + rewrite Hlen. transitivity (in_bounds data n m2); [done|]. unfold m2. by rewrite hashed_bounds.
      + unfold after_block. rewrite <- !mem_write_set_dev. reflexivity. }
  exists d. split; [|done]. unfold modify_gb in *. rewrite (bind_step _ _ _ _ _ E). cbn [negb Z.eqb].
  unfold mbind, boot_bind, gets. unfold after_block.
  assert (forall x, m_gb (set_dev d (mem_write data bs x)) = m_gb x) as Hgb
    by (intros x; unfold mem_write; by destruct (p_blk data)).
  rewrite Hgb. reflexivity.
Qed.
(** ** The load *)

(** The peer is not asked for a block of one to three bytes. *)
Definition no_short_block (len : Z) : Prop :=
  len mod GB_MAX_PAYLOAD_SIZE = 0 \/ 4 <= len mod GB_MAX_PAYLOAD_SIZE.

Lemma first_block len :
  0 < len -> no_short_block len ->
  let blk := if GB_MAX_PAYLOAD_SIZE <? len then GB_MAX_PAYLOAD_SIZE else len in
  4 <= blk <= GB_MAX_PAYLOAD_SIZE /\ blk <= len /\ no_short_block (len - blk) /\
  (len - blk = 0 \/ blk = GB_MAX_PAYLOAD_SIZE).
Proof.
  intros Hl Hn. cbv zeta. unfold no_short_block, GB_MAX_PAYLOAD_SIZE in *.
  destruct (Z.ltb_spec 0x7F0 len).
  - split; [lia|]. split; [lia|]. split; [|by right]. replace (len - 0x7F0) with (len + (-1) * 0x7F0) by lia.
    by rewrite Z.mod_add.
  - destruct (Z.eq_dec len 0x7F0) as [->|]; [split; [lia|]; split; [lia|]; by split; left|].
    rewrite Z.mod_small in Hn by lia. split; [lia|]. split; [lia|]. split; [left|left]; [by rewrite Z.sub_diag|lia].
Qed.

Lemma after_block_image data n bs hb d m :
  image_eq (set_dev d (after_block data n bs (hashed true hb m))) (hashed true hb (mem_write data bs m)).
Proof.
  transitivity (mem_write data bs (hashed true hb m)); [|by rewrite mem_write_hashed].
  transitivity (after_block data n bs (hashed true hb m)); [by split|].
  apply mem_write_proper. by split.
Qed.

Lemma after_block_gb data n bs d m :
  m_gb (set_dev d (after_block data n bs m)) =
    set_responded_op (Z.lor GB_BOOT_OP_GET_FIRMWARE GB_TYPE_RESPONSE) (set_fw_buff data n (m_gb m)).
Proof. unfold after_block, mem_write. by destruct (p_blk data). Qed.

Lemma ready_image m m' : image_eq m m' -> crypto_ready m -> crypto_ready m'.
Proof. intros He []. pose proof (ie_crypto _ _ He) as E. split; by rewrite <- E. Qed.

Lemma ready_hashed hb m : crypto_ready m -> crypto_ready (hashed true hb m).
Proof.
  intros Hc. apply (ready_with_ctx _ m Hc). generalize (ready_w m Hc). generalize (c_shctx (m_crypto m)).
  induction hb as [|b hb IH]; intros c Hw; [done|]. cbn [foldl]. apply IH. by rewrite length_w_process.
Qed.

Lemma ready_write p bs m : crypto_ready m -> crypto_ready (mem_write p bs m).
Proof. intros []. unfold mem_write. by destruct (p_blk p). Qed.

(** What holds between two blocks. *)
Record between (hash : bool) (off : Z) (prev : ptr) (prev_len : Z) (m : machine) : Prop := {
  bt_listening : listening m;
  bt_rests : rests (m_dev m) off;
  bt_offset : g_offset (m_gb m) = off;
  bt_pending : if hash then crypto_ready m /\ in_bounds prev prev_len m = true else prev_len = 0
}.

Lemma block_run hash off n dest prev prev_len m :
  between hash off prev prev_len m -> 0 <= off -> 4 <= n <= GB_MAX_PAYLOAD_SIZE -> off + n <= total ->
  in_bounds dest n m = true ->
  exists hb m1, gbboot_get_firmware off n dest prev prev_len m = (Done 0, m1) /\
    let m' := set_gb (set_offset (g_offset (m_gb m1) +₃₂ n) (m_gb m1)) m1 in
    between hash (off + n) (if hash then dest else prev) (if hash then n else prev_len) m' /\
    g_firmware_size (m_gb m') = g_firmware_size (m_gb m) /\
    image_eq m' (hashed true hb (mem_write dest (flash_bytes image off n) m)).
Proof.
  intros [Hl Hi Ho Hp] Hoff Hn Htot Hin. pose proof (bp_total (image := image)) as Ht. unfold is_u32 in Ht.
  assert (0 <? prev_len = true -> crypto_ready m /\ in_bounds prev prev_len m = true) as Hr
    by (destruct hash; [done|by rewrite Hp]).
  destruct (get_firmware_run off n dest prev prev_len m Hl Hi Hoff Hn Htot Hin Hr) as (d & E & Hd).
  set (hb := pending prev prev_len m) in *. set (bs := flash_bytes image off n) in *.
  assert (Z.of_nat (length bs) = n) as Hlen
    by (unfold bs, GB_MAX_PAYLOAD_SIZE in *; rewrite length_flash_bytes; lia).
  exists hb. eexists. split; [exact E|]. cbv zeta. pose proof (after_block_gb dest n bs d (hashed true hb m)) as Hgb.
  pose proof (after_block_image dest n bs hb d m) as Him.
  set (m1 := set_dev d _) in *. assert (m_dev m1 = d) as Hd1 by done. clearbody m1.
  assert (g_offset (m_gb m1) +₃₂ n = off + n) as Hnext.
  { rewrite Hgb. cbn. rewrite Ho. apply u32_small. unfold is_u32. lia. }
  set (m2 := set_gb _ m1). assert (image_eq m2 m1) as Him2 by by split.
  split; [split|].
  - unfold listening, m2. cbn. by rewrite Hgb.
  - unfold m2. cbn. by rewrite Hd1.
  - exact Hnext.
  - destruct hash; [|done]. destruct Hp as [Hc _]. split.
    + apply (ready_image (hashed true hb (mem_write dest bs m))); [by rewrite Him2, Him|].
      by apply ready_hashed, ready_write.
    + rewrite (image_eq_bounds _ _ _ _ Him2), (image_eq_bounds _ _ _ _ Him), hashed_bounds.
      rewrite in_bounds_after; [done|by rewrite Hlen].
  - split; [unfold m2; cbn; by rewrite Hgb|]. by rewrite Him2, Him.
Qed.
Lemma blocks_run hash : forall blocks off len dest prev prev_len m,
  between hash off prev prev_len m -> 0 <= off -> 0 <= len -> off + len <= total ->
  len <= GB_MAX_PAYLOAD_SIZE * Z.of_nat blocks -> no_short_block len -> in_bounds dest len m = true ->
  exists prev' prev_len' hb m',
    greybus_blocks blocks dest len hash prev prev_len m = (Done (inr (prev', prev_len')), m') /\
    between hash (off + len) prev' prev_len' m' /\
    g_firmware_size (m_gb m') = g_firmware_size (m_gb m) /\
    image_eq m' (hashed true hb (mem_write dest (flash_bytes image off len) m)).
Proof.
  induction blocks as [|k IH]; intros off len dest prev prev_len m Hb Ho Hl Ht Hk Hs Hin; cbn [greybus_blocks].
  { assert (len = 0) as -> by (unfold GB_MAX_PAYLOAD_SIZE in Hk; lia).
    exists prev, prev_len, [], m. rewrite Z.add_0_r. split; [done|]. split; [done|]. split; [done|].
    rewrite hashed_nil. by rewrite mem_write_nil. }
  destruct (Z.eqb_spec len 0) as [->|Hne].
  { exists prev, prev_len, [], m. rewrite Z.add_0_r. split; [done|]. split; [done|]. split; [done|].
    rewrite hashed_nil. by rewrite mem_write_nil. }
  cbv zeta. destruct (first_block len ltac:(lia) Hs) as (Hblk & Hle & Hs' & Hlast).
  set (blk := if GB_MAX_PAYLOAD_SIZE <? len then GB_MAX_PAYLOAD_SIZE else len) in *. clearbody blk.
  erewrite bind_step; [|reflexivity]. rewrite (bt_offset _ _ _ _ _ Hb).
  destruct (block_run hash off blk dest prev prev_len m Hb Ho Hblk ltac:(lia)) as (hb1 & m1 & E1 & Hb2 & Hfs & He).
  { by apply (in_bounds_prefix dest len); [|lia]. }
  rewrite (bind_step _ _ _ _ _ E1). cbn [negb Z.eqb]. erewrite bind_step; [|reflexivity].
  cbv zeta in Hb2, Hfs, He. set (m2 := set_gb _ m1) in *.
  set (b1 := flash_bytes image off blk) in *.
  assert (Z.of_nat (length b1) = blk) as Hl1
    by (unfold b1; rewrite length_flash_bytes; unfold GB_MAX_PAYLOAD_SIZE in Hblk; lia).
  assert (in_bounds (ptr_add dest blk) (len - blk) m2 = true) as Hin2.
  { rewrite (image_eq_bounds _ _ _ _ He), hashed_bounds, <- Hl1. apply in_bounds_behind; [done|].
    unfold GB_MAX_PAYLOAD_SIZE in Hblk. lia. }
  destruct (IH (off + blk) (len - blk) (ptr_add dest blk) _ _ m2 Hb2) as (prev' & pl' & hb2 & m3 & E3 & Hb3 & Hfs3 & He3);
    [lia|lia|lia|destruct Hlast; unfold GB_MAX_PAYLOAD_SIZE in *; lia|done|done|].
  exists prev', pl', (hb1 ++ hb2), m3. split; [exact E3|]. split; [by replace (off + len) with (off + blk + (len - blk)) by lia|].
  split; [by rewrite Hfs3|].
  set (b2 := flash_bytes image (off + blk) (len - blk)) in *.
  assert (flash_bytes image off len = b1 ++ b2) as ->.
  { unfold b1, b2. rewrite flash_bytes_app by (unfold GB_MAX_PAYLOAD_SIZE in Hblk; lia). f_equal. lia. }
  rewrite He3, He, mem_write_hashed, hashed_app, <- Hl1. rewrite mem_write_app; [done|].
  rewrite length_app, Nat2Z.inj_add, Hl1. unfold b2. rewrite length_flash_bytes by lia.
  by replace (blk + Z.of_nat (Z.to_nat (len - blk))) with len by lia.
Qed.

(** With a peer that serves an image, a load of the Greybus driver returns 0:
    it requests the image block by block from its own offset, puts these bytes to
    the destination, hashes them if asked, changes nothing else the image loader
    uses, and moves the offset behind them; peer and driver stay in step, so that
    consecutive loads read on.  This needs fuel for the peer's delay, room at the
    destination, a range inside the image, and no block of one to three bytes. *)
Lemma greybus_load_reads_image p n hash off m :
  mem_ok m -> (hash = true -> crypto_ready m) -> listening m -> rests (m_dev m) off ->
  g_offset (m_gb m) = off -> 0 <= off -> 0 <= n -> off + n <= total -> total <= g_firmware_size (m_gb m) ->
  no_short_block n -> in_bounds p n m = true ->
  exists m', data_load_greybus_load p n hash m = (Done 0, m') /\
    loaded p n hash (flash_bytes image off n) m m' /\
    g_offset (m_gb m') = off + n /\ g_firmware_size (m_gb m') = g_firmware_size (m_gb m) /\
    listening m' /\ rests (m_dev m') (off + n).
Proof.
  intros Hm Hc Hl Hi Ho Hoff Hn Htot Hfs Hs Hin. pose proof (bp_total (image := image)) as Ht. unfold is_u32 in Ht.
  assert (between hash off null 0 m) as Hb by (split; [done|done|done|]; destruct hash; [split; auto|done]).
  destruct (blocks_run hash (S (Z.to_nat (n / GB_MAX_PAYLOAD_SIZE))) off n p null 0 m Hb Hoff Hn Htot)
    as (prev & pl & hb & m1 & E1 & [Hl1 Hi1 Ho1 Hp1] & Hfs1 & He1); [|done|done|].
  { pose proof (Z.div_mod n GB_MAX_PAYLOAD_SIZE ltac:(done)). pose proof (Z.mod_pos_bound n GB_MAX_PAYLOAD_SIZE ltac:(done)).
    pose proof (Z.div_pos n GB_MAX_PAYLOAD_SIZE Hn ltac:(done)). unfold GB_MAX_PAYLOAD_SIZE in *. lia. }
  assert (exists hb2, (when hash (bs ← read_ptr prev pl; hash_update bs)) m1 = (Done tt, hashed true hb2 m1))
    as [hb2 E2].
  { destruct hash; cbn [when]; [|exists []; by rewrite hashed_nil]. destruct Hp1 as [Hc1 Hin1].
    exists (mem_read prev pl m1). unfold read_ptr, mbind, boot_bind. rewrite Hin1. by rewrite hash_update_run. }
  assert (data_load_greybus_load p n hash m = (Done 0, hashed true hb2 m1)) as E.
  { unfold data_load_greybus_load. erewrite bind_step; [|reflexivity]. rewrite Ho, u32_small by (unfold is_u32; lia).
    rewrite (proj2 (Z.ltb_ge _ _)) by lia. rewrite (bind_step _ _ _ _ _ E1). cbv beta iota.
    by rewrite (bind_step _ _ _ _ _ E2). }
  exists (hashed true hb2 m1). split; [done|]. split; [|split; [done|]; split; [done|]; split; [done|done]].
  assert (is_u32 n) as Hu by (unfold is_u32; lia).
  destruct (greybus_load_ok p n hash m _ Hm Hu (or_intror Hin) E) as [bs Hld].
  set (fb := flash_bytes image off n) in *.
  assert (Z.of_nat (length fb) = n) as Hlf by (unfold fb; rewrite length_flash_bytes; lia).
  assert (bs = fb) as ->; [|done]. pose proof Hld as [Hlb _ _ _ Hst].
  rewrite <- (mem_read_write p bs m) by (by rewrite Hlb). rewrite <- (mem_read_write p fb m) by (by rewrite Hlf).
  rewrite Hlb, Hlf. rewrite <- (mem_read_hashed p n hash bs (mem_write p bs m)), <- Hst, mem_read_hashed.
  rewrite He1. by rewrite mem_read_hashed.
Qed.
End peer.
