(* ===== verification/Bridge.v ===== *)
(** * Bridge: a boot ROM that downloads from the download server

    Two machines, each running its modelled code: the devices of the boot ROM
    contain the server's machine.  A message that the boot ROM sends is handled by
    the server's [gbboot_cport_handler], and what the server sends is the message
    that arrives.  The server reads a flash chip (SpiFlash.v), the boot ROM reads
    and writes DME attributes (Dme.v). *)

From S2P Require Import Prelude Utils Machine Chip Sim Errors Loading EfuseSpec Unipro Dme TftfValid Spi Greybus GreybusLoad Ffff FfffValid FfffLocate SpiFlash Wire Server ServerFlash GreybusPeer.

Section bridge.
Context (flash : Z -> Z) (P2 : Platform) (build : ServerBuild).

Definition shw : Hardware := server_hw flash BOOT_RX.

(** The server, the bytes stored for the message being sent, the message in the
    receive buffer, whether its interrupt is pending, and the attributes. *)
Record bridge := Bridge {
  br_server : @machine shw;
  br_line : list Z;
  br_inbox : list Z;
  br_pending : bool;
  br_dme : dme_chip
}.

(** The server with the message [msg] in its receive buffer and an empty log. *)
Definition server_receives (msg : list Z) (ms : @machine shw) : @machine shw :=
  @set_dev shw (ServerChip (vc_spi (m_dev ms)) [] msg) ms.

Definition server_handles (msg : list Z) (ms : @machine shw) : outcome Z * @machine shw :=
  @gbboot_cport_handler P2 shw build GBBOOT_CPORT BOOT_RX (Z.of_nat (length msg)) (server_receives msg ms).

(** The message in the log, without the end-of-message store. *)
Definition logged_message (ms : @machine shw) : list Z := removelast (vc_log (m_dev ms)).*2.

Definition end_of_message (d : bridge) : bridge :=
  let ms := snd (server_handles (br_line d) (br_server d)) in
  Bridge ms [] (logged_message ms) (negb (bool_decide (vc_log (m_dev ms) = []))) (br_dme d).

Definition bridge_read (a : Z) (d : bridge) : Z * bridge :=
  if a =? DME AHM_RX_EOM_INT_BEF_0 then ((if br_pending d then EOM_BOOT else 0), d)
  else if a =? DME (CPB_RX_TRANSFERRED_DATA_SIZE_00 + Z.shiftl GBBOOT_CPORT 2) then (Z.of_nat (length (br_inbox d)), d)
  else if bool_decide (a ∈ dme_regs) then
    let r := dme_chip_read a (br_dme d) in
    (fst r, Bridge (br_server d) (br_line d) (br_inbox d) (br_pending d) (snd r))
  else (0, d).

Definition bridge_write (a v : Z) (d : bridge) : bridge :=
  if a =? DME AHM_RX_EOM_INT_BEF_0 then Bridge (br_server d) (br_line d) (br_inbox d) false (br_dme d)
  else if bool_decide (a ∈ dme_regs) then
    Bridge (br_server d) (br_line d) (br_inbox d) (br_pending d) (dme_chip_write a v (br_dme d))
  else d.

Definition bridge_write8 (a v : Z) (d : bridge) : bridge :=
  if a =? CPORT_TX_BUF GBBOOT_CPORT + (CPORT_TX_BUF_SIZE - 1) then end_of_message d
  else Bridge (br_server d) (br_line d ++ [v]) (br_inbox d) (br_pending d) (br_dme d).

#[local] Instance bridge_hw : Hardware :=
  {| dev := bridge; reg_read := bridge_read; reg_write := bridge_write; reg_write8 := bridge_write8;
     buf_read8 := λ x d, br_inbox d !!! Z.to_nat (x - BOOT_RX) |}.

(** ** The attributes *)

Definition with_dme (c : dme_chip) (d : bridge) : bridge :=
  Bridge (br_server d) (br_line d) (br_inbox d) (br_pending d) c.

Lemma bridge_dme_read a (d : bridge) : a ∈ dme_regs ->
  bridge_read a d = (fst (dme_chip_read a (br_dme d)), with_dme (snd (dme_chip_read a (br_dme d))) d).
Proof.
  intros Ha. unfold bridge_read.
  rewrite (proj2 (Z.eqb_neq a (DME AHM_RX_EOM_INT_BEF_0))), (proj2 (Z.eqb_neq a (DME (CPB_RX_TRANSFERRED_DATA_SIZE_00 + _)))).
  - by rewrite bool_decide_eq_true_2.
  - intros ->. revert Ha. by apply (bool_decide_eq_false_1 _).
  - intros ->. revert Ha. by apply (bool_decide_eq_false_1 _).
Qed.

Lemma bridge_dme_write a v (d : bridge) : a ∈ dme_regs ->
  bridge_write a v d = with_dme (dme_chip_write a v (br_dme d)) d.
Proof.
  intros Ha. unfold bridge_write. rewrite (proj2 (Z.eqb_neq a (DME AHM_RX_EOM_INT_BEF_0))).
  - by rewrite bool_decide_eq_true_2.
  - intros ->. revert Ha. by apply (bool_decide_eq_false_1 _).
Qed.

Lemma dme_reg o : bool_decide (DME o ∈ dme_regs) = true -> DME o ∈ dme_regs.
Proof. by apply (bool_decide_eq_true_1 _). Qed.

#[local] Instance bridge_dme : DmeController.
Proof.
  pose (C := dme_chip_controller).
  refine {| attrs := λ d : @dev bridge_hw, ch_store (br_dme d);
            accessing := λ d : @dev bridge_hw, @accessing dme_hw C (br_dme d);
            accessed := λ d : @dev bridge_hw, @accessed dme_hw C (br_dme d);
            dme_latency := @dme_latency dme_hw C |}; cbv zeta; intros d; cbn [reg_read reg_write bridge_hw].
  - intros k v Hk Hv. rewrite !bridge_dme_write by by apply dme_reg.
    exact (@dme_start_write dme_hw C (br_dme d) k v Hk Hv).
  - intros k Hk. rewrite !bridge_dme_write by by apply dme_reg. exact (@dme_start_read dme_hw C (br_dme d) k Hk).
  - intros k o w Ha. rewrite !bridge_dme_read by by apply dme_reg. exact (@dme_wait dme_hw C (br_dme d) k o w Ha).
  - intros k o Ha. rewrite !bridge_dme_read by by apply dme_reg. exact (@dme_end dme_hw C (br_dme d) k o Ha).
  - intros k v Ha. rewrite bridge_dme_write, !bridge_dme_read by by apply dme_reg.
    exact (@dme_write_done dme_hw C (br_dme d) k v Ha).
  - intros k Ha. rewrite bridge_dme_write, !bridge_dme_read by by apply dme_reg.
    exact (@dme_read_done dme_hw C (br_dme d) k Ha).
Defined.
(** ** The server as the peer *)

Context (Hu8 : forall a, is_u8 (flash a)) (Hwraps : forall a, flash (a mod 2 ^ 24) = flash a).
Context (Hports : @CPORT_MAX P2 = 2) (Hfuel : (2000 < @poll_fuel P2)%nat).
Context (Hdata : @buffer_in_ram P2 build).

Definition controller : @FlashController shw flash :=
  server_controller flash BOOT_RX (spi_chip_controller flash Hu8 Hwraps).
Definition wire : @Wire shw := server_wire flash BOOT_RX.

(** The message the server has received. *)
Lemma received_line msg ms off n :
  bytes_ok msg -> 0 <= off -> 0 <= n -> off + n <= Z.of_nat (length msg) ->
  @received shw (BOOT_RX + off) n (server_receives msg ms) = sub msg off n.
Proof.
  intros Hb Ho Hn Hl. apply (@received_sub shw); [done| |done|done|done].
  intros i Hi. cbn. unfold get8. replace (BOOT_RX + Z.of_nat i - BOOT_RX) with (Z.of_nat i) by lia.
  by rewrite Nat2Z.id, (list_lookup_lookup_total_lt msg i Hi).
Qed.

(** A block request as it goes over the line. *)
Definition block_line (off n : Z) : list Z :=
  gb_packet 1 GB_BOOT_OP_GET_FIRMWARE 0 (le_split 4 off ++ le_split 4 n).

Lemma block_line_bytes off n : bytes_ok (block_line off n).
Proof.
  unfold block_line, gb_packet. rewrite !bytes_ok_app. repeat (split; [apply le_split_bytes|]). apply le_split_bytes.
Qed.

Lemma logged_answer msg : removelast (message_stores GBBOOT_CPORT msg).*2 = msg.
Proof. unfold message_stores. rewrite fmap_app, stores_at_bytes. apply removelast_last. Qed.

(** What the server makes of a block request. *)
Lemma server_block a off n ms :
  @serving shw a ms -> is_u32 off -> 4 <= n <= GB_MAX_PAYLOAD_SIZE ->
  exists ms', server_handles (block_line off n) ms = (Done 0, ms') /\
    @serving shw (a + n) ms' /\ vc_log (m_dev ms') <> [] /\
    logged_message ms' = gb_packet 1 (Z.lor GB_BOOT_OP_GET_FIRMWARE GB_TYPE_RESPONSE) GB_OP_SUCCESS
                           (flash_bytes flash a n).
Proof.
  intros Hs Hoff Hn. unfold GB_MAX_PAYLOAD_SIZE in Hn.
  set (msg := block_line off n). set (ms0 := server_receives msg ms).
  pose proof (block_line_bytes off n) as Hb. fold msg in Hb.
  assert (length msg = 16%nat) as Hl by (unfold msg, block_line, gb_packet; by rewrite !length_app, !length_le_split).
  assert (@message_type shw BOOT_RX ms0 = GB_BOOT_OP_GET_FIRMWARE) as Htype
    by (unfold message_type, ms0; by rewrite received_line by (done || lia)).
  assert (@requested shw BOOT_RX ms0 = n) as Hreq.
  { unfold requested, ms0. rewrite <- Z.add_assoc. change (GB_OPERATION_HEADER_SIZE + 4) with 12.
    rewrite received_line by (done || lia). change (sub msg 12 4) with (le_split 4 n).
    rewrite le_combine_split. apply Z.mod_small. lia. }
  assert (@serving shw a ms0) as Hs0 by (destruct Hs as [Hm Ha]; split; [by destruct Hm|done]).
  destruct (@server_answers_block P2 shw build wire flash controller GBBOOT_CPORT BOOT_RX) with (a := a) (m := ms0)
    as (ms' & E & [Hlog _] & Hs'); rewrite ?Hreq.
  - rewrite Hports. by split.
  - by rewrite Hports.
  - done.
  - unfold CPORT_BUF_SIZE, GB_OPERATION_HEADER_SIZE. lia.
  - exact Hdata.
  - change (latency) with 1%nat. pose proof (Z.div_lt_upper_bound n 4 509 ltac:(lia) ltac:(lia)).
    pose proof (Z.div_pos n 4 ltac:(lia) ltac:(lia)). lia.
  - rewrite Hreq in *. exists ms'. split; [|split; [done|]].
    { unfold server_handles. rewrite Hl. rewrite <- E. by apply handles_block. }
    unfold logged_message. cbn in Hlog. rewrite Hlog. unfold answer. split.
    { unfold message_stores. by destruct (stores_at _ _). }
    rewrite logged_answer. unfold ms0. rewrite !received_line by (done || lia). reflexivity.
Qed.
(** Sending a message: its bytes are collected, and the server handles it. *)
Lemma collected msg : forall a d,
  a + Z.of_nat (length msg) <= CPORT_TX_BUF GBBOOT_CPORT + (CPORT_TX_BUF_SIZE - 1) ->
  carry_out (stores_at a msg) d =
    Bridge (br_server d) (br_line d ++ msg) (br_inbox d) (br_pending d) (br_dme d).
Proof.
  induction msg as [|b msg IH]; intros a d Ha.
  - rewrite app_nil_r. by destruct d.
  - cbn [length] in Ha. rewrite stores_at_cons.
    transitivity (carry_out (stores_at (a + 1) msg) (bridge_write8 a b d)); [done|]. unfold bridge_write8.
    rewrite (proj2 (Z.eqb_neq a _)) by lia. rewrite IH by lia. cbn. by rewrite <- app_assoc.
Qed.

Lemma sent_message msg d :
  Z.of_nat (length msg) <= CPORT_BUF_SIZE -> br_line d = [] ->
  carry_out (message_stores GBBOOT_CPORT msg) d =
    end_of_message (Bridge (br_server d) msg (br_inbox d) (br_pending d) (br_dme d)).
Proof.
  intros Hl Hd. unfold message_stores, carry_out. rewrite foldl_app.
  change (foldl _ d (stores_at (CPORT_TX_BUF GBBOOT_CPORT) msg)) with (carry_out (stores_at (CPORT_TX_BUF GBBOOT_CPORT) msg) d).
  rewrite collected by (unfold CPORT_TX_BUF_SIZE, CPORT_BUF_SIZE in *; lia). rewrite Hd. reflexivity.
Qed.

Section serving.
Context (loc total : Z) (Htotal : is_u32 total).

Definition image (a : Z) : Z := flash (loc + a).

Lemma image_bytes_at off n : flash_bytes image off n = flash_bytes flash (loc + off) n.
Proof. unfold flash_bytes, image. apply list_eq. intros i. rewrite !list_lookup_fmap.
  destruct (decide (Z.of_nat i < n)); [rewrite !lookup_seqZ_lt by lia|by rewrite !lookup_seqZ_ge by lia].
  cbn. do 2 f_equal. lia.
Qed.

Record resting (d : bridge) (off : Z) : Prop := {
  rs_line : br_line d = [];
  rs_pending : br_pending d = false;
  rs_server : @serving shw (loc + off) (br_server d)
}.

(** The message waits in the receive buffer. *)
Record holding (d : bridge) (msg : list Z) (off : Z) : Prop := {
  hd_line : br_line d = [];
  hd_inbox : br_inbox d = msg;
  hd_server : @serving shw (loc + off) (br_server d)
}.

Lemma bridge_read_eom d : bridge_read (DME AHM_RX_EOM_INT_BEF_0) d = ((if br_pending d then EOM_BOOT else 0), d).
Proof. reflexivity. Qed.
Lemma bridge_read_eot d : bridge_read (DME AHM_RX_EOT_INT_BEF_0) d = (0, d).
Proof. reflexivity. Qed.
Lemma bridge_read_size d :
  bridge_read (DME (CPB_RX_TRANSFERRED_DATA_SIZE_00 + Z.shiftl GBBOOT_CPORT 2)) d = (Z.of_nat (length (br_inbox d)), d).
Proof. reflexivity. Qed.
Lemma bridge_write_eom v d :
  bridge_write (DME AHM_RX_EOM_INT_BEF_0) v d = Bridge (br_server d) (br_line d) (br_inbox d) false (br_dme d).
Proof. reflexivity. Qed.

#[local] Instance bridge_peer : BootPeer image total.
Proof.
  refine {| idle := resting;
            awaiting := λ (d : @dev bridge_hw) msg off w, w = 0%nat /\ br_pending d = true /\ holding d msg off;
            arrived := λ (d : @dev bridge_hw) msg off, br_pending d = false /\ holding d msg off;
            peer_latency := 0 |}; cbn [reg_read reg_write reg_write8 buf_read8 bridge_hw attrs bridge_dme].
  - intros a. apply Hu8.
  - done.
  - intros d off n [Hl Hp Hs] Hoff Hn Ht. unfold is_u32 in Htotal.
    destruct (server_block (loc + off) off n (br_server d) Hs) as (ms & E & Hs' & Hlog & Hmsg);
      [unfold is_u32; unfold GB_MAX_PAYLOAD_SIZE in Hn; lia|done|].
    exists 1, 0%nat. split; [lia|]. unfold sent. rewrite sent_message; [| |done].
    2: { unfold gb_packet. rewrite !length_app, !length_le_split. unfold CPORT_BUF_SIZE. lia. }
    fold (block_line off n). unfold end_of_message. cbn [br_server br_line br_dme]. rewrite E. cbn [snd br_pending].
    split; [done|]. split; [by rewrite bool_decide_eq_false_2|].
    split; [done|cbn [br_inbox]; by rewrite Hmsg, image_bytes_at|cbn [br_server]; by rewrite Z.add_assoc].
  - intros d msg off w a Ha (-> & Hp & []). rewrite bridge_dme_read by done. by split; [|split].
  - intros d msg off w a v Ha (-> & Hp & []). rewrite bridge_dme_write by done. by split; [|split].
  - intros d a k Ha. unfold bridge_read. rewrite (bool_decide_eq_false_2 _ Ha). by repeat case_match.
  - intros d a v k Ha. unfold bridge_write. rewrite (bool_decide_eq_false_2 _ Ha). by repeat case_match.
  - intros d a v k. unfold bridge_write8. by case_match.
  - by intros d msg off w (? & _).
  - intros d msg off (_ & Hp & Hh). rewrite bridge_read_eom, Hp. by split.
  - intros d msg off w (-> & Hp & Hh). rewrite bridge_read_eot. by split.
  - intros d msg off (_ & Hp & [Hl Hi Hs]). cbv zeta. rewrite bridge_read_size. cbn [fst snd].
    rewrite bridge_write_eom, Hi. split; [done|]. by split.
  - intros d msg off i (_ & [_ Hi _]) Hlt. rewrite Hi. f_equal. lia.
  - intros d msg off (Hp & [Hl Hi Hs]). by split.
Defined.
End serving.
(** ** The download *)

(** A size request as it goes over the line. *)
Definition size_line (stage : Z) : list Z := gb_packet 1 GB_BOOT_OP_FIRMWARE_SIZE 0 (le_split 1 stage).

Lemma size_line_bytes stage : bytes_ok (size_line stage).
Proof.
  unfold size_line, gb_packet. rewrite !bytes_ok_app. repeat (split; [apply le_split_bytes|]). apply le_split_bytes.
Qed.

Lemma table_length_u32 h : bytes_ok h -> forall slots off e,
  e ∈ fst (etable_scan slots h off) -> is_u32 (element_length e).
Proof.
  intros Hb. induction slots as [|n IH]; intros off e; cbn [etable_scan]; destruct (etable_end h <=? off); try by intros ?%not_elem_of_nil.
  destruct (element_at h off) as [e'|] eqn:Ee; [|by intros ?%not_elem_of_nil].
  destruct (element_type e' =? FFFF_ELEMENT_END); [by intros ?%not_elem_of_nil|]. cbn [fst].
  intros [->|He]%elem_of_cons; [|by eapply IH].
  unfold element_at in Ee. destruct (_ <=? _); [|done]. injection Ee as <-. cbn. by apply get32_range.
Qed.

Lemma flash_header_bytes addr : bytes_ok (flash_header flash addr).
Proof. apply Forall_forall. intros b Hb. apply list_elem_of_fmap in Hb as (x & -> & _). apply Hu8. Qed.

(** What the server makes of a size request that it answers with success. *)
Lemma server_size `{HP : !@PlatformOk P2} stage size rc ms ms' :
  is_u8 stage -> @mem_ok shw ms -> server_handles (size_line stage) ms = (Done rc, ms') ->
  @answered shw wire GBBOOT_CPORT BOOT_RX GB_OP_SUCCESS size (server_receives (size_line stage) ms) ms' ->
  exists addr i e, selected flash addr /\
    newest_of (u32 (stage - 1)) (fst (element_table (flash_header flash addr))) i e /\
    is_u32 (element_length e) /\ @serving shw (element_location e) ms' /\ vc_log (m_dev ms') <> [] /\
    logged_message ms' = gb_packet 1 (Z.lor GB_BOOT_OP_FIRMWARE_SIZE GB_TYPE_RESPONSE) GB_OP_SUCCESS
                           (le_split 4 (element_length e)).
Proof.
  intros Hst Hm E Han. set (msg := size_line stage) in *. set (ms0 := server_receives msg ms) in *.
  pose proof (size_line_bytes stage) as Hb. fold msg in Hb.
  assert (length msg = 9%nat) as Hl by (unfold msg, size_line, gb_packet; by rewrite !length_app, !length_le_split).
  assert (@message_type shw BOOT_RX ms0 = GB_BOOT_OP_FIRMWARE_SIZE) as Htype
    by (unfold message_type, ms0; by rewrite received_line by (done || lia)).
  assert (@requested_stage shw BOOT_RX ms0 = stage - 1) as Hreq.
  { unfold requested_stage, ms0. f_equal. change GB_OPERATION_HEADER_SIZE with 8.
    rewrite received_line by (done || lia). change (sub msg 8 1) with (le_split 1 stage).
    rewrite le_combine_split. by apply Z.mod_small. }
  assert (@mem_ok shw ms0) as Hm0 by by destruct Hm.
  unfold server_handles in E. fold ms0 in E. rewrite Hl in E.
  rewrite (@handles_size P2 shw build GBBOOT_CPORT BOOT_RX) in E by done.
  assert (0 <= GBBOOT_CPORT < @CPORT_MAX P2) as Hc1 by (rewrite Hports; by split).
  assert (@CPORT_MAX P2 <= 4) as Hc2 by by rewrite Hports.
  destruct (@size_answer P2 shw build wire flash controller GBBOOT_CPORT BOOT_RX Hc1 Hc2 rc ms0 ms' size HP Hm0 E Han)
    as (addr & i & e & Hsel & Hnew & -> & Hs).
  rewrite Hreq in Hnew. exists addr, i, e. split; [done|]. split; [done|]. split.
  { apply (table_length_u32 (flash_header flash addr) (flash_header_bytes addr) ELEMENT_SLOTS ELEMENTS_OFFSET).
    rewrite <- element_table_eq. exact (list_elem_of_lookup_2 _ _ _ (proj1 Hnew)). }
  split; [done|]. destruct Han as [Hlog _]. cbn in Hlog. unfold logged_message. rewrite Hlog. split.
  { unfold answer, message_stores. by destruct (stores_at _ _). }
  unfold answer. rewrite logged_answer. unfold ms0. rewrite !received_line by (done || lia). reflexivity.
Qed.
(** The boot ROM and its machine, before the size request: nothing under way on
    the line, and no mail. *)
Context (P1 : Platform) (Hports1 : @CPORT_MAX P1 = 2) (Hfuel1 : (1 < @poll_fuel P1)%nat).

Record connected (m : @machine bridge_hw) : Prop := {
  cn_mem : @mem_ok bridge_hw m;
  cn_server : @mem_ok shw (br_server (m_dev m));
  cn_listening : listening m;
  cn_offset : g_offset (m_gb m) = 0;
  cn_line : br_line (m_dev m) = [];
  cn_no_mail : no_mail (m_dev m)
}.

(** The driver has stored the size, as [data_load_greybus_init] does. *)
Definition sized (len : Z) (m : @machine bridge_hw) : @machine bridge_hw :=
  @set_gb bridge_hw (set_firmware_size len (m_gb m)) m.

(** [C3] Boot ROM and download server together: when the server answers the size
    request for a stage with success, [gbboot_firmware_size] returns the length of
    the newest element of that type on the server's flash, and a load of any range
    from the start of the element (without a block of one to three bytes) returns
    0 and leaves in the boot ROM's memory the bytes of the element as they are on
    the server's flash. *)
Theorem download_end_to_end `{HP : !@PlatformOk P2} stage size rc ms' m :
  connected m -> is_u8 stage ->
  server_handles (size_line stage) (br_server (m_dev m)) = (Done rc, ms') ->
  @answered shw wire GBBOOT_CPORT BOOT_RX GB_OP_SUCCESS size
    (server_receives (size_line stage) (br_server (m_dev m))) ms' ->
  exists addr i e m1, selected flash addr /\
    newest_of (u32 (stage - 1)) (fst (element_table (flash_header flash addr))) i e /\
    @gbboot_firmware_size P1 bridge_hw stage m = (Done (0, element_length e), m1) /\
    forall p n hash,
      (hash = true -> crypto_ready m) -> 0 <= n <= element_length e -> no_short_block n ->
      @in_bounds P1 bridge_hw p n m = true ->
      exists m', @data_load_greybus_load P1 bridge_hw p n hash (sized (element_length e) m1) = (Done 0, m') /\
        @loaded P1 bridge_hw p n hash (flash_bytes flash (element_location e) n) (sized (element_length e) m1) m'.
Proof.
  intros [Hm Hsv Hl Ho Hline Hmail] Hst E Han.
  destruct (server_size stage size rc (br_server (m_dev m)) ms' Hst Hsv E Han)
    as (addr & i & e & Hsel & Hnew & Hlen & Hs & Hlog & Hmsg).
  pose (Peer := bridge_peer (element_location e) (element_length e) Hlen).
  assert (@awaits bridge_hw bridge_dme (image (element_location e)) (element_length e) Peer
    (sent GB_BOOT_OP_FIRMWARE_SIZE (le_split 1 stage) (m_dev m))
    (gb_packet 1 (Z.lor GB_BOOT_OP_FIRMWARE_SIZE GB_TYPE_RESPONSE) GB_OP_SUCCESS (le_split 4 (element_length e)))
    0 0) as Haw.
  { split.
    - unfold sent. rewrite sent_message; [|done|done]. fold (size_line stage). unfold end_of_message.
      cbn [br_server br_line br_dme]. rewrite E. cbn [snd awaiting Peer bridge_peer br_pending].
      split; [done|]. split; [by rewrite bool_decide_eq_false_2|].
      split; [done|exact Hmsg|cbn [br_server]; by rewrite Z.add_0_r].
    - by apply (@no_mail_sent bridge_hw bridge_dme (image (element_location e)) (element_length e) Peer). }
  assert (0 < @poll_fuel P1)%nat as Hpf by lia.
  destruct (@firmware_size_run P1 bridge_hw bridge_dme (image (element_location e)) (element_length e) Peer Hports1
    Hfuel1 Hpf stage 1 0 0 m Hl Hpf Haw) as (d & E1 & Hr).
  exists addr, i, e. eexists. split; [done|]. split; [done|]. split; [exact E1|].
  intros p n hash Hc Hn Hsb Hin. set (m2 := sized _ _).
  assert (@image_eq bridge_hw m m2) as He by by split.
  destruct (@greybus_load_reads_image P1 bridge_hw bridge_dme (image (element_location e)) (element_length e) Peer
    Hports1 Hfuel1 Hpf p n hash 0 m2) as (m' & El & Hld & _).
  - by apply (mem_ok_image m).
  - intros Hh. by apply (ready_image m), Hc.
  - exact Hl.
  - exact Hr.
  - exact Ho.
  - done.
  - lia.
  - lia.
  - done.
  - done.
  - by rewrite <- (image_eq_bounds m m2 p n He).
  - exists m'. split; [done|]. by rewrite image_bytes_at, Z.add_0_r in Hld.
Qed.
End bridge.

(** ** A download *)

Module EndToEnd.
Definition platform : Platform := sim_platform Stage1 [] [].
Definition build : ServerBuild := Download.build.
Definition hw : Hardware := bridge_hw srv_flash platform build.

(** Both machines after reset, and the boot ROM with its handlers registered. *)
Definition server : @machine (shw srv_flash) := @sim_machine_at (shw srv_flash) (ServerChip (SpiChip 0 0 0 0) [] []).

Definition client : @machine hw :=
  let m := @sim_machine_at hw (Bridge srv_flash server [] [] false (DmeChip (λ _, 0) 0 0 0)) in
  @set_gb hw (set_handler_table [Some control_cport_handlers; Some gbboot_cport_handlers] (m_gb m)) m.

Definition after_size_request : @machine (shw srv_flash) :=
  snd (server_handles srv_flash platform build (size_line 2) server).

Lemma client_connected : connected srv_flash platform build client.
Proof. destruct (chip_machine_ok). by split; try (by split). Qed.

Lemma size_handled : server_handles srv_flash platform build (size_line 2) (br_server srv_flash (m_dev client)) = (Done 0, after_size_request).
Proof. apply (run_done (λ ms, server_handles srv_flash platform build (size_line 2) ms) server 0). vm_compute. reflexivity. Qed.

Lemma server_reports_size : @answered (shw srv_flash) (wire srv_flash) GBBOOT_CPORT BOOT_RX GB_OP_SUCCESS (le_split 4 0x2000)
  (server_receives srv_flash (size_line 2) (br_server srv_flash (m_dev client))) after_size_request.
Proof. apply (Download.answeredb_ok (le_split 4 0x2000)). vm_compute. reflexivity. Qed.

Lemma stage_ok : is_u8 2.
Proof. by split. Qed.
Lemma fuel_ok : (2000 < @poll_fuel platform)%nat.
Proof. apply Nat.ltb_lt. reflexivity. Qed.
Lemma client_fuel_ok : (1 < @poll_fuel platform)%nat.
Proof. apply Nat.ltb_lt. reflexivity. Qed.
Lemma data_ok : @buffer_in_ram platform build.
Proof. split_and!; discriminate. Qed.

Lemma download_end_to_end_witness :
  exists addr i e m1, selected srv_flash addr /\
    newest_of (u32 (2 - 1)) (fst (element_table (flash_header srv_flash addr))) i e /\
    @gbboot_firmware_size platform hw 2 client = (Done (0, element_length e), m1) /\
    forall p n hash,
      (hash = true -> crypto_ready client) -> 0 <= n <= element_length e -> no_short_block n ->
      @in_bounds platform hw p n client = true ->
      exists m', @data_load_greybus_load platform hw p n hash (sized srv_flash platform build (element_length e) m1) = (Done 0, m') /\
        @loaded platform hw p n hash (flash_bytes srv_flash (element_location e) n)
          (sized srv_flash platform build (element_length e) m1) m'.
Proof.
  exact (@download_end_to_end srv_flash platform build srv_flash_u8 srv_flash_wraps eq_refl fuel_ok data_ok platform
    eq_refl client_fuel_ok (sim_platform_ok Stage1) 2 (le_split 4 0x2000) 0 after_size_request client client_connected
    stage_ok size_handled server_reports_size).
Defined.
End EndToEnd.
