(* ===== verification/BootInv.v ===== *)
(** * BootInv: what every step of the boot path keeps

    [sane]: static objects have their C sizes and hold bytes, and the hash
    context has its 80 words.  [good c]: the computation [c] keeps machines sane
    whatever its outcome, and does not jump to an image.  Every operation of the
    boot path is shown to be good here, except [jump_to_image]. *)

From S2P Require Import Prelude Utils Sha256 Rsa Machine Chip Errors Crypto Loading Efuse EfuseSpec Unipro Tftf Spi Greybus GreybusLoad SpiMaster Ffff Bootrom.

Section good.
Context `{Platform, Hardware}.

Record sane (m : machine) : Prop := {
  sane_mem : mem_ok m;
  sane_sha : length (Sha256.w (c_shctx (m_crypto m))) = 80%nat
}.

Definition good {A} (c : B A) : Prop :=
  forall m, (sane m -> sane (snd (c m))) /\ (forall a, fst (c m) <> Jumped a).

Lemma good_ret {A} (a : A) : good (mret a).
Proof. by intros m. Qed.
Lemma good_bind {A C} (c : B A) (f : A -> B C) : good c -> (forall a, good (f a)) -> good (c ≫= f).
Proof.
  intros Hc Hf m. destruct (Hc m) as [H1 H2]. unfold mbind, boot_bind.
  destruct (c m) as [[a| |a| |] m1]; cbn in *; try (by split).
  - destruct (Hf a m1) as [H3 H4]. split; [by auto|done].
  - by destruct (H2 a).
Qed.
Lemma good_gets {A} (f : machine -> A) : good (gets f).
Proof. by intros m. Qed.
Lemma good_halted {A} : good (@halted machine A).
Proof. by intros m. Qed.
Lemma good_spin {A} : good (@spin machine A).
Proof. by intros m. Qed.
Lemma good_fault {A} : good (@fault machine A).
Proof. by intros m. Qed.
Lemma good_the {A} (o : option A) : good (the o).
Proof. destruct o; [apply good_ret | apply good_fault]. Qed.
Lemma good_modify f : (forall m, sane m -> sane (f m)) -> good (modify f).
Proof. intros Hf m. split; [apply Hf|done]. Qed.
Lemma good_if {A} (b : bool) (c d : B A) : good c -> good d -> good (if b then c else d).
Proof. by destruct b. Qed.
Lemma good_when b (c : B unit) : good c -> good (when b c).
Proof. destruct b; [done|intros; apply good_ret]. Qed.
Lemma good_poll {A} n (body : B (option A)) : good body -> good (poll n body).
Proof.
  intros Hb. induction n as [|n IH]; cbn [poll]; [apply good_spin|].
  apply good_bind; [done|]. intros [a|]; [apply good_ret|done].
Qed.
Lemma good_getreg32 a : good (getreg32 a).
Proof. intros m. destruct (getreg32_done a m) as (v & d & ->). split; [|done]. by intros [[] ?]. Qed.

(** A write inside an object. *)
Lemma good_write_ptr p bs : bytes_ok bs -> good (write_ptr p bs).
Proof.
  intros Hb m. unfold write_ptr. destruct (in_bounds _ _ _) eqn:Ein; [|done]. split; [|done].
  intros [Hm Hs]. split; [by apply mem_ok_write|]. unfold mem_write. by destruct p as [[] o].
Qed.
Lemma good_read_ptr p n : good (read_ptr p n).
Proof. intros m. unfold read_ptr. by destruct (in_bounds _ _ _). Qed.
End good.

Create HintDb good discriminated.
#[export] Hint Constants Opaque : good.
#[export] Hint Resolve good_ret good_gets good_halted good_spin good_fault good_the good_getreg32
  good_read_ptr frame_bytes_ok le_split_bytes : good.

(** Walk through a computation, unfolding what is not in the database. *)
Ltac head_of t := match t with ?f _ => head_of f | _ => t end.
Ltac good_step :=
  match goal with
  | |- good (_ ≫= _) => apply good_bind; [|intros ?]
  | |- good (if _ then _ else _) => apply good_if
  | |- good (when _ _) => apply good_when
  | |- good (poll _ _) => apply good_poll
  | |- good (write_ptr _ _) => apply good_write_ptr; auto with good
  | |- good (modify _) => apply good_modify; intros ? [[] ?]; split; [split|]; by cbn
  | |- good (match ?x with _ => _ end) => destruct x
  | |- good (let _ := _ in _) => cbv zeta
  | |- forall _, _ => intros ?
  | |- good ?c => let h := head_of c in unfold h
  end.
Ltac good_auto := repeat (first [solve [auto with good nocore] | good_step]).

Section devices.
Context `{Platform, Hardware}.

Lemma good_isaa_words fuel : forall o n, good (isaa_read_words fuel o n).
Proof. induction fuel; intros; cbn [isaa_read_words]; good_auto. Qed.
Lemma good_attr_access a v s p w : good (unipro_attr_access a v s p w).
Proof. good_auto. Qed.
End devices.
#[export] Hint Resolve good_isaa_words good_attr_access : good.

Section errors.
Context `{Platform, Hardware}.

Lemma good_advertise_with halt bs : (forall b, good (halt b)) -> good (advertise_with halt bs).
Proof. intros Hh. good_auto. Qed.
Lemma good_halt_at n : forall bs, good (halt_at n bs).
Proof.
  induction n as [|n IH]; intros bs; cbn [halt_at]; [auto with good|].
  apply good_bind; [good_auto|]. intros ?. apply good_bind; [by apply good_advertise_with|auto with good].
Qed.
Lemma good_halt bs : good (halt_and_catch_fire bs).
Proof. apply good_halt_at. Qed.
Lemma good_advertise bs : good (chip_advertise_boot_status bs).
Proof. apply good_advertise_with, good_halt. Qed.
End errors.
#[export] Hint Resolve good_halt good_advertise : good.

Section errors2.
Context `{Platform, Hardware}.
Lemma good_set_last_error e : good (set_last_error e).
Proof. good_auto. Qed.
Lemma good_init_last_error : good init_last_error.
Proof. good_auto. Qed.
End errors2.
#[export] Hint Resolve good_set_last_error good_init_last_error : good.

Section crypto.
Context `{Platform, Hardware}.

Lemma sane_set_shctx c cs m :
  length (Sha256.w c) = 80%nat -> sane m -> sane (set_crypto (set_shctx c cs) m).
Proof. intros Hc [[] ?]. split; [by split|]. by cbn. Qed.

Lemma good_hash_start : good hash_start.
Proof.
  intros m. unfold hash_start. cbv [mbind boot_bind gets].
  destruct (c_sha256_init_func (m_crypto m)) as [[]|]; try done. split; [|done]. intros Hs.
  apply sane_set_shctx; [|done]. destruct Hs as [_ Hs]. unfold Sha256.shs256_init. cbn [Sha256.w].
  rewrite length_app, length_replicate, length_drop. lia.
Qed.
Lemma good_hash_update bs : good (hash_update bs).
Proof.
  induction bs as [|b bs IH]; cbn [hash_update]; [auto with good|]. intros m. cbv [mbind boot_bind gets].
  destruct (c_sha256_process_func (m_crypto m)) as [[]|]; try done. cbv [modify].
  match goal with |- context [hash_update bs ?m1] => destruct (IH m1) as [H1 H2] end.
  split; [|done]. intros Hs. apply H1. apply sane_set_shctx; [|done].
  rewrite length_w_process. by destruct Hs.
Qed.
Lemma good_hash_final : good hash_final.
Proof.
  intros m. unfold hash_final. cbv [mbind boot_bind gets].
  destruct (c_sha256_hash_func (m_crypto m)) as [[]|]; try done.
  pose proof (length_w_hash (c_shctx (m_crypto m))) as Hl.
  destruct (Sha256.shs256_hash _) as [d c]. split; [|done]. intros Hs.
  apply sane_set_shctx; [|done]. apply Hl. by destruct Hs.
Qed.
Lemma good_find_rom_key keys sig : forall k, good (find_rom_key keys k sig).
Proof. induction keys; intros; cbn [find_rom_key]; good_auto. Qed.
Lemma good_find_cfg_key cfg sig n : forall k, good (find_cfg_key cfg n k sig).
Proof. induction n; intros; cbn [find_cfg_key]; good_auto. Qed.
End crypto.
#[export] Hint Resolve good_hash_start good_hash_update good_hash_final good_find_rom_key
  good_find_cfg_key : good.

Section crypto2.
Context `{Platform, Hardware}.
Lemma good_verify_signature d s : good (verify_signature d s).
Proof.
  unfold verify_signature, find_public_key. repeat (first [solve [auto with good nocore] | good_step]).
Qed.
Lemma good_crypto_init : good crypto_init.
Proof. good_auto. Qed.
End crypto2.
#[export] Hint Resolve good_verify_signature good_crypto_init : good.

Section efuse.
Context `{Platform, Hardware}.
Lemma good_hash_masked n : forall i ims mask size, good (hash_masked n i ims mask size).
Proof. induction n; intros; cbn [hash_masked]; good_auto. Qed.
Lemma good_hash_repeat n bs : good (hash_repeat n bs).
Proof. induction n; cbn [hash_repeat]; good_auto. Qed.
End efuse.
#[export] Hint Resolve good_hash_masked good_hash_repeat : good.

Section efuse2.
Context `{Platform, Hardware}.
Lemma good_sha256_concat i v n : good (sha256_concat i v n).
Proof. good_auto. Qed.
Lemma good_get_ims b n : good (tsb_get_ims b n).
Proof. unfold tsb_get_ims. good_auto. Qed.
Lemma good_es3_epuid ims : good (calculate_es3_epuid ims).
Proof. good_auto. Qed.
Lemma good_efuse_init ims0 : good (efuse_init ims0).
Proof.
  unfold efuse_init, tsb_get_ara_vid, tsb_get_ara_pid.
  repeat (first [solve [auto using good_get_ims, good_es3_epuid with good nocore] | good_step]).
Qed.
End efuse2.
#[export] Hint Resolve good_sha256_concat good_get_ims good_efuse_init : good.

Section keys.
Context `{Platform, Hardware}.
Lemma good_errk_hashes z3 vals : good (errk_hashes z3 vals).
Proof. induction vals; cbn [errk_hashes]; good_auto. Qed.
Lemma good_key_generation ims : good (key_generation ims).
Proof.
  unfold key_generation, calculate_errk, errk_prime.
  repeat (first [solve [auto using good_errk_hashes with good nocore] | good_step]).
Qed.
End keys.
#[export] Hint Resolve good_key_generation : good.

Section unipro.
Context `{Platform, Hardware}.
Lemma good_attr_writes c l : good (attr_writes c l).
Proof. induction l; cbn [attr_writes]; good_auto. Qed.
Lemma good_reset_cports l : good (reset_cports l).
Proof.
  induction l; cbn [reset_cports]; [auto with good|]. unfold tsb_unipro_reset_cport.
  repeat (first [solve [auto using good_attr_writes with good nocore] | good_step]).
Qed.
Lemma good_put_bytes bs : forall a, good (put_bytes bs a).
Proof. induction bs; intros; cbn [put_bytes]; good_auto. Qed.
End unipro.
#[export] Hint Resolve good_attr_writes good_reset_cports good_put_bytes : good.

Section spi.
Context `{Platform, Hardware}.
Lemma good_spi_frames fuel : forall c p, good (spi_frames fuel c p).
Proof. induction fuel; intros; cbn [spi_frames]; good_auto. Qed.
End spi.
#[export] Hint Resolve good_spi_frames : good.

Section spi2.
Context `{Platform, Hardware}.
Lemma good_spi_load p n h : good (data_load_spi_load p n h).
Proof. good_auto. Qed.
End spi2.
#[export] Hint Resolve good_spi_load : good.

(** ** Operations over a storage driver *)

(** A driver all of whose members are good. *)
Class GoodOps `{Hardware} (ops : data_load_ops) : Prop := {
  good_ops_init : good (ops_init ops);
  good_ops_load p n h : good (ops_load ops p n h);
  good_ops_finish v s : good (ops_finish ops v s)
}.

#[export] Instance spi_good `{Platform, Hardware} : GoodOps spi_ops.
Proof. split; intros; cbn; good_auto. Qed.

Section greybus.
Context `{Platform, Hardware}.

Lemma good_rx_store {A} a n p (k : B A) : good k -> good (bs ← rx_bytes a n; write_ptr p bs ;; k).
Proof.
  intros Hk m. unfold rx_bytes. rewrite (bind_step (gets _) _ _ _ _ eq_refl).
  apply (good_bind (write_ptr p _) (λ _, k)); [|done]. apply good_write_ptr.
  apply Forall_map, Forall_true. intros. apply u8_range.
Qed.

Lemma good_firmware_response op data len : good (gbboot_get_firmware_response op data len).
Proof.
  unfold gbboot_get_firmware_response.
  repeat (first [apply good_rx_store | solve [auto with good nocore] | good_step]).
Qed.
End greybus.
#[export] Hint Resolve good_firmware_response : good.

Section greybus2.
Context `{Platform, Hardware}.

Lemma good_handlers t type h c op : find_handler (handlers t) type = Some h -> good (h c op).
Proof.
  assert (Hall : Forall (λ th, forall c op, good (snd th c op)) (handlers t)).
  { destruct t; cbn [handlers];
      repeat (apply Forall_cons_2; [cbn [snd]; intros; good_auto|]); apply Forall_nil_2. }
  induction Hall as [|[t' h'] hs Hh _ IH]; cbn [find_handler]; [done|].
  destruct (t' =? type); [|done]. intros [= <-]. apply Hh.
Qed.

Lemma good_cport_handler c d l : good (common_cport_handler c d l).
Proof.
  unfold common_cport_handler. apply good_if; [good_auto|].
  apply good_bind; [good_auto|]. intros type. apply good_bind; [good_auto|]. intros t.
  apply good_bind; [good_auto|]. intros [t'|]; [|auto with good].
  destruct (find_handler (handlers t') type) as [h|] eqn:Eh; [by eapply good_handlers|auto with good].
Qed.

Lemma good_serve ids : good (serve_cports ids).
Proof.
  induction ids as [|i ids IH]; cbn [serve_cports]; [auto with good|].
  unfold chip_unipro_receive, receive_once.
  repeat (first [solve [auto using good_cport_handler with good nocore] | good_step]).
Qed.
Lemma good_greybus_loop : good greybus_loop.
Proof.
  unfold greybus_loop.
  repeat (first [solve [auto using good_serve with good nocore] | good_step]).
Qed.
End greybus2.
#[export] Hint Resolve good_greybus_loop : good.

Section greybus3.
Context `{Platform, Hardware}.
Lemma good_greybus_blocks h : forall n p l q k, good (greybus_blocks n p l h q k).
Proof. induction n; intros; cbn [greybus_blocks]; good_auto. Qed.
Lemma good_greybus_init : good greybus_init.
Proof. good_auto. Qed.
Lemma good_advertise_ready : good advertise_ready.
Proof. good_auto. Qed.
End greybus3.
#[export] Hint Resolve good_greybus_blocks good_greybus_init good_advertise_ready : good.

#[export] Instance greybus_good `{Platform, Hardware} : GoodOps greybus_ops.
Proof. split; intros; cbn; good_auto. Qed.
#[export] Hint Resolve good_ops_load good_ops_init good_ops_finish spi_good greybus_good : good.

Section images.
Context `{Platform, Hardware}.

Lemma good_collision_scan h s : forall n off, good (collision_scan n h s off).
Proof. induction n; intros; cbn [collision_scan]; good_auto. Qed.
#[local] Hint Resolve good_collision_scan : good.
Lemma good_valid_sections h : forall n off fl, good (valid_sections n h off fl).
Proof. induction n; intros; cbn [valid_sections]; good_auto. Qed.
Lemma good_scan_sections h : forall n off, good (scan_sections n h off).
Proof. induction n; intros; cbn [scan_sections]; good_auto. Qed.
#[local] Hint Resolve good_valid_sections good_scan_sections : good.

Context (ops : data_load_ops) `{!GoodOps ops}.

Lemma good_load_header : good (load_tftf_header ops).
Proof. good_auto. Qed.
Lemma good_discard_loop hash : forall n l, good (discard_loop ops n l hash).
Proof. induction n; intros; cbn [discard_loop]; good_auto. Qed.
#[local] Hint Resolve good_load_header good_discard_loop : good.
Lemma good_process_section s : good (process_tftf_section ops s).
Proof. good_auto. Qed.
#[local] Hint Resolve good_process_section : good.
Lemma good_load_sections : forall n off, good (load_sections ops n off).
Proof. induction n; intros; cbn [load_sections]; good_auto. Qed.
#[local] Hint Resolve good_load_sections : good.
Lemma good_load_image : good (load_tftf_image ops).
Proof. good_auto. Qed.
End images.
#[export] Hint Resolve good_load_image : good.

Section storage.
Context `{Platform, Hardware}.

Lemma good_element_scan w h e : forall n off, good (element_scan n w h e off).
Proof. induction n; intros; cbn [element_scan]; good_auto. Qed.
#[local] Hint Resolve good_element_scan : good.
Lemma good_valid_elements w h : forall n off fin, good (valid_elements n w h off fin).
Proof. induction n; intros; cbn [valid_elements]; good_auto. Qed.
Lemma good_element_search w h ty : forall n off best, good (element_search n w h ty off best).
Proof. induction n; intros; cbn [element_search]; good_auto. Qed.
#[local] Hint Resolve good_valid_elements good_element_search : good.

Lemma good_validate w h : good (validate_ffff_header w h).
Proof. unfold validate_ffff_header. generalize ELEMENT_SLOTS. intros. good_auto. Qed.
#[local] Hint Resolve good_validate : good.

Section reader.
Context (rd : ptr -> Z -> Z -> B Z) (Hrd : forall p a n, good (rd p a n)).

Lemma good_load_ffff_header w a : good (load_ffff_header rd w a).
Proof. good_auto. Qed.
#[local] Hint Resolve good_load_ffff_header : good.
Lemma good_search_second : forall n a, good (search_second n rd a).
Proof. induction n; intros; cbn [search_second]; good_auto. Qed.
#[local] Hint Resolve good_search_second : good.
Lemma good_locate_table : good (locate_ffff_table rd).
Proof.
  unfold locate_ffff_table. generalize 11%nat. intros. good_auto.
Qed.
End reader.

Lemma good_locate_element ty : good (locate_element ty).
Proof. unfold locate_element. generalize ELEMENT_SLOTS. intros. good_auto. Qed.
#[local] Hint Resolve good_locate_table good_locate_element : good.

Lemma good_locate_spi ty : good (locate_ffff_element_on_storage spi_ops ty).
Proof. unfold locate_ffff_element_on_storage. cbn [ops_read spi_ops]. good_auto. Qed.
End storage.
#[export] Hint Resolve good_locate_spi : good.

Section clear.
Context `{Platform, Hardware}.
Lemma good_clear n : forall a b, good (clear_loading_ram n a b).
Proof.
  induction n as [|n IH]; intros; cbn [clear_loading_ram]; [auto with good|].
  apply good_bind; [|intros; good_auto]. apply good_write_ptr. by repeat constructor.
Qed.
Lemma good_chip_init : good chip_init.
Proof. good_auto. Qed.
Lemma good_unipro_init : good chip_unipro_init.
Proof. good_auto. Qed.
Lemma good_boot_control : good boot_control.
Proof. good_auto. Qed.
End clear.
#[export] Hint Resolve good_clear good_chip_init good_unipro_init good_boot_control : good.
