(* ===== verification/BootSafe.v ===== *)
(** * BootSafe: how a boot ends

    From the facts of [BootInv] and the theorems about single components: the
    boot path never returns; it starts only images that [load_tftf_image]
    accepted; with the trusted-only fuse these are signed; and master secrets are
    locked before an untrusted image runs. *)

From S2P Require Import Prelude Utils Sha256 Machine Chip Errors Crypto Loading Efuse Unipro Tftf TftfValid TftfLoad Spi Greybus GreybusLoad SpiMaster Ffff Bootrom BootInv.

(** ** Device histories *)

Section history.
Context `{Hardware}.

(** [d'] comes after [d] by register accesses of the firmware. *)
Inductive dev_reach : dev -> dev -> Prop :=
| reach_refl d : dev_reach d d
| reach_read d d' a : dev_reach (snd (reg_read a d)) d' -> dev_reach d d'
| reach_write d d' a v : dev_reach (reg_write a v d) d' -> dev_reach d d'
| reach_write8 d d' a v : dev_reach (reg_write8 a v d) d' -> dev_reach d d'.

Lemma dev_reach_trans d1 d2 d3 : dev_reach d1 d2 -> dev_reach d2 d3 -> dev_reach d1 d3.
Proof.
  intros H12 H23. induction H12 as [|d d' a _ IH|d d' a v _ IH|d d' a v _ IH]; [done|..].
  - apply (reach_read d d3 a). auto.
  - apply (reach_write d d3 a v). auto.
  - apply (reach_write8 d d3 a v). auto.
Qed.

Definition reach (m m' : machine) : Prop := dev_reach (m_dev m) (m_dev m').

#[export] Instance reach_reflexive : Reflexive reach.
Proof. intros m. constructor. Qed.
#[export] Instance reach_transitive : Transitive reach.
Proof. intros m1 m2 m3. apply dev_reach_trans. Qed.

Lemma reach_getreg32 a : pres reach (getreg32 a).
Proof.
  intros m. unfold reach, getreg32. apply (reach_read _ _ a).
  destruct (reg_read a (m_dev m)). cbn. constructor.
Qed.
Lemma reach_putreg32 v a : pres reach (putreg32 v a).
Proof. intros m. apply (reach_write _ _ a v). constructor. Qed.
Lemma reach_putreg8 v a : pres reach (putreg8 v a).
Proof. intros m. apply (reach_write8 _ _ a v). constructor. Qed.

(** What no access undoes stays. *)
Lemma dev_reach_keeps (P : dev -> Prop) :
  (forall a d, P d -> P (snd (reg_read a d))) -> (forall a v d, P d -> P (reg_write a v d)) ->
  (forall a v d, P d -> P (reg_write8 a v d)) -> forall d d', dev_reach d d' -> P d -> P d'.
Proof. intros Hr Hw H8 d d' Hd. induction Hd; auto. Qed.
End history.
#[export] Hint Resolve reach_getreg32 reach_putreg32 reach_putreg8 : pres.

Ltac reach_leaf := apply pres_modify; intros ?; constructor.

Section reach_ops.
Context `{Platform, Hardware}.

Lemma reach_poll {A} n (body : B (option A)) : pres reach body -> pres reach (poll n body).
Proof. apply pres_poll; typeclasses eauto. Qed.

Lemma reach_attr_access a v s p w : pres reach (unipro_attr_access a v s p w).
Proof.
  unfold unipro_attr_access, tsb_unipro_write, tsb_unipro_read. cbv zeta. pres_auto.
  apply reach_poll. pres_auto.
Qed.
Lemma reach_attr_write a v s p : pres reach (chip_unipro_attr_write a v s p).
Proof. unfold chip_unipro_attr_write. pres_auto. apply reach_attr_access. Qed.
#[local] Hint Resolve reach_attr_write : pres.

Lemma reach_advertise_with halt bs : (forall b, pres reach (halt b)) -> pres reach (advertise_with halt bs).
Proof. intros Hh. unfold advertise_with. pres_auto; reach_leaf. Qed.
Lemma reach_halt_at n : forall bs, pres reach (halt_at n bs).
Proof.
  induction n as [|n IH]; intros bs; cbn [halt_at]; [pres_auto|].
  apply pres_bind; [typeclasses eauto|unfold merge_errno_with_boot_status, get_last_error; pres_auto|].
  intros ?. apply pres_bind; [typeclasses eauto|by apply reach_advertise_with|pres_auto].
Qed.
Lemma reach_advertise bs : pres reach (chip_advertise_boot_status bs).
Proof. apply reach_advertise_with. intros. apply reach_halt_at. Qed.

Lemma reach_attr_writes c l : pres reach (attr_writes c l).
Proof. induction l; cbn [attr_writes]; pres_auto. Qed.
Lemma reach_reset_cports l : pres reach (reset_cports l).
Proof.
  induction l as [|i l IH]; cbn [reset_cports]; [pres_auto|].
  apply pres_bind; [typeclasses eauto| |pres_auto].
  unfold tsb_unipro_reset_cport, tsb_unipro_write, tsb_unipro_read. cbv zeta.
  apply pres_if; [pres_auto|]. apply pres_bind; [typeclasses eauto|apply reach_poll; pres_auto|]. intros _.
  apply pres_bind; [typeclasses eauto|pres_auto|]. intros _.
  apply pres_bind; [typeclasses eauto|apply reach_attr_writes|]. pres_auto.
Qed.
Lemma reach_jump : pres reach jump_to_image.
Proof.
  unfold jump_to_image. apply pres_bind; [typeclasses eauto| |intros; pres_auto].
  apply pres_bind; [typeclasses eauto|apply reach_reset_cports|pres_auto].
Qed.
End reach_ops.

(** ** Launches *)

Section launch.
Context `{Platform, Hardware}.

Definition ims_lock_addr : Z := ISAA_BASE +₃₂ TSB_ISAA_DISABLE_IMS_ACCESS.
Definition cms_lock_addr : Z := ISAA_BASE +₃₂ TSB_ISAA_DISABLE_CMS_ACCESS.

(** Between the check of an image and the jump memory stays as it is; only the
    Greybus driver may store one more block, at the place of its last one. *)
Definition after_load (ops : data_load_ops) (m2 m' : machine) : Prop :=
  image_eq m' m2 \/
  ops = greybus_ops /\ exists bs, length bs = Z.to_nat (g_fw_buff_size (m_gb m2)) /\
    image_eq m' (mem_write (g_fw_buff (m_gb m2)) bs m2).

(** The jump to [a] in state [m'] follows a successful load, and for an image
    that is not secure also the two writes that lock the master secrets. *)
Definition launched (a : Z) (m' : machine) : Prop :=
  exists ops m1 m2 secure,
    (ops = spi_ops \/ ops = greybus_ops) /\ sane m1 /\
    load_tftf_image ops m1 = (Done (0, secure), m2) /\
    after_load ops m2 m' /\ a = start_location (t_header (m_tftf m')) /\
    (secure = 0 -> exists d, dev_reach (reg_write cms_lock_addr 1 (reg_write ims_lock_addr 1 d)) (m_dev m')).

(** Sane, and jumping only as [launched] says. *)
Definition boots_at {A} (c : B A) (m : machine) : Prop :=
  sane (snd (c m)) /\ (forall a, fst (c m) = Jumped a -> launched a (snd (c m))).

Lemma boots_at_bind {A C} (c : B A) (f : A -> B C) m :
  boots_at c m -> (forall x m1, c m = (Done x, m1) -> sane m1 -> boots_at (f x) m1) ->
  boots_at (c ≫= f) m.
Proof.
  intros [H1 H2] Hf. unfold boots_at, mbind, boot_bind in *.
  destruct (c m) as [[x| |a| |] m1] eqn:E; cbn in *; try (by split).
  - by apply Hf.
  - split; [done|]. intros b [= <-]. by apply H2.
Qed.

Definition boots {A} (c : B A) : Prop := forall m, sane m -> boots_at c m.

Lemma good_boots {A} (c : B A) : good c -> boots c.
Proof. intros Hc m Hm. destruct (Hc m) as [H1 H2]. split; [auto|]. intros a Ha. by destruct (H2 a). Qed.
Lemma boots_bind {A C} (c : B A) (f : A -> B C) : boots c -> (forall a, boots (f a)) -> boots (c ≫= f).
Proof.
  intros Hc Hf m Hm. apply boots_at_bind; [by apply Hc|]. intros x m1 E Hm1. by apply Hf.
Qed.
Lemma boots_if {A} (b : bool) (c d : B A) : boots c -> boots d -> boots (if b then c else d).
Proof. by destruct b. Qed.
Lemma boots_when b (c : B unit) : boots c -> boots (when b c).
Proof. destruct b; [done|intros; apply good_boots, good_ret]. Qed.

(** Inversion of a jump. *)
Lemma bind_jumped {A C} (c : B A) (f : A -> B C) m a m' :
  (c ≫= f) m = (Jumped a, m') ->
  c m = (Jumped a, m') \/ exists x m1, c m = (Done x, m1) /\ f x m1 = (Jumped a, m').
Proof. unfold mbind, boot_bind. destruct (c m) as [[] m1]; intros; simplify_eq; eauto. Qed.

Lemma good_no_jump {A} (c : B A) m a m' : good c -> c m <> (Jumped a, m').
Proof. intros Hc E. destruct (Hc m) as [_ Hn]. rewrite E in Hn. by destruct (Hn a). Qed.

Lemma jumped_run {A} (c : B A) m a : fst (c m) = Jumped a -> c m = (Jumped a, snd (c m)).
Proof. destruct (c m). by intros [= ->]. Qed.

Lemma jump_to_image_jumped m a m' :
  jump_to_image m = (Jumped a, m') ->
  only_dev m m' /\ a = start_location (t_header (m_tftf m')).
Proof.
  unfold jump_to_image. intros E.
  assert (Hg : good chip_reset_before_jump) by good_auto.
  apply bind_jumped in E as [E|([] & m1 & E1 & E)]; [by destruct (good_no_jump _ _ _ _ Hg E)|].
  apply bind_jumped in E as [E|(st & m2 & [= <- <-] & [= <- <-])]; [done|].
  split; [|done]. by apply (pres_run _ _ _ _ _ pres_reset_before_jump E1).
Qed.

Lemma rig_run m : efuse_rig_for_untrusted m =
  (Done tt, set_dev (reg_write cms_lock_addr 1 (reg_write ims_lock_addr 1 (m_dev m))) m).
Proof. by destruct m. Qed.

(** The tail of a boot: memory stays, the lock writes come first. *)
Lemma start_image_jumped secure merge st su m a m' :
  start_image secure merge st su m = (Jumped a, m') ->
  image_eq m' m /\ a = start_location (t_header (m_tftf m')) /\
  (secure = false -> dev_reach (reg_write cms_lock_addr 1 (reg_write ims_lock_addr 1 (m_dev m))) (m_dev m')).
Proof.
  unfold start_image. cbv zeta. intros E.
  apply bind_jumped in E as [E|([] & m1 & E1 & E)]; [by destruct secure|].
  assert (H1 : image_eq m1 m /\ (secure = false ->
    m_dev m1 = reg_write cms_lock_addr 1 (reg_write ims_lock_addr 1 (m_dev m)))).
  { destruct secure; cbn [negb when] in E1; [by injection E1 as <-|].
    rewrite rig_run in E1. injection E1 as <-. split; [|done]. symmetry. apply only_dev_image. by eexists. }
  clear E1. destruct H1 as [He1 Hd1].
  apply bind_jumped in E as [E|(bs & m2 & E2 & E)]; [by destruct merge|].
  assert (m2 = m1) as -> by (destruct merge; by injection E2).
  apply bind_jumped in E as [E|([] & m3 & E3 & E)]; [by destruct (good_no_jump _ _ _ _ (good_advertise _) E)|].
  pose proof (pres_run _ _ _ _ _ reach_jump E) as Hr.
  pose proof (pres_run _ _ _ _ _ (reach_advertise _) E3) as Hr3.
  apply jump_to_image_jumped in E as [Hd Ha].
  apply (pres_run _ _ _ _ _ (pres_advertise _)) in E3. split_and!; [|done|].
  - rewrite <- He1. symmetry. etrans; [by apply only_err_image|by apply only_dev_image].
  - intros Hs. rewrite <- (Hd1 Hs). exact (dev_reach_trans _ _ _ Hr3 Hr).
Qed.

Lemma sane_image m m' : image_eq m m' -> sane m -> sane m'.
Proof. intros He [Hm Hs]. split; [by eapply mem_ok_image|]. by rewrite <- (ie_crypto _ _ He). Qed.

Lemma pres_image_dev {A} (c : B A) : pres only_dev c -> pres image_eq c.
Proof. intros Hc m. apply only_dev_image, Hc. Qed.
Lemma pres_image_err {A} (c : B A) : pres only_err c -> pres image_eq c.
Proof. intros Hc m. apply only_err_image, Hc. Qed.

Lemma pres_start_image secure merge st su : pres image_eq (start_image secure merge st su).
Proof.
  unfold start_image. cbv zeta. apply pres_bind; [typeclasses eauto| |intros _].
  { apply pres_when; [typeclasses eauto|]. apply pres_image_dev.
    unfold efuse_rig_for_untrusted, tsb_disable_ims_access, tsb_disable_cms_access. pres_auto. }
  apply pres_bind; [typeclasses eauto| |intros bs].
  { apply pres_image_err. pres_auto. }
  apply pres_bind; [typeclasses eauto| |intros _].
  { apply pres_image_err. pres_auto. }
  apply pres_image_dev. unfold jump_to_image. pres_auto.
Qed.

(** A load, and what follows it. *)
Lemma boots_load {C} ops (f : Z * Z -> B C) :
  GoodOps ops ->
  (forall secure m1 m2, sane m1 -> sane m2 -> load_tftf_image ops m1 = (Done (0, secure), m2) ->
     boots_at (f (0, secure)) m2) ->
  (forall rc secure, rc <> 0 -> boots (f (rc, secure))) -> boots (load_tftf_image ops ≫= f).
Proof.
  intros Hops Hok Herr m Hm. apply boots_at_bind; [by apply good_boots; auto with good|].
  intros [rc secure] m1 E Hm1. destruct (decide (rc = 0)) as [->|Hrc]; [exact (Hok secure m m1 Hm Hm1 E)|exact (Herr rc secure Hrc m1 Hm1)].
Qed.
End launch.

Section launch2.
Context `{Platform, Hardware}.

(** Launches from the two transports, given the state after the last [finish]. *)
Lemma boots_start ops secure merge st su m1 m2 m3 :
  (ops = spi_ops \/ ops = greybus_ops) -> sane m1 -> sane m3 ->
  load_tftf_image ops m1 = (Done (0, secure), m2) -> after_load ops m2 m3 ->
  boots_at (start_image (negb (secure =? 0)) merge st su) m3.
Proof.
  intros Hops Hm1 Hm3 El Ha. split; [eapply sane_image; [apply pres_start_image|done]|].
  intros a E. apply jumped_run, start_image_jumped in E as (He & Hst & Hr).
  exists ops, m1, m2, secure. split_and!; [done|done|done| |done|].
  - destruct Ha as [Ha|(Ho & bs & Hl & Ha)]; [left; by rewrite He|right].
    split; [done|]. exists bs. split; [done|]. by rewrite He.
  - intros ->. eexists. by apply Hr.
Qed.

Lemma halt_not_done bs m x m' : halt_and_catch_fire bs m <> (Done x, m').
Proof.
  intros E. unfold halt_and_catch_fire in E. cbn [halt_at] in E.
  apply bind_done in E. destruct E as (y & m1 & _ & E).
  apply bind_done in E. by destruct E as (z & m2 & _ & E).
Qed.

(** A computation that ends in one that does not return does not return. *)
Lemma never_bind {A} (c : B A) (f : A -> B unit) :
  (forall x m, fst (f x m) <> Done tt) -> forall m, fst ((c ≫= f) m) <> Done tt.
Proof. intros Hf m. unfold mbind, boot_bind. by destruct (c m) as [[] m2]. Qed.
Lemma never_halt bs m : fst (halt_and_catch_fire bs m) <> Done tt.
Proof.
  intros E. apply (halt_not_done bs m tt (snd (halt_and_catch_fire bs m))).
  destruct (halt_and_catch_fire bs m). cbn in *. by rewrite E.
Qed.
Lemma never_download fb bs m : fst (download_image fb bs m) <> Done tt.
Proof.
  revert m. unfold download_image. cbv zeta. do 3 (apply never_bind; intros ?).
  destruct x1. do 3 (apply never_bind; intros ?). apply never_halt.
Qed.

Lemma pres_spi_finish v s : pres image_eq (data_load_spi_finish v s).
Proof.
  unfold data_load_spi_finish, add_clk_usage, tsb_clk_disable.
  apply pres_bind; [typeclasses eauto| |intros _].
  { apply pres_modify. intros m. by split. }
  apply pres_bind; [typeclasses eauto|pres_auto|]. intros n.
  apply pres_bind; [typeclasses eauto| |pres_auto]. apply pres_when; [typeclasses eauto|].
  apply pres_image_dev. pres_auto.
Qed.

Lemma boots_from_spi ty bs : boots (boot_from_spi ty bs).
Proof.
  unfold boot_from_spi. apply boots_bind; [apply good_boots; auto with good|]. intros _.
  apply boots_bind; [apply good_boots; auto with good|]. intros [rc len].
  apply boots_bind; [|intros; apply good_boots; unfold chip_clear_image_loading_ram; good_auto].
  apply boots_if; [|apply good_boots; auto with good]. cbv zeta.
  apply boots_bind; [apply good_boots; auto with good|]. intros _.
  apply boots_load; [typeclasses eauto| |].
  - intros secure m1 m2 Hm1 Hm2 El. rewrite Z.eqb_refl. cbn [when].
    apply boots_at_bind; [|intros; by apply good_boots; auto with good].
    apply boots_at_bind; [by apply good_boots; auto with good|]. intros rc' m3 E3 Hm3.
    eapply boots_start; [by left|exact Hm1|done|exact El|].
    left. symmetry. by apply (pres_run _ _ _ _ _ (pres_spi_finish true (negb (secure =? 0))) E3).
  - intros rc' secure Hrc. apply Z.eqb_neq in Hrc. rewrite Hrc. cbn [when]. apply good_boots. good_auto.
Qed.

(** [finish] over Greybus waits for one more message, which may be a block. *)
Lemma greybus_finish_after v s m rc m' :
  data_load_greybus_finish v s m = (Done rc, m') -> after_load greybus_ops m m'.
Proof.
  unfold data_load_greybus_finish. cbv zeta. intros E.
  apply bind_done in E. destruct E as (rc1 & m1 & E1 & E).
  apply bind_done in E. destruct E as ([] & m2 & E2 & E).
  apply bind_done in E. destruct E as ([] & m3 & [= <-] & [= <- <-]).
  assert (H1 : gb_frame m m1).
  { refine (pres_run _ _ _ _ _ _ E1). unfold gbboot_ready_to_boot. pres_auto. }
  assert (H2 : only_err m1 m2) by (refine (pres_run _ _ _ _ _ _ E2); pres_auto).
  apply only_err_image in H2. destruct H1 as [_ _ _ _ [Hi|(bs & Hl & _ & _ & Hi)]].
  - left. transitivity m2; [by split|]. by rewrite <- H2.
  - right. split; [done|]. exists bs. split; [done|]. transitivity m2; [by split|]. by rewrite <- H2.
Qed.

Lemma boots_download fb bs : boots (download_image fb bs).
Proof.
  unfold download_image. apply boots_bind; [apply good_boots; auto with good|]. intros rc.
  apply boots_bind; [apply good_boots; good_auto|]. intros _.
  apply boots_load; [typeclasses eauto| |].
  - intros secure m1 m2 Hm1 Hm2 El. rewrite Z.eqb_refl. cbn [when].
    apply boots_at_bind; [|intros; apply good_boots; [good_auto|done]].
    apply boots_at_bind; [by apply good_boots; auto with good|]. intros rc' m3 E3 Hm3.
    apply boots_at_bind; [apply good_boots; [good_auto|done]|]. intros [] m4 E4 Hm4.
    assert (m4 = m3) as ->.
    { destruct (rc' =? 0); cbn [negb when] in E4; [by injection E4|].
      by destruct (halt_not_done _ _ _ _ E4). }
    eapply boots_start; [by right|exact Hm1|done|exact El|]. exact (greybus_finish_after _ _ _ _ _ E3).
  - intros rc' secure Hrc. apply Z.eqb_neq in Hrc. rewrite Hrc. cbn [when]. apply good_boots. good_auto.
Qed.
End launch2.

(** ** The two stages *)

Section stages.
Context `{Platform, Hardware}.

(** Either entry point, with its stack buffers. *)
Definition is_main (main : B unit) : Prop :=
  exists ims0 ims1, main = bootrom_main_1 ims0 \/ main = bootrom_main_2 ims0 ims1.

#[local] Hint Resolve boots_from_spi boots_download : core.

Lemma boots_main_1 ims0 : boots (bootrom_main_1 ims0).
Proof.
  unfold bootrom_main_1. cbv zeta.
  repeat first [ solve [auto] | apply good_boots; solve [good_auto]
               | apply boots_bind; [|intros ?] | apply boots_when ].
Qed.

Lemma boots_main_2 ims0 ims1 : boots (bootrom_main_2 ims0 ims1).
Proof.
  unfold bootrom_main_2. cbv zeta.
  repeat first [ solve [auto] | apply good_boots; solve [good_auto]
               | apply boots_bind; [|intros ?] | apply boots_if ].
Qed.

Lemma boots_main main : is_main main -> boots main.
Proof. intros (ims0 & ims1 & [-> | ->]); [apply boots_main_1 | apply boots_main_2]. Qed.

(** Memory stays well formed: whatever flash, peer and controller do and
    however the boot ends, the static objects keep their sizes and hold bytes, and
    the hash context keeps its words. *)
Lemma boot_keeps_memory main m : is_main main -> sane m -> sane (snd (main m)).
Proof. intros Hmain Hm. by apply (boots_main main Hmain). Qed.

(** [C31] Neither stage returns from [bootrom_main] to the reset code, which has
    nothing behind the call: every run ends in the jump to an image, in the halt
    loop, waiting for hardware that never answers, or at an access outside of the
    memory the model describes ([Fault]). *)
Theorem boot_never_returns main m : is_main main -> fst (main m) <> Done tt.
Proof.
  intros (ims0 & ims1 & [-> | ->]); revert m; [unfold bootrom_main_1 | unfold bootrom_main_2]; cbv zeta;
    repeat first [exact (never_download _ _) | apply never_bind; intros ?].
Qed.

Context `{!PlatformOk, !Fuses}.

(** [C1] Verified boot.  With the trusted-only fuse, a stage jumps only into an
    image it has authenticated: the run ends with a load of an image, from [m1]
    to [m2], that was flagged secure and whose header and sections, as loaded,
    carry the signature of a trusted key in the block of one of its own
    signature sections; the jump goes to the start address in that header; and
    memory at the jump is that of [m2], except that over Greybus the block
    received last may have been received again.  A load that leaves the RAM that
    the linker leaves to images ends the run in [Fault], not in a jump. *)
Theorem verified_boot main m a m' :
  Z.testbit scr 4 = true -> is_main main -> sane m -> main m = (Jumped a, m') ->
  exists ops m1 m2 bss, (ops = spi_ops \/ ops = greybus_ops) /\
    load_tftf_image ops m1 = (Done (0, 1), m2) /\ signed_load ops bss m1 m2 /\
    a = start_location (t_header (m_tftf m')) /\ after_load ops m2 m'.
Proof.
  intros Hf Hmain Hm E. destruct (boots_main main Hmain m Hm) as [_ Hl]. rewrite E in Hl.
  destruct (Hl a eq_refl) as (ops & m1 & m2 & secure & Hops & [Hm1 Hw1] & El & Ha & Hst & _).
  assert (Hsec : secure = 1 /\ exists bss, signed_load ops bss m1 m2).
  { destruct Hops as [-> | ->];
      (assert (secure = 1) as -> by exact (trusted_only_secure _ _ _ _ Hf El)); split; try done;
      destruct (load_tftf_image_secure _ _ _ Hm1 Hw1 El) as (_ & Hs); exact Hs. }
  destruct Hsec as [-> [bss Hs]]. exists ops, m1, m2, bss. auto.
Qed.

(** Lock bits of the security block: writing 1 sets them, and nothing but a
    reset clears them. *)
Class SecretLocks := {
  ims_locked : dev -> Prop;
  cms_locked : dev -> Prop;
  lock_ims d : ims_locked (reg_write ims_lock_addr 1 d);
  lock_cms d : cms_locked (reg_write cms_lock_addr 1 d);
  locked_read a d : (ims_locked d -> ims_locked (snd (reg_read a d))) /\
                    (cms_locked d -> cms_locked (snd (reg_read a d)));
  locked_write a v d : (ims_locked d -> ims_locked (reg_write a v d)) /\
                       (cms_locked d -> cms_locked (reg_write a v d));
  locked_write8 a v d : (ims_locked d -> ims_locked (reg_write8 a v d)) /\
                        (cms_locked d -> cms_locked (reg_write8 a v d))
}.

(** [C5] The master secrets are out of reach of untrusted code: when a stage
    jumps into an image, that image was flagged secure when it was loaded, or
    access to the internal and the common master secret is locked. *)
Theorem untrusted_boot_locks_secrets `{!SecretLocks} main m a m' :
  is_main main -> sane m -> main m = (Jumped a, m') ->
  exists ops m1 m2 secure, load_tftf_image ops m1 = (Done (0, secure), m2) /\ after_load ops m2 m' /\
    (secure <> 0 \/ ims_locked (m_dev m') /\ cms_locked (m_dev m')).
Proof.
  intros Hmain Hm E. destruct (boots_main main Hmain m Hm) as [_ Hl]. rewrite E in Hl.
  destruct (Hl a eq_refl) as (ops & m1 & m2 & secure & _ & _ & El & Ha & _ & Hlock).
  exists ops, m1, m2, secure. split_and!; [done|done|].
  destruct (decide (secure = 0)) as [H0s|H0s]; [right|by left]. destruct (Hlock H0s) as [d Hd].
  split; eapply dev_reach_keeps; try exact Hd; try (intros; by first [apply locked_read | apply locked_write
    | apply locked_write8]).
  - apply locked_write, lock_ims.
  - apply lock_cms.
Qed.
End stages.
