(* ===== verification/Example.v ===== *)
(** * Example: a signed image on the simulated chip

    A small signed TFTF image in SPI flash, loaded by the model.  The key is made
    for the image: with [d] the padded digest, the modulus is a multiple of
    [d + 1] that divides [d * d - 1], so [d] is its own signature, since
    [d * d] is 1 modulo it. *)

From S2P Require Import Prelude Sha256 Rsa RsaSpec Machine Chip Sim Errors Crypto Loading Unipro Tftf TftfValid TftfLoad TftfRsa Spi.

Definition ex_code : list Z := [6; 0; 7; 7; 7; 7; 7; 7].

(** Digest of the signed part of the header and the code. *)
Definition ex_digest : list Z :=
  [56;10;7;126;10;43;243;150;93;172;19;247;226;104;69;125;160;173;193;112;94;156;28;102;152;14;220;189;170;219;60;144].

Definition ex_signature : list Z :=
  [0; 1] ++ replicate 202 0xFF ++ [0] ++ Rsa.SHA256ID ++ ex_digest.

Definition ex_name : list Z := [0x6b; 0x65; 0x79] ++ replicate 93 0.

Definition ex_key : crypto_public_key :=
  {| pk_type := 1; pk_key_name := ex_name;
     pk_key := reverse (le_split 256 (17717 * (le_combine (reverse ex_signature) + 1))) |}.

Definition ex_header : list Z :=
  sim_header 0x10000000 [(1, 8, 0x10000000, 8); (0x80, 360, 0xFFFFFFFF, 0)].

Definition ex_flash : list Z :=
  ex_header ++ ex_code ++ le_split 4 360 ++ le_split 4 1 ++ ex_name ++ ex_signature.

(** Only trusted images allowed, no key revoked. *)
Definition ex_hw : Hardware := sim_hw_with 0x10.
Definition ex_platform : Platform := sim_platform Stage1 [ex_key] [].

#[local] Existing Instances ex_hw ex_platform.

#[local] Instance ex_platform_ok : PlatformOk.
Proof.
  split.
  - constructor; [|constructor]. split; [by vm_compute|]. split; [by vm_compute|].
    apply bytes_okb_ok. by vm_compute.
  - vm_compute. lia.
  - constructor.
  - vm_compute. intuition discriminate.
  - vm_compute. intuition discriminate.
  - vm_compute. intuition discriminate.
  - vm_compute. intuition discriminate.
  - unfold apart_from_ram. cbn. lia.
Qed.

#[local] Instance ex_fuses : Fuses := {| scr := 0x10; scr_fixed := λ d, eq_refl |}.

Definition ex_start : machine := snd (crypto_init (sim_machine_with 0x10 (sim_soc ∅ ex_flash))).
Definition ex_end : machine := snd (load_tftf_image spi_ops ex_start).
Definition ex_view (m : machine) : list Z := t_header (m_tftf m).

Lemma ex_view_eq m : ex_view m = t_header (m_tftf m).
Proof. reflexivity. Qed.

(** Outcome and final header of the run, in one evaluation. *)
Lemma ex_result :
  (let r := load_tftf_image spi_ops ex_start in (fst r, ex_view (snd r))) =
  (Done (0, 1), ex_header ++ replicate 3584 0).
Proof. vm_compute. reflexivity. Qed.

Lemma ex_secure : load_tftf_image spi_ops ex_start = (Done (0, 1), ex_end).
Proof. exact (proj1 (run_done_view (load_tftf_image spi_ops) ex_start ex_view (0, 1) _ ex_result)). Qed.
Lemma ex_end_header : t_header (m_tftf ex_end) = ex_header ++ replicate 3584 0.
Proof. rewrite <- ex_view_eq. exact (proj2 (run_done_view (load_tftf_image spi_ops) ex_start ex_view (0, 1) _ ex_result)). Qed.

Lemma ex_start_ok : mem_ok ex_start.
Proof.
  split; try (split; [by vm_compute | apply bytes_okb_ok; by vm_compute]).
  intros a. unfold ram_get. change (m_ram ex_start) with (∅ : gmap Z Z). by rewrite lookup_empty.
Qed.
Lemma ex_start_sha : length (Sha256.w (c_shctx (m_crypto ex_start))) = 80%nat.
Proof. by vm_compute. Qed.

Lemma ex_sections :
  fst (section_table (ex_header ++ replicate 3584 0)) =
  [{| section_type := 1; section_class := 0; section_id := 0; section_length := 8;
      section_load_address := 0x10000000; section_expanded_length := 8 |};
   {| section_type := 0x80; section_class := 0; section_id := 0; section_length := 360;
      section_load_address := 0xFFFFFFFF; section_expanded_length := 0 |}].
Proof. vm_compute. reflexivity. Qed.

Lemma ex_plain : plain_image (ex_header ++ replicate 3584 0).
Proof.
  unfold plain_image. rewrite ex_sections. constructor; [|constructor; [|constructor]].
  - cbn. split; [reflexivity|]. unfold no_wrap, is_u32. cbn. lia.
  - reflexivity.
Qed.

(** The loaded code is the signed code. *)
Lemma secure_image_authentic_witness :
  exists bss, signed_load spi_ops bss ex_start ex_end /\
    length bss = length (fst (section_table (t_header (m_tftf ex_end)))).
Proof.
  destruct (secure_image_authentic spi_ops ex_start ex_end ex_start_ok ex_start_sha ex_secure)
    as (bss & Hs & Hl & _).
  exact (ex_intro _ bss (conj Hs Hl)).
Defined.

Lemma secure_image_in_ram_witness :
  exists bss, signed_load spi_ops bss ex_start ex_end /\
    forall i s, signed_prefix (fst (section_table (t_header (m_tftf ex_end)))) !! i = Some s ->
      bss !! i = Some (ram_read (m_ram ex_end) (section_load_address s) (section_length s)).
Proof.
  apply (secure_image_in_ram spi_ops ex_start ex_end ex_start_ok ex_start_sha ex_secure).
  rewrite ex_end_header. exact ex_plain.
Defined.

Lemma trusted_only_enforced_witness :
  exists m secure, load_tftf_image spi_ops ex_start = (Done (0, secure), m) /\ secure = 1.
Proof.
  exists ex_end, 1. split; [exact ex_secure|].
  exact (trusted_only_enforced spi_ops ex_start ex_end 1 eq_refl ex_secure).
Defined.

Lemma ex_full_size : full_size_keys.
Proof.
  intros sig pk [(k & Hk & _) _]. destruct k as [|k]; [|by destruct k].
  injection Hk as <-. vm_compute. discriminate.
Qed.

(** The RSA equation for the example image. *)
Lemma secure_image_rsa_witness :
  let h := t_header (m_tftf ex_end) in
  exists (bss : list (list Z)) (sig : list Z) pk, signed_load spi_ops bss ex_start ex_end /\
    sig ∈ signature_blocks (fst (section_table h)) bss /\
    trusted_key sig pk /\ rsa_signature (sig_signature sig) (signed_bytes h bss) (pk_key pk).
Proof. exact (secure_image_rsa spi_ops ex_start ex_end ex_full_size ex_start_ok ex_start_sha ex_secure). Defined.

(** The first sixteen bytes of the flash, read to RAM. *)
Lemma spi_load_contract_witness :
  let p := Ptr BRam 0x10000000 in
  exists bs, loaded p 16 false bs ex_start (snd (data_load_spi_load p 16 false ex_start)).
Proof.
  intros p. apply (spi_load_contract p 16 false ex_start).
  - exact ex_start_ok.
  - vm_compute. intuition discriminate.
  - left. reflexivity.
  - apply (run_done (data_load_spi_load p 16 false) ex_start 0). vm_compute. reflexivity.
Defined.

Lemma spi_short_load_fails_witness :
  let p := Ptr BRam 0x10000000 in
  data_load_spi_load p 3 false ex_start <> (Done 0, ex_start).
Proof. intros p. apply (spi_short_load_fails p 3 false ex_start ex_start). lia. Defined.

(** ** An image with a bad sentinel *)

(** No sentinel, and one section to be loaded into the stage's own data. *)
Definition bad_flash : list Z :=
  [0x58; 0x58; 0x58; 0x58] ++ drop 4 (sim_header 0 [(1, 8, 0x1002F000, 8)]) ++ ex_code.

(** The platform with no object of the program behind the image area. *)
Definition bad_platform : Platform :=
  {| boot_stage := Stage1; workram_start := 0x10000000; bootrom_data_area := 0x1002F000;
     bootrom_text_area := 0x10020000; tftf_addr := 0x1002F100; ffff_header1_addr := 0x10030400;
     ffff_header2_addr := 0x10031400; ram_lo := 0x10000000; ram_hi := 0x1002F100; public_keys := [];
     s2l_buf := []; manifest_mnfb := []; CPORT_MAX := 2; poll_fuel := 3000 |}.

Definition bad_start : @machine sim_hw :=
  snd (@crypto_init bad_platform sim_hw (@sim_machine (sim_soc ∅ bad_flash))).

Definition bad_run := @load_tftf_image bad_platform sim_hw (@spi_ops bad_platform sim_hw) bad_start.

(** A header without the TFTF sentinel is not refused: [load_tftf_header]
    returns [false], which its caller reads as success, so the sections of an
    unchecked header are loaded, here behind the memory images may use, and
    the image is accepted; only the error code records the problem. *)
Example bad_sentinel_accepted :
  take 4 bad_flash <> tftf_sentinel /\
  fst bad_run = Done (0, 0) /\
  ram_read (m_ram (snd bad_run)) 0x1002F000 8 = ex_code /\
  @chip_validate_data_load_location bad_platform 0x1002F000 8 = -1 /\
  m_errno (snd bad_run) = BRE_TFTF_SENTINEL.
Proof. split; [discriminate|]. vm_compute. intuition. Qed.

(** Where the stage's own data lies, the same load leaves the RAM of the model. *)
Example bad_load_faults :
  fst (@load_tftf_image ex_platform sim_hw (@spi_ops ex_platform sim_hw) bad_start) = Fault.
Proof. vm_compute. reflexivity. Qed.
