(* ===== verification/BootSim.v ===== *)
(** * BootSim: whole boots on the simulated chip

    A flash image with two header copies and one stage 2 element; the boot ROM
    runs from reset to the jump. *)

From S2P Require Import Prelude Utils Sha256 Rsa Machine Chip Sim Errors Crypto Loading Efuse EfuseSpec Unipro Tftf TftfValid TftfLoad Spi Greybus GreybusSim SpiMaster Ffff FfffValid Example Bootrom BootInv BootSafe.

(** Two copies of the table, and the image behind them. *)
Definition boot_flash (image : list Z) : list Z :=
  let copy := sim_ffff 1 [(FFFF_ELEMENT_STAGE_2_FW, 1, 0x1000, 0x2000, 1)] ++ replicate 3584 0 in
  copy ++ copy ++ image.

(** Transmit queues are empty; the boot selector says flash. *)
Definition boot_soc (image : list Z) : soc :=
  sim_soc {[AIO_UNIPRO_BASE + CPB_TXQUEUEEMPTY_0 := 0xFFFFFFFF]} (boot_flash image).

(** ** A device with lock bits *)

Record locked_soc := LockedSoc { lk_soc : soc; lk_ims : bool; lk_cms : bool }.

Definition locked_hw : Hardware :=
  {| dev := locked_soc;
     reg_read := λ a d, let '(v, s) := soc_read 0 a (lk_soc d) in (v, LockedSoc s (lk_ims d) (lk_cms d));
     reg_write := λ a v d,
       LockedSoc (soc_write a v (lk_soc d))
         (lk_ims d || ((a =? ims_lock_addr) && (v =? 1)))
         (lk_cms d || ((a =? cms_lock_addr) && (v =? 1)));
     reg_write8 := λ _ _ d, d;
     buf_read8 := λ _ _, 0 |}.

Lemma orb_keeps b c : Is_true b -> Is_true (b || c).
Proof. by destruct b. Qed.

#[local] Instance locked_locks : @SecretLocks locked_hw.
Proof.
  refine (@Build_SecretLocks locked_hw (λ d, Is_true (lk_ims d)) (λ d, Is_true (lk_cms d)) _ _ _ _ _).
  - intros d. cbn. by destruct (lk_ims d).
  - intros d. cbn. by destruct (lk_cms d).
  - intros a d. cbn. by destruct (soc_read 0 a (lk_soc d)).
  - intros a v d. cbn. split; apply orb_keeps.
  - done.
Defined.

(** ** An untrusted image *)

(** One code section, no signature. *)
Definition plain_tftf : list Z := sim_header 0x10000000 [(1, 8, 0x10000000, 8)] ++ ex_code.
Definition plain_platform : Platform := sim_platform Stage1 [] [].
Definition plain_machine : @machine locked_hw :=
  @sim_machine_at locked_hw (LockedSoc (boot_soc plain_tftf) false false).
Definition plain_main : @boot (@machine locked_hw) unit :=
  @bootrom_main_1 plain_platform locked_hw (replicate 35 0).

Lemma reset_sane `{Hardware} d : sane (sim_machine_at d).
Proof.
  split; [|done]. split; cbn -[replicate];
    try (split; [by rewrite length_replicate|by apply Forall_replicate]).
  intros a. unfold ram_get. by rewrite lookup_empty.
Qed.

Definition boot_view {HW : Hardware} {A} (r : outcome A * machine) : outcome A * list Z :=
  (fst r, ram_read (m_ram (snd r)) 0x10000000 8).

Lemma view_jumped {HW : Hardware} {A} (c : B A) m a x :
  boot_view (c m) = (Jumped a, x) -> c m = (Jumped a, snd (c m)).
Proof. unfold boot_view. destruct (c m). by intros [= -> _]. Qed.

(** The image is started with its bytes in place. *)
Example plain_boot : boot_view (plain_main plain_machine) = (Jumped 0x10000000, ex_code).
Proof. vm_compute. reflexivity. Qed.

Lemma plain_jumps : plain_main plain_machine = (Jumped 0x10000000, snd (plain_main plain_machine)).
Proof. exact (view_jumped plain_main plain_machine _ _ plain_boot). Qed.

Lemma plain_is_main : @is_main plain_platform locked_hw plain_main.
Proof. exists (replicate 35 0), []. left. reflexivity. Qed.

Lemma untrusted_boot_locks_secrets_witness :
  exists m', plain_main plain_machine = (Jumped 0x10000000, m') /\
  exists ops m1 m2 secure, @load_tftf_image plain_platform locked_hw ops m1 = (Done (0, secure), m2) /\
    @after_load plain_platform locked_hw ops m2 m' /\
    (secure <> 0 \/ Is_true (lk_ims (m_dev m')) /\ Is_true (lk_cms (m_dev m'))).
Proof.
  generalize plain_jumps. generalize (snd (plain_main plain_machine)). intros m' E.
  exists m'. split; [exact E|].
  exact (@untrusted_boot_locks_secrets plain_platform locked_hw locked_locks plain_main plain_machine
    0x10000000 m' plain_is_main (reset_sane _) E).
Defined.

Lemma boot_never_returns_witness : fst (plain_main plain_machine) <> Done tt.
Proof. exact (@boot_never_returns plain_platform locked_hw plain_main plain_machine plain_is_main). Defined.

(** ** A signed image, trusted images only *)

Definition signed_machine : @machine ex_hw := @sim_machine_at ex_hw (boot_soc ex_flash).
Definition signed_main : @boot (@machine ex_hw) unit := @bootrom_main_1 ex_platform ex_hw (replicate 35 0).

Lemma signed_boot : fst (signed_main signed_machine) = Jumped 0x10000000.
Proof. vm_compute. reflexivity. Qed.

Lemma signed_is_main : @is_main ex_platform ex_hw signed_main.
Proof. exists (replicate 35 0), []. left. reflexivity. Qed.

Lemma verified_boot_witness :
  exists m', signed_main signed_machine = (Jumped 0x10000000, m') /\
  exists ops m1 m2 bss, (ops = @spi_ops ex_platform ex_hw \/ ops = @greybus_ops ex_platform ex_hw) /\
    @load_tftf_image ex_platform ex_hw ops m1 = (Done (0, 1), m2) /\
    @signed_load ex_platform ex_hw ex_fuses ops bss m1 m2 /\ 0x10000000 = start_location (t_header (m_tftf m')) /\
    @after_load ex_platform ex_hw ops m2 m'.
Proof.
  generalize (jumped_run signed_main signed_machine _ signed_boot).
  generalize (snd (signed_main signed_machine)). intros m' E. exists m'. split; [exact E|].
  exact (@verified_boot ex_platform ex_hw ex_platform_ok ex_fuses signed_main signed_machine
    0x10000000 m' eq_refl signed_is_main (reset_sane _) E).
Defined.

(** ** Fallback and boot control *)

(** Work RAM from a failed attempt is cleared. *)
Lemma clear_image_ram_zeroes_witness :
  let m := set_ram {[0x10000010 := 7; 0x1002F000 := 9]} plain_machine in
  exists r, @chip_clear_image_loading_ram plain_platform locked_hw m = (Done tt, set_ram r m) /\
    ram_get r 0x10000010 = 0 /\ ram_get r 0x1002F000 = 9.
Proof.
  intros m. destruct (@clear_image_ram_zeroes plain_platform locked_hw m (sim_platform_ok Stage1)) as (r & Hr & Hx);
    [reflexivity|reflexivity|].
  exists r. split; [exact Hr|]. rewrite !Hx. split; reflexivity.
Defined.

(** Stage 1 booted a trusted image from flash; nothing forces UniPro. *)
Definition control_platform : Platform := sim_platform Stage2 [] [].
Definition control_machine : @machine sim_hw :=
  sim_machine (set_attrs {[DME_ARA_INIT_STATUS := INIT_STATUS_TRUSTED_SPI_FLASH_BOOT_FINISHED]} (boot_soc [])).

Lemma boot_control_decides_witness :
  @boot_control control_platform sim_hw control_machine =
    (Done true, snd (@boot_control control_platform sim_hw control_machine)) /\
  exists st m1 ctrl,
    @chip_get_boot_status control_platform sim_hw control_machine = (Done st, m1) /\
    @chip_unipro_attr_read control_platform sim_hw DME_ARA_BOOT_CONTROL 0 ATTR_LOCAL m1 =
      (Done (0, ctrl), snd (@boot_control control_platform sim_hw control_machine)) /\
    Z.testbit ctrl 0 = false.
Proof.
  assert (E : @boot_control control_platform sim_hw control_machine =
    (Done true, snd (@boot_control control_platform sim_hw control_machine))).
  { apply (run_done (@boot_control control_platform sim_hw) control_machine true). vm_compute. reflexivity. }
  split; [exact E|].
  destruct (@boot_control_decides control_platform sim_hw _ _ _ E) as (st & m1 & ctrl & H1 & H2 & _ & Hb).
  exists st, m1, ctrl. split; [exact H1|]. split; [exact H2|]. apply Hb. reflexivity.
Defined.
